(** * Distill: session context window and persistent memory store

    A shallow embedding of [pkg/session] (Push, budget enforcement, Context,
    the compressor cascade) and of [pkg/memory] (Store, Recall, the decay
    worker), with the properties of the specification proved or refuted
    on it.

    Conventions of the embedding.
    - Go [int] is [Z]; the quantities involved (byte lengths, token counts,
      row counts) stay far from the 64-bit bounds, and wrap-around is not
      modelled.  Go's integer division truncates: [Z.quot].
    - Go [float64] (importance, thresholds, relevance) is [Q]: exact
      rational arithmetic, without rounding, infinities or NaN.
    - a [float32] of an embedding is its IEEE-754 bit pattern
      ([math.Float32bits]), a [Z]; a byte is a [Z].
    - a Go [string] is a [string] of bytes; [len] is [String.length].
    - a timestamp is a [Z] (nanoseconds, UTC).  The code stores timestamps
      as RFC 3339 text ([time.RFC3339Nano], which drops the trailing
      zeros of the fraction) and lets SQLite compare the text: where it
      does, the comparison of the stored texts of two instants is a
      parameter, [before].  A query without [ORDER BY] returns its rows
      as SQLite reads them: in the order of insertion when it scans the
      table, in the order of the key when it goes through an index.
    - a table is the list of its rows; the substrate never fails
      (I/O errors and cancellation are outside the model) except for the
      primary-key constraint on insertion. *)

From Stdlib Require Import ZArith QArith Qminmax List String Ascii Bool Lia.
From Stdlib Require Import Permutation Sorted.
Import ListNotations.

Local Open Scope Z_scope.

(** ** Numbers *)

Definition float32 := Z.
Definition byte := Z.

Definition Qltb (x y : Q) : bool := (Qnum x * QDen y <? Qnum y * QDen x)%Z.
Definition Qleb (x y : Q) : bool := (Qnum x * QDen y <=? Qnum y * QDen x)%Z.

Definition len (s : string) : Z := Z.of_nat (String.length s).

(** ** What the sources import from elsewhere

    [pkg/math], [pkg/compress] and [pkg/types] are packages of the
    repository whose sources are not at hand; [strings] and [sort] are
    Go's standard library.  They are taken as an interface.  [sort.Slice]
    comes with its documented contract only: the result is a permutation
    of the input, ordered by [less] when [less] is a strict weak order;
    "the sort is not guaranteed to be stable". *)

Record Chunk := { chunk_ID : string; chunk_Text : string }.
Record Options := { TargetReduction : Q; MinChunkLength : Z }.

Definition strict_weak {A} (less : A -> A -> bool) : Prop :=
  (forall a b, less a b = true -> less b a = false) /\
  (forall a b c, less a b = false -> less b c = false -> less a c = false).

Class GoEnv := {
  (** [distillmath.CosineDistance] *)
  CosineDistance : list float32 -> list float32 -> Q;
  (** [Compress] of [compress.ExtractiveCompressor], its first result *)
  Compress : list Chunk -> Options -> list Chunk;
  (** [strings.TrimSpace], [strings.Fields], [strings.ToLower],
      [strings.Trim] (second argument: the cutset) *)
  TrimSpace : string -> string;
  Fields : string -> list string;
  ToLower : string -> string;
  Trim : string -> string -> string;
  (** [sort.Slice] *)
  sortSlice : forall A : Type, (A -> A -> bool) -> list A -> list A;
  sortSlice_perm : forall A less (l : list A),
      Permutation l (sortSlice A less l);
  sortSlice_sorted : forall A (less : A -> A -> bool) (l : list A),
      strict_weak less ->
      StronglySorted (fun a b => less b a = false) (sortSlice A less l)
}.

(** ** Helpers that both packages define identically *)

(** [estimateTokens]: [(len(text) + 3) / 4]. *)
Definition estimateTokens (text : string) : Z := Z.quot (len text + 3) 4.

(** [binary.LittleEndian.PutUint32]. *)
Definition putUint32 (v : Z) : list byte :=
  [ v mod 256; Z.shiftr v 8 mod 256; Z.shiftr v 16 mod 256;
    Z.shiftr v 24 mod 256 ].

(** [binary.LittleEndian.Uint32]. *)
Definition uint32 (b0 b1 b2 b3 : byte) : Z :=
  Z.lor (Z.lor b0 (Z.shiftl b1 8)) (Z.lor (Z.shiftl b2 16) (Z.shiftl b3 24)).

(** [encodeEmbedding]: [nil] for the empty slice, else four bytes a value. *)
Definition encodeEmbedding (emb : list float32) : list byte :=
  flat_map putUint32 emb.

Fixpoint decodeWords (buf : list byte) : list float32 :=
  match buf with
  | b0 :: b1 :: b2 :: b3 :: rest => uint32 b0 b1 b2 b3 :: decodeWords rest
  | _ => []
  end.

(** [decodeEmbedding]: [nil] unless the length is a positive multiple of 4. *)
Definition decodeEmbedding (buf : list byte) : list float32 :=
  let n := Z.of_nat (List.length buf) in
  if (n =? 0) || negb (Z.rem n 4 =? 0) then [] else decodeWords buf.

(** The stop words of [extractKeywords] (the same map in both packages). *)
Definition stopWords : list string :=
  [ "that"; "this"; "with"; "from"; "have"; "been"; "were"; "they";
    "their"; "which"; "would"; "there"; "about"; "could"; "other"; "into";
    "more"; "some"; "than"; "them"; "very"; "when"; "what"; "your";
    "also"; "each"; "does"; "will"; "just"; "should"; "because";
    "these" ]%string.

Definition inb (w : string) (l : list string) : bool :=
  existsb (String.eqb w) l.

(** The ids of a table are pairwise distinct (its primary key). *)
Fixpoint distinct (ids : list string) : bool :=
  match ids with
  | [] => true
  | id :: rest => negb (inb id rest) && distinct rest
  end.

(** The order of an index on a TEXT column: the order of the bytes of
    the key (collation BINARY).  A query that SQLite answers through the
    index returns its rows in that order. *)
Fixpoint insertByKey {A} (key : A -> string) (x : A) (l : list A) : list A :=
  match l with
  | [] => [x]
  | y :: rest =>
      if String.leb (key x) (key y) then x :: l
      else y :: insertByKey key x rest
  end.

Definition indexOrder {A} (key : A -> string) (l : list A) : list A :=
  fold_right (insertByKey key) [] l.

(** [strings.Join]. *)
Fixpoint Join (elems : list string) (sep : string) : string :=
  match elems with
  | [] => EmptyString
  | [w] => w
  | w :: rest => w ++ sep ++ Join rest sep
  end%string.

(** The cutset of [extractKeywords]: full stop, comma, semicolon, colon,
    exclamation and question marks, double and single quote, brackets. *)
Definition keywordCutset : string :=
  (".,;:!?" ++ String (ascii_of_nat 34) "'()[]{}")%string.

(** The loop of [extractKeywords]: [seen] is the map of words already
    taken; the result is the slice [keywords]. *)
Fixpoint keywordLoop {E : GoEnv} (words seen : list string) : list string :=
  match words with
  | [] => []
  | w :: rest =>
      let lower := ToLower (Trim w keywordCutset) in
      if (String.eqb lower EmptyString) || (len lower <? 4) || inb lower stopWords
         || inb lower seen
      then keywordLoop rest seen
      else lower :: keywordLoop rest (lower :: seen)
  end.

(** * Package session *)

Module Session.

Inductive error :=
| ErrSessionNotFound
| ErrSessionExists
| ErrOverBudget
| ErrInsertEntry.   (* "insert entry: ...": the primary key rejects the row *)

(** [CompressionLevel] and its four constants. *)
Definition LevelFull : Z := 0.
Definition LevelSummary : Z := 1.
Definition LevelSentence : Z := 2.
Definition LevelKeywords : Z := 3.

Record Config := {
  DefaultMaxTokens : Z;
  DefaultDedupThreshold : Q;
  DefaultPreserveRecent : Z
}.

Definition DefaultConfig : Config :=
  {| DefaultMaxTokens := 128000;
     DefaultDedupThreshold := (15 # 100)%Q;
     DefaultPreserveRecent := 10 |}.

(** The row of [sessions] that [loadSessionConfig] reads. *)
Record sessionConfig := {
  maxTokens : Z;
  dedupThreshold : Q;
  preserveRecent : Z
}.

(** A row of [session_entries].  [created_at] and [compressed_at] are
    written and never read by the operations below (but for the age
    string of [Context], which is left out). *)
Record Entry := {
  e_id : string;
  e_role : string;
  e_content : string;
  e_original_content : string;
  e_source : string;
  e_embedding : list byte;
  e_importance : Q;
  e_compression_level : Z;
  e_tokens : Z;
  e_seq : Z
}.

(** One session: its configuration and its rows of [session_entries] in
    the order of [ORDER BY seq ASC].  Every statement of the package
    selects by [session_id] or addresses one row by its key, so the rows
    of other sessions play no part (an id that [generateID] draws is taken
    not to be the key of a row of another session). *)
Record SessionState := {
  config : sessionConfig;
  entries : list Entry
}.

Record CreateRequest := {
  cr_SessionID : string;
  cr_MaxTokens : Z;
  cr_DedupThreshold : Q;
  cr_PreserveRecent : Z
}.

Record PushEntry := {
  pe_Role : string;
  pe_Content : string;
  pe_Source : string;
  pe_Embedding : list float32;
  pe_Importance : Q
}.

Record PushResult := {
  Accepted : Z;
  Deduplicated : Z;
  Compressed : Z;
  Evicted : Z;
  CurrentTokens : Z;
  BudgetRemaining : Z
}.

Record ContextRequest := {
  ctx_MaxTokens : Z;
  ctx_Role : string
}.

Record ContextEntry := {
  ce_ID : string;
  ce_Role : string;
  ce_Content : string;
  ce_Source : string;
  ce_Level : Z;
  ce_Tokens : Z
}.

Record ContextStats := {
  TotalEntries : Z;
  TotalTokens : Z;
  CompressionLevels : list (Z * Z);
  CompressionSavings : Z
}.

Record ContextResult := {
  ctx_Entries : list ContextEntry;
  ctx_Stats : ContextStats
}.

(** [compressCandidate]. *)
Record compressCandidate := {
  cc_id : string;
  cc_originalContent : string;
  cc_level : Z;
  cc_importance : Q;
  cc_tokens : Z
}.

(** ** Create *)

(** [Create]: [existing] are the ids of [sessions], [fresh] is what
    [generateID] returns.  The result is the id and the stored row. *)
Definition Create (cfg : Config) (existing : list string) (fresh : string)
    (req : CreateRequest) : error + (string * SessionState) :=
  let id := if String.eqb (cr_SessionID req) EmptyString then fresh
            else cr_SessionID req in
  let maxTok := if cr_MaxTokens req <=? 0 then DefaultMaxTokens cfg
                else cr_MaxTokens req in
  let threshold := if Qleb (cr_DedupThreshold req) 0 then DefaultDedupThreshold cfg
                   else cr_DedupThreshold req in
  let preserve := if cr_PreserveRecent req <=? 0 then DefaultPreserveRecent cfg
                  else cr_PreserveRecent req in
  if inb id existing then inl ErrSessionExists
  else inr (id, {| config := {| maxTokens := maxTok;
                                dedupThreshold := threshold;
                                preserveRecent := preserve |};
                   entries := [] |}).

(** ** The compressor cascade *)

(** [extractKeywords], capped at 15 words. *)
Definition extractKeywords {E : GoEnv} (text : string) : string :=
  let keywords := keywordLoop (Fields text) [] in
  let keywords := if 15 <? Z.of_nat (List.length keywords)
                  then firstn 15 keywords else keywords in
  Join keywords ", ".

Definition isTerminator (c : ascii) : bool :=
  (Ascii.eqb c "."%char) || (Ascii.eqb c "!"%char) || (Ascii.eqb c "?"%char).

(** The [range] loop of the sentence level: the byte index of the first
    terminator.  The three terminators are ASCII, so walking the runes of
    the text and walking its bytes find the same index. *)
Fixpoint firstTerminator (text : string) (i : nat) : option nat :=
  match text with
  | EmptyString => None
  | String c rest =>
      if isTerminator c then Some i else firstTerminator rest (S i)
  end.

Definition isSpaceAt (text : string) (i : nat) : bool :=
  match String.get i text with
  | Some c => Ascii.eqb c " "%char
  | None => false
  end.

(** [for cut > 0 && text[cut] != ' ' { cut-- }]. *)
Fixpoint scanSpace (text : string) (cut : nat) : nat :=
  match cut with
  | O => O
  | S below => if isSpaceAt text cut then cut else scanSpace text below
  end.

(** [compressToLevel]. *)
Definition compressToLevel {E : GoEnv} (text : string) (level : Z) : string :=
  if level =? LevelSummary then
    match Compress [ {| chunk_ID := "sess"; chunk_Text := text |} ]
                   {| TargetReduction := (2 # 10)%Q; MinChunkLength := 20 |} with
    | r :: _ => if String.eqb (chunk_Text r) EmptyString then text
                else chunk_Text r
    | [] => text
    end
  else if level =? LevelSentence then
    match firstTerminator text 0 with
    | Some i => substring 0 (i + 1) text
    | None =>
        if 50 <? len text then
          let cut := scanSpace text 50 in
          let cut := if Nat.eqb cut 0 then 50%nat else cut in
          (TrimSpace (substring 0 cut text) ++ "...")%string
        else text
    end
  else if level =? LevelKeywords then extractKeywords text
  else text.

(** ** Statements on [session_entries] *)

(** [SELECT COALESCE(SUM(tokens), 0)]. *)
Definition sumTokens (rows : list Entry) : Z :=
  fold_right (fun r acc => e_tokens r + acc) 0 rows.

(** [SELECT COALESCE(MAX(seq), 0)]. *)
Definition selectMaxSeq (rows : list Entry) : Z :=
  match rows with
  | [] => 0
  | r :: rest => fold_left Z.max (map e_seq rest) (e_seq r)
  end.

Definition hasID (id : string) (rows : list Entry) : bool :=
  existsb (fun r => String.eqb (e_id r) id) rows.

(** [DELETE FROM session_entries WHERE id = ?]. *)
Definition deleteByID (id : string) (rows : list Entry) : list Entry :=
  filter (fun r => negb (String.eqb (e_id r) id)) rows.

(** [UPDATE session_entries SET content, compression_level, tokens
    WHERE id = ?]. *)
Definition updateByID (id : string) (newContent : string) (level tokens : Z)
    (rows : list Entry) : list Entry :=
  map (fun r =>
         if String.eqb (e_id r) id then
           {| e_id := e_id r; e_role := e_role r;
              e_content := newContent;
              e_original_content := e_original_content r;
              e_source := e_source r; e_embedding := e_embedding r;
              e_importance := e_importance r;
              e_compression_level := level;
              e_tokens := tokens; e_seq := e_seq r |}
         else r) rows.

(** [isDuplicate].  A NULL and an empty blob both decode to the empty
    slice and are passed over. *)
Definition isDuplicate {E : GoEnv} (rows : list Entry) (embedding : list float32)
    (threshold : Q) : bool :=
  existsb (fun blob =>
             let existing := decodeEmbedding blob in
             if Z.of_nat (List.length existing) =? 0 then false
             else Qltb (CosineDistance embedding existing) threshold)
          (map e_embedding rows).

(** ** Budget enforcement *)

(** [sortCandidates]: [sort.Slice] with [c[i].importance < c[j].importance]. *)
Definition lessImportance (a b : compressCandidate) : bool :=
  Qltb (cc_importance a) (cc_importance b).

Definition sortCandidates {E : GoEnv} (c : list compressCandidate)
    : list compressCandidate :=
  sortSlice compressCandidate lessImportance c.

Definition candidateOf (r : Entry) : compressCandidate :=
  {| cc_id := e_id r; cc_originalContent := e_original_content r;
     cc_level := e_compression_level r; cc_importance := e_importance r;
     cc_tokens := e_tokens r |}.

(** [evictOldest]: its loop runs at most once per row; [fuel] bounds it
    and [None] is the bound hit. *)
Fixpoint evictLoop (fuel : nat) (maxTok : Z) (rows : list Entry)
    (currentTokens evicted : Z) {struct fuel} : option (Z * list Entry) :=
  if currentTokens <=? maxTok then Some (evicted, rows)
  else
    match rows with
    | [] => Some (evicted, rows)        (* no row to scan: break *)
    | oldest :: _ =>
        match fuel with
        | O => None
        | S fuel' =>
            evictLoop fuel' maxTok (deleteByID (e_id oldest) rows)
                      (currentTokens - e_tokens oldest) (evicted + 1)
        end
    end.

Definition evictOldest (cfg : sessionConfig) (rows : list Entry)
    (currentTokens : Z) : option (Z * Z * list Entry) :=
  match evictLoop (List.length rows) (maxTokens cfg) rows currentTokens 0 with
  | Some (evicted, rows') => Some (0, evicted, rows')
  | None => None
  end.

(** The loop of [enforceBudget] over the sorted candidates. *)
Fixpoint processCandidates {E : GoEnv} (maxTok : Z) (cs : list compressCandidate)
    (rows : list Entry) (currentTokens compressed evicted : Z)
    : Z * Z * list Entry :=
  match cs with
  | [] => (compressed, evicted, rows)
  | c :: rest =>
      if currentTokens <=? maxTok then (compressed, evicted, rows)
      else
        let nextLevel := cc_level c + 1 in
        if nextLevel >? LevelKeywords then
          processCandidates maxTok rest (deleteByID (cc_id c) rows)
            (currentTokens - cc_tokens c) compressed (evicted + 1)
        else
          let newContent := compressToLevel (cc_originalContent c) nextLevel in
          let newTokens := estimateTokens newContent in
          processCandidates maxTok rest
            (updateByID (cc_id c) newContent nextLevel newTokens rows)
            (currentTokens - (cc_tokens c - newTokens)) (compressed + 1) evicted
  end.

(** [enforceBudget]: (compressed, evicted) and the rows it leaves. *)
Definition enforceBudget {E : GoEnv} (cfg : sessionConfig) (rows : list Entry)
    : option (Z * Z * list Entry) :=
  let currentTokens := sumTokens rows in
  if currentTokens <=? maxTokens cfg then Some (0, 0, rows)
  else
    let totalEntries := Z.of_nat (List.length rows) in
    let limit := totalEntries - preserveRecent cfg in
    if limit <=? 0 then evictOldest cfg rows currentTokens
    else
      let candidates := map candidateOf (firstn (Z.to_nat limit) rows) in
      Some (processCandidates (maxTokens cfg) (sortCandidates candidates)
                              rows currentTokens 0 0).

(** ** Push *)

(** The loop of [Push] over the entries of the request.  [genID k] is the
    id that the [k]-th insertion of this call draws from [generateID].
    The result carries the error, if any, with the rows as the loop left
    them: each insertion is committed on its own. *)
Fixpoint pushEntries {E : GoEnv} (genID : Z -> string) (cfg : sessionConfig)
    (reqEntries : list PushEntry) (rows : list Entry)
    (maxSeq accepted deduplicated : Z)
    : option error * list Entry * Z * Z :=
  match reqEntries with
  | [] => (None, rows, accepted, deduplicated)
  | entry :: rest =>
      if String.eqb (pe_Content entry) EmptyString then
        pushEntries genID cfg rest rows maxSeq accepted deduplicated
      else
        let importance := if Qleb (pe_Importance entry) 0 then (1 # 2)%Q
                          else pe_Importance entry in
        if (0 <? Z.of_nat (List.length (pe_Embedding entry)))
           && isDuplicate rows (pe_Embedding entry) (dedupThreshold cfg)
        then pushEntries genID cfg rest rows maxSeq accepted (deduplicated + 1)
        else
          let tokens := estimateTokens (pe_Content entry) in
          if tokens >? maxTokens cfg then
            (Some ErrOverBudget, rows, accepted, deduplicated)
          else
            let maxSeq := maxSeq + 1 in
            let id := genID accepted in
            if hasID id rows then
              (Some ErrInsertEntry, rows, accepted, deduplicated)
            else
              pushEntries genID cfg rest
                (rows ++ [ {| e_id := id; e_role := pe_Role entry;
                              e_content := pe_Content entry;
                              e_original_content := pe_Content entry;
                              e_source := pe_Source entry;
                              e_embedding := encodeEmbedding (pe_Embedding entry);
                              e_importance := importance;
                              e_compression_level := 0;
                              e_tokens := tokens; e_seq := maxSeq |} ])
                maxSeq (accepted + 1) deduplicated
  end.

(** [for { c, e := enforceBudget(...); if c == 0 && e == 0 { break } }]. *)
Fixpoint enforceLoop {E : GoEnv} (fuel : nat) (cfg : sessionConfig)
    (rows : list Entry) (compressed evicted : Z)
    : option (Z * Z * list Entry) :=
  match fuel with
  | O => None
  | S fuel' =>
      match enforceBudget cfg rows with
      | None => None
      | Some (c, e, rows') =>
          if (c =? 0) && (e =? 0)
          then Some (compressed + c, evicted + e, rows')
          else enforceLoop fuel' cfg rows' (compressed + c) (evicted + e)
      end
  end.

(** [Push] on a session that exists.  [None]: the fuel of the enforcement
    loop ran out. *)
Definition Push {E : GoEnv} (fuel : nat) (genID : Z -> string) (s : SessionState)
    (reqEntries : list PushEntry) : option ((error + PushResult) * SessionState) :=
  let sess := config s in
  match pushEntries genID sess reqEntries (entries s)
                    (selectMaxSeq (entries s)) 0 0 with
  | (Some err, rows, _, _) =>
      Some (inl err, {| config := sess; entries := rows |})
  | (None, rows, accepted, deduplicated) =>
      match enforceLoop fuel sess rows 0 0 with
      | None => None
      | Some (compressed, evicted, rows') =>
          let currentTokens := sumTokens rows' in
          Some (inr {| Accepted := accepted; Deduplicated := deduplicated;
                       Compressed := compressed; Evicted := evicted;
                       CurrentTokens := currentTokens;
                       BudgetRemaining := maxTokens sess - currentTokens |},
                {| config := sess; entries := rows' |})
      end
  end.

(** ** Context *)

(** SQLite's [LENGTH] of a text: its characters before the first NUL,
    where the continuation bytes that follow a lead byte (>= 0xC0) are
    not counted. *)
Fixpoint sqlLengthFrom (s : string) (inChar : bool) : Z :=
  match s with
  | EmptyString => 0
  | String c rest =>
      let n := Z.of_nat (nat_of_ascii c) in
      if n =? 0 then 0
      else if inChar && (128 <=? n) && (n <? 192) then sqlLengthFrom rest true
      else 1 + sqlLengthFrom rest (192 <=? n)
  end.

Definition sqlLength (s : string) : Z := sqlLengthFrom s false.

(** [levels[r.level]++]. *)
Fixpoint incrLevel (level : Z) (levels : list (Z * Z)) : list (Z * Z) :=
  match levels with
  | [] => [(level, 1)]
  | (l, n) :: rest =>
      if l =? level then (l, n + 1) :: rest else (l, n) :: incrLevel level rest
  end.

(** The loop of [Context] over the selected rows. *)
Fixpoint contextWalk (reqMaxTokens : Z) (raw : list Entry) (tokenCount : Z)
    (levels : list (Z * Z)) : list ContextEntry * Z * list (Z * Z) :=
  match raw with
  | [] => ([], tokenCount, levels)
  | r :: rest =>
      if (reqMaxTokens >? 0) && (tokenCount + e_tokens r >? reqMaxTokens)
      then ([], tokenCount, levels)
      else
        let '(out, total, lv) :=
          contextWalk reqMaxTokens rest (tokenCount + e_tokens r)
                      (incrLevel (e_compression_level r) levels) in
        ({| ce_ID := e_id r; ce_Role := e_role r; ce_Content := e_content r;
            ce_Source := e_source r; ce_Level := e_compression_level r;
            ce_Tokens := e_tokens r |} :: out, total, lv)
  end.

(** [SELECT COALESCE(SUM(LENGTH(original_content)+3)/4, 0)]: the division
    applies to the sum. *)
Definition totalOriginalTokens (rows : list Entry) : Z :=
  Z.quot (fold_right (fun r acc => (sqlLength (e_original_content r) + 3) + acc)
                     0 rows) 4.

(** [Context] on a session that exists. *)
Definition Context (s : SessionState) (req : ContextRequest) : ContextResult :=
  let raw := if String.eqb (ctx_Role req) EmptyString then entries s
             else filter (fun r => String.eqb (e_role r) (ctx_Role req))
                         (entries s) in
  let '(out, tokenCount, levels) := contextWalk (ctx_MaxTokens req) raw 0 [] in
  {| ctx_Entries := out;
     ctx_Stats := {| TotalEntries := Z.of_nat (List.length out);
                     TotalTokens := tokenCount;
                     CompressionLevels := levels;
                     CompressionSavings :=
                       totalOriginalTokens (entries s) - tokenCount |} |}.

End Session.

(** * Package memory *)

Module Memory.

Inductive error :=
| ErrInvalidQuery
| ErrInsertMemory.   (* "insert memory: ...": the primary key rejects the row *)

(** [DecayLevel] and its three constants. *)
Definition DecayFull : Z := 0.
Definition DecaySummary : Z := 1.
Definition DecayKeywords : Z := 2.

(** [Config]; a [time.Duration] is a number of nanoseconds. *)
Record Config := {
  DedupThreshold : Q;
  DecayEnabled : bool;
  DecayInterval : Z;
  SummaryAge : Z;
  KeywordsAge : Z;
  EvictAge : Z
}.

Definition hour : Z := 3600000000000.

Definition DefaultConfig : Config :=
  {| DedupThreshold := (15 # 100)%Q;
     DecayEnabled := true;
     DecayInterval := 1 * hour;
     SummaryAge := 24 * hour;
     KeywordsAge := 168 * hour;
     EvictAge := 720 * hour |}.

(** A row of [memories], with the rows of [memory_tags] that point to it
    ([m_tags]: they are created with the row and cascade with it). *)
Record Row := {
  m_id : string;
  m_text : string;
  m_embedding : list byte;
  m_source : string;
  m_session_id : string;
  m_metadata : string;
  m_decay_level : Z;
  m_created_at : Z;
  m_last_referenced : Z;
  m_access_count : Z;
  m_tags : list string
}.

(** [StoreEntry]; [se_Metadata] is the metadata as [json.Marshal] renders it. *)
Record StoreEntry := {
  se_Text : string;
  se_Embedding : list float32;
  se_Source : string;
  se_Tags : list string;
  se_Metadata : string
}.

Record StoreResult := {
  Stored : Z;
  Merged : Z;
  Deduplicated : Z;
  TotalMemories : Z
}.

Record RecallRequest := {
  rq_Query : string;
  rq_QueryEmbedding : list float32;
  rq_Tags : list string;
  rq_MaxTokens : Z;
  rq_MaxResults : Z;
  rq_RecencyWeight : Q
}.

Record RecalledMemory := {
  rm_ID : string;
  rm_Text : string;
  rm_Source : string;
  rm_Tags : list string;
  rm_Relevance : Q;
  rm_DecayLevel : Z;
  rm_LastReferenced : Z
}.

Record RecallStats := {
  rs_Candidates : Z;
  rs_Deduplicated : Z;
  rs_Returned : Z;
  rs_TokenCount : Z
}.

Record RecallResult := {
  Memories : list RecalledMemory;
  Stats : RecallStats
}.

(** [scored]. *)
Record scored := {
  memory : RecalledMemory;
  relevance : Q
}.

(** ** Statements on [memories] *)

Definition hasID (id : string) (rows : list Row) : bool :=
  existsb (fun r => String.eqb (m_id r) id) rows.

(** [UPDATE memories SET last_referenced = ?, access_count =
    access_count + 1 WHERE id IN (...)]. *)
Definition touch (now : Z) (ids : list string) (rows : list Row) : list Row :=
  map (fun r =>
         if inb (m_id r) ids then
           {| m_id := m_id r; m_text := m_text r;
              m_embedding := m_embedding r; m_source := m_source r;
              m_session_id := m_session_id r; m_metadata := m_metadata r;
              m_decay_level := m_decay_level r;
              m_created_at := m_created_at r;
              m_last_referenced := now;
              m_access_count := m_access_count r + 1;
              m_tags := m_tags r |}
         else r) rows.

(** [UPDATE memories SET text = ?, decay_level = ? WHERE id = ?]. *)
Definition setTextLevel (id text : string) (level : Z) (rows : list Row)
    : list Row :=
  map (fun r =>
         if String.eqb (m_id r) id then
           {| m_id := m_id r; m_text := text;
              m_embedding := m_embedding r; m_source := m_source r;
              m_session_id := m_session_id r; m_metadata := m_metadata r;
              m_decay_level := level;
              m_created_at := m_created_at r;
              m_last_referenced := m_last_referenced r;
              m_access_count := m_access_count r;
              m_tags := m_tags r |}
         else r) rows.

(** [INSERT OR IGNORE INTO memory_tags], one tag after the other. *)
Fixpoint insertTags (tags stored : list string) : list string :=
  match tags with
  | [] => stored
  | tag :: rest =>
      insertTags rest (if inb tag stored then stored else stored ++ [tag])
  end.

(** ** Store *)

(** [findDuplicate]: the id of the first row within the threshold, the
    empty string when there is none. *)
Fixpoint findDuplicate {E : GoEnv} (cfg : Config) (rows : list Row)
    (embedding : list float32) : string :=
  match rows with
  | [] => EmptyString
  | r :: rest =>
      let existing := decodeEmbedding (m_embedding r) in
      if Z.of_nat (List.length existing) =? 0 then findDuplicate cfg rest embedding
      else if Qltb (CosineDistance embedding existing) (DedupThreshold cfg)
           then m_id r
           else findDuplicate cfg rest embedding
  end.

(** The loop of [Store].  [genID k] is the id drawn by the [k]-th
    insertion of the call, [clock i] what [time.Now] reads while the
    [i]-th entry of the request is handled. *)
Fixpoint storeEntries {E : GoEnv} (genID : Z -> string) (clock : Z -> Z)
    (cfg : Config) (sessionID : string) (reqEntries : list StoreEntry)
    (i : Z) (rows : list Row) (stored deduplicated : Z)
    : option error * list Row * Z * Z :=
  match reqEntries with
  | [] => (None, rows, stored, deduplicated)
  | entry :: rest =>
      if String.eqb (se_Text entry) EmptyString then
        storeEntries genID clock cfg sessionID rest (i + 1) rows stored deduplicated
      else
        let dupID := if 0 <? Z.of_nat (List.length (se_Embedding entry))
                     then findDuplicate cfg rows (se_Embedding entry)
                     else EmptyString in
        if negb (String.eqb dupID EmptyString) then
          storeEntries genID clock cfg sessionID rest (i + 1)
                       (touch (clock i) [dupID] rows) stored (deduplicated + 1)
        else
          let id := genID stored in
          let now := clock i in
          if hasID id rows then (Some ErrInsertMemory, rows, stored, deduplicated)
          else
            storeEntries genID clock cfg sessionID rest (i + 1)
              (rows ++ [ {| m_id := id; m_text := se_Text entry;
                            m_embedding := encodeEmbedding (se_Embedding entry);
                            m_source := se_Source entry;
                            m_session_id := sessionID;
                            m_metadata := se_Metadata entry;
                            m_decay_level := 0;
                            m_created_at := now; m_last_referenced := now;
                            m_access_count := 0;
                            m_tags := insertTags (se_Tags entry) [] |} ])
              (stored + 1) deduplicated
  end.

(** [Store]: the result or the error, and the table it leaves. *)
Definition Store {E : GoEnv} (genID : Z -> string) (clock : Z -> Z) (cfg : Config)
    (rows : list Row) (sessionID : string) (reqEntries : list StoreEntry)
    : (error + StoreResult) * list Row :=
  match storeEntries genID clock cfg sessionID reqEntries 0 rows 0 0 with
  | (Some err, rows', _, _) => (inl err, rows')
  | (None, rows', stored, deduplicated) =>
      (inr {| Stored := stored; Merged := 0; Deduplicated := deduplicated;
              TotalMemories := Z.of_nat (List.length rows') |}, rows')
  end.

(** ** Recall *)

(** [loadTags]: [SELECT tag FROM memory_tags WHERE memory_id = ?] reads
    the rows of one memory through the key (memory_id, tag) of the
    table, which yields the tags in the order of their bytes. *)
Definition loadTags (r : Row) : list string :=
  indexOrder (fun tag => tag) (m_tags r).

(** [now.Sub(lastRef).Hours()]. *)
Definition hoursSince (now lastRef : Z) : Q := (now - lastRef) # 3600000000000.

(** The body of the scoring loop of [Recall]. *)
Definition scoreRow {E : GoEnv} (req : RecallRequest) (recencyWeight : Q) (now : Z)
    (r : Row) : scored :=
  let similarity :=
    if 0 <? Z.of_nat (List.length (rq_QueryEmbedding req)) then
      let existing := decodeEmbedding (m_embedding r) in
      if 0 <? Z.of_nat (List.length existing)
      then (1 - CosineDistance (rq_QueryEmbedding req) existing)%Q
      else 0%Q
    else 0%Q in
  let age := hoursSince now (m_last_referenced r) in
  let recency := if Qltb 0 age then (1 / (1 + age / 24))%Q else 1%Q in
  let rel := ((1 - recencyWeight) * similarity + recencyWeight * recency)%Q in
  {| memory := {| rm_ID := m_id r; rm_Text := m_text r;
                  rm_Source := m_source r; rm_Tags := loadTags r;
                  rm_Relevance := rel; rm_DecayLevel := m_decay_level r;
                  rm_LastReferenced := m_last_referenced r |};
     relevance := rel |}.

(** The inner loop of [sortByRelevance]: [before] is [candidates[0..j]]
    from [j] down, [after] what has been shifted one place up. *)
Fixpoint shiftInsert (key : scored) (before after : list scored) : list scored :=
  match before with
  | [] => key :: after
  | c :: below =>
      if Qltb (relevance c) (relevance key)
      then shiftInsert key below (c :: after)
      else rev_append before (key :: after)
  end.

(** The outer loop of [sortByRelevance]: [sorted] is [candidates[0..i-1]]. *)
Fixpoint sortFrom (sorted rest : list scored) : list scored :=
  match rest with
  | [] => sorted
  | key :: rest' => sortFrom (shiftInsert key (rev sorted) []) rest'
  end.

Definition sortByRelevance (candidates : list scored) : list scored :=
  sortFrom [] candidates.

(** The loop of [Recall] that applies the two limits. *)
Fixpoint takeResults (maxResults reqMaxTokens : Z) (candidates : list scored)
    (count tokenCount : Z) : list RecalledMemory * Z :=
  match candidates with
  | [] => ([], tokenCount)
  | c :: rest =>
      if count >=? maxResults then ([], tokenCount)
      else
        let tokens := estimateTokens (rm_Text (memory c)) in
        if (reqMaxTokens >? 0) && (tokenCount + tokens >? reqMaxTokens)
        then ([], tokenCount)
        else
          let '(out, total) :=
            takeResults maxResults reqMaxTokens rest (count + 1)
                        (tokenCount + tokens) in
          (memory c :: out, total)
  end.

Definition clampWeight (w : Q) : Q :=
  let w := if Qltb w 0 then 0%Q else w in
  if Qltb 1 w then 1%Q else w.

(** The query of [Recall], which has no [ORDER BY].  Without tags it
    scans the table: every row, in the order of insertion.  With tags,
    [WHERE m.id IN (SELECT memory_id ...)] looks the ids of the subquery
    up through the key of [memories]: the rows that bear one of the tags,
    in the order of their ids. *)
Definition selectRows (rows : list Row) (req : RecallRequest) : list Row :=
  if 0 <? Z.of_nat (List.length (rq_Tags req))
  then indexOrder m_id
         (filter (fun r => existsb (fun tag => inb tag (m_tags r)) (rq_Tags req))
                 rows)
  else rows.

(** The candidates of [Recall]: the selected rows, scored. *)
Definition recallCandidates {E : GoEnv} (now : Z) (rows : list Row)
    (req : RecallRequest) : list scored :=
  map (scoreRow req (clampWeight (rq_RecencyWeight req)) now)
      (selectRows rows req).

(** [Recall]; [now] is read before scoring, [touchNow] by [touchMemories]. *)
Definition Recall {E : GoEnv} (now touchNow : Z) (rows : list Row)
    (req : RecallRequest) : (error + RecallResult) * list Row :=
  if String.eqb (rq_Query req) EmptyString
     && (Z.of_nat (List.length (rq_QueryEmbedding req)) =? 0)
  then (inl ErrInvalidQuery, rows)
  else
    let maxResults := if rq_MaxResults req <=? 0 then 10 else rq_MaxResults req in
    let candidates := sortByRelevance (recallCandidates now rows req) in
    let '(results, tokenCount) :=
      takeResults maxResults (rq_MaxTokens req) candidates 0 0 in
    let rows' := if 0 <? Z.of_nat (List.length results)
                 then touch touchNow (map rm_ID results) rows else rows in
    (inr {| Memories := results;
            Stats := {| rs_Candidates := Z.of_nat (List.length candidates);
                        rs_Deduplicated := Z.of_nat (List.length candidates)
                                           - Z.of_nat (List.length results);
                        rs_Returned := Z.of_nat (List.length results);
                        rs_TokenCount := tokenCount |} |}, rows').

(** ** The decay worker *)

(** [extractSummary]. *)
Definition extractSummary {E : GoEnv} (text : string) : string :=
  match Compress [ {| chunk_ID := "decay"; chunk_Text := text |} ]
                 {| TargetReduction := (2 # 10)%Q; MinChunkLength := 20 |} with
  | r :: _ => if String.eqb (chunk_Text r) EmptyString then text
              else chunk_Text r
  | [] => text
  end.

(** [extractKeywords], capped at 20 words. *)
Definition extractKeywords {E : GoEnv} (text : string) : string :=
  let keywords := keywordLoop (Fields text) [] in
  let keywords := if 20 <? Z.of_nat (List.length keywords)
                  then firstn 20 keywords else keywords in
  Join keywords ", ".

(** The worker gives SQLite the cutoff as text,
    [now.Add(-age).Format(time.RFC3339Nano)], and [last_referenced < ?]
    compares it with the text that was stored.  [before a b] says that
    the stored text of the instant [a] sorts before that of [b]; a
    cutoff is kept as its instant. *)

(** [decayRows]: select, then update row by row. *)
Definition decayRows (before : Z -> Z -> bool) (cutoff fromLevel toLevel : Z)
    (transform : string -> string) (rows : list Row) : list Row :=
  let selected :=
    filter (fun r => before (m_last_referenced r) cutoff
                     && (m_decay_level r =? fromLevel)) rows in
  fold_left (fun table e => setTextLevel (m_id e) (transform (m_text e))
                                         toLevel table)
            selected rows.

(** [DELETE FROM memories WHERE last_referenced < ? AND decay_level >= ?]. *)
Definition evictRows (before : Z -> Z -> bool) (evictBefore : Z)
    (rows : list Row) : list Row :=
  filter (fun r => negb (before (m_last_referenced r) evictBefore
                         && (m_decay_level r >=? DecayKeywords))) rows.

(** [runOnce]; [now] is what [time.Now] reads at the start of the pass. *)
Definition runOnce {E : GoEnv} (before : Z -> Z -> bool) (cfg : Config)
    (now : Z) (rows : list Row) : list Row :=
  let rows := if EvictAge cfg >? 0
              then evictRows before (now - EvictAge cfg) rows
              else rows in
  let rows := if KeywordsAge cfg >? 0
              then decayRows before (now - KeywordsAge cfg)
                             DecaySummary DecayKeywords extractKeywords rows
              else rows in
  let rows := if SummaryAge cfg >? 0
              then decayRows before (now - SummaryAge cfg)
                             DecayFull DecaySummary extractSummary rows
              else rows in
  rows.

End Memory.

(** * The session store as a whole

    [Get], [Delete] and the lookups that open [Push] and [Context] work on
    the table [sessions].  A row of [sessions] is kept with the rows of
    [session_entries] that point to it: they are inserted under its id
    and cascade with it ([ON DELETE CASCADE], foreign keys being on).
    The key of [session_entries] is the entry id alone, so an insertion
    also fails on the id of a row of another session. *)

Module SessionStore.
Import Session.

(** ** Ids *)

Definition hextable : string := "0123456789abcdef".

Definition hexDigit (n : Z) : ascii :=
  match String.get (Z.to_nat n) hextable with
  | Some c => c
  | None => "0"%char
  end.

(** [hex.EncodeToString]: two digits a byte, the high one first. *)
Fixpoint EncodeToString (src : list byte) : string :=
  match src with
  | [] => EmptyString
  | v :: rest =>
      String (hexDigit (Z.shiftr v 4))
             (String (hexDigit (Z.land v 15)) (EncodeToString rest))
  end.

(** [generateID]: [unix] is [time.Now().Unix()], [random] the eight bytes
    that [rand.Read] leaves in [b[4:]]. *)
Definition generateID (unix : Z) (random : list byte) : string :=
  let ts := unix mod 2 ^ 32 in
  EncodeToString
    ([ Z.shiftr ts 24 mod 256; Z.shiftr ts 16 mod 256; Z.shiftr ts 8 mod 256;
       ts mod 256 ]
     ++ map (fun v => v mod 256) (firstn 8 (random ++ repeat 0 8))).

(** ** The tables *)

Record SessionRow := {
  s_id : string;
  s_created_at : Z;
  s_updated_at : Z;
  s_state : SessionState
}.

Definition DB := list SessionRow.

(** Go's [Session], the answer of [Create] and [Get]. *)
Record SessionInfo := {
  si_ID : string;
  si_MaxTokens : Z;
  si_CurrentTokens : Z;
  si_EntryCount : Z;
  si_CreatedAt : Z;
  si_UpdatedAt : Z
}.

Record DeleteResult := {
  dr_SessionID : string;
  dr_EntriesRemoved : Z
}.

(** [SELECT ... FROM sessions WHERE id = ?]. *)
Definition selectSession (db : DB) (sessionID : string) : option SessionRow :=
  find (fun s => String.eqb (s_id s) sessionID) db.

(** The rows of [session_entries] of one session, by [seq]. *)
Definition entriesOf (db : DB) (sessionID : string) : list Entry :=
  match selectSession db sessionID with
  | Some s => entries (s_state s)
  | None => []
  end.

(** The ids of the rows of [session_entries] of the other sessions. *)
Definition foreignIDs (db : DB) (sessionID : string) : list string :=
  flat_map (fun s => if String.eqb (s_id s) sessionID then []
                     else map e_id (entries (s_state s))) db.

(** The rows of one session, rewritten. *)
Definition writeSession (sessionID : string) (f : SessionRow -> SessionRow)
    (db : DB) : DB :=
  map (fun s => if String.eqb (s_id s) sessionID then f s else s) db.

(** ** Create, Get, Delete *)

(** [Create]: [fresh] is what [generateID] returns, [now] what
    [time.Now] reads. *)
Definition Create (cfg : Config) (fresh : string) (now : Z) (db : DB)
    (req : CreateRequest) : (error + SessionInfo) * DB :=
  match Session.Create cfg (map s_id db) fresh req with
  | inl err => (inl err, db)
  | inr (id, s) =>
      (inr {| si_ID := id; si_MaxTokens := maxTokens (config s);
              si_CurrentTokens := 0; si_EntryCount := 0;
              si_CreatedAt := now; si_UpdatedAt := now |},
       db ++ [ {| s_id := id; s_created_at := now; s_updated_at := now;
                  s_state := s |} ])
  end.

(** [loadSessionConfig]. *)
Definition loadSessionConfig (db : DB) (sessionID : string)
    : error + sessionConfig :=
  match selectSession db sessionID with
  | Some s => inr (config (s_state s))
  | None => inl ErrSessionNotFound
  end.

(** [Get]. *)
Definition Get (db : DB) (sessionID : string) : error + SessionInfo :=
  match selectSession db sessionID with
  | None => inl ErrSessionNotFound
  | Some s =>
      inr {| si_ID := s_id s; si_MaxTokens := maxTokens (config (s_state s));
             si_CurrentTokens := sumTokens (entriesOf db sessionID);
             si_EntryCount := Z.of_nat (List.length (entriesOf db sessionID));
             si_CreatedAt := s_created_at s; si_UpdatedAt := s_updated_at s |}
  end.

(** [Delete]: the entries are counted, then the row of [sessions] goes,
    and its entries with it. *)
Definition Delete (db : DB) (sessionID : string)
    : (error + DeleteResult) * DB :=
  let count := Z.of_nat (List.length (entriesOf db sessionID)) in
  let db' := filter (fun s => negb (String.eqb (s_id s) sessionID)) db in
  let affected := Z.of_nat (List.length db) - Z.of_nat (List.length db') in
  if affected =? 0 then (inl ErrSessionNotFound, db')
  else (inr {| dr_SessionID := sessionID; dr_EntriesRemoved := count |}, db').

(** ** Push and Context by session id *)

(** The loop of [Push] as [Session.pushEntries] has it, with the key of
    [session_entries] checked against the rows of every session:
    [taken] are the ids of the rows of the other sessions. *)
Fixpoint pushEntriesIn {E : GoEnv} (taken : list string) (genID : Z -> string)
    (cfg : sessionConfig) (reqEntries : list PushEntry) (rows : list Entry)
    (maxSeq accepted deduplicated : Z)
    : option error * list Entry * Z * Z :=
  match reqEntries with
  | [] => (None, rows, accepted, deduplicated)
  | entry :: rest =>
      if String.eqb (pe_Content entry) EmptyString then
        pushEntriesIn taken genID cfg rest rows maxSeq accepted deduplicated
      else
        let importance := if Qleb (pe_Importance entry) 0 then (1 # 2)%Q
                          else pe_Importance entry in
        if (0 <? Z.of_nat (List.length (pe_Embedding entry)))
           && isDuplicate rows (pe_Embedding entry) (dedupThreshold cfg)
        then pushEntriesIn taken genID cfg rest rows maxSeq accepted
                           (deduplicated + 1)
        else
          let tokens := estimateTokens (pe_Content entry) in
          if tokens >? maxTokens cfg then
            (Some ErrOverBudget, rows, accepted, deduplicated)
          else
            let maxSeq := maxSeq + 1 in
            let id := genID accepted in
            if hasID id rows || inb id taken then
              (Some ErrInsertEntry, rows, accepted, deduplicated)
            else
              pushEntriesIn taken genID cfg rest
                (rows ++ [ {| e_id := id; e_role := pe_Role entry;
                              e_content := pe_Content entry;
                              e_original_content := pe_Content entry;
                              e_source := pe_Source entry;
                              e_embedding := encodeEmbedding (pe_Embedding entry);
                              e_importance := importance;
                              e_compression_level := 0;
                              e_tokens := tokens; e_seq := maxSeq |} ])
                maxSeq (accepted + 1) deduplicated
  end.

(** [Push]; [now] is what [time.Now] reads for [updated_at].  [None]:
    the fuel of the enforcement loop ran out. *)
Definition Push {E : GoEnv} (fuel : nat) (genID : Z -> string) (now : Z)
    (db : DB) (sessionID : string) (reqEntries : list PushEntry)
    : option ((error + PushResult) * DB) :=
  match loadSessionConfig db sessionID with
  | inl err => Some (inl err, db)
  | inr sess =>
      let rows := entriesOf db sessionID in
      let store rows' s :=
        {| s_id := s_id s; s_created_at := s_created_at s;
           s_updated_at := s_updated_at s;
           s_state := {| config := config (s_state s); entries := rows' |} |} in
      match pushEntriesIn (foreignIDs db sessionID) genID sess reqEntries rows
                          (selectMaxSeq rows) 0 0 with
      | (Some err, rows', _, _) =>
          Some (inl err, writeSession sessionID (store rows') db)
      | (None, rows', accepted, deduplicated) =>
          match enforceLoop fuel sess rows' 0 0 with
          | None => None
          | Some (compressed, evicted, rows'') =>
              let currentTokens := sumTokens rows'' in
              Some (inr {| Accepted := accepted; Deduplicated := deduplicated;
                           Compressed := compressed; Evicted := evicted;
                           CurrentTokens := currentTokens;
                           BudgetRemaining := maxTokens sess - currentTokens |},
                    writeSession sessionID
                      (fun s =>
                         {| s_id := s_id s; s_created_at := s_created_at s;
                            s_updated_at := now;
                            s_state := {| config := config (s_state s);
                                          entries := rows'' |} |}) db)
          end
      end
  end.

(** [Context]. *)
Definition Context (db : DB) (sessionID : string) (req : ContextRequest)
    : error + ContextResult :=
  match selectSession db sessionID with
  | None => inl ErrSessionNotFound
  | Some s => inr (Session.Context (s_state s) req)
  end.

End SessionStore.

(** * The rest of the memory store: Forget and Stats *)

Module MemoryStore.
Import Memory.

(** The zero [time.Time], January 1 of year 1, in nanoseconds from the
    Unix epoch. *)
Definition zeroTime : Z := -62135596800 * 1000000000.

Definition IsZero (t : Z) : bool := t =? zeroTime.

Record ForgetRequest := {
  fr_IDs : list string;
  fr_Tags : list string;
  fr_OlderThan : Z
}.

Record ForgetResult := {
  fg_Removed : Z;
  fg_TotalMemories : Z
}.

(** Where [Forget] and [Stats] let SQLite order [created_at], it
    orders the text that the code stored.  [Format(time.RFC3339Nano)]
    drops the trailing zeros of the fraction of a second, so that the
    texts order as the instants do only where they have the same number
    of digits.  The comparison of the stored texts of two instants is
    therefore the parameter [before] of these definitions. *)
Section Ordered.
Variable before : Z -> Z -> bool.

(** The conditions of [Forget], joined by [AND]; a criterion that the
    request leaves empty adds none. *)
Definition forgetMatches (req : ForgetRequest) (r : Row) : bool :=
  (if 0 <? Z.of_nat (List.length (fr_IDs req))
   then inb (m_id r) (fr_IDs req) else true)
  && (if 0 <? Z.of_nat (List.length (fr_Tags req))
      then existsb (fun tag => inb tag (m_tags r)) (fr_Tags req) else true)
  && (if negb (IsZero (fr_OlderThan req))
      then before (m_created_at r) (fr_OlderThan req) else true).

(** [Forget]. *)
Definition Forget (rows : list Row) (req : ForgetRequest)
    : ForgetResult * list Row :=
  if (Z.of_nat (List.length (fr_IDs req)) =? 0)
     && (Z.of_nat (List.length (fr_Tags req)) =? 0)
     && IsZero (fr_OlderThan req)
  then ({| fg_Removed := 0; fg_TotalMemories := 0 |}, rows)
  else
    let rows' := filter (fun r => negb (forgetMatches req r)) rows in
    ({| fg_Removed := Z.of_nat (List.length rows)
                      - Z.of_nat (List.length rows');
        fg_TotalMemories := Z.of_nat (List.length rows') |}, rows').

(** Go's [Stats]; the two maps are lists of a key and its count. *)
Record StoreStats := {
  st_TotalMemories : Z;
  st_ByDecayLevel : list (Z * Z);
  st_BySource : list (string * Z);
  st_OldestMemory : Z;
  st_NewestMemory : Z
}.

(** [SELECT key, COUNT ... GROUP BY key], then [m[key] = count] row by
    row: one entry a key. *)
Fixpoint countLevel (level : Z) (counts : list (Z * Z)) : list (Z * Z) :=
  match counts with
  | [] => [(level, 1)]
  | (l, n) :: rest =>
      if l =? level then (l, n + 1) :: rest else (l, n) :: countLevel level rest
  end.

Fixpoint countSource (source : string) (counts : list (string * Z))
    : list (string * Z) :=
  match counts with
  | [] => [(source, 1)]
  | (s, n) :: rest =>
      if String.eqb s source then (s, n + 1) :: rest
      else (s, n) :: countSource source rest
  end.

(** [SELECT MIN(created_at)] and [SELECT MAX(created_at)]: NULL on the
    empty table, which leaves the zero time. *)
Definition oldest (rows : list Row) : Z :=
  match rows with
  | [] => zeroTime
  | r :: rest =>
      fold_left (fun m t => if before t m then t else m)
                (map m_created_at rest) (m_created_at r)
  end.

Definition newest (rows : list Row) : Z :=
  match rows with
  | [] => zeroTime
  | r :: rest =>
      fold_left (fun m t => if before m t then t else m)
                (map m_created_at rest) (m_created_at r)
  end.

(** [Stats]. *)
Definition Stats (rows : list Row) : StoreStats :=
  {| st_TotalMemories := Z.of_nat (List.length rows);
     st_ByDecayLevel :=
       fold_left (fun acc r => countLevel (m_decay_level r) acc) rows [];
     st_BySource :=
       fold_left (fun acc r => countSource (m_source r) acc)
                 (filter (fun r => negb (String.eqb (m_source r) EmptyString))
                         rows) [];
     st_OldestMemory := oldest rows;
     st_NewestMemory := newest rows |}.

End Ordered.

End MemoryStore.

(** * The HTTP handlers of the session store

    The handlers of [SessionAPI] in [cmd].  Of a request they read the
    method, the query parameters [session_id] and [role], and the body,
    which [json.Decode] turns into a value or into an error: a body is
    given as what that call returns, the text of the error or the value.
    A response is its status and what is written: the text that
    [http.Error] is given, or the value that is encoded, with the status
    200 that the first write sets.  The middleware that wraps a handler
    at registration is not part of the handler. *)

Module SessionAPI.
Import Session SessionStore.

Definition StatusOK : Z := 200.
Definition StatusBadRequest : Z := 400.
Definition StatusNotFound : Z := 404.
Definition StatusMethodNotAllowed : Z := 405.
Definition StatusConflict : Z := 409.
Definition StatusRequestEntityTooLarge : Z := 413.
Definition StatusInternalServerError : Z := 500.

Definition MethodGet : string := "GET".
Definition MethodPost : string := "POST".
Definition MethodDelete : string := "DELETE".

(** What is written: [Text msg] for [http.Error(w, msg, code)],
    [ErrorOf err] for [http.Error(w, err.Error(), code)], [JSON v] for
    [json.NewEncoder(w).Encode(v)]. *)
Inductive Body (A : Type) :=
| Text (msg : string)
| ErrorOf (err : error)
| JSON (v : A).
Arguments Text {A} msg.
Arguments ErrorOf {A} err.
Arguments JSON {A} v.

Record Response (A : Type) := {
  Status : Z;
  Written : Body A
}.
Arguments Status {A} r.
Arguments Written {A} r.

Definition httpError {A} (msg : Body A) (code : Z) : Response A :=
  {| Status := code; Written := msg |}.

Definition encode {A} (v : A) : Response A :=
  {| Status := StatusOK; Written := JSON v |}.

(** Go's [PushRequest] and [ContextRequest], with their [SessionID]. *)
Record PushRequest := {
  pr_SessionID : string;
  pr_Entries : list PushEntry
}.

Record ContextQuery := {
  cq_SessionID : string;
  cq_MaxTokens : Z;
  cq_Role : string
}.

(** [handleCreate]. *)
Definition handleCreate (cfg : Config) (fresh : string) (now : Z) (db : DB)
    (method : string) (body : string + CreateRequest)
    : Response SessionInfo * DB :=
  if negb (String.eqb method MethodPost) then
    (httpError (Text "method not allowed") StatusMethodNotAllowed, db)
  else
    match body with
    | inl e => (httpError (Text (String.append "invalid JSON: " e))
                          StatusBadRequest, db)
    | inr req =>
        match SessionStore.Create cfg fresh now db req with
        | (inl err, db') =>
            match err with
            | ErrSessionExists => (httpError (ErrorOf err) StatusConflict, db')
            | _ => (httpError (ErrorOf err) StatusInternalServerError, db')
            end
        | (inr sess, db') => (encode sess, db')
        end
    end.

(** [handlePush]; [None]: the fuel of [Push] ran out. *)
Definition handlePush {E : GoEnv} (fuel : nat) (genID : Z -> string) (now : Z)
    (db : DB) (method : string) (body : string + PushRequest)
    : option (Response PushResult * DB) :=
  if negb (String.eqb method MethodPost) then
    Some (httpError (Text "method not allowed") StatusMethodNotAllowed, db)
  else
    match body with
    | inl e => Some (httpError (Text (String.append "invalid JSON: " e))
                               StatusBadRequest, db)
    | inr req =>
        if String.eqb (pr_SessionID req) EmptyString then
          Some (httpError (Text "session_id is required") StatusBadRequest, db)
        else
          match SessionStore.Push fuel genID now db (pr_SessionID req)
                                  (pr_Entries req) with
          | None => None
          | Some (inl err, db') =>
              match err with
              | ErrSessionNotFound =>
                  Some (httpError (ErrorOf err) StatusNotFound, db')
              | ErrOverBudget =>
                  Some (httpError (ErrorOf err) StatusRequestEntityTooLarge, db')
              | _ => Some (httpError (ErrorOf err) StatusInternalServerError, db')
              end
          | Some (inr result, db') => Some (encode result, db')
          end
    end.

(** [handleContext]: the request comes from the body of a POST and from
    the query of a GET. *)
Definition handleContext (db : DB) (method : string)
    (querySessionID queryRole : string) (body : string + ContextQuery)
    : Response ContextResult :=
  if negb (String.eqb method MethodPost) && negb (String.eqb method MethodGet)
  then httpError (Text "method not allowed") StatusMethodNotAllowed
  else
    let decoded :=
      if String.eqb method MethodPost then body
      else inr {| cq_SessionID := querySessionID; cq_MaxTokens := 0;
                  cq_Role := queryRole |} in
    match decoded with
    | inl e => httpError (Text (String.append "invalid JSON: " e))
                         StatusBadRequest
    | inr req =>
        if String.eqb (cq_SessionID req) EmptyString then
          httpError (Text "session_id is required") StatusBadRequest
        else
          match SessionStore.Context db (cq_SessionID req)
                  {| ctx_MaxTokens := cq_MaxTokens req;
                     ctx_Role := cq_Role req |} with
          | inl err =>
              match err with
              | ErrSessionNotFound => httpError (ErrorOf err) StatusNotFound
              | _ => httpError (ErrorOf err) StatusInternalServerError
              end
          | inr result => encode result
          end
    end.

(** [handleGet]: the id comes from the query; the body of a POST is
    read when the query has none, and an error of the decoder leaves the
    id empty. *)
Definition handleGet (db : DB) (method : string) (querySessionID : string)
    (body : string + string) : Response SessionInfo :=
  if negb (String.eqb method MethodGet) && negb (String.eqb method MethodPost)
  then httpError (Text "method not allowed") StatusMethodNotAllowed
  else
    let sessionID :=
      if String.eqb querySessionID EmptyString && String.eqb method MethodPost
      then match body with
           | inr id => id
           | inl _ => querySessionID
           end
      else querySessionID in
    if String.eqb sessionID EmptyString then
      httpError (Text "session_id is required") StatusBadRequest
    else
      match Get db sessionID with
      | inl err =>
          match err with
          | ErrSessionNotFound => httpError (ErrorOf err) StatusNotFound
          | _ => httpError (ErrorOf err) StatusInternalServerError
          end
      | inr sess => encode sess
      end.

(** [handleDelete]. *)
Definition handleDelete (db : DB) (method : string) (body : string + string)
    : Response DeleteResult * DB :=
  if negb (String.eqb method MethodPost) && negb (String.eqb method MethodDelete)
  then (httpError (Text "method not allowed") StatusMethodNotAllowed, db)
  else
    match body with
    | inl e => (httpError (Text (String.append "invalid JSON: " e))
                          StatusBadRequest, db)
    | inr sessionID =>
        if String.eqb sessionID EmptyString then
          (httpError (Text "session_id is required") StatusBadRequest, db)
        else
          match Delete db sessionID with
          | (inl err, db') =>
              match err with
              | ErrSessionNotFound =>
                  (httpError (ErrorOf err) StatusNotFound, db')
              | _ => (httpError (ErrorOf err) StatusInternalServerError, db')
              end
          | (inr result, db') => (encode result, db')
          end
    end.

End SessionAPI.

(** * Go's [sort.Slice]

    [sort.Slice] of Go 1.19 and later is a pattern-defeating quicksort
    ([pdqsort_func] in [sort/zsortfunc.go]).  This is its course on a
    slice of fewer than 50 elements: the ninther of [choosePivot_func] and
    the shifting of [partialInsertionSort_func] start at 50.  The two
    routines that come into play after an unbalanced partition,
    [breakPatterns_func] and [heapSort_func], are parameters. *)

Module GoSort.
Local Open Scope nat_scope.

Inductive sortedHint := unknownHint | increasingHint | decreasingHint.

Section Slice.
Context {A : Type} (less : A -> A -> bool).
Variable breakPatterns : list A -> nat -> nat -> list A.
Variable heapSort : list A -> nat -> nat -> list A.

(** [data.Less(i, j)] *)
Definition Less (data : list A) (i j : nat) : bool :=
  match nth_error data i, nth_error data j with
  | Some x, Some y => less x y
  | _, _ => false
  end.

Fixpoint store (data : list A) (i : nat) (x : A) : list A :=
  match data, i with
  | [], _ => []
  | _ :: rest, O => x :: rest
  | y :: rest, S i' => y :: store rest i' x
  end.

(** [data.Swap(i, j)] *)
Definition Swap (data : list A) (i j : nat) : list A :=
  match nth_error data i, nth_error data j with
  | Some x, Some y => store (store data i y) j x
  | _, _ => data
  end.

(** [for j := i; j > a && data.Less(j, j-1); j-- { data.Swap(j, j-1) }] *)
Fixpoint sink (data : list A) (a j : nat) : list A :=
  match j with
  | O => data
  | S below =>
      if (a <? j)%nat && Less data j below
      then sink (Swap data j below) a below
      else data
  end.

(** [insertionSort_func] *)
Definition insertionSort (data : list A) (a b : nat) : list A :=
  fold_left (fun d i => sink d a i) (seq (a + 1) (b - (a + 1))) data.

(** [order2_func], [median_func] *)
Definition order2 (data : list A) (a b swaps : nat) : nat * nat * nat :=
  if Less data b a then (b, a, S swaps) else (a, b, swaps).

Definition median (data : list A) (a b c swaps : nat) : nat * nat :=
  let '(a, b, swaps) := order2 data a b swaps in
  let '(b, c, swaps) := order2 data b c swaps in
  let '(a, b, swaps) := order2 data a b swaps in
  (b, swaps).

(** [choosePivot_func], below the 50 elements of the ninther. *)
Definition choosePivot (data : list A) (a b : nat) : nat * sortedHint :=
  let l := b - a in
  let i := a + l / 4 * 1 in
  let j := a + l / 4 * 2 in
  let k := a + l / 4 * 3 in
  let '(j, swaps) := if (8 <=? l)%nat then median data i j k 0 else (j, 0) in
  (j, match swaps with
      | 0 => increasingHint
      | 12 => decreasingHint
      | _ => unknownHint
      end).

(** [reverseRange_func] *)
Fixpoint reverseLoop (fuel : nat) (data : list A) (i j : nat) : list A :=
  match fuel with
  | O => data
  | S fuel' =>
      if (i <? j)%nat then reverseLoop fuel' (Swap data i j) (i + 1) (j - 1)
      else data
  end.

Definition reverseRange (data : list A) (a b : nat) : list A :=
  reverseLoop (b - a) data a (b - 1).

(** [for i < b && !data.Less(i, i-1) { i++ }] *)
Fixpoint scanOrdered (fuel : nat) (data : list A) (i b : nat) : nat :=
  match fuel with
  | O => i
  | S fuel' =>
      if (i <? b)%nat && negb (Less data i (i - 1))
      then scanOrdered fuel' data (i + 1) b
      else i
  end.

(** [partialInsertionSort_func], below the 50 elements of the shifting:
    whether the range is in order. *)
Definition partialInsertionSort (data : list A) (a b : nat) : bool :=
  Nat.eqb (scanOrdered (b - a) data (a + 1) b) b.

(** [for i <= j && data.Less(i, a) { i++ }] and
    [for i <= j && !data.Less(j, a) { j-- }] *)
Fixpoint scanUp (fuel : nat) (data : list A) (a i j : nat) : nat :=
  match fuel with
  | O => i
  | S fuel' =>
      if (i <=? j)%nat && Less data i a then scanUp fuel' data a (i + 1) j
      else i
  end.

Fixpoint scanDown (fuel : nat) (data : list A) (a i j : nat) : nat :=
  match fuel with
  | O => j
  | S fuel' =>
      if (i <=? j)%nat && negb (Less data j a)
      then scanDown fuel' data a i (j - 1)
      else j
  end.

Fixpoint partitionLoop (fuel : nat) (data : list A) (a i j : nat)
    : list A * nat * bool :=
  let i := scanUp (S fuel) data a i j in
  let j := scanDown (S fuel) data a i j in
  if (j <? i)%nat then (Swap data j a, j, false)
  else
    match fuel with
    | O => (Swap data j a, j, false)
    | S fuel' => partitionLoop fuel' (Swap data i j) a (i + 1) (j - 1)
    end.

(** [partition_func] *)
Definition partition (data : list A) (a b pivot : nat) : list A * nat * bool :=
  let data := Swap data a pivot in
  let i := scanUp (b - a) data a (a + 1) (b - 1) in
  let j := scanDown (b - a) data a i (b - 1) in
  if (j <? i)%nat then (Swap data j a, j, true)
  else partitionLoop (b - a) (Swap data i j) a (i + 1) (j - 1).

(** [for i <= j && !data.Less(a, i) { i++ }] and
    [for i <= j && data.Less(a, j) { j-- }] *)
Fixpoint scanUpEqual (fuel : nat) (data : list A) (a i j : nat) : nat :=
  match fuel with
  | O => i
  | S fuel' =>
      if (i <=? j)%nat && negb (Less data a i)
      then scanUpEqual fuel' data a (i + 1) j
      else i
  end.

Fixpoint scanDownEqual (fuel : nat) (data : list A) (a i j : nat) : nat :=
  match fuel with
  | O => j
  | S fuel' =>
      if (i <=? j)%nat && Less data a j then scanDownEqual fuel' data a i (j - 1)
      else j
  end.

Fixpoint partitionEqualLoop (fuel : nat) (data : list A) (a i j : nat)
    : list A * nat :=
  let i := scanUpEqual (S fuel) data a i j in
  let j := scanDownEqual (S fuel) data a i j in
  if (j <? i)%nat then (data, i)
  else
    match fuel with
    | O => (data, i)
    | S fuel' => partitionEqualLoop fuel' (Swap data i j) a (i + 1) (j - 1)
    end.

(** [partitionEqual_func] *)
Definition partitionEqual (data : list A) (a b pivot : nat) : list A * nat :=
  partitionEqualLoop (b - a) (Swap data a pivot) a (a + 1) (b - 1).

(** [pdqsort_func].  One unit of [fuel] goes with each turn of its loop
    and each call of itself; the range shrinks each time, so its length
    is fuel enough, and at no fuel the range is empty.  The loops of the
    partitions close in on each other at every turn and never use up
    theirs. *)
Fixpoint pdqsort (fuel : nat) (data : list A) (a b limit : nat)
    (wasBalanced wasPartitioned : bool) : list A :=
  match fuel with
  | O => insertionSort data a b
  | S fuel' =>
      let length := b - a in
      if (length <=? 12)%nat then insertionSort data a b
      else if Nat.eqb limit 0 then heapSort data a b
      else
        let '(data, limit) :=
          if negb wasBalanced then (breakPatterns data a b, limit - 1)
          else (data, limit) in
        let '(pivot, hint) := choosePivot data a b in
        let '(data, pivot, hint) :=
          match hint with
          | decreasingHint =>
              (reverseRange data a b, (b - 1) - (pivot - a), increasingHint)
          | _ => (data, pivot, hint)
          end in
        if wasBalanced && wasPartitioned
           && match hint with increasingHint => true | _ => false end
           && partialInsertionSort data a b
        then data
        else if (0 <? a)%nat && negb (Less data (a - 1) pivot) then
          let '(data, mid) := partitionEqual data a b pivot in
          pdqsort fuel' data mid b limit wasBalanced wasPartitioned
        else
          let '(data, mid, alreadyPartitioned) := partition data a b pivot in
          let leftLen := mid - a in
          let rightLen := b - mid in
          let balanceThreshold := length / 8 in
          if (leftLen <? rightLen)%nat then
            let data := pdqsort fuel' data a mid limit true true in
            pdqsort fuel' data (mid + 1) b limit
                    (balanceThreshold <=? leftLen)%nat alreadyPartitioned
          else
            let data := pdqsort fuel' data (mid + 1) b limit true true in
            pdqsort fuel' data a mid limit
                    (balanceThreshold <=? rightLen)%nat alreadyPartitioned
  end.

(** [bits.Len] *)
Definition bitsLen (n : nat) : nat :=
  match n with
  | O => O
  | _ => S (Nat.log2 n)
  end.

(** [sort.Slice]; [None] from 50 elements on, where this is not its
    course. *)
Definition Slice (data : list A) : option (list A) :=
  let n := List.length data in
  if (50 <=? n)%nat then None
  else Some (pdqsort n data 0 n (bitsLen n) true true).

End Slice.
End GoSort.

(** * A runtime to compute with

    [asciiEnv] instantiates the interface so that the model can be run:
    the string functions are Go's on ASCII text, [sort.Slice] is the
    insertion sort that Go applies to short slices, the compressor hands
    its chunks back and the distance is 0 between equal vectors and 1
    otherwise.  [reversingEnv] differs by its [sort.Slice] only, which
    meets the same contract and orders equal keys the other way round. *)

Module Reference.

Definition isAsciiSpace (c : ascii) : bool :=
  let n := nat_of_ascii c in
  (Nat.eqb n 32 || (Nat.leb 9 n && Nat.leb n 13))%bool.

Fixpoint dropWhile {A} (p : A -> bool) (l : list A) : list A :=
  match l with
  | [] => []
  | x :: rest => if p x then dropWhile p rest else l
  end.

Definition trimBoth (p : ascii -> bool) (s : string) : string :=
  string_of_list_ascii
    (rev (dropWhile p (rev (dropWhile p (list_ascii_of_string s))))).

Definition asciiTrimSpace (s : string) : string := trimBoth isAsciiSpace s.

Definition asciiTrim (s cutset : string) : string :=
  trimBoth (fun c => existsb (Ascii.eqb c) (list_ascii_of_string cutset)) s.

Definition lowerChar (c : ascii) : ascii :=
  let n := nat_of_ascii c in
  if (Nat.leb 65 n && Nat.leb n 90)%bool then ascii_of_nat (n + 32) else c.

Definition asciiToLower (s : string) : string :=
  string_of_list_ascii (map lowerChar (list_ascii_of_string s)).

Fixpoint splitFields (cs word : list ascii) : list string :=
  match cs with
  | [] => match word with
          | [] => []
          | _ => [string_of_list_ascii (rev word)]
          end
  | c :: rest =>
      if isAsciiSpace c then
        match word with
        | [] => splitFields rest []
        | _ => string_of_list_ascii (rev word) :: splitFields rest []
        end
      else splitFields rest (c :: word)
  end.

Definition asciiFields (s : string) : list string :=
  splitFields (list_ascii_of_string s) [].

(** [Format(time.RFC3339Nano)] of a UTC instant, for the years 0 to
    9999: the date of the proleptic Gregorian calendar, the time of day,
    the fraction of the second without its trailing zeros (and without
    the point when it is zero), and [Z]. *)
Definition decimalDigit (n : Z) : ascii := ascii_of_nat (48 + Z.to_nat (n mod 10)).

Fixpoint padded (width : nat) (n : Z) (tail : string) : string :=
  match width with
  | O => tail
  | S w => padded w (n / 10) (String (decimalDigit n) tail)
  end.

(** The digits of a fraction of [width] places, trailing zeros dropped. *)
Fixpoint fractionDigits (width : nat) (n : Z) : string :=
  match width with
  | O => EmptyString
  | S w => if n mod 10 =? 0 then fractionDigits w (n / 10)
           else padded width n EmptyString
  end.

(** Year, month and day of the day [days] after 1970-01-01. *)
Definition civilFromDays (days : Z) : Z * Z * Z :=
  let z := days + 719468 in
  let era := z / 146097 in
  let doe := z - era * 146097 in
  let yoe := (doe - doe / 1460 + doe / 36524 - doe / 146096) / 365 in
  let doy := doe - (365 * yoe + yoe / 4 - yoe / 100) in
  let mp := (5 * doy + 2) / 153 in
  let d := doy - (153 * mp + 2) / 5 + 1 in
  let m := if mp <? 10 then mp + 3 else mp - 9 in
  let y := yoe + era * 400 + (if m <=? 2 then 1 else 0) in
  (y, m, d).

(** The fraction of the second: nothing when it is zero. *)
Definition fraction (nanos : Z) : string :=
  if nanos =? 0 then EmptyString else String "." (fractionDigits 9 nanos).

Definition rfc3339Nano (t : Z) : string :=
  let seconds := t / 1000000000 in
  let nanos := t mod 1000000000 in
  let '(y, m, d) := civilFromDays (seconds / 86400) in
  let clock := seconds mod 86400 in
  padded 4 y (String "-"
    (padded 2 m (String "-"
      (padded 2 d (String "T"
        (padded 2 (clock / 3600) (String ":"
          (padded 2 (clock / 60 mod 60) (String ":"
            (padded 2 (clock mod 60)
              (String.append (fraction nanos) "Z"))))))))))).

(** SQLite's comparison of two stored timestamps: that of their texts,
    byte by byte. *)
Definition textBefore (a b : Z) : bool :=
  String.ltb (rfc3339Nano a) (rfc3339Nano b).

Definition sameVector (a b : list float32) : bool :=
  (Nat.eqb (List.length a) (List.length b)
   && forallb (fun p => fst p =? snd p) (combine a b))%bool.

Definition unitDistance (a b : list float32) : Q :=
  if sameVector a b then 0%Q else 1%Q.

Definition keepChunks (chunks : list Chunk) (_ : Options) : list Chunk := chunks.

Section InsertionSort.
Context {A : Type} (less : A -> A -> bool).

Fixpoint insertSorted (x : A) (l : list A) : list A :=
  match l with
  | [] => [x]
  | y :: rest => if less y x then y :: insertSorted x rest else x :: l
  end.

Fixpoint insertionSort (l : list A) : list A :=
  match l with
  | [] => []
  | x :: rest => insertSorted x (insertionSort rest)
  end.

Lemma insertSorted_perm x l : Permutation (x :: l) (insertSorted x l).
Proof.
  induction l as [|y rest IH]; simpl; [reflexivity|].
  destruct (less y x); [|reflexivity].
  rewrite perm_swap. now constructor.
Qed.

Lemma insertionSort_perm l : Permutation l (insertionSort l).
Proof.
  induction l as [|x rest IH]; simpl; [constructor|].
  rewrite <- insertSorted_perm. now constructor.
Qed.

Lemma insertSorted_sorted x l :
  strict_weak less ->
  StronglySorted (fun a b => less b a = false) l ->
  StronglySorted (fun a b => less b a = false) (insertSorted x l).
Proof.
  intros [asym ntrans] Hs.
  induction Hs as [|y rest Hs IH Hy]; simpl.
  - repeat constructor.
  - destruct (less y x) eqn:E.
    + constructor; [exact IH|].
      rewrite Forall_forall in *. intros b Hb.
      apply (Permutation_in _ (Permutation_sym (insertSorted_perm x rest))) in Hb.
      destruct Hb as [<-|Hb]; [now apply asym | now apply Hy].
    + constructor; [now constructor|].
      constructor; [exact E|].
      rewrite Forall_forall in *. intros b Hb.
      apply ntrans with y; [now apply Hy | exact E].
Qed.

Lemma insertionSort_sorted l :
  strict_weak less ->
  StronglySorted (fun a b => less b a = false) (insertionSort l).
Proof.
  intros Hw. induction l as [|x rest IH]; simpl; [constructor|].
  now apply insertSorted_sorted.
Qed.
End InsertionSort.

Definition asciiEnv : GoEnv :=
  {| CosineDistance := unitDistance;
     Compress := keepChunks;
     TrimSpace := asciiTrimSpace;
     Fields := asciiFields;
     ToLower := asciiToLower;
     Trim := asciiTrim;
     sortSlice := fun A less l => insertionSort less l;
     sortSlice_perm := fun A less l => insertionSort_perm less l;
     sortSlice_sorted := fun A less l => insertionSort_sorted less l |}.

Lemma reversing_perm {A} (less : A -> A -> bool) (l : list A) :
  Permutation l (insertionSort less (rev l)).
Proof.
  rewrite <- insertionSort_perm. apply Permutation_rev.
Qed.

Definition reversingEnv : GoEnv :=
  {| CosineDistance := unitDistance;
     Compress := keepChunks;
     TrimSpace := asciiTrimSpace;
     Fields := asciiFields;
     ToLower := asciiToLower;
     Trim := asciiTrim;
     sortSlice := fun A less l => insertionSort less (rev l);
     sortSlice_perm := fun A less l => reversing_perm less l;
     sortSlice_sorted := fun A less l => insertionSort_sorted less (rev l) |}.

End Reference.

(** * Facts shared by both packages *)

(** ** Lists of ids *)

Lemma inb_In w l : inb w l = true <-> In w l.
Proof.
  unfold inb. rewrite existsb_exists. split.
  - intros [x [Hx Heq]]. apply String.eqb_eq in Heq. now subst.
  - intros Hin. exists w. split; [exact Hin | apply String.eqb_refl].
Qed.

Lemma distinct_NoDup ids : distinct ids = true <-> NoDup ids.
Proof.
  induction ids as [|id rest IH]; simpl.
  - split; [constructor | reflexivity].
  - rewrite andb_true_iff, negb_true_iff, IH. split.
    + intros [Hn Hd]. constructor; [|exact Hd].
      intros Hin. apply inb_In in Hin. congruence.
    + intros Hnd. inversion Hnd as [|? ? Hn Hd]; subst. split; [|exact Hd].
      destruct (inb id rest) eqn:Eq; [|reflexivity].
      apply inb_In in Eq. contradiction.
Qed.

(** ** Prefixes and suffixes *)

Lemma skipn_NoDup {A} n (l : list A) : NoDup l -> NoDup (skipn n l).
Proof.
  intros Hnd. rewrite <- (firstn_skipn n l) in Hnd.
  now apply NoDup_app_remove_l in Hnd.
Qed.

Lemma firstn_NoDup {A} n (l : list A) : NoDup l -> NoDup (firstn n l).
Proof.
  intros Hnd. rewrite <- (firstn_skipn n l) in Hnd.
  now apply NoDup_app_remove_r in Hnd.
Qed.

Lemma firstn_subset {A} n (l : list A) x : In x (firstn n l) -> In x l.
Proof.
  intros Hin. rewrite <- (firstn_skipn n l). apply in_or_app. now left.
Qed.

(** ** Rationals as the code compares them *)

Lemma Qltb_lt x y : Qltb x y = true <-> (x < y)%Q.
Proof. unfold Qltb, Qlt. apply Z.ltb_lt. Qed.

Lemma Qltb_ge x y : Qltb x y = false <-> (y <= x)%Q.
Proof. unfold Qltb, Qle. apply Z.ltb_ge. Qed.

Lemma Qleb_le x y : Qleb x y = true <-> (x <= y)%Q.
Proof. unfold Qleb, Qle. apply Z.leb_le. Qed.

Lemma Qleb_gt x y : Qleb x y = false <-> (y < x)%Q.
Proof. unfold Qleb, Qlt. apply Z.leb_gt. Qed.

(** ** The order of an index *)

Lemma ascii_compare_lt_trans a b c :
  Ascii.compare a b = Lt -> Ascii.compare b c = Lt -> Ascii.compare a c = Lt.
Proof.
  unfold Ascii.compare. rewrite !N.compare_lt_iff. apply N.lt_trans.
Qed.

Lemma string_compare_lt_trans s1 : forall s2 s3,
  String.compare s1 s2 = Lt -> String.compare s2 s3 = Lt ->
  String.compare s1 s3 = Lt.
Proof.
  induction s1 as [|a r1 IH]; intros [|b r2] [|c r3]; simpl;
    try discriminate; try reflexivity.
  destruct (Ascii.compare a b) eqn:Eab; try discriminate;
    destruct (Ascii.compare b c) eqn:Ebc; try discriminate; intros H1 H2.
  - apply Ascii.compare_eq_iff in Eab, Ebc. subst.
    assert (Hcc : Ascii.compare c c = Eq)
      by (unfold Ascii.compare; apply N.compare_refl).
    rewrite Hcc. now apply IH with r2.
  - apply Ascii.compare_eq_iff in Eab. subst. now rewrite Ebc.
  - apply Ascii.compare_eq_iff in Ebc. subst. now rewrite Eab.
  - now rewrite (ascii_compare_lt_trans a b c Eab Ebc).
Qed.

Lemma string_leb_trans s1 s2 s3 :
  String.leb s1 s2 = true -> String.leb s2 s3 = true -> String.leb s1 s3 = true.
Proof.
  unfold String.leb.
  destruct (String.compare s1 s2) eqn:E12; try discriminate;
    destruct (String.compare s2 s3) eqn:E23; try discriminate; intros _ _.
  - apply String.compare_eq_iff in E12. subst. now rewrite E23.
  - apply String.compare_eq_iff in E12. subst. now rewrite E23.
  - apply String.compare_eq_iff in E23. subst. now rewrite E12.
  - now rewrite (string_compare_lt_trans s1 s2 s3 E12 E23).
Qed.

Section IndexOrder.
Context {A : Type} (key : A -> string).

Definition keyOrder (a b : A) : Prop := String.leb (key a) (key b) = true.

Lemma insertByKey_perm x l : Permutation (x :: l) (insertByKey key x l).
Proof.
  induction l as [|y rest IH]; simpl; [reflexivity|].
  destruct (String.leb (key x) (key y)); [reflexivity|].
  rewrite perm_swap. now constructor.
Qed.

Lemma indexOrder_perm l : Permutation l (indexOrder key l).
Proof.
  induction l as [|x rest IH]; simpl; [constructor|].
  rewrite <- insertByKey_perm. now constructor.
Qed.

Lemma insertByKey_sorted x l :
  StronglySorted keyOrder l -> StronglySorted keyOrder (insertByKey key x l).
Proof.
  intros Hs. induction Hs as [|y rest Hs IH Hy]; simpl.
  - repeat constructor.
  - destruct (String.leb (key x) (key y)) eqn:E.
    + constructor; [now constructor|]. constructor; [exact E|].
      rewrite Forall_forall in *. intros b Hb. unfold keyOrder.
      apply string_leb_trans with (key y); [exact E | now apply Hy].
    + constructor; [exact IH|].
      rewrite Forall_forall in *. intros b Hb.
      apply (Permutation_in _ (Permutation_sym (insertByKey_perm x rest))) in Hb.
      destruct Hb as [<-|Hb]; [|now apply Hy].
      unfold keyOrder. destruct (String.leb_total (key x) (key y)); congruence.
Qed.

Lemma indexOrder_sorted l : StronglySorted keyOrder (indexOrder key l).
Proof.
  induction l as [|x rest IH]; simpl; [constructor|].
  now apply insertByKey_sorted.
Qed.

Lemma indexOrder_In x l : In x (indexOrder key l) <-> In x l.
Proof.
  split; apply Permutation_in;
    [apply Permutation_sym|]; apply indexOrder_perm.
Qed.

Lemma indexOrder_length l : List.length (indexOrder key l) = List.length l.
Proof. symmetry. apply Permutation_length, indexOrder_perm. Qed.

End IndexOrder.

(** * Properties of package session *)

Module SessionProofs.
Import Session.

(** ** What the statements are phrased with *)

Definition uniqueIDs (rows : list Entry) : bool := distinct (map e_id rows).

(** The number of rows, and the levels that the rows can still climb
    up to [LevelKeywords]. *)
Definition count (rows : list Entry) : Z := Z.of_nat (List.length rows).

Definition levelsLeft (r : Entry) : Z :=
  Z.max 0 (LevelKeywords - e_compression_level r).

Definition climbs (rows : list Entry) : Z :=
  fold_right (fun r acc => levelsLeft r + acc) 0 rows.

(** A snapshot of candidates agrees with the table on the rows it names. *)
Definition tracks (cs : list compressCandidate) (rows : list Entry) : Prop :=
  Forall (fun c => exists r, In r rows /\ e_id r = cc_id c
                             /\ e_compression_level r = cc_level c) cs.

(** ** Lists of ids *)

Lemma hasID_In id rows : hasID id rows = true <-> In id (map e_id rows).
Proof.
  unfold hasID. rewrite existsb_exists, in_map_iff. split.
  - intros [r [Hr Heq]]. apply String.eqb_eq in Heq. now exists r.
  - intros [r [Heq Hr]]. exists r. split; [exact Hr|].
    now apply String.eqb_eq.
Qed.

Lemma delete_ids id rows :
  map e_id (deleteByID id rows)
  = filter (fun i => negb (String.eqb i id)) (map e_id rows).
Proof.
  induction rows as [|r rest IH]; simpl; [reflexivity|].
  destruct (String.eqb (e_id r) id); simpl; now rewrite IH.
Qed.

Lemma delete_NoDup id rows :
  NoDup (map e_id rows) -> NoDup (map e_id (deleteByID id rows)).
Proof. intros Hnd. rewrite delete_ids. now apply NoDup_filter. Qed.

Lemma delete_keeps id rows r :
  In r rows -> e_id r <> id -> In r (deleteByID id rows).
Proof.
  intros Hin Hne. apply filter_In. split; [exact Hin|].
  apply negb_true_iff. now apply String.eqb_neq.
Qed.

Lemma delete_absent id rows :
  ~ In id (map e_id rows) -> deleteByID id rows = rows.
Proof.
  intros Hn. apply forallb_filter_id. apply forallb_forall. intros x Hx.
  apply negb_true_iff, String.eqb_neq. intros Heq. apply Hn.
  rewrite <- Heq. now apply in_map.
Qed.

Lemma delete_oldest r rest :
  NoDup (map e_id (r :: rest)) -> deleteByID (e_id r) (r :: rest) = rest.
Proof.
  intros Hnd. inversion Hnd as [|? ? Hr Hrest]; subst.
  unfold deleteByID. simpl. rewrite String.eqb_refl. simpl.
  now apply delete_absent.
Qed.

Lemma update_ids id content level tokens rows :
  map e_id (updateByID id content level tokens rows) = map e_id rows.
Proof.
  induction rows as [|r rest IH]; simpl; [reflexivity|].
  rewrite IH. now destruct (String.eqb (e_id r) id).
Qed.

Lemma update_absent id content level tokens rows :
  ~ In id (map e_id rows) ->
  updateByID id content level tokens rows = rows.
Proof.
  induction rows as [|r rest IH]; simpl; [reflexivity|].
  intros Hn. destruct (String.eqb (e_id r) id) eqn:Eq.
  - apply String.eqb_eq in Eq. tauto.
  - rewrite IH; tauto.
Qed.

Lemma update_keeps id content level tokens rows r :
  In r rows -> e_id r <> id ->
  In r (updateByID id content level tokens rows).
Proof.
  intros Hin Hne. apply in_map_iff. exists r. split; [|exact Hin].
  apply String.eqb_neq in Hne. now rewrite Hne.
Qed.

(** ** Rows and levels under a deletion and an update *)

Lemma count_cons r rows : count (r :: rows) = 1 + count rows.
Proof. unfold count. simpl List.length. lia. Qed.

Lemma count_nonneg rows : 0 <= count rows.
Proof. unfold count. lia. Qed.

Lemma climbs_cons r rows : climbs (r :: rows) = levelsLeft r + climbs rows.
Proof. reflexivity. Qed.

Lemma levelsLeft_nonneg r : 0 <= levelsLeft r.
Proof. unfold levelsLeft. lia. Qed.

Lemma climbs_nonneg rows : 0 <= climbs rows.
Proof.
  induction rows as [|r rest IH]; [reflexivity|].
  rewrite climbs_cons. pose proof (levelsLeft_nonneg r). lia.
Qed.

Lemma delete_cons id r rows :
  deleteByID id (r :: rows)
  = if String.eqb (e_id r) id then deleteByID id rows
    else r :: deleteByID id rows.
Proof. unfold deleteByID. simpl. now destruct (String.eqb (e_id r) id). Qed.

(** The one row of that id goes, and with it the levels it had left. *)
Lemma delete_present id rows r :
  NoDup (map e_id rows) -> In r rows -> e_id r = id ->
  count (deleteByID id rows) + 1 = count rows
  /\ climbs (deleteByID id rows) + levelsLeft r = climbs rows.
Proof.
  intros Hnd Hin Hid. subst id.
  induction rows as [|x rest IH]; [contradiction|].
  inversion Hnd as [|? ? Hx Hrest]; subst.
  rewrite delete_cons, count_cons, climbs_cons.
  destruct Hin as [->|Hin].
  - rewrite String.eqb_refl, delete_absent by exact Hx. lia.
  - destruct (String.eqb (e_id x) (e_id r)) eqn:Eq.
    + apply String.eqb_eq in Eq. exfalso. apply Hx. rewrite Eq.
      now apply in_map.
    + rewrite count_cons, climbs_cons. destruct (IH Hrest Hin). lia.
Qed.

Lemma count_update id content level tokens rows :
  count (updateByID id content level tokens rows) = count rows.
Proof. unfold count, updateByID. now rewrite length_map. Qed.

Lemma update_cons id content level tokens r rows :
  updateByID id content level tokens (r :: rows)
  = (if String.eqb (e_id r) id
     then {| e_id := e_id r; e_role := e_role r; e_content := content;
             e_original_content := e_original_content r;
             e_source := e_source r; e_embedding := e_embedding r;
             e_importance := e_importance r;
             e_compression_level := level;
             e_tokens := tokens; e_seq := e_seq r |}
     else r)
    :: updateByID id content level tokens rows.
Proof. reflexivity. Qed.

(** Raising the one row of that id by a level takes one from the levels
    left. *)
Lemma climbs_update id content tokens rows r :
  NoDup (map e_id rows) -> In r rows -> e_id r = id ->
  e_compression_level r + 1 <= LevelKeywords ->
  climbs (updateByID id content (e_compression_level r + 1) tokens rows) + 1
  = climbs rows.
Proof.
  intros Hnd Hin Hid Hlv. subst id.
  induction rows as [|x rest IH]; [contradiction|].
  inversion Hnd as [|? ? Hx Hrest]; subst.
  rewrite update_cons, !climbs_cons.
  destruct Hin as [->|Hin].
  - rewrite String.eqb_refl, update_absent by exact Hx.
    unfold levelsLeft, LevelKeywords in *. cbn [e_compression_level]. lia.
  - destruct (String.eqb (e_id x) (e_id r)) eqn:Eq.
    + apply String.eqb_eq in Eq. exfalso. apply Hx. rewrite Eq.
      now apply in_map.
    + specialize (IH Hrest Hin). lia.
Qed.

Lemma skipn_measure (k : nat) (rows : list Entry) :
  (k <= List.length rows)%nat ->
  count (skipn k rows) + Z.of_nat k = count rows
  /\ climbs (skipn k rows) <= climbs rows.
Proof.
  revert rows. induction k as [|k IH]; intros rows Hk.
  - simpl. split; lia.
  - destruct rows as [|r rest]; [simpl in Hk; lia|].
    simpl skipn. rewrite count_cons, climbs_cons.
    destruct (IH rest) as [Hc Hl]; [simpl in Hk; lia|].
    pose proof (levelsLeft_nonneg r). lia.
Qed.

Section Enforcement.
Context {E : GoEnv}.

(** ** One pass *)

Lemma processCandidates_mono maxTok cs :
  forall rows cur c e c' e' rows',
    processCandidates maxTok cs rows cur c e = (c', e', rows') ->
    c <= c' /\ e <= e'.
Proof.
  induction cs as [|x rest IH]; simpl; intros rows cur c e c' e' rows' Hp.
  - inversion Hp; subst. lia.
  - destruct (cur <=? maxTok); [inversion Hp; subst; lia|].
    destruct (cc_level x + 1 >? LevelKeywords); apply IH in Hp; lia.
Qed.

Lemma processCandidates_first maxTok x rest rows cur c e c' e' rows' :
  maxTok < cur ->
  processCandidates maxTok (x :: rest) rows cur c e = (c', e', rows') ->
  c + e + 1 <= c' + e'.
Proof.
  intros Hover Hp. simpl in Hp.
  destruct (cur <=? maxTok) eqn:Ecur; [apply Z.leb_le in Ecur; lia|].
  destruct (cc_level x + 1 >? LevelKeywords);
    apply processCandidates_mono in Hp; lia.
Qed.

(** Over the candidates, each eviction takes one row away and each
    compression one level from those left. *)
Lemma processCandidates_measure maxTok cs :
  forall rows cur c e c' e' rows',
    NoDup (map e_id rows) -> NoDup (map cc_id cs) -> tracks cs rows ->
    processCandidates maxTok cs rows cur c e = (c', e', rows') ->
    count rows' + (e' - e) = count rows
    /\ climbs rows' + (c' - c) = climbs rows
    /\ NoDup (map e_id rows').
Proof.
  induction cs as [|x rest IH]; simpl;
    intros rows cur c e c' e' rows' Hrows Hcs Htr Hp.
  - inversion Hp; subst. repeat split; [lia | lia | exact Hrows].
  - destruct (cur <=? maxTok);
      [inversion Hp; subst; repeat split; [lia | lia | exact Hrows]|].
    inversion Hcs as [|? ? Hx Hrest]; subst.
    inversion Htr as [|? ? [r [Hin [Hid Hlv]]] Htr']; subst.
    assert (Hothers : forall rows1,
               (forall r0, In r0 rows -> e_id r0 <> cc_id x -> In r0 rows1) ->
               tracks rest rows1).
    { intros rows1 Hkeep. unfold tracks in *. rewrite Forall_forall in *.
      intros y Hy. destruct (Htr' y Hy) as [r0 [Hr0 [Hid0 Hlv0]]].
      exists r0. split; [|now split]. apply Hkeep; [exact Hr0|].
      intros Heq. apply Hx. rewrite <- Heq, Hid0. now apply in_map. }
    destruct (cc_level x + 1 >? LevelKeywords) eqn:Elv.
    + rewrite Z.gtb_ltb in Elv. apply Z.ltb_lt in Elv.
      destruct (delete_present (cc_id x) rows r Hrows Hin Hid) as [Hcount Hclimb].
      assert (Hzero : levelsLeft r = 0) by (unfold levelsLeft; lia).
      apply IH in Hp.
      * destruct Hp as [Hc [Hl Hnd]]. repeat split; [lia | lia | exact Hnd].
      * now apply delete_NoDup.
      * exact Hrest.
      * apply Hothers. intros r0 Hr0 Hne. now apply delete_keeps.
    + rewrite Z.gtb_ltb in Elv. apply Z.ltb_ge in Elv.
      assert (Hle : e_compression_level r + 1 <= LevelKeywords)
        by (now rewrite Hlv).
      pose proof (climbs_update (cc_id x)
                    (compressToLevel (cc_originalContent x) (cc_level x + 1))
                    (estimateTokens (compressToLevel (cc_originalContent x)
                                                     (cc_level x + 1)))
                    rows r Hrows Hin Hid Hle) as Hu.
      rewrite Hlv in Hu.
      pose proof (count_update (cc_id x)
                    (compressToLevel (cc_originalContent x) (cc_level x + 1))
                    (cc_level x + 1)
                    (estimateTokens (compressToLevel (cc_originalContent x)
                                                     (cc_level x + 1)))
                    rows) as Hn.
      apply IH in Hp.
      * destruct Hp as [Hc [Hl Hnd]]. repeat split; [lia | lia | exact Hnd].
      * now rewrite update_ids.
      * exact Hrest.
      * apply Hothers. intros r0 Hr0 Hne. now apply update_keeps.
Qed.

(** The fallback returns within its bound, and evicts when it is called
    over budget on a table that has a row. *)
Lemma evictLoop_spec maxTok fuel :
  forall rows cur ev,
    (List.length rows <= fuel)%nat ->
    exists ev' rows',
      evictLoop fuel maxTok rows cur ev = Some (ev', rows')
      /\ ev <= ev'
      /\ (maxTok < cur -> rows <> [] -> ev + 1 <= ev').
Proof.
  induction fuel as [|fuel IH]; intros rows cur ev Hlen.
  - destruct rows; [|simpl in Hlen; lia]. simpl.
    destruct (cur <=? maxTok); exists ev, [];
      (repeat split; [lia | congruence]).
  - simpl. destruct (cur <=? maxTok) eqn:Ecur.
    + apply Z.leb_le in Ecur. exists ev, rows. repeat split; lia.
    + destruct rows as [|oldest rest].
      * exists ev, []. repeat split; [lia | congruence].
      * assert (Hshort : (List.length (deleteByID (e_id oldest) (oldest :: rest))
                          <= fuel)%nat).
        { rewrite delete_cons, String.eqb_refl.
          pose proof (filter_length_le
                        (fun r => negb (String.eqb (e_id r) (e_id oldest))) rest).
          unfold deleteByID. simpl in Hlen. lia. }
        destruct (IH _ (cur - e_tokens oldest) (ev + 1) Hshort)
          as [ev' [rows' [Heq [Hmono _]]]].
        exists ev', rows'. repeat split; [exact Heq | lia | lia].
Qed.

Lemma sumTokens_cons r rows : sumTokens (r :: rows) = e_tokens r + sumTokens rows.
Proof. reflexivity. Qed.

(** On a table with distinct ids the fallback removes a prefix of the
    rows, oldest first, and stops at the first point where the budget is
    met or nothing is left. *)
Lemma evictLoop_prefix maxTok fuel :
  forall rows ev ev' rows',
    NoDup (map e_id rows) ->
    evictLoop fuel maxTok rows (sumTokens rows) ev = Some (ev', rows') ->
    exists k : nat,
      (k <= List.length rows)%nat
      /\ ev' = ev + Z.of_nat k /\ rows' = skipn k rows
      /\ (sumTokens rows' <= maxTok \/ rows' = [])
      /\ (forall j, (j < k)%nat -> maxTok < sumTokens (skipn j rows)).
Proof.
  induction fuel as [|fuel IH]; intros rows ev ev' rows' Hnd Hl; simpl in Hl.
  - destruct (sumTokens rows <=? maxTok) eqn:Ecur.
    + apply Z.leb_le in Ecur. inversion Hl; subst. exists 0%nat.
      repeat split; try lia; auto.
    + destruct rows; [|discriminate]. inversion Hl; subst. exists 0%nat.
      repeat split; try lia; auto.
  - destruct (sumTokens rows <=? maxTok) eqn:Ecur.
    + apply Z.leb_le in Ecur. inversion Hl; subst. exists 0%nat.
      repeat split; try lia; auto.
    + apply Z.leb_gt in Ecur. destruct rows as [|r rest].
      * inversion Hl; subst. exists 0%nat.
        repeat split; try lia; auto.
      * rewrite delete_oldest in Hl by exact Hnd.
        replace (sumTokens (r :: rest) - e_tokens r) with (sumTokens rest) in Hl
          by (rewrite sumTokens_cons; lia).
        inversion Hnd as [|? ? _ Hrest]; subst.
        destruct (IH _ _ _ _ Hrest Hl) as [k [Hk [Hev [Hrows [Hmet Hbefore]]]]].
        exists (S k). repeat split; try (simpl; lia); auto.
        intros j Hj. destruct j as [|j]; [exact Ecur|].
        apply Hbefore. lia.
Qed.

Lemma candidate_ids rows : map cc_id (map candidateOf rows) = map e_id rows.
Proof. rewrite map_map. reflexivity. Qed.

(** A pass returns; each eviction it reports is a row less, and each
    compression a level less among those left. *)
Lemma enforceBudget_spec cfg rows :
  NoDup (map e_id rows) ->
  exists c e rows',
    enforceBudget cfg rows = Some (c, e, rows')
    /\ 0 <= c /\ 0 <= e
    /\ count rows' + e = count rows
    /\ climbs rows' + c <= climbs rows
    /\ NoDup (map e_id rows').
Proof.
  intros Hnd. unfold enforceBudget.
  destruct (sumTokens rows <=? maxTokens cfg).
  { exists 0, 0, rows. repeat split; try lia. exact Hnd. }
  destruct (Z.of_nat (List.length rows) - preserveRecent cfg <=? 0).
  - unfold evictOldest.
    destruct (evictLoop_spec (maxTokens cfg) (List.length rows) rows
                (sumTokens rows) 0 (le_n _))
      as [ev' [rows' [Heq [Hmono _]]]].
    rewrite Heq. exists 0, ev', rows'.
    destruct (evictLoop_prefix _ _ _ _ _ _ Hnd Heq)
      as [k [Hk [Hev [Hrows' _]]]].
    destruct (skipn_measure k rows Hk) as [Hcount Hclimb].
    subst rows'. repeat split; try lia.
    rewrite <- skipn_map. now apply skipn_NoDup.
  - set (n := Z.to_nat (Z.of_nat (List.length rows) - preserveRecent cfg)).
    set (cs := sortCandidates (map candidateOf (firstn n rows))).
    destruct (processCandidates (maxTokens cfg) cs rows (sumTokens rows) 0 0)
      as [[c e] rows'] eqn:Hp.
    exists c, e, rows'. split; [reflexivity|].
    pose proof (processCandidates_mono _ _ _ _ _ _ _ _ _ Hp) as [Hc He].
    assert (Hperm : Permutation (map candidateOf (firstn n rows)) cs)
      by apply sortSlice_perm.
    apply processCandidates_measure in Hp.
    + destruct Hp as [Hcount [Hclimb Hnd']]. repeat split; try lia. exact Hnd'.
    + exact Hnd.
    + apply (Permutation_NoDup (Permutation_map cc_id Hperm)).
      rewrite candidate_ids, <- firstn_map. now apply firstn_NoDup.
    + unfold tracks. rewrite Forall_forall. intros x Hx.
      apply (Permutation_in _ (Permutation_sym Hperm)) in Hx.
      apply in_map_iff in Hx. destruct Hx as [r [<- Hr]].
      exists r. repeat split. now apply firstn_subset in Hr.
Qed.

(** A pass that reports nothing left the table alone, and either the
    budget is met or the table is empty. *)
Lemma enforceBudget_done cfg rows rows' :
  enforceBudget cfg rows = Some (0, 0, rows') ->
  rows' = rows /\ (sumTokens rows <= maxTokens cfg \/ rows = []).
Proof.
  unfold enforceBudget. destruct (sumTokens rows <=? maxTokens cfg) eqn:Ecur.
  { apply Z.leb_le in Ecur. intros Heq. inversion Heq; subst.
    split; [reflexivity|now left]. }
  apply Z.leb_gt in Ecur.
  destruct (Z.of_nat (List.length rows) - preserveRecent cfg <=? 0) eqn:Elim.
  - unfold evictOldest.
    destruct (evictLoop_spec (maxTokens cfg) (List.length rows) rows
                (sumTokens rows) 0 (le_n _))
      as [ev' [rows1 [Heq [_ Hstep]]]].
    rewrite Heq. intros Hres. inversion Hres; subst.
    destruct rows as [|r rest].
    + simpl in Heq. destruct (0 <=? maxTokens cfg); inversion Heq; auto.
    + specialize (Hstep Ecur). assert (r :: rest <> []) by discriminate.
      specialize (Hstep H). lia.
  - apply Z.leb_gt in Elim.
    set (n := Z.to_nat (Z.of_nat (List.length rows) - preserveRecent cfg)).
    assert (Hperm : Permutation (map candidateOf (firstn n rows))
                      (sortCandidates (map candidateOf (firstn n rows))))
      by apply sortSlice_perm.
    destruct (sortCandidates (map candidateOf (firstn n rows))) as [|x cs] eqn:Es.
    + simpl. intros Hres. inversion Hres; subst rows'. split; [reflexivity|right].
      apply Permutation_sym, Permutation_nil in Hperm.
      destruct rows as [|r rest]; [reflexivity|].
      assert (Hn : (1 <= n)%nat) by (unfold n; lia).
      destruct n; [lia|]. discriminate.
    + intros Hres. inversion Hres as [Hp].
      apply processCandidates_first in Hp; [lia | exact Ecur].
Qed.

(** ** The loop of passes *)

Lemma enforceLoop_final cfg fuel :
  forall rows c e c' e' rows',
    enforceLoop fuel cfg rows c e = Some (c', e', rows') ->
    sumTokens rows' <= maxTokens cfg \/ rows' = [].
Proof.
  induction fuel as [|fuel IH]; simpl; intros rows c e c' e' rows' Hl;
    [discriminate|].
  destruct (enforceBudget cfg rows) as [[[c1 e1] rows1]|] eqn:Hb; [|discriminate].
  destruct ((c1 =? 0) && (e1 =? 0)) eqn:Ez.
  - apply andb_true_iff in Ez. destruct Ez as [Hc He].
    apply Z.eqb_eq in Hc, He. subst. inversion Hl; subst.
    apply enforceBudget_done in Hb. destruct Hb as [-> Hb]. exact Hb.
  - now apply IH in Hl.
Qed.

(** Rows and levels left bound the number of passes that report
    something. *)
Lemma enforceLoop_returns cfg (n : nat) :
  forall rows c e fuel,
    NoDup (map e_id rows) ->
    count rows + climbs rows <= Z.of_nat n ->
    (S n <= fuel)%nat ->
    exists out, enforceLoop fuel cfg rows c e = Some out.
Proof.
  induction n as [|n IH]; intros rows c e fuel Hnd Hpot Hfuel;
    (destruct fuel as [|fuel]; [lia|]); simpl;
    destruct (enforceBudget_spec cfg rows Hnd)
      as [c1 [e1 [rows1 [Heq [Hc [He [Hcount [Hclimb Hnd1]]]]]]]];
    rewrite Heq; pose proof (count_nonneg rows1);
    pose proof (climbs_nonneg rows1);
    destruct ((c1 =? 0) && (e1 =? 0)) eqn:Ez; eauto.
  - apply andb_false_iff in Ez.
    destruct Ez as [Ez|Ez]; apply Z.eqb_neq in Ez; lia.
  - apply IH; [exact Hnd1 | | lia].
    apply andb_false_iff in Ez.
    destruct Ez as [Ez|Ez]; apply Z.eqb_neq in Ez; lia.
Qed.

(** ** Push *)

Lemma pushEntries_NoDup genID cfg req :
  forall rows ms acc dd err rows' acc' dd',
    pushEntries genID cfg req rows ms acc dd = (err, rows', acc', dd') ->
    NoDup (map e_id rows) -> NoDup (map e_id rows').
Proof.
  induction req as [|entry rest IH]; simpl;
    intros rows ms acc dd err rows' acc' dd' Hp Hnd.
  - inversion Hp; subst. exact Hnd.
  - destruct (String.eqb (pe_Content entry) EmptyString); [now apply IH in Hp|].
    destruct ((0 <? Z.of_nat (List.length (pe_Embedding entry)))
              && isDuplicate rows (pe_Embedding entry) (dedupThreshold cfg));
      [now apply IH in Hp|].
    destruct (estimateTokens (pe_Content entry) >? maxTokens cfg);
      [inversion Hp; subst; exact Hnd|].
    destruct (hasID (genID acc) rows) eqn:Eid; [inversion Hp; subst; exact Hnd|].
    apply IH in Hp; [exact Hp|].
    rewrite map_app. simpl. apply NoDup_app; [exact Hnd| |].
    + constructor; [simpl; tauto | constructor].
    + intros a Ha [<-|[]]. apply hasID_In in Ha. congruence.
Qed.

(** A session that [Create] stores under a configuration with a positive
    default budget has a positive budget and no entry. *)
Lemma Create_budget cfg existing fresh req id s :
  0 < DefaultMaxTokens cfg ->
  Create cfg existing fresh req = inr (id, s) ->
  0 < maxTokens (config s) /\ entries s = [].
Proof.
  intros Hdefault. unfold Create.
  destruct (inb _ existing); [discriminate|].
  intros Hc. inversion Hc; subst. cbn [config entries maxTokens].
  split; [|reflexivity].
  destruct (Z.leb_spec (cr_MaxTokens req) 0); lia.
Qed.

(** C1.  Session budget invariant: when a Push on a session whose budget
    is not negative returns its result, the tokens of the rows that
    remain sum to at most [max_tokens], and the result reports that sum
    and a remaining budget that is not negative.  The fallback eviction
    leaves no exception: it stops only once the budget is met or no row
    is left. *)
Theorem push_within_budget fuel genID s req res s' :
  0 <= maxTokens (config s) ->
  Push fuel genID s req = Some (inr res, s') ->
  config s' = config s
  /\ sumTokens (entries s') <= maxTokens (config s')
  /\ CurrentTokens res = sumTokens (entries s')
  /\ 0 <= BudgetRemaining res.
Proof.
  intros Hmax. unfold Push.
  destruct (pushEntries genID (config s) req (entries s)
                        (selectMaxSeq (entries s)) 0 0)
    as [[[[err|] rows] acc] dd]; [discriminate|].
  destruct (enforceLoop fuel (config s) rows 0 0)
    as [[[c e] rows']|] eqn:Hl; [|discriminate].
  intros Hres. inversion Hres; subst. cbn.
  apply enforceLoop_final in Hl.
  assert (sumTokens rows' <= maxTokens (config s))
    by (destruct Hl as [Hl| ->]; [exact Hl | exact Hmax]).
  repeat split; try lia. exact H.
Qed.

(** C10.  Termination of budget enforcement, on a table whose ids are
    distinct.  Every pass returns; the pass that reports [e] evictions
    leaves [e] rows fewer, and the pass that reports [c] compressions has
    raised compression levels by [c] in all, levels that are bounded by
    Keywords: the levels left to climb, which are never negative, go down
    by [c] at least.  The fallback deletes the oldest rows one after the
    other and stops as soon as the budget is met or no row is left.  So
    the loop ends within as many passes as there are rows and levels
    left, plus one, and Push returns. *)
Theorem push_returns genID s req :
  uniqueIDs (entries s) = true ->
  (forall rows, uniqueIDs rows = true ->
     exists c e rows',
       enforceBudget (config s) rows = Some (c, e, rows')
       /\ 0 <= c /\ 0 <= e
       /\ count rows' + e = count rows
       /\ 0 <= climbs rows' /\ climbs rows' + c <= climbs rows
       /\ uniqueIDs rows' = true)
  /\ (forall rows c e rows',
        uniqueIDs rows = true ->
        evictOldest (config s) rows (sumTokens rows) = Some (c, e, rows') ->
        c = 0 /\ rows' = skipn (Z.to_nat e) rows
        /\ (sumTokens rows' <= maxTokens (config s) \/ rows' = [])
        /\ (forall j, (j < Z.to_nat e)%nat ->
                      maxTokens (config s) < sumTokens (skipn j rows)))
  /\ exists bound : nat,
       forall fuel, (bound <= fuel)%nat ->
                    exists out, Push fuel genID s req = Some out.
Proof.
  intros Huniq. split; [|split].
  - intros rows Hrows. apply distinct_NoDup in Hrows.
    destruct (enforceBudget_spec (config s) rows Hrows)
      as [c [e [rows' [Heq [Hc [He [Hcount [Hclimb Hnd]]]]]]]].
    exists c, e, rows'. pose proof (climbs_nonneg rows').
    repeat split; try assumption. now apply distinct_NoDup.
  - intros rows c e rows' Hrows. apply distinct_NoDup in Hrows.
    unfold evictOldest.
    destruct (evictLoop (List.length rows) (maxTokens (config s)) rows
                        (sumTokens rows) 0) as [[ev rows1]|] eqn:Hl;
      [|discriminate].
    intros Hres. inversion Hres; subst.
    destruct (evictLoop_prefix _ _ _ _ _ _ Hrows Hl)
      as [k [_ [Hev [Hrows' [Hmet Hbefore]]]]].
    subst e. simpl Z.add. rewrite Nat2Z.id. auto.
  - apply distinct_NoDup in Huniq. unfold Push.
    destruct (pushEntries genID (config s) req (entries s)
                          (selectMaxSeq (entries s)) 0 0)
      as [[[[err|] rows] acc] dd] eqn:Hp.
    + exists 0%nat. intros fuel _. eauto.
    + apply pushEntries_NoDup in Hp; [|exact Huniq].
      exists (S (Z.to_nat (count rows + climbs rows))). intros fuel Hfuel.
      destruct (enforceLoop_returns (config s)
                  (Z.to_nat (count rows + climbs rows)) rows 0 0 fuel Hp)
        as [[[c e] rows'] Heq].
      * pose proof (count_nonneg rows). pose proof (climbs_nonneg rows). lia.
      * exact Hfuel.
      * rewrite Heq. eauto.
Qed.

(** ** OverBudget *)

(** An entry that the loop of Push passes over without a write: its
    content is empty, or its embedding is within the threshold of a row. *)
Definition passedOver (cfg : sessionConfig) (rows : list Entry)
    (entry : PushEntry) : bool :=
  String.eqb (pe_Content entry) EmptyString
  || ((0 <? Z.of_nat (List.length (pe_Embedding entry)))
      && isDuplicate rows (pe_Embedding entry) (dedupThreshold cfg)).

Lemma pushEntries_app genID cfg before more :
  forall rows ms acc dd rows1 acc1 dd1,
    pushEntries genID cfg before rows ms acc dd = (None, rows1, acc1, dd1) ->
    exists ms1,
      pushEntries genID cfg (before ++ more) rows ms acc dd
      = pushEntries genID cfg more rows1 ms1 acc1 dd1.
Proof.
  induction before as [|entry rest IH]; simpl;
    intros rows ms acc dd rows1 acc1 dd1 Hp.
  - inversion Hp; subst. now exists ms.
  - destruct (String.eqb (pe_Content entry) EmptyString); [now apply IH|].
    destruct ((0 <? Z.of_nat (List.length (pe_Embedding entry)))
              && isDuplicate rows (pe_Embedding entry) (dedupThreshold cfg));
      [now apply IH|].
    destruct (estimateTokens (pe_Content entry) >? maxTokens cfg);
      [discriminate|].
    destruct (hasID (genID acc) rows); [discriminate|]. now apply IH.
Qed.

Lemma pushEntries_extends genID cfg req :
  forall rows ms acc dd err rows1 acc1 dd1,
    pushEntries genID cfg req rows ms acc dd = (err, rows1, acc1, dd1) ->
    exists added, rows1 = rows ++ added.
Proof.
  induction req as [|entry rest IH]; simpl;
    intros rows ms acc dd err rows1 acc1 dd1 Hp.
  - inversion Hp; subst. exists []. now rewrite app_nil_r.
  - destruct (String.eqb (pe_Content entry) EmptyString); [now apply IH in Hp|].
    destruct ((0 <? Z.of_nat (List.length (pe_Embedding entry)))
              && isDuplicate rows (pe_Embedding entry) (dedupThreshold cfg));
      [now apply IH in Hp|].
    destruct (estimateTokens (pe_Content entry) >? maxTokens cfg);
      [inversion Hp; subst; exists []; now rewrite app_nil_r|].
    destruct (hasID (genID acc) rows);
      [inversion Hp; subst; exists []; now rewrite app_nil_r|].
    apply IH in Hp. destruct Hp as [added ->].
    rewrite <- app_assoc. eauto.
Qed.

Lemma pushEntries_passedOver genID cfg req :
  forall rows ms acc dd err rows1 acc1 dd1,
    forallb (passedOver cfg rows) req = true ->
    pushEntries genID cfg req rows ms acc dd = (err, rows1, acc1, dd1) ->
    err = None /\ rows1 = rows /\ acc1 = acc.
Proof.
  induction req as [|entry rest IH]; simpl;
    intros rows ms acc dd err rows1 acc1 dd1 Hall Hp.
  - inversion Hp; subst. auto.
  - apply andb_true_iff in Hall. destruct Hall as [Hentry Hall].
    unfold passedOver in Hentry.
    destruct (String.eqb (pe_Content entry) EmptyString);
      [now apply IH in Hp|].
    simpl in Hentry. rewrite Hentry in Hp. now apply IH in Hp.
Qed.

(** C2, amended.  Push answers OverBudget at the first entry it reaches
    that is neither empty nor a duplicate and whose estimate exceeds
    [max_tokens]; nothing of that entry or of the entries after it is
    written and no budget enforcement runs, but the entries inserted
    before it stay: the session is left as the loop had it, its earlier
    rows followed by those insertions.  The session is exactly as before
    the Push when every entry before the oversize one was passed over. *)
Theorem push_overbudget fuel genID s before entry rest rows1 acc1 dd1 :
  pushEntries genID (config s) before (entries s)
              (selectMaxSeq (entries s)) 0 0 = (None, rows1, acc1, dd1) ->
  passedOver (config s) rows1 entry = false ->
  maxTokens (config s) < estimateTokens (pe_Content entry) ->
  Push fuel genID s (before ++ entry :: rest)
  = Some (inl ErrOverBudget, {| config := config s; entries := rows1 |})
  /\ (exists added, rows1 = entries s ++ added)
  /\ (forallb (passedOver (config s) (entries s)) before = true -> rows1 = entries s).
Proof.
  intros Hbefore Hentry Hbig. split; [|split].
  - unfold Push.
    destruct (pushEntries_app genID (config s) before (entry :: rest)
                _ _ _ _ _ _ _ Hbefore) as [ms1 ->].
    simpl. unfold passedOver in Hentry.
    destruct (String.eqb (pe_Content entry) EmptyString); [discriminate|].
    simpl in Hentry. rewrite Hentry.
    apply Z.gtb_lt in Hbig. now rewrite Hbig.
  - eapply pushEntries_extends. exact Hbefore.
  - intros Hall.
    now destruct (pushEntries_passedOver _ _ _ _ _ _ _ _ _ _ _ Hall Hbefore)
      as [_ [-> _]].
Qed.

(** ** Importance *)

(** The importance with which the loop of Push inserts an entry. *)
Definition storedImportance (entry : PushEntry) : Q :=
  if Qleb (pe_Importance entry) 0 then (1 # 2)%Q else pe_Importance entry.

(** The row that [Push] inserts for an entry. *)
Definition inserted (entry : PushEntry) (id : string) (seq : Z) : Entry :=
  {| e_id := id; e_role := pe_Role entry;
     e_content := pe_Content entry;
     e_original_content := pe_Content entry;
     e_source := pe_Source entry;
     e_embedding := encodeEmbedding (pe_Embedding entry);
     e_importance := storedImportance entry;
     e_compression_level := 0;
     e_tokens := estimateTokens (pe_Content entry); e_seq := seq |}.

(** The rows of [rows'] were rows of [rows] and have kept their
    importance. *)
Definition keptFrom (rows rows' : list Entry) : Prop :=
  forall r', In r' rows' ->
    exists r, In r rows /\ e_id r = e_id r' /\ e_importance r = e_importance r'.

Lemma keptFrom_refl rows : keptFrom rows rows.
Proof. intros r Hr. now exists r. Qed.

Lemma keptFrom_trans a b c : keptFrom a b -> keptFrom b c -> keptFrom a c.
Proof.
  intros Hab Hbc r Hr. destruct (Hbc r Hr) as [r1 [Hr1 [Hid1 Himp1]]].
  destruct (Hab r1 Hr1) as [r0 [Hr0 [Hid0 Himp0]]].
  exists r0. repeat split; congruence.
Qed.

Lemma keptFrom_delete id rows : keptFrom rows (deleteByID id rows).
Proof.
  intros r Hr. apply filter_In in Hr. exists r. tauto.
Qed.

Lemma keptFrom_update id content level tokens rows :
  keptFrom rows (updateByID id content level tokens rows).
Proof.
  intros r' Hr'. apply in_map_iff in Hr'. destruct Hr' as [r [Heq Hr]].
  exists r. split; [exact Hr|].
  destruct (String.eqb (e_id r) id); subst; auto.
Qed.

Lemma keptFrom_process maxTok cs :
  forall rows cur c e c' e' rows',
    processCandidates maxTok cs rows cur c e = (c', e', rows') ->
    keptFrom rows rows'.
Proof.
  induction cs as [|x rest IH]; simpl; intros rows cur c e c' e' rows' Hp.
  - inversion Hp; subst. apply keptFrom_refl.
  - destruct (cur <=? maxTok); [inversion Hp; subst; apply keptFrom_refl|].
    destruct (cc_level x + 1 >? LevelKeywords); apply IH in Hp;
      eapply keptFrom_trans; try exact Hp;
      [apply keptFrom_delete | apply keptFrom_update].
Qed.

Lemma keptFrom_evict maxTok fuel :
  forall rows cur ev ev' rows',
    evictLoop fuel maxTok rows cur ev = Some (ev', rows') ->
    keptFrom rows rows'.
Proof.
  induction fuel as [|fuel IH]; simpl; intros rows cur ev ev' rows' Hl.
  - destruct (cur <=? maxTok); [inversion Hl; subst; apply keptFrom_refl|].
    destruct rows; [|discriminate]. inversion Hl; subst. apply keptFrom_refl.
  - destruct (cur <=? maxTok); [inversion Hl; subst; apply keptFrom_refl|].
    destruct rows as [|r rest]; [inversion Hl; subst; apply keptFrom_refl|].
    apply IH in Hl. eapply keptFrom_trans; [apply keptFrom_delete | exact Hl].
Qed.

Lemma keptFrom_enforceBudget cfg rows c e rows' :
  enforceBudget cfg rows = Some (c, e, rows') -> keptFrom rows rows'.
Proof.
  unfold enforceBudget.
  destruct (sumTokens rows <=? maxTokens cfg);
    [intros Hb; inversion Hb; subst; apply keptFrom_refl|].
  destruct (Z.of_nat (List.length rows) - preserveRecent cfg <=? 0).
  - unfold evictOldest.
    destruct (evictLoop (List.length rows) (maxTokens cfg) rows
                        (sumTokens rows) 0) as [[ev rows1]|] eqn:Hl;
      [|discriminate].
    intros Hb; inversion Hb; subst. now apply keptFrom_evict in Hl.
  - intros Hb. inversion Hb as [Hp]. now apply keptFrom_process in Hp.
Qed.

Lemma keptFrom_enforceLoop cfg fuel :
  forall rows c e c' e' rows',
    enforceLoop fuel cfg rows c e = Some (c', e', rows') ->
    keptFrom rows rows'.
Proof.
  induction fuel as [|fuel IH]; simpl; intros rows c e c' e' rows' Hl;
    [discriminate|].
  destruct (enforceBudget cfg rows) as [[[c1 e1] rows1]|] eqn:Hb; [|discriminate].
  apply keptFrom_enforceBudget in Hb.
  destruct ((c1 =? 0) && (e1 =? 0)).
  - inversion Hl; subst. exact Hb.
  - apply IH in Hl. eapply keptFrom_trans; eassumption.
Qed.

Lemma pushEntries_importance genID cfg req :
  forall rows ms acc dd err rows1 acc1 dd1,
    pushEntries genID cfg req rows ms acc dd = (err, rows1, acc1, dd1) ->
    forall r, In r rows1 ->
      In r rows
      \/ exists entry, In entry req /\ e_importance r = storedImportance entry.
Proof.
  induction req as [|entry rest IH]; simpl;
    intros rows ms acc dd err rows1 acc1 dd1 Hp r Hr.
  - inversion Hp; subst. now left.
  - assert (Hlater : forall rows0 ms0 acc0 dd0,
               pushEntries genID cfg rest rows0 ms0 acc0 dd0
               = (err, rows1, acc1, dd1) ->
               In r rows0
               \/ exists entry0, In entry0 (entry :: rest)
                                 /\ e_importance r = storedImportance entry0).
    { intros rows0 ms0 acc0 dd0 Hq.
      destruct (IH _ _ _ _ _ _ _ _ Hq r Hr) as [Hin|[e0 [He0 Himp]]];
        [now left | right; exists e0; simpl; tauto]. }
    destruct (String.eqb (pe_Content entry) EmptyString); [now apply Hlater in Hp|].
    destruct ((0 <? Z.of_nat (List.length (pe_Embedding entry)))
              && isDuplicate rows (pe_Embedding entry) (dedupThreshold cfg));
      [now apply Hlater in Hp|].
    destruct (estimateTokens (pe_Content entry) >? maxTokens cfg);
      [inversion Hp; subst; now left|].
    destruct (hasID (genID acc) rows); [inversion Hp; subst; now left|].
    apply Hlater in Hp. destruct Hp as [Hin|Hnew]; [|now right].
    apply in_app_or in Hin. destruct Hin as [Hin|[<-|[]]]; [now left|].
    right. exists entry. split; [now left | reflexivity].
Qed.

Lemma storedImportance_range entry :
  (0 < storedImportance entry)%Q
  /\ ((pe_Importance entry <= 1)%Q -> (storedImportance entry <= 1)%Q)
  /\ ((1 < pe_Importance entry)%Q -> storedImportance entry = pe_Importance entry).
Proof.
  unfold storedImportance. destruct (Qleb (pe_Importance entry) 0) eqn:Ez.
  - apply Qleb_le in Ez. repeat split; try easy.
    intros Hgt. exfalso. apply (Qlt_irrefl 1).
    eapply Qlt_le_trans; [exact Hgt|]. eapply Qle_trans; [exact Ez|easy].
  - apply Qleb_gt in Ez. repeat split; auto.
Qed.

Lemma same_id_same_entry (rows : list Entry) a b :
  NoDup (map e_id rows) -> In a rows -> In b rows -> e_id a = e_id b -> a = b.
Proof.
  induction rows as [|x rest IH]; simpl; [tauto|].
  intros Hnd Ha Hb Hid. inversion Hnd as [|? ? Hx Hrest]; subst.
  destruct Ha as [->|Ha]; destruct Hb as [->|Hb]; auto.
  - exfalso. apply Hx. rewrite Hid. now apply in_map.
  - exfalso. apply Hx. rewrite <- Hid. now apply in_map.
Qed.

(** The loop of [Push] over a request in two parts: the second part
    goes on from the rows, the seq and the counts that the first
    leaves. *)
Lemma pushEntries_app_seq genID cfg before more :
  forall rows ms acc dd rows1 acc1 dd1,
    pushEntries genID cfg before rows ms acc dd = (None, rows1, acc1, dd1) ->
    pushEntries genID cfg (before ++ more) rows ms acc dd
    = pushEntries genID cfg more rows1 (ms + (acc1 - acc)) acc1 dd1.
Proof.
  induction before as [|entry rest IH]; simpl;
    intros rows ms acc dd rows1 acc1 dd1 Hp.
  - inversion Hp; subst. now rewrite Z.sub_diag, Z.add_0_r.
  - destruct (String.eqb (pe_Content entry) EmptyString); [now apply IH|].
    destruct ((0 <? Z.of_nat (List.length (pe_Embedding entry)))
              && isDuplicate rows (pe_Embedding entry) (dedupThreshold cfg));
      [now apply IH|].
    destruct (estimateTokens (pe_Content entry) >? maxTokens cfg);
      [discriminate|].
    destruct (hasID (genID acc) rows); [discriminate|].
    rewrite (IH _ _ _ _ _ _ _ Hp). f_equal. lia.
Qed.

(** C9, amended.  The entry of a request that the loop of Push accepts
    (it has content, is no duplicate of a row that is there when its
    turn comes, fits the budget, and draws a fresh id) is stored as one
    row of its own: the loop appends the row made of its role, content,
    source and embedding, with importance 0.5 when it was pushed with an
    importance of 0 or less and with its importance as pushed otherwise.
    The stored importance is therefore above 0; it is at most 1 when the
    pushed one is, and an importance above 1 is stored as it is.  As long
    as the row of the entry is in the session it keeps that importance,
    and so does every row that was there before the Push. *)
Theorem push_stored_importance fuel genID s before entry after out s'
    rows1 acc1 dd1 :
  uniqueIDs (entries s) = true ->
  Push fuel genID s (before ++ entry :: after) = Some (out, s') ->
  pushEntries genID (config s) before (entries s) (selectMaxSeq (entries s)) 0 0
  = (None, rows1, acc1, dd1) ->
  String.eqb (pe_Content entry) EmptyString = false ->
  (0 <? Z.of_nat (List.length (pe_Embedding entry)))
  && isDuplicate rows1 (pe_Embedding entry) (dedupThreshold (config s)) = false ->
  (estimateTokens (pe_Content entry) >? maxTokens (config s)) = false ->
  hasID (genID acc1) rows1 = false ->
  let row := inserted entry (genID acc1) (selectMaxSeq (entries s) + acc1 + 1) in
  pushEntries genID (config s) (before ++ [entry]) (entries s)
              (selectMaxSeq (entries s)) 0 0
  = (None, rows1 ++ [row], acc1 + 1, dd1)
  /\ e_importance row = storedImportance entry
  /\ (0 < storedImportance entry)%Q
  /\ ((pe_Importance entry <= 0)%Q -> storedImportance entry = (1 # 2)%Q)
  /\ ((0 < pe_Importance entry)%Q -> storedImportance entry = pe_Importance entry)
  /\ ((pe_Importance entry <= 1)%Q -> (storedImportance entry <= 1)%Q)
  /\ ((1 < pe_Importance entry)%Q -> (1 < storedImportance entry)%Q)
  /\ (forall r', In r' (entries s') -> e_id r' = genID acc1 ->
                 e_importance r' = storedImportance entry)
  /\ (forall r', In r' (entries s') ->
        (exists r, In r (entries s) /\ e_id r = e_id r'
                   /\ e_importance r = e_importance r')
        \/ (exists entry0,
              In entry0 (before ++ entry :: after)
              /\ e_importance r' = storedImportance entry0)).
Proof.
  intros Hu Hpush Hbefore Hcontent Hdup Hfits Hfresh row.
  apply distinct_NoDup in Hu.
  assert (Hone : pushEntries genID (config s) (before ++ [entry]) (entries s)
                             (selectMaxSeq (entries s)) 0 0
                 = (None, rows1 ++ [row], acc1 + 1, dd1)).
  { rewrite (pushEntries_app_seq _ _ _ [entry] _ _ _ _ _ _ _ Hbefore).
    cbn [pushEntries]. rewrite Hcontent, Hdup, Hfits, Hfresh.
    unfold row, inserted, storedImportance. repeat f_equal; lia. }
  split; [exact Hone|]. split; [reflexivity|].
  destruct (storedImportance_range entry) as [Hpos [Hle Hgt]].
  split; [exact Hpos|].
  split; [intros Hz; unfold storedImportance; apply Qleb_le in Hz; now rewrite Hz|].
  split; [intros Hz; unfold storedImportance; apply Qleb_gt in Hz; now rewrite Hz|].
  split; [exact Hle|].
  split; [intros Hz; now rewrite (Hgt Hz)|].
  unfold Push in Hpush.
  destruct (pushEntries genID (config s) (before ++ entry :: after) (entries s)
                        (selectMaxSeq (entries s)) 0 0)
    as [[[err rows] acc] dd] eqn:Hp.
  assert (Hnd : NoDup (map e_id rows))
    by exact (pushEntries_NoDup _ _ _ _ _ _ _ _ _ _ _ Hp Hu).
  assert (Hin : In row rows).
  { replace (before ++ entry :: after) with ((before ++ [entry]) ++ after) in Hp
      by (now rewrite <- app_assoc).
    rewrite (pushEntries_app_seq _ _ _ after _ _ _ _ _ _ _ Hone) in Hp.
    apply pushEntries_extends in Hp. destruct Hp as [added ->].
    apply in_or_app. left. apply in_or_app. right. now left. }
  assert (Hkept : keptFrom rows (entries s')).
  { destruct err as [err|].
    - inversion Hpush; subst. apply keptFrom_refl.
    - destruct (enforceLoop fuel (config s) rows 0 0)
        as [[[c e] rows']|] eqn:Hl; [|discriminate].
      inversion Hpush; subst. now apply keptFrom_enforceLoop in Hl. }
  split.
  - intros r' Hr' Hid. destruct (Hkept r' Hr') as [r1 [Hr1 [Hid1 Himp]]].
    assert (Hsame : r1 = row).
    { apply (same_id_same_entry rows r1 row Hnd Hr1 Hin).
      rewrite Hid1, Hid. reflexivity. }
    rewrite <- Himp, Hsame. reflexivity.
  - intros r' Hr'. destruct (Hkept r' Hr') as [r1 [Hr1 [Hid1 Himp]]].
    destruct (pushEntries_importance _ _ _ _ _ _ _ _ _ _ _ Hp r1 Hr1)
      as [Hold|[entry0 [Hentry Hst]]].
    + left. now exists r1.
    + right. exists entry0. split; [exact Hentry|]. now rewrite <- Himp.
Qed.

(** ** The order of the candidates *)

Lemma lessImportance_strict_weak : strict_weak lessImportance.
Proof.
  unfold lessImportance. split.
  - intros a b Hab. apply Qltb_lt in Hab. apply Qltb_ge.
    now apply Qlt_le_weak.
  - intros a b c Hab Hbc. apply Qltb_ge in Hab, Hbc. apply Qltb_ge.
    eapply Qle_trans; eassumption.
Qed.

(** What [sort.Slice] does guarantee of [sortCandidates]: the same
    candidates, importance ascending. *)
Lemma sortCandidates_ascending cs :
  Permutation cs (sortCandidates cs)
  /\ StronglySorted (fun a b => (cc_importance a <= cc_importance b)%Q)
                    (sortCandidates cs).
Proof.
  split; [apply sortSlice_perm|].
  pose proof (sortSlice_sorted compressCandidate lessImportance cs
                lessImportance_strict_weak) as Hs.
  unfold sortCandidates.
  induction Hs as [|a l Hs IH Ha]; constructor; [exact IH|].
  rewrite Forall_forall in *. intros b Hb. apply Qltb_ge. now apply Ha.
Qed.

(** ** The sentence level of the cascade *)

Fixpoint noTerminator (text : string) : bool :=
  match text with
  | EmptyString => true
  | String c rest => negb (isTerminator c) && noTerminator rest
  end.

Lemma firstTerminator_none text :
  noTerminator text = true -> forall i, firstTerminator text i = None.
Proof.
  induction text as [|c rest IH]; simpl; intros Hno i; [reflexivity|].
  apply andb_true_iff in Hno. destruct Hno as [Hc Hrest].
  apply negb_true_iff in Hc. rewrite Hc. now apply IH.
Qed.

Lemma firstTerminator_found pre t post :
  noTerminator pre = true -> isTerminator t = true ->
  forall i, firstTerminator (pre ++ String t post) i
            = Some (i + String.length pre)%nat.
Proof.
  intros Hno Ht. induction pre as [|c rest IH]; simpl; intros i.
  - rewrite Ht. f_equal. lia.
  - simpl in Hno. apply andb_true_iff in Hno. destruct Hno as [Hc Hrest].
    apply negb_true_iff in Hc. rewrite Hc, IH by exact Hrest. f_equal. lia.
Qed.

Lemma substring_through pre t post :
  substring 0 (String.length pre + 1) (pre ++ String t post)
  = (pre ++ String t EmptyString)%string.
Proof.
  induction pre as [|c rest IH]; simpl.
  - now destruct post.
  - now rewrite IH.
Qed.

Lemma scanSpace_found text cut :
  forall top, (1 <= cut <= top)%nat ->
    isSpaceAt text cut = true ->
    (forall j, (cut < j <= top)%nat -> isSpaceAt text j = false) ->
    scanSpace text top = cut.
Proof.
  induction top as [|top IH]; intros Hcut Hsp Hno; [lia|]. simpl.
  destruct (Nat.eq_dec cut (S top)) as [->|Hne].
  - now rewrite Hsp.
  - rewrite (Hno (S top)) by lia. apply IH; [lia | exact Hsp|].
    intros j Hj. apply Hno. lia.
Qed.

Lemma scanSpace_none text :
  forall top, (forall j, (1 <= j <= top)%nat -> isSpaceAt text j = false) ->
    scanSpace text top = 0%nat.
Proof.
  induction top as [|top IH]; intros Hno; [reflexivity|]. simpl.
  rewrite (Hno (S top)) by lia. apply IH. intros j Hj. apply Hno. lia.
Qed.

(** C8, amended.  The sentence level returns the text up to and
    including its first full stop, exclamation or question mark.  When
    there is none: a text of at most 50 bytes is returned as it is; a
    longer one is cut before the last space found from byte index 50 down
    to byte index 1, or at byte 50 when there is no space there, the cut
    is trimmed by [strings.TrimSpace], and three full stops are added in
    both cases. *)
Theorem sentence_level :
  (forall pre t post,
      noTerminator pre = true -> isTerminator t = true ->
      compressToLevel (pre ++ String t post) LevelSentence
      = (pre ++ String t EmptyString)%string)
  /\ (forall text,
        noTerminator text = true -> len text <= 50 ->
        compressToLevel text LevelSentence = text)
  /\ (forall text cut,
        noTerminator text = true -> 50 < len text ->
        (1 <= cut <= 50)%nat -> isSpaceAt text cut = true ->
        (forall j, (cut < j <= 50)%nat -> isSpaceAt text j = false) ->
        compressToLevel text LevelSentence
        = (TrimSpace (substring 0 cut text) ++ "...")%string)
  /\ (forall text,
        noTerminator text = true -> 50 < len text ->
        (forall j, (1 <= j <= 50)%nat -> isSpaceAt text j = false) ->
        compressToLevel text LevelSentence
        = (TrimSpace (substring 0 50 text) ++ "...")%string).
Proof.
  unfold compressToLevel. cbn [Z.eqb LevelSentence LevelSummary].
  repeat split.
  - intros pre t post Hno Ht.
    rewrite (firstTerminator_found pre t post Hno Ht 0). simpl Nat.add.
    apply substring_through.
  - intros text Hno Hlen. rewrite firstTerminator_none by exact Hno.
    apply Z.ltb_ge in Hlen. now rewrite Hlen.
  - intros text cut Hno Hlen Hcut Hsp Hlast.
    rewrite firstTerminator_none by exact Hno.
    apply Z.ltb_lt in Hlen. rewrite Hlen.
    rewrite (scanSpace_found text cut 50 Hcut Hsp Hlast).
    destruct cut; [lia|]. reflexivity.
  - intros text Hno Hlen Hnone.
    rewrite firstTerminator_none by exact Hno.
    apply Z.ltb_lt in Hlen. rewrite Hlen.
    now rewrite (scanSpace_none text 50 Hnone).
Qed.

End Enforcement.
End SessionProofs.

Module SessionCases.
Import Session SessionProofs Reference.
Local Open Scope string_scope.

(** ** Data to run the model on *)

Definition letterID (k : Z) : string :=
  String (ascii_of_nat (65 + Z.to_nat k)) EmptyString.

Definition plain (role content : string) (importance : Q) : PushEntry :=
  {| pe_Role := role; pe_Content := content; pe_Source := EmptyString;
     pe_Embedding := []; pe_Importance := importance |}.

Definition freshSession (maxTok preserve : Z) : SessionState :=
  {| config := {| maxTokens := maxTok; dedupThreshold := (15 # 100)%Q;
                  preserveRecent := preserve |};
     entries := [] |}.

Definition threeMessages : list PushEntry :=
  [ plain "user" "First message about authentication and JWT tokens." (3 # 10)%Q;
    plain "tool" "Second message with file contents from the auth module." (5 # 10)%Q;
    plain "user" "Third message asking about the bug fix." 1%Q ].

Definition twoAlike : list PushEntry :=
  [ plain "user" "First message about authentication and JWT tokens" (1 # 2)%Q;
    plain "tool" "Second message with file contents from the auth module" (1 # 2)%Q;
    plain "user" "Third message asking about the bug fix." 1%Q ].

(** Fourteen entries of 40 bytes, 10 tokens each: twelve of importance
    0.5, then one of 0.1 and one of 1.0. *)
Definition fortyBytes : string := "A step of the work, forty bytes of text.".

Definition fourteen : list PushEntry :=
  repeat (plain "tool" fortyBytes (1 # 2)%Q) 12
  ++ [ plain "tool" fortyBytes (1 # 10)%Q; plain "user" fortyBytes 1%Q ].

Definition longNote : string :=
  "A note that is long enough to need more than twenty tokens, whatever the session holds by now.".

(** The savings as the specification words them: the estimates of the
    original contents less the tokens, both summed over all the rows of
    the session. *)
Definition specSavings (s : SessionState) : Z :=
  fold_right (fun r acc => estimateTokens (e_original_content r) + acc) 0
             (entries s)
  - sumTokens (entries s).

Fixpoint lastChar (s : string) : option ascii :=
  match s with
  | EmptyString => None
  | String c EmptyString => Some c
  | String _ rest => lastChar rest
  end.

Lemma lastChar_dots cut : lastChar (cut ++ "...") = Some "."%char.
Proof.
  induction cut as [|c rest IH]; [reflexivity|].
  simpl. destruct (rest ++ "...") eqn:Er; [|exact IH].
  destruct rest; discriminate.
Qed.

(** ** C1 and C10 at work *)

Lemma push_within_budget_witness :
  exists res s',
    Push (E:=asciiEnv) 40 letterID (freshSession 30 1) threeMessages
    = Some (inr res, s')
    /\ Evicted res = 1
    /\ sumTokens (entries s') <= maxTokens (config s').
Proof.
  eexists. eexists.
  assert (Hrun : Push (E:=asciiEnv) 40 letterID (freshSession 30 1) threeMessages
                 = Some (inr _, _)) by (vm_compute; reflexivity).
  split; [exact Hrun|]. split; [reflexivity|].
  apply (push_within_budget (E:=asciiEnv) 40 letterID (freshSession 30 1)
           threeMessages _ _ ltac:(cbn; lia) Hrun).
Defined.

Lemma push_returns_witness :
  exists bound : nat,
    forall fuel, (bound <= fuel)%nat ->
      exists out,
        Push (E:=asciiEnv) fuel letterID (freshSession 30 1) threeMessages
        = Some out.
Proof.
  exact (proj2 (proj2 (push_returns (E:=asciiEnv) letterID (freshSession 30 1)
                         threeMessages eq_refl))).
Defined.

(** ** C2 *)

(** C2 as stated fails: an oversize entry after an accepted one gives
    OverBudget and a session that holds the accepted entry. *)
Lemma overbudget_keeps_accepted_entries :
  let s := freshSession 20 10 in
  let req := [ plain "user" "short note" (1 # 2)%Q;
               plain "tool" longNote (1 # 2)%Q ] in
  (exists entry, In entry req
                 /\ maxTokens (config s) < estimateTokens (pe_Content entry))
  /\ exists s', Push (E:=asciiEnv) 0 letterID s req = Some (inl ErrOverBudget, s')
                /\ List.length (entries s') = 1%nat
                /\ s' <> s.
Proof.
  split.
  - eexists. split; [right; left; reflexivity | vm_compute; reflexivity].
  - eexists. split; [vm_compute; reflexivity|].
    split; [reflexivity | discriminate].
Qed.

Lemma push_overbudget_witness :
  Push (E:=asciiEnv) 0 letterID (freshSession 20 10)
       ([ plain "user" EmptyString (1 # 2)%Q ] ++ plain "tool" longNote (1 # 2)%Q
        :: [ plain "user" "short note" (1 # 2)%Q ])
  = Some (inl ErrOverBudget, freshSession 20 10).
Proof.
  exact (proj1 (push_overbudget (E:=asciiEnv) 0 letterID (freshSession 20 10)
                  [ plain "user" EmptyString (1 # 2)%Q ]
                  (plain "tool" longNote (1 # 2)%Q)
                  [ plain "user" "short note" (1 # 2)%Q ]
                  [] 0 0 eq_refl eq_refl eq_refl)).
Defined.

(** ** C9 *)

(** C9 as stated fails: an importance above 1 is stored as it is. *)
Lemma importance_above_one_is_stored :
  exists res s' r,
    Push (E:=asciiEnv) 1 letterID (freshSession 1000 10)
         [ plain "user" "note" (2 # 1)%Q ] = Some (inr res, s')
    /\ Accepted res = 1
    /\ In r (entries s')
    /\ (1 < e_importance r)%Q.
Proof.
  eexists. eexists. eexists.
  split; [vm_compute; reflexivity|].
  split; [reflexivity|]. split; [left; reflexivity|].
  vm_compute. reflexivity.
Qed.

Lemma push_stored_importance_witness :
  exists out s',
    Push (E:=asciiEnv) 1 letterID (freshSession 1000 10)
         ([ plain "user" "first" (1 # 2)%Q ]
          ++ plain "user" "note" (-1 # 1)%Q :: [ plain "user" "last" (2 # 1)%Q ])
    = Some (out, s')
    /\ forall r', In r' (entries s') -> e_id r' = letterID 1 ->
                  e_importance r' = (1 # 2)%Q.
Proof.
  eexists. eexists.
  assert (Hrun : Push (E:=asciiEnv) 1 letterID (freshSession 1000 10)
                      ([ plain "user" "first" (1 # 2)%Q ]
                       ++ plain "user" "note" (-1 # 1)%Q
                          :: [ plain "user" "last" (2 # 1)%Q ])
                 = Some (_, _))
    by (vm_compute; reflexivity).
  split; [exact Hrun|].
  exact (proj1 (proj2 (proj2 (proj2 (proj2 (proj2 (proj2 (proj2
           (push_stored_importance (E:=asciiEnv) 1 letterID
              (freshSession 1000 10)
              [ plain "user" "first" (1 # 2)%Q ]
              (plain "user" "note" (-1 # 1)%Q)
              [ plain "user" "last" (2 # 1)%Q ]
              _ _
              [ inserted (plain "user" "first" (1 # 2)%Q) (letterID 0) 1 ] 1 0
              eq_refl Hrun eq_refl eq_refl eq_refl eq_refl eq_refl))))))))).
Defined.

(** ** C3 *)

(** C3.  The candidates are processed in the order [sort.Slice] gives
    them by importance (ascending: [sortCandidates_ascending]); whether
    the older of two candidates of equal importance comes first is not
    settled by the code, it is left to [sort.Slice], whose contract
    allows either order.  Under [reversingEnv], which meets that
    contract, the newer of two such candidates is processed first, and a
    Push evicts the newer row (seq 2) where, under [asciiEnv], it evicts
    the older one (seq 1).  Go's own [sort.Slice] does so from thirteen
    candidates on: with [fourteen] pushed into a session of 100 tokens
    that preserves one entry, the thirteen candidates come out with the
    thirteenth entry (id M, importance 0.1) first, as they should, and
    then the seventh (id G) ahead of the first (id A), both of
    importance 0.5. *)
Lemma tie_order_left_to_sort_slice :
  (exists older newer : Entry,
      e_seq older < e_seq newer
      /\ e_importance older = e_importance newer
      /\ sortCandidates (E:=reversingEnv) (map candidateOf [older; newer])
         = [candidateOf newer; candidateOf older])
  /\ option_map (fun out => map e_seq (entries (snd out)))
                (Push (E:=asciiEnv) 40 letterID (freshSession 30 1) twoAlike)
     = Some [2; 3]
  /\ option_map (fun out => map e_seq (entries (snd out)))
                (Push (E:=reversingEnv) 40 letterID (freshSession 30 1) twoAlike)
     = Some [1; 3]
  /\ (forall breakPatterns heapSort,
        let '(_, rows, _, _) :=
          pushEntries (E:=asciiEnv) letterID (config (freshSession 100 1))
                      fourteen [] 0 0 0 in
        map e_seq rows = [1; 2; 3; 4; 5; 6; 7; 8; 9; 10; 11; 12; 13; 14]
        /\ map e_id rows
           = ["A"; "B"; "C"; "D"; "E"; "F"; "G"; "H"; "I"; "J"; "K"; "L";
              "M"; "N"]
        /\ option_map (map cc_id)
             (GoSort.Slice lessImportance breakPatterns heapSort
                           (map candidateOf (firstn 13 rows)))
           = Some ["M"; "G"; "C"; "D"; "E"; "F"; "A"; "H"; "I"; "J"; "K";
                   "L"; "B"]).
Proof.
  split; [|split; [|split]]; try (vm_compute; reflexivity).
  - exists {| e_id := "A"; e_role := "user"; e_content := "one";
              e_original_content := "one"; e_source := EmptyString;
              e_embedding := []; e_importance := (1 # 2)%Q;
              e_compression_level := 0; e_tokens := 1; e_seq := 1 |},
           {| e_id := "B"; e_role := "user"; e_content := "two";
              e_original_content := "two"; e_source := EmptyString;
              e_embedding := []; e_importance := (1 # 2)%Q;
              e_compression_level := 0; e_tokens := 1; e_seq := 2 |}.
    repeat split.
  - intros breakPatterns heapSort. vm_compute. repeat split.
Qed.

(** ** C4 *)

(** C4.  The savings that [Context] reports are not the estimates of the
    original contents less the tokens over the whole session.  With two
    rows of four bytes each and nothing compressed, the savings of the
    specification are 0; [Context] reports 1, and 2 under a role filter:
    it divides the sum of the lengths by 4 instead of summing the
    estimates, and takes away the tokens of the entries it returns. *)
Lemma context_savings_two_rows :
  exists res s',
    Push (E:=asciiEnv) 1 letterID (freshSession 1000 10)
         [ plain "user" "aaaa" (1 # 2)%Q; plain "tool" "bbbb" (1 # 2)%Q ]
    = Some (inr res, s')
    /\ Compressed res = 0 /\ Evicted res = 0
    /\ specSavings s' = 0
    /\ CompressionSavings
         (ctx_Stats (Context s' {| ctx_MaxTokens := 0; ctx_Role := EmptyString |}))
       = 1
    /\ CompressionSavings
         (ctx_Stats (Context s' {| ctx_MaxTokens := 0; ctx_Role := "tool" |}))
       = 2.
Proof.
  eexists. eexists. split; [vm_compute; reflexivity|].
  repeat split.
Qed.

(** ** C8 *)

(** C8 as stated fails: a short text without a terminator is returned
    as it is, neither cut nor followed by three full stops. *)
Lemma sentence_short_text_kept :
  noTerminator "hello world" = true
  /\ compressToLevel (E:=asciiEnv) "hello world" LevelSentence = "hello world"
  /\ forall cut, compressToLevel (E:=asciiEnv) "hello world" LevelSentence
                 <> cut ++ "...".
Proof.
  split; [reflexivity|]. split; [reflexivity|].
  intros cut Heq. apply (f_equal lastChar) in Heq.
  rewrite lastChar_dots in Heq. discriminate.
Qed.

Lemma sentence_level_witness :
  compressToLevel (E:=asciiEnv) "Budget met. More follows" LevelSentence
  = "Budget met."
  /\ compressToLevel (E:=asciiEnv)
       "a long line of words without any mark that would end the sentence early"
       LevelSentence
     = "a long line of words without any mark that would...".
Proof.
  split.
  - exact (proj1 (sentence_level (E:=asciiEnv)) "Budget met" "."%char
                 " More follows" eq_refl eq_refl).
  - refine (proj1 (proj2 (proj2 (sentence_level (E:=asciiEnv))))
              "a long line of words without any mark that would end the sentence early"
              48%nat eq_refl eq_refl _ eq_refl _).
    + lia.
    + intros j Hj.
      assert (Hj' : j = 49%nat \/ j = 50%nat) by lia.
      destruct Hj' as [-> | ->]; reflexivity.
Defined.

End SessionCases.

(** * Properties of package memory *)

Module MemoryProofs.
Import Memory.

(** ** What the statements are phrased with *)

(** The primary key of [memories]: ids pairwise distinct; and no id is
    the empty string, with which [findDuplicate] says "none"
    ([generateID] returns 24 hexadecimal digits). *)
Definition uniqueIDs (rows : list Row) : bool :=
  distinct (map m_id rows).

Definition properIDs (rows : list Row) : bool :=
  forallb (fun r => negb (String.eqb (m_id r) EmptyString)) rows.

(** A row with another text and level, as [decayRows] rewrites it. *)
Definition rewritten (r : Row) (text : string) (level : Z) : Row :=
  {| m_id := m_id r; m_text := text;
     m_embedding := m_embedding r; m_source := m_source r;
     m_session_id := m_session_id r; m_metadata := m_metadata r;
     m_decay_level := level;
     m_created_at := m_created_at r;
     m_last_referenced := m_last_referenced r;
     m_access_count := m_access_count r;
     m_tags := m_tags r |}.

(** A row as [touch] leaves it. *)
Definition touched (r : Row) (now : Z) : Row :=
  {| m_id := m_id r; m_text := m_text r;
     m_embedding := m_embedding r; m_source := m_source r;
     m_session_id := m_session_id r; m_metadata := m_metadata r;
     m_decay_level := m_decay_level r;
     m_created_at := m_created_at r;
     m_last_referenced := now;
     m_access_count := m_access_count r + 1;
     m_tags := m_tags r |}.

(** What [decayRows] selects. *)
Definition due (before : Z -> Z -> bool) (cutoff fromLevel : Z) (r : Row)
    : bool :=
  before (m_last_referenced r) cutoff && (m_decay_level r =? fromLevel).

(** ** [decayRows], row by row *)

Lemma setTextLevel_ids id text level rows :
  map m_id (setTextLevel id text level rows) = map m_id rows.
Proof.
  induction rows as [|r rest IH]; simpl; [reflexivity|].
  rewrite IH. now destruct (String.eqb (m_id r) id).
Qed.

(** The updates of [decayRows] taken together: each row of the table
    takes the rewrite of the first selected row that bears its id. *)
Lemma decay_fold toLevel transform selected :
  NoDup (map m_id selected) ->
  forall table,
    fold_left (fun t e => setTextLevel (m_id e) (transform (m_text e)) toLevel t)
              selected table
    = map (fun r =>
             match find (fun e => String.eqb (m_id e) (m_id r)) selected with
             | Some e => rewritten r (transform (m_text e)) toLevel
             | None => r
             end) table.
Proof.
  induction selected as [|e rest IH]; intros Hnd table; simpl.
  - now rewrite map_id.
  - inversion Hnd as [|? ? He Hrest]; subst.
    rewrite IH by exact Hrest. unfold setTextLevel. rewrite map_map.
    apply map_ext. intros r.
    rewrite (String.eqb_sym (m_id e) (m_id r)).
    destruct (String.eqb (m_id r) (m_id e)) eqn:Eid; [|reflexivity].
    apply String.eqb_eq in Eid. cbn [m_id].
    destruct (find (fun e0 => String.eqb (m_id e0) (m_id r)) rest) eqn:Ef;
      [|reflexivity].
    apply find_some in Ef. destruct Ef as [Hin Heq].
    apply String.eqb_eq in Heq. exfalso. apply He.
    rewrite <- Eid, <- Heq. now apply in_map.
Qed.

Lemma find_by_id (p : Row -> bool) rows r :
  NoDup (map m_id rows) -> In r rows ->
  find (fun e => String.eqb (m_id e) (m_id r)) (filter p rows)
  = if p r then Some r else None.
Proof.
  induction rows as [|x rest IH]; simpl; [tauto|].
  intros Hnd Hin. inversion Hnd as [|? ? Hx Hrest]; subst.
  destruct Hin as [->|Hin].
  - destruct (p r) eqn:Ep; simpl.
    + now rewrite String.eqb_refl.
    + destruct (find _ (filter p rest)) eqn:Ef; [|reflexivity].
      apply find_some in Ef. destruct Ef as [Hin Heq].
      apply filter_In in Hin. apply String.eqb_eq in Heq.
      exfalso. apply Hx. rewrite <- Heq. now apply in_map.
  - assert (Hne : String.eqb (m_id x) (m_id r) = false).
    { apply String.eqb_neq. intros Heq. apply Hx. rewrite Heq.
      now apply in_map. }
    destruct (p x); simpl; [rewrite Hne|]; now apply IH.
Qed.

Lemma filter_ids_NoDup (p : Row -> bool) rows :
  NoDup (map m_id rows) -> NoDup (map m_id (filter p rows)).
Proof.
  induction rows as [|x rest IH]; simpl; intros Hnd; [constructor|].
  inversion Hnd as [|? ? Hx Hrest]; subst.
  destruct (p x); simpl; [constructor|]; auto.
  intros Hin. apply Hx. apply in_map_iff in Hin.
  destruct Hin as [y [Heq Hy]]. apply filter_In in Hy.
  rewrite <- Heq. apply in_map. tauto.
Qed.

(** On a table with distinct ids [decayRows] rewrites exactly the rows
    it selects, each from its own text. *)
Lemma decayRows_map before cutoff fromLevel toLevel transform rows :
  NoDup (map m_id rows) ->
  decayRows before cutoff fromLevel toLevel transform rows
  = map (fun r => if due before cutoff fromLevel r
                  then rewritten r (transform (m_text r)) toLevel else r) rows.
Proof.
  intros Hnd. unfold decayRows.
  rewrite decay_fold by (now apply filter_ids_NoDup).
  apply map_ext_in. intros r Hr.
  rewrite (find_by_id _ rows r Hnd Hr). unfold due.
  now destruct (before (m_last_referenced r) cutoff && (m_decay_level r =? fromLevel)).
Qed.

Lemma decayRows_ids before cutoff fromLevel toLevel transform rows :
  NoDup (map m_id rows) ->
  map m_id (decayRows before cutoff fromLevel toLevel transform rows)
  = map m_id rows.
Proof.
  intros Hnd. rewrite decayRows_map by exact Hnd. rewrite map_map.
  apply map_ext. intros r. now destruct (due before cutoff fromLevel r).
Qed.

(** ** Embeddings in a blob *)

(** The values of an embedding are 32-bit patterns. *)
Definition words32 (emb : list float32) : bool :=
  forallb (fun v => (0 <=? v) && (v <? 2 ^ 32)) emb.

Lemma byte_bit v k n :
  0 <= k -> 0 <= n ->
  Z.testbit (Z.shiftl (Z.shiftr v k mod 2 ^ 8) k) n
  = if (k <=? n) && (n <? k + 8) then Z.testbit v n else false.
Proof.
  intros Hk Hn. rewrite Z.shiftl_spec by exact Hn.
  destruct (Z.leb_spec k n); cbn [andb].
  - destruct (Z.ltb_spec n (k + 8)).
    + rewrite Z.mod_pow2_bits_low by lia.
      rewrite Z.shiftr_spec by lia. f_equal. lia.
    + apply Z.mod_pow2_bits_high. lia.
  - apply Z.testbit_neg_r. lia.
Qed.

Lemma bit_outside (a b n : Z) (x : bool) :
  n < a \/ b <= n -> (if (a <=? n) && (n <? b) then x else false) = false.
Proof.
  intros Hout. destruct (Z.leb_spec a n); destruct (Z.ltb_spec n b);
    cbn [andb]; try reflexivity. lia.
Qed.

Lemma bit_inside (a b n : Z) (x : bool) :
  a <= n < b -> (if (a <=? n) && (n <? b) then x else false) = x.
Proof.
  intros Hin. destruct (Z.leb_spec a n); destruct (Z.ltb_spec n b);
    cbn [andb]; try reflexivity; lia.
Qed.

Lemma uint32_putUint32 v :
  0 <= v < 2 ^ 32 ->
  uint32 (v mod 256) (Z.shiftr v 8 mod 256) (Z.shiftr v 16 mod 256)
         (Z.shiftr v 24 mod 256) = v.
Proof.
  intros Hv. unfold uint32. change 256 with (2 ^ 8).
  apply Z.bits_inj'. intros n Hn.
  rewrite !Z.lor_spec, !byte_bit by lia.
  assert (Hhigh : 32 <= n -> Z.testbit v n = false).
  { intros Hge. rewrite <- (Z.mod_small v (2 ^ 32)) by lia.
    apply Z.mod_pow2_bits_high. lia. }
  destruct (Z.lt_ge_cases n 8) as [H8|H8];
    [|destruct (Z.lt_ge_cases n 16) as [H16|H16];
      [|destruct (Z.lt_ge_cases n 24) as [H24|H24];
        [|destruct (Z.lt_ge_cases n 32) as [H32|H32]]]].
  - rewrite Z.mod_pow2_bits_low by lia.
    rewrite !bit_outside by lia. now rewrite !orb_false_r.
  - rewrite Z.mod_pow2_bits_high by lia.
    rewrite (bit_inside 8) by lia. rewrite !bit_outside by lia.
    now rewrite !orb_false_r.
  - rewrite Z.mod_pow2_bits_high by lia.
    rewrite (bit_inside 16) by lia. rewrite !bit_outside by lia.
    now rewrite !orb_false_r.
  - rewrite Z.mod_pow2_bits_high by lia.
    rewrite (bit_inside 24) by lia. rewrite !bit_outside by lia.
    reflexivity.
  - rewrite Z.mod_pow2_bits_high by lia.
    rewrite !bit_outside by lia. symmetry. now apply Hhigh.
Qed.

Lemma decodeWords_encode emb :
  words32 emb = true -> decodeWords (encodeEmbedding emb) = emb.
Proof.
  induction emb as [|v rest IH]; simpl; intros Hw; [reflexivity|].
  apply andb_true_iff in Hw. destruct Hw as [Hv Hrest].
  apply andb_true_iff in Hv. destruct Hv as [Hlo Hhi].
  apply Z.leb_le in Hlo. apply Z.ltb_lt in Hhi.
  fold (encodeEmbedding rest). rewrite IH by exact Hrest.
  f_equal. apply uint32_putUint32. lia.
Qed.

Lemma encodeEmbedding_length emb :
  Z.of_nat (List.length (encodeEmbedding emb)) = 4 * Z.of_nat (List.length emb).
Proof.
  induction emb as [|v rest IH]; [reflexivity|].
  unfold encodeEmbedding in *. cbn [flat_map putUint32 app List.length].
  lia.
Qed.

(** Embedding round trip: a blob written by [encodeEmbedding] decodes
    to the embedding it was written from. *)
Lemma decode_encode emb :
  words32 emb = true -> decodeEmbedding (encodeEmbedding emb) = emb.
Proof.
  intros Hw. unfold decodeEmbedding. rewrite encodeEmbedding_length.
  destruct emb as [|v rest]; [reflexivity|].
  replace (4 * Z.of_nat (List.length (v :: rest)) =? 0) with false
    by (symmetry; apply Z.eqb_neq; simpl List.length; lia).
  rewrite Z.mul_comm, Z.rem_mul by lia.
  change (false || negb (0 =? 0)) with false. cbv iota.
  now apply decodeWords_encode.
Qed.

Section Decay.
Context {E : GoEnv}.
Variable before : Z -> Z -> bool.

(** The three phases of a pass, in the order of [runOnce]. *)
Definition evictPhase (cfg : Config) (now : Z) (rows : list Row) : list Row :=
  if EvictAge cfg >? 0 then evictRows before (now - EvictAge cfg) rows else rows.

Definition keywordsPhase (cfg : Config) (now : Z) (rows : list Row) : list Row :=
  if KeywordsAge cfg >? 0
  then decayRows before (now - KeywordsAge cfg) DecaySummary DecayKeywords
                 extractKeywords rows
  else rows.

Definition summaryPhase (cfg : Config) (now : Z) (rows : list Row) : list Row :=
  if SummaryAge cfg >? 0
  then decayRows before (now - SummaryAge cfg) DecayFull DecaySummary
                 extractSummary rows
  else rows.

(** What a pass makes of one row. *)
Definition keywordsStep (cfg : Config) (now : Z) (r : Row) : Row :=
  if (KeywordsAge cfg >? 0) && due before (now - KeywordsAge cfg) DecaySummary r
  then rewritten r (extractKeywords (m_text r)) DecayKeywords else r.

Definition summaryStep (cfg : Config) (now : Z) (r : Row) : Row :=
  if (SummaryAge cfg >? 0) && due before (now - SummaryAge cfg) DecayFull r
  then rewritten r (extractSummary (m_text r)) DecaySummary else r.

Definition survives (cfg : Config) (now : Z) (r : Row) : bool :=
  negb ((EvictAge cfg >? 0)
        && before (m_last_referenced r) (now - EvictAge cfg)
        && (m_decay_level r >=? DecayKeywords)).

Lemma evictPhase_filter cfg now rows :
  evictPhase cfg now rows = filter (survives cfg now) rows.
Proof.
  unfold evictPhase, survives, evictRows.
  destruct (EvictAge cfg >? 0); simpl.
  - apply filter_ext. intros r. reflexivity.
  - symmetry. apply forallb_filter_id. now apply forallb_forall.
Qed.

Lemma keywordsPhase_map cfg now rows :
  NoDup (map m_id rows) ->
  keywordsPhase cfg now rows = map (keywordsStep cfg now) rows.
Proof.
  intros Hnd. unfold keywordsPhase, keywordsStep.
  destruct (KeywordsAge cfg >? 0); simpl.
  - now apply decayRows_map.
  - now rewrite map_id.
Qed.

Lemma summaryPhase_map cfg now rows :
  NoDup (map m_id rows) ->
  summaryPhase cfg now rows = map (summaryStep cfg now) rows.
Proof.
  intros Hnd. unfold summaryPhase, summaryStep.
  destruct (SummaryAge cfg >? 0); simpl.
  - now apply decayRows_map.
  - now rewrite map_id.
Qed.

Lemma keywordsStep_id cfg now r : m_id (keywordsStep cfg now r) = m_id r.
Proof. unfold keywordsStep. now destruct (_ && _). Qed.

Lemma summaryStep_id cfg now r : m_id (summaryStep cfg now r) = m_id r.
Proof. unfold summaryStep. now destruct (_ && _). Qed.

(** A pass, row by row. *)
Lemma runOnce_rows cfg now rows :
  NoDup (map m_id rows) ->
  runOnce before cfg now rows
  = map (fun r => summaryStep cfg now (keywordsStep cfg now r))
        (filter (survives cfg now) rows).
Proof.
  intros Hnd.
  change (runOnce before cfg now rows)
    with (summaryPhase cfg now (keywordsPhase cfg now (evictPhase cfg now rows))).
  rewrite evictPhase_filter.
  assert (Hf : NoDup (map m_id (filter (survives cfg now) rows)))
    by (now apply filter_ids_NoDup).
  rewrite keywordsPhase_map by exact Hf.
  rewrite summaryPhase_map.
  - now rewrite map_map.
  - rewrite map_map. erewrite map_ext; [exact Hf|].
    intros r. apply keywordsStep_id.
Qed.

Lemma runOnce_NoDup cfg now rows :
  NoDup (map m_id rows) -> NoDup (map m_id (runOnce before cfg now rows)).
Proof.
  intros Hnd. rewrite runOnce_rows by exact Hnd. rewrite map_map.
  erewrite map_ext; [now apply filter_ids_NoDup|].
  intros r. now rewrite summaryStep_id, keywordsStep_id.
Qed.

(** One row through one pass: it keeps its level or gains exactly one. *)
Lemma step_level cfg now r :
  let r' := summaryStep cfg now (keywordsStep cfg now r) in
  m_decay_level r' = m_decay_level r
  \/ m_decay_level r' = m_decay_level r + 1.
Proof.
  unfold keywordsStep.
  destruct ((KeywordsAge cfg >? 0)
            && due before (now - KeywordsAge cfg) DecaySummary r) eqn:Ek.
  - apply andb_true_iff in Ek. destruct Ek as [_ Ek].
    unfold due in Ek. apply andb_true_iff in Ek. destruct Ek as [_ Ek].
    apply Z.eqb_eq in Ek. right. unfold summaryStep, due.
    cbn [m_decay_level m_last_referenced rewritten].
    change (DecayKeywords =? DecayFull) with false.
    rewrite !andb_false_r. cbn [m_decay_level rewritten].
    rewrite Ek. reflexivity.
  - unfold summaryStep.
    destruct ((SummaryAge cfg >? 0)
              && due before (now - SummaryAge cfg) DecayFull r) eqn:Es;
      [|now left].
    apply andb_true_iff in Es. destruct Es as [_ Es].
    unfold due in Es. apply andb_true_iff in Es. destruct Es as [_ Es].
    apply Z.eqb_eq in Es. right. cbn [m_decay_level rewritten].
    rewrite Es. reflexivity.
Qed.

Lemma same_id_same_row (rows : list Row) a b :
  NoDup (map m_id rows) -> In a rows -> In b rows -> m_id a = m_id b -> a = b.
Proof.
  induction rows as [|x rest IH]; simpl; [tauto|].
  intros Hnd Ha Hb Hid. inversion Hnd as [|? ? Hx Hrest]; subst.
  destruct Ha as [->|Ha]; destruct Hb as [->|Hb]; auto.
  - exfalso. apply Hx. rewrite Hid. now apply in_map.
  - exfalso. apply Hx. rewrite <- Hid. now apply in_map.
Qed.

(** What a pass does with a row, on a table whose ids are distinct.  A
    pass is the eviction, then the promotion of summaries to keywords,
    then the promotion of full texts to summaries.  A full-text row that
    the summary phase selects comes out as a summary of its text, a
    summary row that the keywords phase selects as the keywords of its
    text; whatever its age, a row that stays keeps its level or gains
    exactly one; a row at the keywords level that the eviction selects
    is removed.  A phase selects the rows whose stored [last_referenced]
    sorts before the text of its cutoff. *)
Lemma pass_moves_one_level cfg now rows :
  uniqueIDs rows = true ->
  runOnce before cfg now rows
  = summaryPhase cfg now (keywordsPhase cfg now (evictPhase cfg now rows))
  /\ uniqueIDs (runOnce before cfg now rows) = true
  /\ (forall r, In r rows ->
        m_decay_level r = DecayFull -> 0 < SummaryAge cfg ->
        before (m_last_referenced r) (now - SummaryAge cfg) = true ->
        In (rewritten r (extractSummary (m_text r)) DecaySummary)
           (runOnce before cfg now rows))
  /\ (forall r, In r rows ->
        m_decay_level r = DecaySummary -> 0 < KeywordsAge cfg ->
        before (m_last_referenced r) (now - KeywordsAge cfg) = true ->
        In (rewritten r (extractKeywords (m_text r)) DecayKeywords)
           (runOnce before cfg now rows))
  /\ (forall r r', In r rows -> In r' (runOnce before cfg now rows) ->
        m_id r' = m_id r ->
        m_decay_level r' = m_decay_level r
        \/ m_decay_level r' = m_decay_level r + 1)
  /\ (forall r, In r rows ->
        DecayKeywords <= m_decay_level r -> 0 < EvictAge cfg ->
        before (m_last_referenced r) (now - EvictAge cfg) = true ->
        ~ In (m_id r) (map m_id (runOnce before cfg now rows))).
Proof.
  intros Huniq. apply distinct_NoDup in Huniq.
  split; [reflexivity|]. split.
  { apply distinct_NoDup. now apply runOnce_NoDup. }
  split; [|split; [|split]].
  - intros r Hr Hlv Hage Hold.
    rewrite runOnce_rows by exact Huniq. apply in_map_iff. exists r. split.
    + unfold keywordsStep, summaryStep, due. rewrite Hlv.
      change (DecayFull =? DecaySummary) with false.
      rewrite !andb_false_r. rewrite Hlv.
      apply Z.gtb_lt in Hage. rewrite Hage, Hold. reflexivity.
    + apply filter_In. split; [exact Hr|].
      unfold survives. rewrite Hlv.
      change (DecayFull >=? DecayKeywords) with false.
      now rewrite andb_false_r.
  - intros r Hr Hlv Hage Hold.
    rewrite runOnce_rows by exact Huniq. apply in_map_iff. exists r. split.
    + unfold keywordsStep, due. rewrite Hlv.
      apply Z.gtb_lt in Hage. rewrite Hage, Hold.
      cbn [andb Z.eqb DecaySummary Pos.eqb].
      unfold summaryStep, due. cbn [m_decay_level rewritten].
      change (DecayKeywords =? DecayFull) with false.
      now rewrite !andb_false_r.
    + apply filter_In. split; [exact Hr|].
      unfold survives. rewrite Hlv.
      change (DecaySummary >=? DecayKeywords) with false.
      now rewrite andb_false_r.
  - intros r r' Hr Hr' Hid. rewrite runOnce_rows in Hr' by exact Huniq.
    apply in_map_iff in Hr'. destruct Hr' as [r0 [<- Hr0]].
    apply filter_In in Hr0. destruct Hr0 as [Hr0 _].
    rewrite summaryStep_id, keywordsStep_id in Hid.
    rewrite (same_id_same_row rows r0 r Huniq Hr0 Hr Hid).
    apply step_level.
  - intros r Hr Hlv Hage Hold Hin.
    rewrite runOnce_rows in Hin by exact Huniq. rewrite map_map in Hin.
    apply in_map_iff in Hin. destruct Hin as [r0 [Hid Hr0]].
    rewrite summaryStep_id, keywordsStep_id in Hid.
    apply filter_In in Hr0. destruct Hr0 as [Hr0 Hs].
    rewrite (same_id_same_row rows r0 r Huniq Hr0 Hr Hid) in Hs.
    unfold survives in Hs. apply negb_true_iff in Hs.
    apply Z.gtb_lt in Hage. apply Z.geb_le in Hlv.
    rewrite Hage, Hold, Hlv in Hs. discriminate.
Qed.

End Decay.
Section Dedup.
Context {E : GoEnv}.

(** A row whose stored embedding is within the threshold of [embedding]. *)
Definition within (cfg : Config) (embedding : list float32) (r : Row) : bool :=
  let existing := decodeEmbedding (m_embedding r) in
  negb (Z.of_nat (List.length existing) =? 0)
  && Qltb (CosineDistance embedding existing) (DedupThreshold cfg).

Lemma findDuplicate_first cfg rows embedding :
  findDuplicate cfg rows embedding
  = match find (within cfg embedding) rows with
    | Some r => m_id r
    | None => EmptyString
    end.
Proof.
  induction rows as [|r rest IH]; simpl; [reflexivity|].
  unfold within at 1.
  destruct (Z.of_nat (List.length (decodeEmbedding (m_embedding r))) =? 0);
    simpl; [exact IH|].
  now destruct (Qltb _ _).
Qed.

Lemma touch_one now id rows :
  touch now [id] rows
  = map (fun r => if String.eqb (m_id r) id then touched r now else r) rows.
Proof.
  unfold touch. apply map_ext. intros r. unfold inb. simpl.
  rewrite orb_false_r. reflexivity.
Qed.

Lemma touch_length now ids rows :
  List.length (touch now ids rows) = List.length rows.
Proof. unfold touch. apply length_map. Qed.

Lemma find_existsb {A} (p : A -> bool) l :
  existsb p l = true -> exists x, find p l = Some x.
Proof.
  induction l as [|y rest IH]; simpl; [discriminate|].
  destruct (p y); [eauto | exact IH].
Qed.

(** C6, amended.  An entry of a Store request with a text that is not
    empty and an embedding within [DedupThreshold] of a stored one
    inserts no row: the first such row in the order of the table gets
    [last_referenced] set to the clock and [access_count] raised by 1,
    every other row stays as it is, and the entry counts as deduplicated.
    Storing twice, in an empty store, an entry whose text is not empty
    and whose embedding is within the threshold of itself leaves one
    memory; the second call reports one deduplicated and none stored, and
    sets [last_referenced] to its own reading of the clock, which is
    later than the first whenever the clock has moved on. *)
Theorem store_deduplicates :
  (forall genID clock cfg sessionID entry rest i rows stored deduplicated,
      String.eqb (se_Text entry) EmptyString = false ->
      (0 <? Z.of_nat (List.length (se_Embedding entry))) = true ->
      properIDs rows = true -> uniqueIDs rows = true ->
      existsb (within cfg (se_Embedding entry)) rows = true ->
      exists first,
        find (within cfg (se_Embedding entry)) rows = Some first
        /\ storeEntries genID clock cfg sessionID (entry :: rest) i rows
                        stored deduplicated
           = storeEntries genID clock cfg sessionID rest (i + 1)
                          (touch (clock i) [m_id first] rows)
                          stored (deduplicated + 1)
        /\ List.length (touch (clock i) [m_id first] rows) = List.length rows
        /\ In (touched first (clock i)) (touch (clock i) [m_id first] rows)
        /\ (forall r, In r rows -> r <> first ->
                      In r (touch (clock i) [m_id first] rows)))
  /\ (forall genID1 clock1 genID2 clock2 cfg sessionID entry,
        String.eqb (se_Text entry) EmptyString = false ->
        (0 <? Z.of_nat (List.length (se_Embedding entry))) = true ->
        words32 (se_Embedding entry) = true ->
        String.eqb (genID1 0) EmptyString = false ->
        Qltb (CosineDistance (se_Embedding entry) (se_Embedding entry))
             (DedupThreshold cfg) = true ->
        exists row,
          Store genID1 clock1 cfg [] sessionID [entry]
          = (inr {| Stored := 1; Merged := 0; Deduplicated := 0;
                    TotalMemories := 1 |}, [row])
          /\ m_last_referenced row = clock1 0
          /\ Store genID2 clock2 cfg [row] sessionID [entry]
             = (inr {| Stored := 0; Merged := 0; Deduplicated := 1;
                       TotalMemories := 1 |}, [touched row (clock2 0)])
          /\ m_access_count (touched row (clock2 0)) = m_access_count row + 1
          /\ (clock1 0 < clock2 0 ->
              m_last_referenced row
              < m_last_referenced (touched row (clock2 0)))).
Proof.
  split.
  - intros genID clock cfg sessionID entry rest i rows stored deduplicated
           Htext Hemb Hproper Huniq Hex.
    destruct (find_existsb _ _ Hex) as [first Hfind].
    exists first. split; [exact Hfind|].
    pose proof (find_some _ _ Hfind) as [Hin _].
    assert (Hid : String.eqb (m_id first) EmptyString = false).
    { unfold properIDs in Hproper. rewrite forallb_forall in Hproper.
      specialize (Hproper first Hin). now apply negb_true_iff in Hproper. }
    split; [|split; [apply touch_length|split]].
    + cbn [storeEntries]. rewrite Htext, Hemb, findDuplicate_first, Hfind, Hid.
      reflexivity.
    + rewrite touch_one. apply in_map_iff. exists first.
      now rewrite String.eqb_refl.
    + intros r Hr Hne. rewrite touch_one. apply in_map_iff. exists r.
      apply distinct_NoDup in Huniq.
      assert (Hid' : m_id r <> m_id first).
      { intros Heq. apply Hne.
        exact (same_id_same_row rows r first Huniq Hr Hin Heq). }
      apply String.eqb_neq in Hid'. now rewrite Hid'.
  - intros genID1 clock1 genID2 clock2 cfg sessionID entry
           Htext Hemb Hwords Hid Hself.
    eexists. split; [|split; [|split; [|split]]].
    + unfold Store. cbn [storeEntries]. rewrite Htext, Hemb.
      cbn [findDuplicate String.eqb negb hasID existsb app List.length].
      reflexivity.
    + reflexivity.
    + unfold Store. cbn [storeEntries]. rewrite Htext, Hemb.
      cbn [findDuplicate m_embedding m_id].
      rewrite decode_encode by exact Hwords.
      apply Z.ltb_lt in Hemb.
      replace (Z.of_nat (List.length (se_Embedding entry)) =? 0) with false
        by (symmetry; apply Z.eqb_neq; lia).
      rewrite Hself, Hid. cbn [negb]. rewrite touch_one.
      cbn [map m_id]. rewrite String.eqb_refl. reflexivity.
    + reflexivity.
    + intros Hclock. exact Hclock.
Qed.

End Dedup.

(** ** The order of recall *)

(** The relevance as the specification words it. *)
Definition clamp (x lo hi : Q) : Q := Qmax lo (Qmin x hi).

Definition specRelevance {E : GoEnv} (req : RecallRequest) (now : Z) (r : Row)
    : Q :=
  let w := clamp (rq_RecencyWeight req) 0 1 in
  let similarity :=
    if (0 <? Z.of_nat (List.length (rq_QueryEmbedding req)))
       && (0 <? Z.of_nat (List.length (decodeEmbedding (m_embedding r))))
    then (1 - CosineDistance (rq_QueryEmbedding req)
                             (decodeEmbedding (m_embedding r)))%Q
    else 0%Q in
  let age_hours := Qmax 0 ((now - m_last_referenced r) # 3600000000000) in
  let recency := (1 / (1 + age_hours / 24))%Q in
  ((1 - w) * similarity + w * recency)%Q.

(** The rows that bear one of the tags of a request. *)
Definition bears (tags : list string) (r : Row) : bool :=
  existsb (fun tag => inb tag (m_tags r)) tags.

(** Descending relevance, and the candidates of one relevance. *)
Definition notBelow (a b : scored) : Prop := (relevance b <= relevance a)%Q.

Definition sameRelevance (q : Q) (c : scored) : bool :=
  Qeq_bool (relevance c) q.

Lemma clampWeight_clamp w : (clampWeight w == clamp w 0 1)%Q.
Proof.
  unfold clampWeight, clamp.
  destruct (Q.min_spec w 1) as [[Hlt Hmin]|[Hge Hmin]];
    destruct (Q.max_spec 0 (Qmin w 1)) as [[Hpos Hmax]|[Hneg Hmax]];
    rewrite Hmax; rewrite Hmin in *.
  - destruct (Qltb w 0) eqn:E0; [apply Qltb_lt in E0|].
    + exfalso. apply (Qlt_irrefl 0). now apply Qlt_trans with w.
    + destruct (Qltb 1 w) eqn:E1; [apply Qltb_lt in E1|reflexivity].
      exfalso. apply (Qlt_irrefl 1). now apply Qlt_trans with w.
  - destruct (Qltb w 0) eqn:E0.
    + now destruct (Qltb 1 0) eqn:E1.
    + apply Qltb_ge in E0.
      destruct (Qltb 1 w) eqn:E1; [apply Qltb_lt in E1|].
      * exfalso. apply (Qlt_irrefl 1). now apply Qlt_trans with w.
      * now apply Qle_antisym.
  - destruct (Qltb w 0) eqn:E0; [apply Qltb_lt in E0|].
    + exfalso. apply (Qlt_irrefl 0).
      apply Qlt_le_trans with 1%Q; [reflexivity|].
      apply Qle_trans with w; [exact Hge | now apply Qlt_le_weak].
    + destruct (Qltb 1 w) eqn:E1; [reflexivity|].
      apply Qltb_ge in E1. now apply Qle_antisym.
  - exfalso. apply (Qlt_irrefl 0).
    apply Qlt_le_trans with 1%Q; [reflexivity | exact Hneg].
Qed.

Section RecallOrder.
Context {E : GoEnv}.

Lemma scoreRow_relevance req now r :
  (relevance (scoreRow req (clampWeight (rq_RecencyWeight req)) now r)
   == specRelevance req now r)%Q
  /\ rm_Relevance (memory (scoreRow req (clampWeight (rq_RecencyWeight req)) now r))
     = relevance (scoreRow req (clampWeight (rq_RecencyWeight req)) now r).
Proof.
  split; [|reflexivity].
  unfold scoreRow, specRelevance. cbn [relevance].
  rewrite <- clampWeight_clamp.
  set (w := clampWeight (rq_RecencyWeight req)).
  unfold hoursSince.
  set (age := (now - m_last_referenced r) # 3600000000000).
  assert (Hrec : ((if Qltb 0 age then 1 / (1 + age / 24) else 1)
                  == 1 / (1 + Qmax 0 age / 24))%Q).
  { destruct (Qltb 0 age) eqn:Eage.
    - apply Qltb_lt in Eage. rewrite Q.max_r by (now apply Qlt_le_weak).
      reflexivity.
    - apply Qltb_ge in Eage. rewrite Q.max_l by exact Eage. reflexivity. }
  rewrite Hrec.
  destruct (0 <? Z.of_nat (List.length (rq_QueryEmbedding req)));
    [|reflexivity].
  destruct (0 <? Z.of_nat (List.length (decodeEmbedding (m_embedding r))));
    reflexivity.
Qed.

End RecallOrder.

(** *** [sortByRelevance] *)

Lemma sorted_app (l1 l2 : list scored) :
  StronglySorted notBelow l1 -> StronglySorted notBelow l2 ->
  (forall a b, In a l1 -> In b l2 -> notBelow a b) ->
  StronglySorted notBelow (l1 ++ l2).
Proof.
  intros H1 H2 Hcross. induction H1 as [|x l1 H1 IH Hx]; simpl; [exact H2|].
  constructor.
  - apply IH. intros a b Ha Hb. apply Hcross; [now right | exact Hb].
  - apply Forall_app. split; [exact Hx|].
    apply Forall_forall. intros b Hb. apply Hcross; [now left | exact Hb].
Qed.

Lemma sorted_app_inv (l1 l2 : list scored) :
  StronglySorted notBelow (l1 ++ l2) ->
  StronglySorted notBelow l1
  /\ (forall a b, In a l1 -> In b l2 -> notBelow a b).
Proof.
  induction l1 as [|x l1 IH]; simpl; intros Hs.
  - split; [constructor | intros a b []].
  - inversion Hs as [|? ? Hs' Hx]; subst. destruct (IH Hs') as [H1 Hcross].
    rewrite Forall_forall in Hx. split.
    + constructor; [exact H1|]. apply Forall_forall. intros b Hb.
      apply Hx. apply in_or_app. now left.
    + intros a b [<-|Ha] Hb; [|now apply Hcross].
      apply Hx. apply in_or_app. now right.
Qed.

Lemma shiftInsert_cons key c below after :
  shiftInsert key (c :: below) after
  = if Qltb (relevance c) (relevance key)
    then shiftInsert key below (c :: after)
    else rev (c :: below) ++ key :: after.
Proof.
  cbn [shiftInsert]. destruct (Qltb (relevance c) (relevance key));
    [reflexivity|].
  now rewrite rev_append_rev.
Qed.

Lemma shiftInsert_sorted key before :
  forall after,
    StronglySorted notBelow (rev before) ->
    StronglySorted notBelow after ->
    (forall a, In a after -> (relevance a < relevance key)%Q) ->
    (forall b a, In b before -> In a after -> notBelow b a) ->
    StronglySorted notBelow (shiftInsert key before after).
Proof.
  assert (Htail : forall after,
             StronglySorted notBelow after ->
             (forall a, In a after -> (relevance a < relevance key)%Q) ->
             StronglySorted notBelow (key :: after)).
  { intros after Hafter Hlt. constructor; [exact Hafter|].
    apply Forall_forall. intros a Ha. now apply Qlt_le_weak, Hlt. }
  induction before as [|c below IH]; intros after Hbefore Hafter Hlt Hcross.
  - now apply Htail.
  - rewrite shiftInsert_cons.
    simpl in Hbefore. apply sorted_app_inv in Hbefore.
    destruct Hbefore as [Hbelow Hc].
    destruct (Qltb (relevance c) (relevance key)) eqn:Ec.
    + apply Qltb_lt in Ec. apply IH.
      * exact Hbelow.
      * constructor; [exact Hafter|]. apply Forall_forall. intros a Ha.
        apply Hcross; [now left | exact Ha].
      * intros a [<-|Ha]; [exact Ec | now apply Hlt].
      * intros b a Hb [<-|Ha].
        -- apply Hc; [now apply in_rev in Hb | now left].
        -- apply Hcross; [now right | exact Ha].
    + apply Qltb_ge in Ec.
      apply sorted_app.
      * simpl. apply sorted_app; [exact Hbelow | repeat constructor|].
        intros a b Ha [<-|[]]. apply Hc; [exact Ha | now left].
      * now apply Htail.
      * intros a b Ha [<-|Hb].
        -- simpl in Ha. apply in_app_or in Ha. destruct Ha as [Ha|[<-|[]]].
           ++ unfold notBelow. apply Qle_trans with (relevance c); [exact Ec|].
              apply Hc; [exact Ha | now left].
           ++ exact Ec.
        -- apply Hcross; [now apply in_rev | exact Hb].
Qed.

Lemma shiftInsert_perm key before :
  forall after,
    Permutation (rev before ++ after ++ [key]) (shiftInsert key before after).
Proof.
  induction before as [|c below IH]; intros after.
  - symmetry. apply Permutation_cons_append.
  - rewrite shiftInsert_cons. destruct (Qltb (relevance c) (relevance key)).
    + rewrite <- IH. simpl. rewrite <- app_assoc. reflexivity.
    + apply Permutation_app_head.
      symmetry. apply Permutation_cons_append.
Qed.

Lemma filter_key_last (f : scored -> bool) key after :
  (forall a, In a after -> f a = true -> f key = false) ->
  filter f (key :: after) = filter f (after ++ [key]).
Proof.
  intros Hexcl. rewrite filter_app. simpl.
  destruct (f key) eqn:Ek; [|now rewrite app_nil_r].
  assert (Hnone : filter f after = []).
  { induction after as [|a rest IH]; simpl; [reflexivity|].
    destruct (f a) eqn:Ea.
    - specialize (Hexcl a (or_introl eq_refl) Ea). congruence.
    - apply IH. intros b Hb. apply Hexcl. now right. }
  now rewrite Hnone.
Qed.

Lemma shiftInsert_stable q key before :
  forall after,
    (forall a, In a after -> (relevance a < relevance key)%Q) ->
    filter (sameRelevance q) (shiftInsert key before after)
    = filter (sameRelevance q) (rev before ++ after ++ [key]).
Proof.
  assert (Hexcl : forall after,
             (forall a, In a after -> (relevance a < relevance key)%Q) ->
             forall a, In a after -> sameRelevance q a = true ->
                       sameRelevance q key = false).
  { intros after Hlt a Ha Hqa. unfold sameRelevance in *.
    destruct (Qeq_bool (relevance key) q) eqn:Hqk; [|reflexivity].
    apply Qeq_bool_iff in Hqa, Hqk. specialize (Hlt a Ha).
    rewrite Hqa, Hqk in Hlt. now apply Qlt_irrefl in Hlt. }
  induction before as [|c below IH]; intros after Hlt.
  - apply filter_key_last. now apply Hexcl.
  - rewrite shiftInsert_cons.
    destruct (Qltb (relevance c) (relevance key)) eqn:Ec.
    + apply Qltb_lt in Ec. rewrite IH.
      * simpl. now rewrite <- app_assoc.
      * intros a [<-|Ha]; [exact Ec | now apply Hlt].
    + rewrite !(filter_app _ (rev (c :: below))). f_equal.
      apply filter_key_last. now apply Hexcl.
Qed.

Lemma sortFrom_sorted rest :
  forall sorted,
    StronglySorted notBelow sorted ->
    StronglySorted notBelow (sortFrom sorted rest).
Proof.
  induction rest as [|key rest IH]; simpl; intros sorted Hs; [exact Hs|].
  apply IH. apply shiftInsert_sorted.
  - now rewrite rev_involutive.
  - constructor.
  - intros a [].
  - intros b a _ [].
Qed.

Lemma sortFrom_perm rest :
  forall sorted, Permutation (sorted ++ rest) (sortFrom sorted rest).
Proof.
  induction rest as [|key rest IH]; simpl; intros sorted.
  - now rewrite app_nil_r.
  - rewrite <- IH, <- shiftInsert_perm, rev_involutive. simpl.
    rewrite <- app_assoc. reflexivity.
Qed.

Lemma sortFrom_stable q rest :
  forall sorted,
    filter (sameRelevance q) (sortFrom sorted rest)
    = filter (sameRelevance q) (sorted ++ rest).
Proof.
  induction rest as [|key rest IH]; simpl; intros sorted.
  - now rewrite app_nil_r.
  - rewrite IH, filter_app, shiftInsert_stable by (intros a []).
    rewrite rev_involutive. simpl. rewrite <- filter_app, <- app_assoc.
    reflexivity.
Qed.

Lemma takeResults_prefix maxResults reqMaxTokens candidates :
  forall count tokenCount,
    exists k,
      fst (takeResults maxResults reqMaxTokens candidates count tokenCount)
      = map memory (firstn k candidates).
Proof.
  induction candidates as [|c rest IH]; simpl; intros count tokenCount.
  - now exists 0%nat.
  - destruct (count >=? maxResults); [now exists 0%nat|].
    destruct ((reqMaxTokens >? 0)
              && (tokenCount + estimateTokens (rm_Text (memory c)) >? reqMaxTokens));
      [now exists 0%nat|].
    destruct (IH (count + 1) (tokenCount + estimateTokens (rm_Text (memory c))))
      as [k Hk].
    destruct (takeResults maxResults reqMaxTokens rest (count + 1)
                          (tokenCount + estimateTokens (rm_Text (memory c))))
      as [out total].
    exists (S k). simpl in *. now rewrite Hk.
Qed.

Section RecallResult.
Context {E : GoEnv}.

Lemma firstn_sorted k (l : list scored) :
  StronglySorted notBelow l -> StronglySorted notBelow (firstn k l).
Proof.
  revert k. induction l as [|x rest IH]; intros k Hs;
    [now destruct k|].
  destruct k as [|k]; [constructor|]. simpl.
  inversion Hs as [|? ? Hrest Hx]; subst. constructor; [now apply IH|].
  rewrite Forall_forall in *. intros y Hy. apply Hx.
  rewrite <- (firstn_skipn k rest). apply in_or_app. now left.
Qed.

Lemma memories_sorted (l : list scored) :
  (forall c, In c l -> rm_Relevance (memory c) = relevance c) ->
  StronglySorted notBelow l ->
  StronglySorted (fun a b => (rm_Relevance b <= rm_Relevance a)%Q)
                 (map memory l).
Proof.
  intros Hrel Hs. induction Hs as [|x rest Hs IH Hx]; simpl; [constructor|].
  constructor.
  - apply IH. intros c Hc. apply Hrel. now right.
  - rewrite Forall_forall in *. intros m Hm.
    apply in_map_iff in Hm. destruct Hm as [c [<- Hc]].
    rewrite (Hrel c) by (now right). rewrite (Hrel x) by (now left).
    now apply Hx.
Qed.

Lemma selectRows_all rows req : rq_Tags req = [] -> selectRows rows req = rows.
Proof. unfold selectRows. now intros ->. Qed.

Lemma selectRows_tagged rows req :
  rq_Tags req <> [] ->
  selectRows rows req = indexOrder m_id (filter (bears (rq_Tags req)) rows).
Proof.
  unfold selectRows. destruct (rq_Tags req) as [|t rest]; [congruence|].
  intros _. reflexivity.
Qed.

Lemma selectRows_In rows req r :
  In r (selectRows rows req) ->
  In r rows /\ (rq_Tags req <> [] -> bears (rq_Tags req) r = true).
Proof.
  destruct (rq_Tags req) as [|t rest] eqn:Etags.
  - rewrite selectRows_all by exact Etags. intros Hin. split; [exact Hin|].
    congruence.
  - rewrite selectRows_tagged by (rewrite Etags; discriminate).
    rewrite indexOrder_In, filter_In, Etags. tauto.
Qed.

Lemma selectRows_length rows req :
  List.length (selectRows rows req)
  = List.length (if 0 <? Z.of_nat (List.length (rq_Tags req))
                 then filter (bears (rq_Tags req)) rows else rows).
Proof.
  unfold selectRows. destruct (0 <? Z.of_nat (List.length (rq_Tags req)));
    [apply indexOrder_length | reflexivity].
Qed.

(** C5, amended.  The candidates of a Recall are the rows that the query
    returns, in the order in which it returns them: every row of the
    table in the order of insertion when the request names no tag, the
    rows that bear one of its tags in the order of their ids when it
    names some.  Each is scored with (1 - w) * similarity + w * recency,
    where w is the recency weight clamped to [0, 1], similarity is 1
    less the cosine distance when the query and the row both have an
    embedding and 0 otherwise, and recency is 1 / (1 + age_hours / 24)
    with age_hours the time since the last reference in hours, not below
    0.  The memories returned are the first of the candidates sorted by
    that relevance, descending, and the sort keeps candidates of equal
    relevance in the order of the query; so the memories returned are in
    descending order of the relevance they carry. *)
Theorem recall_ranking now touchNow rows req res rows' :
  Recall now touchNow rows req = (inr res, rows') ->
  let score := scoreRow req (clampWeight (rq_RecencyWeight req)) now in
  let candidates := recallCandidates now rows req in
  candidates = map score (selectRows rows req)
  /\ (rq_Tags req = [] -> selectRows rows req = rows)
  /\ (rq_Tags req <> [] ->
      Permutation (filter (bears (rq_Tags req)) rows) (selectRows rows req)
      /\ StronglySorted (fun a b => String.leb (m_id a) (m_id b) = true)
                        (selectRows rows req))
  /\ (forall r,
        (relevance (score r) == specRelevance req now r)%Q
        /\ rm_Relevance (memory (score r)) = relevance (score r)
        /\ rm_ID (memory (score r)) = m_id r)
  /\ Permutation candidates (sortByRelevance candidates)
  /\ StronglySorted notBelow (sortByRelevance candidates)
  /\ (forall q, filter (sameRelevance q) (sortByRelevance candidates)
                = filter (sameRelevance q) candidates)
  /\ (exists k, Memories res = map memory (firstn k (sortByRelevance candidates)))
  /\ StronglySorted (fun a b => (rm_Relevance b <= rm_Relevance a)%Q)
                    (Memories res).
Proof.
  intros Hrecall score candidates.
  assert (Hperm : Permutation candidates (sortByRelevance candidates))
    by apply (sortFrom_perm candidates []).
  assert (Hsorted : StronglySorted notBelow (sortByRelevance candidates))
    by (apply sortFrom_sorted; constructor).
  assert (Hprefix : exists k, Memories res
                              = map memory (firstn k (sortByRelevance candidates))).
  { unfold Recall in Hrecall.
    destruct (String.eqb (rq_Query req) EmptyString
              && (Z.of_nat (List.length (rq_QueryEmbedding req)) =? 0));
      [discriminate|].
    fold candidates in Hrecall.
    destruct (takeResults_prefix
                (if rq_MaxResults req <=? 0 then 10 else rq_MaxResults req)
                (rq_MaxTokens req) (sortByRelevance candidates) 0 0) as [k Hk].
    destruct (takeResults _ _ (sortByRelevance candidates) 0 0)
      as [results tokenCount].
    inversion Hrecall; subst. exists k. exact Hk. }
  split; [reflexivity|].
  split; [apply selectRows_all|].
  split.
  { intros Htags. rewrite selectRows_tagged by exact Htags.
    split; [apply indexOrder_perm | apply (indexOrder_sorted m_id)]. }
  split.
  { intros r. destruct (scoreRow_relevance req now r) as [Hrel Hcarry].
    split; [exact Hrel|]. split; [exact Hcarry | reflexivity]. }
  split; [exact Hperm|]. split; [exact Hsorted|].
  split; [intros q; apply (sortFrom_stable q candidates [])|].
  split; [exact Hprefix|].
  destruct Hprefix as [k ->]. apply memories_sorted.
  - intros c Hc. apply firstn_subset in Hc.
    apply (Permutation_in _ (Permutation_sym Hperm)) in Hc.
    unfold candidates, recallCandidates in Hc. apply in_map_iff in Hc.
    destruct Hc as [r [<- _]]. reflexivity.
  - now apply firstn_sorted.
Qed.

End RecallResult.

End MemoryProofs.

Module MemoryCases.
Import Memory MemoryProofs Reference.
Local Open Scope string_scope.

(** ** Data to run the model on *)

(** The bit patterns of 1.0 and 0.0: the unit vectors along the first
    and the second axis. *)
Definition alongX : list float32 := [1065353216; 0].
Definition alongY : list float32 := [0; 1065353216].

Definition jwt : StoreEntry :=
  {| se_Text := "JWT uses RS256 for signing"; se_Embedding := alongX;
     se_Source := "docs"; se_Tags := ["auth"]; se_Metadata := "null" |}.

Definition stripe : StoreEntry :=
  {| se_Text := "The payment service uses Stripe"; se_Embedding := alongY;
     se_Source := "docs"; se_Tags := ["payments"]; se_Metadata := "null" |}.

Definition noText : StoreEntry :=
  {| se_Text := EmptyString; se_Embedding := alongX;
     se_Source := "code"; se_Tags := []; se_Metadata := "null" |}.

Definition clockAt (t : Z) : Z -> Z := fun _ => t.

Definition millisecond : Z := 1000000.

Definition quickDecay : Config :=
  {| DedupThreshold := (15 # 100)%Q; DecayEnabled := true;
     DecayInterval := 1 * hour;
     SummaryAge := millisecond; KeywordsAge := millisecond; EvictAge := 0 |}.

Definition agedRow : Row :=
  {| m_id := "A";
     m_text := "The service signs tokens with RS256. It checks them on every request.";
     m_embedding := []; m_source := EmptyString; m_session_id := EmptyString;
     m_metadata := "null"; m_decay_level := 0;
     m_created_at := 0; m_last_referenced := 0; m_access_count := 0;
     m_tags := [] |}.

(** ** C6 *)

(** A store opened with a threshold of 0, as the flag
    [--dedup-threshold 0] or an unset configuration gives it. *)
Definition noDedup : Config :=
  {| DedupThreshold := 0; DecayEnabled := true; DecayInterval := 1 * hour;
     SummaryAge := 24 * hour; KeywordsAge := 168 * hour;
     EvictAge := 720 * hour |}.

Definition nextID (k : Z) : string := SessionCases.letterID (k + 1).

(** C6 as stated fails, for an entry with a text and an embedding.  With
    a threshold of 0 no distance is below it: the entry is stored twice
    and the total is 2.  A later Store with the default threshold finds
    both rows within it and touches the first only.  When the clock
    reads the same at both calls, the second call deduplicates but
    [last_referenced] is what it was after the first.  And in a store
    that holds another memory the total is 2, not 1. *)
Lemma store_twice_may_keep_two :
  (exists row row2,
      Store (E:=asciiEnv) SessionCases.letterID (clockAt 100) noDedup []
            EmptyString [jwt]
      = (inr {| Stored := 1; Merged := 0; Deduplicated := 0; TotalMemories := 1 |},
         [row])
      /\ Store (E:=asciiEnv) nextID (clockAt 200) noDedup [row] EmptyString [jwt]
         = (inr {| Stored := 1; Merged := 0; Deduplicated := 0;
                   TotalMemories := 2 |}, [row; row2])
      /\ within (E:=asciiEnv) DefaultConfig (se_Embedding jwt) row = true
      /\ within (E:=asciiEnv) DefaultConfig (se_Embedding jwt) row2 = true
      /\ Store (E:=asciiEnv) nextID (clockAt 300) DefaultConfig [row; row2]
               EmptyString [jwt]
         = (inr {| Stored := 0; Merged := 0; Deduplicated := 1;
                   TotalMemories := 2 |}, [touched row 300; row2])
      /\ m_last_referenced row2 = 200 /\ m_access_count row2 = 0)
  /\ (exists row,
        Store (E:=asciiEnv) SessionCases.letterID (clockAt 100) DefaultConfig []
              EmptyString [jwt]
        = (inr {| Stored := 1; Merged := 0; Deduplicated := 0;
                  TotalMemories := 1 |}, [row])
        /\ Store (E:=asciiEnv) SessionCases.letterID (clockAt 100) DefaultConfig
                 [row] EmptyString [jwt]
           = (inr {| Stored := 0; Merged := 0; Deduplicated := 1;
                     TotalMemories := 1 |}, [touched row 100])
        /\ m_last_referenced (touched row 100) = m_last_referenced row)
  /\ (exists other row,
        Store (E:=asciiEnv) SessionCases.letterID (clockAt 50) DefaultConfig []
              EmptyString [stripe]
        = (inr {| Stored := 1; Merged := 0; Deduplicated := 0;
                  TotalMemories := 1 |}, [other])
        /\ Store (E:=asciiEnv) nextID (clockAt 100) DefaultConfig [other]
                 EmptyString [jwt]
           = (inr {| Stored := 1; Merged := 0; Deduplicated := 0;
                     TotalMemories := 2 |}, [other; row])
        /\ Store (E:=asciiEnv) nextID (clockAt 200) DefaultConfig [other; row]
                 EmptyString [jwt]
           = (inr {| Stored := 0; Merged := 0; Deduplicated := 1;
                     TotalMemories := 2 |}, [other; touched row 200])).
Proof.
  split; [|split].
  - eexists. eexists. split; [vm_compute; reflexivity|].
    split; [vm_compute; reflexivity|]. repeat split.
  - eexists. split; [vm_compute; reflexivity|]. repeat split.
  - eexists. eexists. split; [vm_compute; reflexivity|].
    split; vm_compute; reflexivity.
Qed.

Lemma store_deduplicates_witness :
  exists row,
    Store (E:=asciiEnv) SessionCases.letterID (clockAt 100) DefaultConfig []
          EmptyString [jwt]
    = (inr {| Stored := 1; Merged := 0; Deduplicated := 0; TotalMemories := 1 |},
       [row])
    /\ Store (E:=asciiEnv) SessionCases.letterID (clockAt 200) DefaultConfig [row]
             EmptyString [jwt]
       = (inr {| Stored := 0; Merged := 0; Deduplicated := 1; TotalMemories := 1 |},
          [touched row 200])
    /\ m_last_referenced row < m_last_referenced (touched row 200).
Proof.
  destruct (proj2 (store_deduplicates (E:=asciiEnv))
              SessionCases.letterID (clockAt 100) SessionCases.letterID (clockAt 200)
              DefaultConfig EmptyString jwt
              eq_refl eq_refl eq_refl eq_refl eq_refl)
    as [row [Hfirst [_ [Hsecond [_ Hlater]]]]].
  exists row. split; [exact Hfirst|]. split; [exact Hsecond|].
  apply Hlater. reflexivity.
Defined.

(** ** C7 *)

(** The first second of 2024, and half a second. *)
Definition newYear : Z := 1704067200 * 1000000000.
Definition halfSecond : Z := 500000000.

Definition longNote : StoreEntry :=
  {| se_Text := m_text agedRow; se_Embedding := []; se_Source := "docs";
     se_Tags := []; se_Metadata := "null" |}.

(** C7.  The worker lets SQLite compare the texts of the timestamps.  A
    memory stored at 2024-01-01T00:00:00Z has its full text; at a pass
    that comes 24 hours and half a second later, with [SummaryAge] 24
    hours, its last reference is older than the cutoff,
    2024-01-01T00:00:00.5Z, by half a second.  But the stored text ends
    in "Z" where the cutoff has ".", so it does not sort before the
    cutoff, and the pass leaves the memory as it is, at the full
    level. *)
Lemma decay_compares_text :
  rfc3339Nano newYear = "2024-01-01T00:00:00Z"
  /\ rfc3339Nano (newYear + halfSecond) = "2024-01-01T00:00:00.5Z"
  /\ exists row,
       snd (Store (E:=asciiEnv) SessionCases.letterID (clockAt newYear)
                  DefaultConfig [] EmptyString [longNote]) = [row]
       /\ m_decay_level row = DecayFull
       /\ m_last_referenced row = newYear
       /\ (let now := newYear + 24 * hour + halfSecond in
           now - SummaryAge DefaultConfig = newYear + halfSecond
           /\ m_last_referenced row < now - SummaryAge DefaultConfig
           /\ textBefore (m_last_referenced row) (now - SummaryAge DefaultConfig)
              = false
           /\ runOnce (E:=asciiEnv) textBefore DefaultConfig now [row] = [row]).
Proof.
  split; [vm_compute; reflexivity|]. split; [vm_compute; reflexivity|].
  eexists. split; [vm_compute; reflexivity|]. repeat split.
Qed.

(** ** C5 *)

Definition twoMemories : list Row :=
  snd (Store (E:=asciiEnv) SessionCases.letterID (clockAt 0) DefaultConfig []
             EmptyString [stripe; jwt]).

Definition askAuth : RecallRequest :=
  {| rq_Query := "How does authentication work?"; rq_QueryEmbedding := alongX;
     rq_Tags := []; rq_MaxTokens := 0; rq_MaxResults := 5;
     rq_RecencyWeight := (3 # 10)%Q |}.

Definition oauth : StoreEntry :=
  {| se_Text := "OAuth tokens expire after an hour"; se_Embedding := alongY;
     se_Source := "docs"; se_Tags := ["auth"]; se_Metadata := "null" |}.

(** Two ids that [generateID] draws within the first second of 2024
    (that of the memory package reads as that of the session package):
    the random bytes of the first are all 255, those of the second all
    0. *)
Definition sameSecondID (k : Z) : string :=
  SessionStore.generateID 1704067200 (if (k =? 0)%Z then repeat 255 8 else repeat 0 8).

Definition askTagged (tags : list string) : RecallRequest :=
  {| rq_Query := "authentication"; rq_QueryEmbedding := [];
     rq_Tags := tags; rq_MaxTokens := 0; rq_MaxResults := 5;
     rq_RecencyWeight := (3 # 10)%Q |}.

(** C5 as stated fails under a tag filter.  Two memories are stored in
    one call, the JWT note before the OAuth note; the id of the second
    is the smaller one.  A Recall an hour later scores both alike.
    Without tags it returns them in the order of insertion; with the tag
    they share it returns the OAuth note first: the order of the ids. *)
Lemma recall_ties_follow_ids :
  exists first second,
    snd (Store (E:=asciiEnv) sameSecondID (clockAt newYear) DefaultConfig []
               EmptyString [jwt; oauth]) = [first; second]
    /\ m_id first = "65920080ffffffffffffffff"
    /\ m_id second = "659200800000000000000000"
    /\ (exists res rows',
          Recall (E:=asciiEnv) (newYear + hour) (newYear + hour)
                 [first; second] (askTagged [])
          = (inr res, rows')
          /\ map rm_ID (Memories res) = [m_id first; m_id second])
    /\ (exists res rows' m1 m2,
          Recall (E:=asciiEnv) (newYear + hour) (newYear + hour)
                 [first; second] (askTagged ["auth"])
          = (inr res, rows')
          /\ Memories res = [m1; m2]
          /\ rm_Relevance m1 = rm_Relevance m2
          /\ rm_ID m1 = m_id second /\ rm_ID m2 = m_id first).
Proof.
  eexists. eexists. split; [vm_compute; reflexivity|].
  split; [reflexivity|]. split; [reflexivity|]. split.
  - eexists. eexists. split; [vm_compute; reflexivity|]. reflexivity.
  - eexists. eexists. eexists. eexists.
    split; [vm_compute; reflexivity|]. repeat split.
Qed.

Lemma recall_ranking_witness :
  exists res rows',
    Recall (E:=asciiEnv) (2 * hour) (2 * hour) twoMemories askAuth
    = (inr res, rows')
    /\ map rm_Text (Memories res)
       = [ se_Text jwt; se_Text stripe ]
    /\ StronglySorted notBelow
         (sortByRelevance
            (recallCandidates (E:=asciiEnv) (2 * hour) twoMemories askAuth)).
Proof.
  eexists. eexists.
  assert (Hrun : Recall (E:=asciiEnv) (2 * hour) (2 * hour) twoMemories askAuth
                 = (inr _, _)) by (vm_compute; reflexivity).
  split; [exact Hrun|]. split; [reflexivity|].
  exact (proj1 (proj2 (proj2 (proj2 (proj2 (proj2
           (recall_ranking (E:=asciiEnv) _ _ _ _ _ _ Hrun))))))).
Defined.

End MemoryCases.

(** * Further properties of the code

    What follows goes beyond the specification: properties of the same
    code, and of the operations around it, read off the sources. *)

(** ** The helpers of both packages *)

Module HelperProofs.
Import SessionStore MemoryProofs.

Lemma fold_max_ge (l : list Z) : forall a,
  a <= fold_left Z.max l a /\ forall x, In x l -> x <= fold_left Z.max l a.
Proof.
  induction l as [|y rest IH]; intros a; simpl; [split; [lia|tauto]|].
  destruct (IH (Z.max a y)) as [Ha Hx]. split; [lia|].
  intros x [<-|Hin]; [lia | now apply Hx].
Qed.

Lemma NoDup_app_disjoint {A} (l1 l2 : list A) a :
  NoDup (l1 ++ l2) -> In a l1 -> In a l2 -> False.
Proof.
  induction l1 as [|x rest IH]; simpl; [tauto|].
  intros Hnd [->|Hin] H2; inversion Hnd as [|? ? Hx Hrest]; subst.
  - apply Hx. apply in_or_app. now right.
  - now apply IH.
Qed.

(** X1.  [estimateTokens] rounds the byte length up to the next multiple
    of four: a text of n bytes counts for the least t with 4 t >= n; only
    the empty text counts for 0; a longer text never counts for less. *)
Theorem estimateTokens_rounds_up (text other : string) :
  4 * estimateTokens text - 3 <= len text <= 4 * estimateTokens text
  /\ (estimateTokens text = 0 <-> text = EmptyString)
  /\ (len text <= len other -> estimateTokens text <= estimateTokens other).
Proof.
  unfold estimateTokens, len.
  assert (Hq : forall n : nat,
             4 * Z.quot (Z.of_nat n + 3) 4 - 3 <= Z.of_nat n
             <= 4 * Z.quot (Z.of_nat n + 3) 4).
  { intros n. rewrite Z.quot_div_nonneg by lia.
    pose proof (Z.div_mod (Z.of_nat n + 3) 4 ltac:(lia)).
    pose proof (Z.mod_pos_bound (Z.of_nat n + 3) 4 ltac:(lia)). lia. }
  split; [apply Hq|]. split.
  - split.
    + intros Hz. pose proof (Hq (String.length text)) as H. rewrite Hz in H.
      destruct text; [reflexivity|]. simpl String.length in H. lia.
    + intros ->. reflexivity.
  - intros Hle. pose proof (Hq (String.length text)).
    pose proof (Hq (String.length other)). lia.
Qed.

(** A blob of bytes. *)
Definition bytes (buf : list byte) : bool :=
  forallb (fun b => (0 <=? b) && (b <? 256)) buf.

Lemma byte_high b n : 0 <= b < 256 -> 8 <= n -> Z.testbit b n = false.
Proof.
  intros Hb Hn. rewrite <- (Z.mod_small b (2 ^ 8)) by (change (2 ^ 8) with 256; lia).
  apply Z.mod_pow2_bits_high. lia.
Qed.

Lemma uint32_bits b0 b1 b2 b3 n :
  0 <= b0 < 256 -> 0 <= b1 < 256 -> 0 <= b2 < 256 -> 0 <= b3 < 256 -> 0 <= n ->
  Z.testbit (uint32 b0 b1 b2 b3) n
  = if n <? 8 then Z.testbit b0 n
    else if n <? 16 then Z.testbit b1 (n - 8)
    else if n <? 24 then Z.testbit b2 (n - 16)
    else Z.testbit b3 (n - 24).
Proof.
  intros H0 H1 H2 H3 Hn. unfold uint32.
  rewrite !Z.lor_spec, !Z.shiftl_spec by exact Hn.
  destruct (Z.ltb_spec n 8).
  - rewrite (Z.testbit_neg_r b1), (Z.testbit_neg_r b2), (Z.testbit_neg_r b3) by lia.
    now rewrite !orb_false_r.
  - rewrite (byte_high b0 n) by lia. destruct (Z.ltb_spec n 16).
    + rewrite (Z.testbit_neg_r b2), (Z.testbit_neg_r b3) by lia.
      now rewrite !orb_false_r.
    + rewrite (byte_high b1 (n - 8)) by lia. destruct (Z.ltb_spec n 24).
      * rewrite (Z.testbit_neg_r b3) by lia. now rewrite !orb_false_r.
      * rewrite (byte_high b2 (n - 16)) by lia. reflexivity.
Qed.

Lemma uint32_range b0 b1 b2 b3 :
  0 <= b0 < 256 -> 0 <= b1 < 256 -> 0 <= b2 < 256 -> 0 <= b3 < 256 ->
  0 <= uint32 b0 b1 b2 b3 < 2 ^ 32.
Proof.
  intros H0 H1 H2 H3.
  assert (Hnn : 0 <= uint32 b0 b1 b2 b3).
  { unfold uint32. rewrite !Z.lor_nonneg, !Z.shiftl_nonneg. lia. }
  split; [exact Hnn|].
  destruct (Z.eq_dec (uint32 b0 b1 b2 b3) 0) as [->|Hne]; [reflexivity|].
  apply Z.log2_lt_pow2; [lia|].
  destruct (Z.lt_ge_cases (Z.log2 (uint32 b0 b1 b2 b3)) 32) as [Hlt|Hge];
    [exact Hlt|].
  exfalso. pose proof (Z.bit_log2 (uint32 b0 b1 b2 b3) ltac:(lia)) as Hbit.
  rewrite uint32_bits in Hbit by (try assumption; lia).
  destruct (Z.ltb_spec (Z.log2 (uint32 b0 b1 b2 b3)) 8); [lia|].
  destruct (Z.ltb_spec (Z.log2 (uint32 b0 b1 b2 b3)) 16); [lia|].
  destruct (Z.ltb_spec (Z.log2 (uint32 b0 b1 b2 b3)) 24); [lia|].
  rewrite byte_high in Hbit by lia. discriminate.
Qed.

Lemma putUint32_uint32 b0 b1 b2 b3 :
  0 <= b0 < 256 -> 0 <= b1 < 256 -> 0 <= b2 < 256 -> 0 <= b3 < 256 ->
  putUint32 (uint32 b0 b1 b2 b3) = [b0; b1; b2; b3].
Proof.
  intros H0 H1 H2 H3. unfold putUint32. change 256 with (2 ^ 8).
  assert (Hbyte : forall k b,
             0 <= b < 256 -> 0 <= k ->
             (forall n, 0 <= n < 8 ->
                        Z.testbit (uint32 b0 b1 b2 b3) (n + k) = Z.testbit b n) ->
             Z.shiftr (uint32 b0 b1 b2 b3) k mod 2 ^ 8 = b).
  { intros k b Hb Hk Hbits. apply Z.bits_inj'. intros n Hn.
    destruct (Z.lt_ge_cases n 8).
    - rewrite Z.mod_pow2_bits_low by lia. rewrite Z.shiftr_spec by lia.
      apply Hbits. lia.
    - rewrite Z.mod_pow2_bits_high by lia. symmetry. now apply byte_high. }
  rewrite <- (Z.shiftr_0_r (uint32 b0 b1 b2 b3)) at 1.
  rewrite (Hbyte 0 b0), (Hbyte 8 b1), (Hbyte 16 b2), (Hbyte 24 b3);
    try reflexivity; try assumption; try lia;
    intros n Hn; rewrite uint32_bits by (try assumption; lia).
  - destruct (Z.ltb_spec (n + 24) 8); [lia|].
    destruct (Z.ltb_spec (n + 24) 16); [lia|].
    destruct (Z.ltb_spec (n + 24) 24); [lia|]. f_equal. lia.
  - destruct (Z.ltb_spec (n + 16) 8); [lia|].
    destruct (Z.ltb_spec (n + 16) 16); [lia|].
    destruct (Z.ltb_spec (n + 16) 24); [|lia]. f_equal. lia.
  - destruct (Z.ltb_spec (n + 8) 8); [lia|].
    destruct (Z.ltb_spec (n + 8) 16); [|lia]. f_equal. lia.
  - destruct (Z.ltb_spec (n + 0) 8); [|lia]. f_equal. lia.
Qed.

Lemma putUint32_bytes v : bytes (putUint32 v) = true.
Proof.
  unfold bytes, putUint32. cbn [forallb].
  repeat match goal with
         | |- context [?x mod 256] =>
             let H := fresh in
             pose proof (Z.mod_pos_bound x 256 ltac:(lia)) as H;
             generalize dependent (x mod 256); intros
         end.
  repeat (apply andb_true_intro; split); try reflexivity;
    try (apply Z.leb_le; lia); try (apply Z.ltb_lt; lia).
Qed.

Lemma bytes_app a b : bytes (a ++ b) = bytes a && bytes b.
Proof. unfold bytes. apply forallb_app. Qed.

Lemma encodeEmbedding_bytes emb : bytes (encodeEmbedding emb) = true.
Proof.
  induction emb as [|v rest IH]; [reflexivity|].
  unfold encodeEmbedding in *. cbn [flat_map]. rewrite bytes_app, IH.
  now rewrite putUint32_bytes.
Qed.

(** X2.  An embedding survives its way through the BLOB column: decoding
    what [encodeEmbedding] wrote gives the values back, four bytes a
    value, each byte within 0..255. *)
Theorem embedding_round_trip emb :
  words32 emb = true ->
  decodeEmbedding (encodeEmbedding emb) = emb
  /\ Z.of_nat (List.length (encodeEmbedding emb)) = 4 * Z.of_nat (List.length emb)
  /\ bytes (encodeEmbedding emb) = true.
Proof.
  intros Hw. split; [now apply decode_encode|].
  split; [apply encodeEmbedding_length | apply encodeEmbedding_bytes].
Qed.

Lemma embedding_round_trip_witness :
  decodeEmbedding (encodeEmbedding [1065353216; 3212836864; 0; 4294967295])
  = [1065353216; 3212836864; 0; 4294967295]
  /\ Z.of_nat (List.length (encodeEmbedding [1065353216; 3212836864; 0; 4294967295]))
     = 4 * Z.of_nat (List.length [1065353216; 3212836864; 0; 4294967295])
  /\ bytes (encodeEmbedding [1065353216; 3212836864; 0; 4294967295]) = true.
Proof.
  apply (embedding_round_trip [1065353216; 3212836864; 0; 4294967295]).
  reflexivity.
Defined.

Lemma decodeWords_spec (n : nat) :
  forall buf,
    (List.length buf <= n)%nat -> bytes buf = true ->
    words32 (decodeWords buf) = true
    /\ (Z.rem (Z.of_nat (List.length buf)) 4 = 0 ->
        encodeEmbedding (decodeWords buf) = buf).
Proof.
  induction n as [|n IH]; intros buf Hlen Hb.
  - destruct buf; [|simpl in Hlen; lia]. split; reflexivity.
  - destruct buf as [|b0 [|b1 [|b2 [|b3 rest]]]];
      try (split; [reflexivity|]; cbn; intros; discriminate || reflexivity).
    cbn [bytes forallb] in Hb.
    repeat (apply andb_true_iff in Hb; destruct Hb as [? Hb]).
    repeat match goal with
           | H : (_ <=? _) = true |- _ => apply Z.leb_le in H
           | H : (_ <? _) = true |- _ => apply Z.ltb_lt in H
           end.
    destruct (IH rest) as [Hw Henc]; [simpl in Hlen; lia | exact Hb |].
    cbn [decodeWords]. split.
    + cbn [words32 forallb]. fold (words32 (decodeWords rest)). rewrite Hw.
      pose proof (uint32_range b0 b1 b2 b3) as Hr.
      destruct Hr as [Hlo Hhi]; try lia.
    + intros Hrem. unfold encodeEmbedding. cbn [flat_map].
      rewrite putUint32_uint32 by lia.
      fold (encodeEmbedding (decodeWords rest)). rewrite Henc; [reflexivity|].
      cbn [List.length] in Hrem.
      rewrite !Nat2Z.inj_succ in Hrem.
      replace (Z.succ (Z.succ (Z.succ (Z.succ (Z.of_nat (List.length rest))))))
        with (Z.of_nat (List.length rest) + 1 * 4) in Hrem by lia.
      rewrite Z.rem_add in Hrem; [exact Hrem | lia | nia].
Qed.

(** X3.  Whatever bytes a BLOB holds, [decodeEmbedding] returns 32-bit
    values; it gives the empty slice for a length that is no multiple of
    four, and otherwise one value for each four bytes, which
    [encodeEmbedding] turns back into the same bytes. *)
Theorem decodeEmbedding_blob buf :
  bytes buf = true ->
  words32 (decodeEmbedding buf) = true
  /\ (if Z.rem (Z.of_nat (List.length buf)) 4 =? 0
      then encodeEmbedding (decodeEmbedding buf) = buf
           /\ 4 * Z.of_nat (List.length (decodeEmbedding buf))
              = Z.of_nat (List.length buf)
      else decodeEmbedding buf = []).
Proof.
  intros Hb. unfold decodeEmbedding.
  destruct (decodeWords_spec (List.length buf) buf (le_n _) Hb) as [Hw Henc].
  destruct (Z.eqb_spec (Z.rem (Z.of_nat (List.length buf)) 4) 0) as [Hrem|Hrem].
  - destruct (Z.eqb_spec (Z.of_nat (List.length buf)) 0) as [Hz|Hnz]; cbn [orb negb].
    + destruct buf; [|simpl in Hz; lia]. repeat split.
    + split; [exact Hw|]. split; [now apply Henc|].
      rewrite <- (Henc Hrem) at 2. now rewrite encodeEmbedding_length.
  - rewrite orb_true_r. split; reflexivity.
Qed.

Lemma decodeEmbedding_blob_witness :
  words32 (decodeEmbedding [0; 0; 128; 63; 1; 2; 3; 4]) = true
  /\ (if Z.rem (Z.of_nat (List.length [0; 0; 128; 63; 1; 2; 3; 4])) 4 =? 0
      then encodeEmbedding (decodeEmbedding [0; 0; 128; 63; 1; 2; 3; 4])
           = [0; 0; 128; 63; 1; 2; 3; 4]
           /\ 4 * Z.of_nat (List.length (decodeEmbedding [0; 0; 128; 63; 1; 2; 3; 4]))
              = Z.of_nat (List.length [0; 0; 128; 63; 1; 2; 3; 4])
      else decodeEmbedding [0; 0; 128; 63; 1; 2; 3; 4] = []).
Proof.
  apply (decodeEmbedding_blob [0; 0; 128; 63; 1; 2; 3; 4]). reflexivity.
Defined.

(** ** Ids *)

Definition isHexDigit (c : ascii) : bool :=
  existsb (Ascii.eqb c) (list_ascii_of_string hextable).

Lemma hexDigit_hex n : isHexDigit (hexDigit n) = true.
Proof.
  unfold hexDigit. destruct (Z.to_nat n) as [|k]; [reflexivity|].
  do 16 (destruct k as [|k]; [reflexivity|]). reflexivity.
Qed.

Lemma EncodeToString_hex src :
  forallb isHexDigit (list_ascii_of_string (EncodeToString src)) = true.
Proof.
  induction src as [|v rest IH]; [reflexivity|].
  cbn [EncodeToString list_ascii_of_string forallb].
  now rewrite !hexDigit_hex, IH.
Qed.

Lemma EncodeToString_length src :
  String.length (EncodeToString src) = (2 * List.length src)%nat.
Proof.
  induction src as [|v rest IH]; [reflexivity|].
  cbn [EncodeToString String.length List.length]. rewrite IH. lia.
Qed.

(** The two digits of a byte compare as the bytes do. *)
Definition digitsCompare (a b : Z) : comparison :=
  match Ascii.compare (hexDigit (Z.shiftr a 4)) (hexDigit (Z.shiftr b 4)) with
  | Eq => Ascii.compare (hexDigit (Z.land a 15)) (hexDigit (Z.land b 15))
  | c => c
  end.

Definition sameComparison (c d : comparison) : bool :=
  match c, d with
  | Eq, Eq | Lt, Lt | Gt, Gt => true
  | _, _ => false
  end.

Definition allBytes : list Z := map Z.of_nat (seq 0 256).

Lemma allBytes_In b : 0 <= b < 256 -> In b allBytes.
Proof.
  intros Hb. unfold allBytes. apply in_map_iff. exists (Z.to_nat b).
  split; [lia|]. apply in_seq. lia.
Qed.

Lemma digitsCompare_bytes a b :
  0 <= a < 256 -> 0 <= b < 256 -> digitsCompare a b = (a ?= b).
Proof.
  intros Ha Hb.
  assert (Hall : forallb (fun x => forallb (fun y =>
                    sameComparison (digitsCompare x y) (x ?= y)) allBytes)
                         allBytes = true) by (vm_compute; reflexivity).
  rewrite forallb_forall in Hall. specialize (Hall a (allBytes_In a Ha)).
  rewrite forallb_forall in Hall. specialize (Hall b (allBytes_In b Hb)).
  destruct (digitsCompare a b), (a ?= b); simpl in Hall; congruence.
Qed.

Lemma ascii_compare_refl c : Ascii.compare c c = Eq.
Proof. unfold Ascii.compare. apply N.compare_refl. Qed.

Lemma EncodeToString_compare a b r r' :
  0 <= a < 256 -> 0 <= b < 256 ->
  String.compare (EncodeToString (a :: r)) (EncodeToString (b :: r'))
  = match a ?= b with
    | Eq => String.compare (EncodeToString r) (EncodeToString r')
    | c => c
    end.
Proof.
  intros Ha Hb. rewrite <- (digitsCompare_bytes a b Ha Hb).
  unfold digitsCompare. cbn [EncodeToString String.compare].
  destruct (Ascii.compare (hexDigit (Z.shiftr a 4)) (hexDigit (Z.shiftr b 4)));
    reflexivity.
Qed.

(** The four bytes of the time stamp, the most significant first. *)
Lemma bigEndian ts :
  0 <= ts < 2 ^ 32 ->
  exists b3 b2 b1 b0,
    Z.shiftr ts 24 mod 256 = b3 /\ Z.shiftr ts 16 mod 256 = b2
    /\ Z.shiftr ts 8 mod 256 = b1 /\ ts mod 256 = b0
    /\ 0 <= b3 < 256 /\ 0 <= b2 < 256 /\ 0 <= b1 < 256 /\ 0 <= b0 < 256
    /\ ts = b3 * 16777216 + b2 * 65536 + b1 * 256 + b0.
Proof.
  intros Hts. rewrite !Z.shiftr_div_pow2 by lia.
  change (2 ^ 24) with 16777216. change (2 ^ 16) with 65536.
  change (2 ^ 8) with 256. change (2 ^ 32) with 4294967296 in Hts.
  do 4 eexists. repeat split; try reflexivity;
    try (apply Z.mod_pos_bound; lia).
  pose proof (Z.div_mod ts 256 ltac:(lia)).
  pose proof (Z.div_mod (ts / 256) 256 ltac:(lia)).
  pose proof (Z.div_mod (ts / 256 / 256) 256 ltac:(lia)).
  rewrite Z.div_div in * by lia. rewrite Z.div_div in * by lia.
  change (256 * 256) with 65536 in *. change (65536 * 256) with 16777216 in *.
  assert (0 <= ts / 16777216 < 256).
  { split; [apply Z.div_pos; lia | apply Z.div_lt_upper_bound; lia]. }
  rewrite (Z.mod_small (ts / 16777216) 256) by lia.
  pose proof (Z.div_mod ts 16777216 ltac:(lia)).
  lia.
Qed.

(** X4.  An id is 24 lower-case hexadecimal digits, and ids order by
    the second they were drawn in: an id drawn at an earlier second sorts
    before one drawn later, whatever the random bytes (up to the year
    2106, where the 32-bit time stamp wraps). *)
Theorem generateID_time_ordered unix unix' random random' :
  0 <= unix < unix' -> unix' < 2 ^ 32 ->
  String.length (generateID unix random) = 24%nat
  /\ forallb isHexDigit (list_ascii_of_string (generateID unix random)) = true
  /\ String.ltb (generateID unix random) (generateID unix' random') = true.
Proof.
  intros Hlt Hhi. unfold generateID. change (2 ^ 32) with 4294967296 in *.
  split; [|split].
  - rewrite EncodeToString_length, length_app, length_map, firstn_length_le.
    + reflexivity.
    + rewrite length_app, repeat_length. lia.
  - apply EncodeToString_hex.
  - rewrite (Z.mod_small unix), (Z.mod_small unix') by lia.
    destruct (bigEndian unix ltac:(change (2 ^ 32) with 4294967296; lia))
      as [a3 [a2 [a1 [a0 [-> [-> [-> [-> [Ha3 [Ha2 [Ha1 [Ha0 Ha]]]]]]]]]]]].
    destruct (bigEndian unix' ltac:(change (2 ^ 32) with 4294967296; lia))
      as [b3 [b2 [b1 [b0 [-> [-> [-> [-> [Hb3 [Hb2 [Hb1 [Hb0 Hb]]]]]]]]]]]].
    unfold String.ltb. cbn [app].
    rewrite EncodeToString_compare by assumption.
    destruct (Z.compare_spec a3 b3) as [E3|L3|G3]; [|reflexivity|lia].
    rewrite EncodeToString_compare by assumption.
    destruct (Z.compare_spec a2 b2) as [E2|L2|G2]; [|reflexivity|lia].
    rewrite EncodeToString_compare by assumption.
    destruct (Z.compare_spec a1 b1) as [E1|L1|G1]; [|reflexivity|lia].
    rewrite EncodeToString_compare by assumption.
    destruct (Z.compare_spec a0 b0) as [E0|L0|G0]; [lia|reflexivity|lia].
Qed.

Lemma generateID_time_ordered_witness :
  String.length (generateID 1700000000 [1; 2; 3; 4; 5; 6; 7; 255]) = 24%nat
  /\ forallb isHexDigit
       (list_ascii_of_string (generateID 1700000000 [1; 2; 3; 4; 5; 6; 7; 255]))
     = true
  /\ String.ltb (generateID 1700000000 [1; 2; 3; 4; 5; 6; 7; 255])
                (generateID 1700000001 [0; 0; 0; 0; 0; 0; 0; 0]) = true.
Proof.
  apply (generateID_time_ordered 1700000000 1700000001);
    change (2 ^ 32) with 4294967296; lia.
Defined.

End HelperProofs.

(** ** Package session *)

Module SessionMore.
Import Session SessionProofs HelperProofs.

(** ** What a pass of the enforcement does to a row *)

(** A row compressed to its next level, as [enforceBudget] rewrites it. *)
Definition raise {E : GoEnv} (r : Entry) : Entry :=
  let level := e_compression_level r + 1 in
  let newContent := compressToLevel (e_original_content r) level in
  {| e_id := e_id r; e_role := e_role r; e_content := newContent;
     e_original_content := e_original_content r;
     e_source := e_source r; e_embedding := e_embedding r;
     e_importance := e_importance r;
     e_compression_level := level;
     e_tokens := estimateTokens newContent; e_seq := e_seq r |}.

(** What becomes of a row when the candidates of the ids [ids] have been
    processed: at the keywords level it is deleted, below it is raised. *)
Definition step {E : GoEnv} (ids : list string) (r : Entry) : list Entry :=
  if inb (e_id r) ids
  then (if e_compression_level r + 1 >? LevelKeywords then [] else [raise r])
  else [r].

(** The candidates are a snapshot of the rows they name. *)
Definition snapshot (cs : list compressCandidate) (rows : list Entry) : Prop :=
  forall c, In c cs -> forall r, In r rows -> e_id r = cc_id c ->
    e_original_content r = cc_originalContent c
    /\ e_compression_level r = cc_level c.

(** The seq numbers grow along the rows. *)
Fixpoint ascending (l : list Z) : bool :=
  match l with
  | a :: (b :: _) as rest => (a <? b) && ascending rest
  | _ => true
  end.

(** A row as the code writes and rewrites it: the tokens are those of the
    content, the level is one of the four, the content is the original
    compressed to that level, and the importance is above 0. *)
Definition consistent {E : GoEnv} (r : Entry) : Prop :=
  e_tokens r = estimateTokens (e_content r)
  /\ 0 <= e_compression_level r <= LevelKeywords
  /\ e_content r = compressToLevel (e_original_content r) (e_compression_level r)
  /\ (0 < e_importance r)%Q.

(** The fields of a row that no statement of the package updates. *)
Definition sameEntry (r r' : Entry) : Prop :=
  e_id r' = e_id r /\ e_role r' = e_role r
  /\ e_original_content r' = e_original_content r
  /\ e_source r' = e_source r /\ e_embedding r' = e_embedding r
  /\ e_importance r' = e_importance r /\ e_seq r' = e_seq r.

Lemma ascending_sorted l : ascending l = true <-> StronglySorted Z.lt l.
Proof.
  induction l as [|a rest IH]; [split; [constructor|reflexivity]|].
  destruct rest as [|b rest'].
  - split; [repeat constructor | reflexivity].
  - change (ascending (a :: b :: rest'))
      with ((a <? b) && ascending (b :: rest')).
    rewrite andb_true_iff, Z.ltb_lt, IH. split.
    + intros [Hab Hs]. constructor; [exact Hs|]. constructor; [exact Hab|].
      inversion Hs as [|? ? _ Hall]; subst.
      eapply Forall_impl; [|exact Hall]. intros c Hc. simpl in Hc. lia.
    + intros Hs. inversion Hs as [|? ? Hs' Hall]; subst.
      inversion Hall; subst. auto.
Qed.

Section Passes.
Context {E : GoEnv}.

Lemma raise_id r : e_id (raise r) = e_id r.
Proof. reflexivity. Qed.

Lemma step_none r : step [] r = [r].
Proof. reflexivity. Qed.

Lemma flat_map_step_none rows : flat_map (step []) rows = rows.
Proof. induction rows as [|r rest IH]; simpl; [reflexivity|now rewrite IH]. Qed.

Lemma step_ids ids r r' : In r' (step ids r) -> e_id r' = e_id r.
Proof.
  unfold step. destruct (inb (e_id r) ids).
  - destruct (e_compression_level r + 1 >? LevelKeywords); simpl; [tauto|].
    intros [<-|[]]. reflexivity.
  - simpl. intros [<-|[]]. reflexivity.
Qed.

Lemma step_other ids r : inb (e_id r) ids = false -> step ids r = [r].
Proof. unfold step. now intros ->. Qed.

Lemma inb_cons w id ids : inb w (id :: ids) = String.eqb w id || inb w ids.
Proof. reflexivity. Qed.

(** One candidate processed, as the code does it, is [step] on its id. *)
Lemma one_candidate c rows :
  snapshot [c] rows ->
  (if cc_level c + 1 >? LevelKeywords then deleteByID (cc_id c) rows
   else updateByID (cc_id c)
          (compressToLevel (cc_originalContent c) (cc_level c + 1))
          (cc_level c + 1)
          (estimateTokens (compressToLevel (cc_originalContent c) (cc_level c + 1)))
          rows)
  = flat_map (step [cc_id c]) rows.
Proof.
  intros Hsnap. induction rows as [|r rest IH]; [now destruct (_ >? _)|].
  assert (Hrest : snapshot [c] rest).
  { intros c' Hc' r' Hr'. apply Hsnap; [exact Hc' | now right]. }
  specialize (IH Hrest). cbn [flat_map]. unfold step at 1. rewrite inb_cons.
  cbn [inb existsb]. rewrite orb_false_r.
  destruct (String.eqb (e_id r) (cc_id c)) eqn:Eid.
  - apply String.eqb_eq in Eid.
    destruct (Hsnap c (or_introl eq_refl) r (or_introl eq_refl) Eid)
      as [Horig Hlevel].
    rewrite Hlevel.
    destruct (cc_level c + 1 >? LevelKeywords) eqn:Elv.
    + rewrite delete_cons. apply String.eqb_eq in Eid. rewrite Eid. exact IH.
    + rewrite update_cons. apply String.eqb_eq in Eid. rewrite Eid.
      rewrite IH. unfold raise. rewrite Horig, Hlevel. reflexivity.
  - destruct (cc_level c + 1 >? LevelKeywords) eqn:Elv.
    + rewrite delete_cons, Eid, IH. reflexivity.
    + rewrite update_cons, Eid, IH. reflexivity.
Qed.

Lemma step_compose id ids rows :
  ~ In id ids ->
  flat_map (step ids) (flat_map (step [id]) rows)
  = flat_map (step (id :: ids)) rows.
Proof.
  intros Hn. induction rows as [|r rest IH]; [reflexivity|].
  cbn [flat_map]. rewrite flat_map_app, IH. f_equal.
  unfold step at 2 3. rewrite !inb_cons. cbn [inb existsb]. rewrite orb_false_r.
  destruct (String.eqb (e_id r) id) eqn:Eid; cbn [orb].
  - apply String.eqb_eq in Eid.
    destruct (e_compression_level r + 1 >? LevelKeywords); [reflexivity|].
    cbn [flat_map]. rewrite app_nil_r. apply step_other. rewrite raise_id, Eid.
    destruct (inb id ids) eqn:Ein; [|reflexivity].
    apply inb_In in Ein. contradiction.
  - cbn [flat_map]. rewrite app_nil_r. unfold step. reflexivity.
Qed.

Lemma flat_map_step_In ids rows r' :
  In r' (flat_map (step ids) rows) ->
  exists r, In r rows /\ In r' (step ids r).
Proof. intros Hin. apply in_flat_map in Hin. exact Hin. Qed.

(** The loop over the candidates processes a prefix of them. *)
Lemma processCandidates_closed maxTok cs :
  forall rows cur c e c' e' rows',
    NoDup (map cc_id cs) -> snapshot cs rows ->
    processCandidates maxTok cs rows cur c e = (c', e', rows') ->
    exists k, rows' = flat_map (step (map cc_id (firstn k cs))) rows.
Proof.
  induction cs as [|x rest IH]; intros rows cur c e c' e' rows' Hnd Hsnap Hp.
  - simpl in Hp. inversion Hp; subst. exists 0%nat. simpl.
    now rewrite flat_map_step_none.
  - simpl in Hp. destruct (cur <=? maxTok).
    { inversion Hp; subst. exists 0%nat. simpl. now rewrite flat_map_step_none. }
    inversion Hnd as [|? ? Hx Hrest]; subst.
    assert (Hone : snapshot [x] rows).
    { intros c0 [<-|[]]. apply Hsnap. now left. }
    pose proof (one_candidate x rows Hone) as Hstep.
    assert (Hsnap' : snapshot rest (flat_map (step [cc_id x]) rows)).
    { intros c0 Hc0 r Hr Hid. apply flat_map_step_In in Hr.
      destruct Hr as [r0 [Hr0 Hin]]. pose proof (step_ids _ _ _ Hin) as Hsame.
      assert (Hne : inb (e_id r0) [cc_id x] = false).
      { cbn [inb existsb]. rewrite orb_false_r. apply String.eqb_neq.
        intros Heq. apply Hx. rewrite <- Heq, <- Hsame, Hid. now apply in_map. }
      rewrite (step_other _ _ Hne) in Hin. destruct Hin as [<-|[]].
      apply Hsnap; [now right | exact Hr0 | exact Hid]. }
    destruct (cc_level x + 1 >? LevelKeywords) eqn:Elv.
    + rewrite Hstep in Hp. apply IH in Hp; [|exact Hrest|exact Hsnap'].
      destruct Hp as [k ->]. exists (S k). cbn [firstn map].
      apply step_compose. intros Hin. apply Hx.
      apply in_map_iff in Hin. destruct Hin as [c0 [Hid Hc0]].
      apply firstn_subset in Hc0. rewrite <- Hid. now apply in_map.
    + rewrite Hstep in Hp. apply IH in Hp; [|exact Hrest|exact Hsnap'].
      destruct Hp as [k ->]. exists (S k). cbn [firstn map].
      apply step_compose. intros Hin. apply Hx.
      apply in_map_iff in Hin. destruct Hin as [c0 [Hid Hc0]].
      apply firstn_subset in Hc0. rewrite <- Hid. now apply in_map.
Qed.

(** A pass leaves the rows as they are, or drops the oldest of a session
    that holds no more than [preserve_recent] rows, or processes
    candidates taken from the rows before the last [preserve_recent]. *)
Lemma enforceBudget_closed cfg rows c e rows' :
  NoDup (map e_id rows) ->
  enforceBudget cfg rows = Some (c, e, rows') ->
  rows' = rows
  \/ (Z.of_nat (List.length rows) <= preserveRecent cfg
      /\ exists k, rows' = skipn k rows)
  \/ (preserveRecent cfg < Z.of_nat (List.length rows)
      /\ exists ids,
           (forall id, In id ids ->
              In id (map e_id (firstn (Z.to_nat (Z.of_nat (List.length rows)
                                                 - preserveRecent cfg)) rows)))
           /\ rows' = flat_map (step ids) rows).
Proof.
  intros Hnd. unfold enforceBudget.
  destruct (sumTokens rows <=? maxTokens cfg);
    [intros Heq; inversion Heq; now left|].
  destruct (Z.leb_spec (Z.of_nat (List.length rows) - preserveRecent cfg) 0)
    as [Hlim|Hlim].
  - intros Hev. right. left. split; [lia|]. unfold evictOldest in Hev.
    destruct (evictLoop (List.length rows) (maxTokens cfg) rows (sumTokens rows) 0)
      as [[ev rows1]|] eqn:Hl; [|discriminate].
    inversion Hev; subst.
    destruct (evictLoop_prefix _ _ _ _ _ _ Hnd Hl) as [k [_ [_ [Hrows _]]]].
    now exists k.
  - intros Heq. inversion Heq as [Hp]. right. right. split; [lia|].
    set (n := Z.to_nat (Z.of_nat (List.length rows) - preserveRecent cfg)) in *.
    assert (Hperm : Permutation (map candidateOf (firstn n rows))
                                (sortCandidates (map candidateOf (firstn n rows))))
      by apply sortSlice_perm.
    apply processCandidates_closed in Hp.
    + destruct Hp as [k ->].
      exists (map cc_id (firstn k (sortCandidates (map candidateOf (firstn n rows))))).
      split; [|reflexivity]. intros id Hid.
      apply in_map_iff in Hid. destruct Hid as [c0 [<- Hc0]].
      apply firstn_subset in Hc0.
      apply (Permutation_in _ (Permutation_sym Hperm)) in Hc0.
      rewrite <- candidate_ids. now apply in_map.
    + eapply Permutation_NoDup; [apply Permutation_map; exact Hperm|].
      rewrite candidate_ids, <- firstn_map. now apply firstn_NoDup.
    + intros c0 Hc0 r Hr Hid.
      apply (Permutation_in _ (Permutation_sym Hperm)) in Hc0.
      apply in_map_iff in Hc0. destruct Hc0 as [r0 [<- Hr0]].
      apply firstn_subset in Hr0.
      rewrite (same_id_same_entry rows r r0 Hnd Hr Hr0 Hid). split; reflexivity.
Qed.

(** What holds of the rows through the passes of the enforcement loop:
    anything that survives dropping the oldest rows and [step]. *)
Lemma step_keeps_ids ids rows :
  NoDup (map e_id rows) -> NoDup (map e_id (flat_map (step ids) rows)).
Proof.
  induction rows as [|r rest IH]; intros Hnd; [constructor|].
  inversion Hnd as [|? ? Hr Hrest]; subst. cbn [flat_map].
  assert (Hnot : forall r', In r' (flat_map (step ids) rest) -> e_id r' <> e_id r).
  { intros r' Hr' Heq. apply flat_map_step_In in Hr'.
    destruct Hr' as [r0 [Hr0 Hin]]. apply step_ids in Hin.
    apply Hr. rewrite <- Heq, Hin. now apply in_map. }
  unfold step at 1. destruct (inb (e_id r) ids).
  - destruct (e_compression_level r + 1 >? LevelKeywords); [now apply IH|].
    cbn [app map]. constructor; [|now apply IH].
    intros Hin. apply in_map_iff in Hin. destruct Hin as [r' [Heq Hr']].
    now apply (Hnot r' Hr').
  - cbn [app map]. constructor; [|now apply IH].
    intros Hin. apply in_map_iff in Hin. destruct Hin as [r' [Heq Hr']].
    now apply (Hnot r' Hr').
Qed.

Lemma enforceLoop_keeps (P : list Entry -> Prop) cfg :
  (forall rows k,
      P rows -> Z.of_nat (List.length rows) <= preserveRecent cfg ->
      P (skipn k rows)) ->
  (forall rows ids,
      NoDup (map e_id rows) -> P rows ->
      preserveRecent cfg < Z.of_nat (List.length rows) ->
      (forall id, In id ids ->
         In id (map e_id (firstn (Z.to_nat (Z.of_nat (List.length rows)
                                            - preserveRecent cfg)) rows))) ->
      P (flat_map (step ids) rows)) ->
  forall fuel rows c e c' e' rows',
    NoDup (map e_id rows) -> P rows ->
    enforceLoop fuel cfg rows c e = Some (c', e', rows') ->
    NoDup (map e_id rows') /\ P rows'.
Proof.
  intros Hskip Hstep. induction fuel as [|fuel IH];
    intros rows c e c' e' rows' Hnd HP Hl; [discriminate|].
  simpl in Hl.
  destruct (enforceBudget cfg rows) as [[[c1 e1] rows1]|] eqn:Hb; [|discriminate].
  assert (Hone : NoDup (map e_id rows1) /\ P rows1).
  { destruct (enforceBudget_closed _ _ _ _ _ Hnd Hb)
      as [->|[[Hfew [k ->]]|[Hmany [ids [Hids ->]]]]].
    - now split.
    - split; [rewrite <- skipn_map; now apply skipn_NoDup | now apply Hskip].
    - split; [now apply step_keeps_ids | now apply Hstep]. }
  destruct Hone as [Hnd1 HP1].
  destruct ((c1 =? 0) && (e1 =? 0)).
  - inversion Hl; subst. now split.
  - eapply IH; eauto.
Qed.

(** *** The order of the rows *)

Lemma sorted_sublist (rows : list Entry) (pick : Entry -> list Entry) :
  (forall r r', In r' (pick r) -> e_seq r' = e_seq r) ->
  (forall r, (List.length (pick r) <= 1)%nat) ->
  StronglySorted Z.lt (map e_seq rows) ->
  StronglySorted Z.lt (map e_seq (flat_map pick rows)).
Proof.
  intros Hseq Hone. induction rows as [|r rest IH]; intros Hs; [constructor|].
  cbn [map] in Hs. inversion Hs as [|? ? Hs' Hall]; subst. cbn [flat_map].
  specialize (IH Hs').
  destruct (pick r) as [|r' [|r'' more]] eqn:Hp.
  - exact IH.
  - cbn [app map]. constructor; [exact IH|].
    rewrite (Hseq r r') by (rewrite Hp; now left).
    apply Forall_forall. intros x Hx. apply in_map_iff in Hx.
    destruct Hx as [y [<- Hy]]. apply in_flat_map in Hy.
    destruct Hy as [y0 [Hy0 Hin]]. rewrite (Hseq y0 y Hin).
    rewrite Forall_forall in Hall. apply Hall. now apply in_map.
  - specialize (Hone r). rewrite Hp in Hone. simpl in Hone. lia.
Qed.

Lemma step_seq ids r r' : In r' (step ids r) -> e_seq r' = e_seq r.
Proof.
  unfold step. destruct (inb (e_id r) ids).
  - destruct (e_compression_level r + 1 >? LevelKeywords); simpl; [tauto|].
    intros [<-|[]]. reflexivity.
  - simpl. intros [<-|[]]. reflexivity.
Qed.

Lemma step_short ids r : (List.length (step ids r) <= 1)%nat.
Proof.
  unfold step. destruct (inb (e_id r) ids); [|simpl; lia].
  destruct (e_compression_level r + 1 >? LevelKeywords); simpl; lia.
Qed.

Lemma sorted_skipn k (l : list Z) :
  StronglySorted Z.lt l -> StronglySorted Z.lt (skipn k l).
Proof.
  revert l. induction k as [|k IH]; intros l Hs; [exact Hs|].
  destruct l as [|x rest]; [constructor|]. simpl. apply IH.
  now inversion Hs.
Qed.

Lemma sorted_snoc (l : list Z) x :
  StronglySorted Z.lt l -> (forall y, In y l -> y < x) ->
  StronglySorted Z.lt (l ++ [x]).
Proof.
  induction l as [|a rest IH]; intros Hs Hlt; simpl.
  - repeat constructor.
  - inversion Hs as [|? ? Hs' Hall]; subst. constructor.
    + apply IH; [exact Hs'|]. intros y Hy. apply Hlt. now right.
    + apply Forall_app. split; [exact Hall|]. constructor; [|constructor].
      apply Hlt. now left.
Qed.

Lemma selectMaxSeq_ge rows r : In r rows -> e_seq r <= selectMaxSeq rows.
Proof.
  destruct rows as [|r0 rest]; [intros []|]. simpl.
  destruct (fold_max_ge (map e_seq rest) (e_seq r0)) as [H0 Hx].
  intros [<-|Hin]; [exact H0|]. apply Hx. now apply in_map.
Qed.

Lemma pushEntries_order genID cfg req :
  forall rows ms acc dd err rows' acc' dd',
    pushEntries genID cfg req rows ms acc dd = (err, rows', acc', dd') ->
    StronglySorted Z.lt (map e_seq rows) ->
    (forall r, In r rows -> e_seq r <= ms) ->
    StronglySorted Z.lt (map e_seq rows').
Proof.
  induction req as [|entry rest IH]; simpl;
    intros rows ms acc dd err rows' acc' dd' Hp Hs Hms.
  - now inversion Hp; subst.
  - destruct (String.eqb (pe_Content entry) EmptyString); [now apply IH in Hp|].
    destruct ((0 <? Z.of_nat (List.length (pe_Embedding entry)))
              && isDuplicate rows (pe_Embedding entry) (dedupThreshold cfg));
      [now apply IH in Hp|].
    destruct (estimateTokens (pe_Content entry) >? maxTokens cfg);
      [now inversion Hp; subst|].
    destruct (hasID (genID acc) rows); [now inversion Hp; subst|].
    apply IH in Hp; [exact Hp| |].
    + rewrite map_app. cbn [map e_seq]. apply sorted_snoc; [exact Hs|].
      intros y Hy. apply in_map_iff in Hy. destruct Hy as [r [<- Hr]].
      specialize (Hms r Hr). lia.
    + intros r Hr. apply in_app_or in Hr. destruct Hr as [Hr|[<-|[]]].
      * specialize (Hms r Hr). lia.
      * cbn [e_seq]. lia.
Qed.

(** X5.  Push keeps the keys and the order of the table: the ids stay
    pairwise distinct and the seq numbers stay strictly increasing along
    the rows, so that the order of insertion is the order by seq that
    Context and the enforcement select in.  This holds whether Push
    answers with a result or with an error. *)
Theorem push_keeps_order fuel genID s req out s' :
  uniqueIDs (entries s) = true ->
  ascending (map e_seq (entries s)) = true ->
  Push fuel genID s req = Some (out, s') ->
  uniqueIDs (entries s') = true
  /\ ascending (map e_seq (entries s')) = true.
Proof.
  intros Hu Ha. apply distinct_NoDup in Hu. apply ascending_sorted in Ha.
  unfold Push.
  destruct (pushEntries genID (config s) req (entries s)
                        (selectMaxSeq (entries s)) 0 0)
    as [[[err rows] acc] dd] eqn:Hp.
  pose proof (pushEntries_NoDup _ _ _ _ _ _ _ _ _ _ _ Hp Hu) as Hnd.
  pose proof (pushEntries_order _ _ _ _ _ _ _ _ _ _ _ Hp Ha
                (fun r Hr => selectMaxSeq_ge _ r Hr)) as Hs.
  destruct err as [err|].
  - intros Heq. inversion Heq; subst. simpl.
    split; [now apply distinct_NoDup | now apply ascending_sorted].
  - destruct (enforceLoop fuel (config s) rows 0 0) as [[[c e] rows']|] eqn:Hl;
      [|discriminate].
    intros Heq. inversion Heq; subst. simpl.
    destruct (enforceLoop_keeps
                (fun rows => StronglySorted Z.lt (map e_seq rows)) (config s))
      with (fuel := fuel) (rows := rows) (c := 0) (e := 0)
           (c' := c) (e' := e) (rows' := rows') as [Hnd' Hs']; auto.
    + intros rows0 k H0 _. rewrite <- skipn_map. now apply sorted_skipn.
    + intros rows0 ids _ H0 _ _. apply sorted_sublist; auto.
      * intros r r'. apply step_seq.
      * intros r. apply step_short.
    + split; [now apply distinct_NoDup | now apply ascending_sorted].
Qed.

(** *** The rows that the loop of [Push] appends *)

Lemma pushEntries_added genID cfg req :
  forall rows ms acc dd err rows' acc' dd',
    pushEntries genID cfg req rows ms acc dd = (err, rows', acc', dd') ->
    exists added,
      rows' = rows ++ added
      /\ Z.of_nat (List.length added) = acc' - acc
      /\ Forall (fun r => exists entry k seq,
                    In entry req
                    /\ String.eqb (pe_Content entry) EmptyString = false
                    /\ estimateTokens (pe_Content entry) <= maxTokens cfg
                    /\ ms < seq
                    /\ r = inserted entry (genID k) seq) added.
Proof.
  induction req as [|entry rest IH]; simpl;
    intros rows ms acc dd err rows' acc' dd' Hp.
  - inversion Hp; subst. exists []. rewrite app_nil_r.
    repeat split; [simpl; lia | constructor].
  - assert (Hwiden : forall (added : list Entry) ms',
               ms <= ms' ->
               Forall (fun r => exists entry0 k seq,
                         In entry0 rest
                         /\ String.eqb (pe_Content entry0) EmptyString = false
                         /\ estimateTokens (pe_Content entry0) <= maxTokens cfg
                         /\ ms' < seq
                         /\ r = inserted entry0 (genID k) seq) added ->
               Forall (fun r => exists entry0 k seq,
                         (entry = entry0 \/ In entry0 rest)
                         /\ String.eqb (pe_Content entry0) EmptyString = false
                         /\ estimateTokens (pe_Content entry0) <= maxTokens cfg
                         /\ ms < seq
                         /\ r = inserted entry0 (genID k) seq) added).
    { intros added ms' Hle Hall. eapply Forall_impl; [|exact Hall].
      intros r [entry0 [k [seq [Hin [Hne [Htok [Hseq Hr]]]]]]].
      exists entry0, k, seq. repeat split; auto. lia. }
    destruct (String.eqb (pe_Content entry) EmptyString) eqn:Eempty.
    { apply IH in Hp. destruct Hp as [added [Hrows [Hlen Hall]]].
      exists added. repeat split; auto. apply (Hwiden added ms); [lia|exact Hall]. }
    destruct ((0 <? Z.of_nat (List.length (pe_Embedding entry)))
              && isDuplicate rows (pe_Embedding entry) (dedupThreshold cfg)).
    { apply IH in Hp. destruct Hp as [added [Hrows [Hlen Hall]]].
      exists added. repeat split; auto. apply (Hwiden added ms); [lia|exact Hall]. }
    destruct (estimateTokens (pe_Content entry) >? maxTokens cfg) eqn:Etok.
    { inversion Hp; subst. exists []. rewrite app_nil_r.
      repeat split; [simpl; lia | constructor]. }
    destruct (hasID (genID acc) rows).
    { inversion Hp; subst. exists []. rewrite app_nil_r.
      repeat split; [simpl; lia | constructor]. }
    apply IH in Hp. destruct Hp as [added [Hrows [Hlen Hall]]].
    exists (inserted entry (genID acc) (ms + 1) :: added).
    split; [rewrite Hrows, <- app_assoc; reflexivity|].
    split; [cbn [List.length]; lia|].
    constructor; [|apply (Hwiden added (ms + 1)); [lia|exact Hall]].
    exists entry, acc, (ms + 1). repeat split; auto; lia.
Qed.

Lemma inserted_consistent entry id seq : consistent (inserted entry id seq).
Proof.
  unfold consistent, inserted. cbn.
  repeat split; try reflexivity; try (unfold LevelKeywords; lia).
  apply storedImportance_range.
Qed.

Lemma raise_consistent r :
  consistent r -> (e_compression_level r + 1 >? LevelKeywords) = false ->
  consistent (raise r).
Proof.
  intros [Htok [[Hlo Hhi] [Hcontent Himp]]] Hguard.
  rewrite Z.gtb_ltb in Hguard. apply Z.ltb_ge in Hguard.
  unfold consistent, raise. cbn. repeat split; try lia. exact Himp.
Qed.

Lemma Forall_skipn_rows (P : Entry -> Prop) k rows :
  Forall P rows -> Forall P (skipn k rows).
Proof.
  intros Hall. apply Forall_forall. intros r Hr.
  rewrite Forall_forall in Hall. apply Hall.
  rewrite <- (firstn_skipn k rows). apply in_or_app. now right.
Qed.

(** X6.  Push keeps every row consistent: the tokens of a row are the
    estimate of its content, its level is one of the four, its content is
    what [compressToLevel] makes of its original content at that level
    (the original itself at level 0), and its importance is above 0. *)
Theorem push_keeps_rows_consistent fuel genID s req out s' :
  uniqueIDs (entries s) = true ->
  Forall consistent (entries s) ->
  Push fuel genID s req = Some (out, s') ->
  Forall consistent (entries s').
Proof.
  intros Hu Hall. apply distinct_NoDup in Hu. unfold Push.
  destruct (pushEntries genID (config s) req (entries s)
                        (selectMaxSeq (entries s)) 0 0)
    as [[[err rows] acc] dd] eqn:Hp.
  pose proof (pushEntries_NoDup _ _ _ _ _ _ _ _ _ _ _ Hp Hu) as Hnd.
  assert (Hrows : Forall consistent rows).
  { destruct (pushEntries_added _ _ _ _ _ _ _ _ _ _ _ Hp)
      as [added [-> [_ Hadded]]].
    apply Forall_app. split; [exact Hall|].
    eapply Forall_impl; [|exact Hadded].
    intros r [entry [k [seq [_ [_ [_ [_ ->]]]]]]]. apply inserted_consistent. }
  destruct err as [err|].
  - intros Heq. inversion Heq; subst. exact Hrows.
  - destruct (enforceLoop fuel (config s) rows 0 0) as [[[c e] rows']|] eqn:Hl;
      [|discriminate].
    intros Heq. inversion Heq; subst. simpl.
    destruct (enforceLoop_keeps (Forall consistent) (config s))
      with (fuel := fuel) (rows := rows) (c := 0) (e := 0)
           (c' := c) (e' := e) (rows' := rows') as [_ Hfinal]; auto.
    + intros rows0 k H0 _. now apply Forall_skipn_rows.
    + intros rows0 ids _ H0 _ _. apply Forall_forall. intros r' Hr'.
      apply flat_map_step_In in Hr'. destruct Hr' as [r [Hr Hin]].
      rewrite Forall_forall in H0. specialize (H0 r Hr). unfold step in Hin.
      destruct (inb (e_id r) ids).
      * destruct (e_compression_level r + 1 >? LevelKeywords) eqn:Eg;
          [destruct Hin|]. destruct Hin as [<-|[]]. now apply raise_consistent.
      * destruct Hin as [<-|[]]. exact H0.
Qed.

(** *** What a row keeps *)

(** [r'] is [r], or [r] compressed further. *)
Definition descends (r r' : Entry) : Prop :=
  sameEntry r r'
  /\ (r' = r \/ e_compression_level r < e_compression_level r').

Lemma sameEntry_refl r : sameEntry r r.
Proof. unfold sameEntry. tauto. Qed.

Lemma sameEntry_trans a b c : sameEntry a b -> sameEntry b c -> sameEntry a c.
Proof.
  unfold sameEntry. intros [? [? [? [? [? [? ?]]]]]] [? [? [? [? [? [? ?]]]]]].
  repeat split; congruence.
Qed.

Lemma descends_refl r : descends r r.
Proof. split; [apply sameEntry_refl | now left]. Qed.

Lemma descends_raise a r : descends a r -> descends a (raise r).
Proof.
  intros [Hsame Hlevel]. split.
  - eapply sameEntry_trans; [exact Hsame|]. unfold sameEntry, raise. cbn. tauto.
  - right. cbn [raise e_compression_level]. destruct Hlevel as [->|Hlt]; lia.
Qed.

(** X7.  Push rewrites nothing of a row but its content, level and
    tokens: every row it leaves is a row that was there, or the row
    inserted for an entry of the request, with the same id, role,
    original content, source, embedding, importance and seq; it is that
    very row unless its level has risen.  No level ever goes down. *)
Theorem push_rewrites_content_only fuel genID s req out s' :
  uniqueIDs (entries s) = true ->
  Push fuel genID s req = Some (out, s') ->
  forall r', In r' (entries s') ->
    (exists r, In r (entries s) /\ descends r r')
    \/ (exists entry k seq,
          In entry req /\ selectMaxSeq (entries s) < seq
          /\ descends (inserted entry (genID k) seq) r').
Proof.
  intros Hu. apply distinct_NoDup in Hu. unfold Push.
  destruct (pushEntries genID (config s) req (entries s)
                        (selectMaxSeq (entries s)) 0 0)
    as [[[err rows] acc] dd] eqn:Hp.
  pose proof (pushEntries_NoDup _ _ _ _ _ _ _ _ _ _ _ Hp Hu) as Hnd.
  destruct (pushEntries_added _ _ _ _ _ _ _ _ _ _ _ Hp)
    as [added [Hrows [_ Hadded]]].
  assert (Hfrom : forall r' r, In r rows -> descends r r' ->
            (exists r, In r (entries s) /\ descends r r')
            \/ (exists entry k seq,
                  In entry req /\ selectMaxSeq (entries s) < seq
                  /\ descends (inserted entry (genID k) seq) r')).
  { intros r' r Hr Hd. rewrite Hrows in Hr. apply in_app_or in Hr.
    destruct Hr as [Hr|Hr]; [left; now exists r|].
    right. rewrite Forall_forall in Hadded.
    destruct (Hadded r Hr) as [entry [k [seq [Hin [_ [_ [Hseq ->]]]]]]].
    now exists entry, k, seq. }
  destruct err as [err|].
  - intros Heq. injection Heq as Hout Hs'. subst out s'. simpl. intros r' Hr'.
    apply (Hfrom r' r' Hr'), descends_refl.
  - destruct (enforceLoop fuel (config s) rows 0 0) as [[[c e] rows']|] eqn:Hl;
      [|discriminate].
    intros Heq. injection Heq as Hout Hs'. subst out s'. simpl.
    destruct (enforceLoop_keeps
                (fun table => forall r', In r' table ->
                                exists r, In r rows /\ descends r r')
                (config s))
      with (fuel := fuel) (rows := rows) (c := 0) (e := 0)
           (c' := c) (e' := e) (rows' := rows') as [_ Hfinal]; auto.
    + intros rows0 k H0 _ r' Hr'. apply H0.
      rewrite <- (firstn_skipn k rows0). apply in_or_app. now right.
    + intros rows0 ids _ H0 _ _ r' Hr'.
      apply flat_map_step_In in Hr'. destruct Hr' as [r [Hr Hin]].
      destruct (H0 r Hr) as [a [Ha Hd]]. exists a. split; [exact Ha|].
      unfold step in Hin. destruct (inb (e_id r) ids).
      * destruct (e_compression_level r + 1 >? LevelKeywords);
          [destruct Hin|]. destruct Hin as [<-|[]]. now apply descends_raise.
      * destruct Hin as [<-|[]]. exact Hd.
    + intros r' Hr'. exists r'. split; [exact Hr' | apply descends_refl].
    + intros r' Hr'. destruct (Hfinal r' Hr') as [r [Hr Hd]].
      now apply (Hfrom r' r).
Qed.

(** *** Counting *)

Definition emptyContent (entry : PushEntry) : bool :=
  String.eqb (pe_Content entry) EmptyString.

Lemma pushEntries_counts genID cfg req :
  forall rows ms acc dd rows' acc' dd',
    pushEntries genID cfg req rows ms acc dd = (None, rows', acc', dd') ->
    acc <= acc' /\ dd <= dd'
    /\ (acc' - acc) + (dd' - dd)
       + Z.of_nat (List.length (filter emptyContent req))
       = Z.of_nat (List.length req).
Proof.
  induction req as [|entry rest IH]; simpl;
    intros rows ms acc dd rows' acc' dd' Hp.
  - inversion Hp; subst. lia.
  - unfold emptyContent at 1.
    destruct (String.eqb (pe_Content entry) EmptyString).
    { apply IH in Hp. cbn [List.length]. lia. }
    destruct ((0 <? Z.of_nat (List.length (pe_Embedding entry)))
              && isDuplicate rows (pe_Embedding entry) (dedupThreshold cfg)).
    { apply IH in Hp. lia. }
    destruct (estimateTokens (pe_Content entry) >? maxTokens cfg);
      [discriminate|].
    destruct (hasID (genID acc) rows); [discriminate|].
    apply IH in Hp. lia.
Qed.

Lemma enforceLoop_counts cfg fuel :
  forall rows c e c' e' rows',
    NoDup (map e_id rows) ->
    enforceLoop fuel cfg rows c e = Some (c', e', rows') ->
    c <= c' /\ e <= e' /\ count rows' + (e' - e) = count rows
    /\ (c' = c /\ e' = e -> rows' = rows).
Proof.
  induction fuel as [|fuel IH]; intros rows c e c' e' rows' Hnd Hl;
    [discriminate|].
  simpl in Hl.
  destruct (enforceBudget_spec cfg rows Hnd)
    as [c1 [e1 [rows1 [Hb [Hc1 [He1 [Hcount [_ Hnd1]]]]]]]].
  rewrite Hb in Hl.
  destruct (Z.eqb_spec c1 0) as [Hc0|Hc0]; destruct (Z.eqb_spec e1 0) as [He0|He0];
    cbn [andb] in Hl.
  - inversion Hl; subst. repeat split; try lia.
    intros _. now apply enforceBudget_done in Hb.
  - apply IH in Hl; [|exact Hnd1]. repeat split; try lia.
  - apply IH in Hl; [|exact Hnd1]. repeat split; try lia.
  - apply IH in Hl; [|exact Hnd1]. repeat split; try lia.
Qed.

(** X8.  The result of a Push accounts for every entry of the request
    and every row of the session: an entry is accepted, deduplicated or
    skipped for its empty content, and the session holds the rows it had,
    plus the accepted ones, less the evicted ones. *)
Theorem push_accounts fuel genID s req res s' :
  uniqueIDs (entries s) = true ->
  Push fuel genID s req = Some (inr res, s') ->
  Accepted res + Deduplicated res
  + Z.of_nat (List.length (filter emptyContent req))
  = Z.of_nat (List.length req)
  /\ 0 <= Accepted res /\ 0 <= Deduplicated res
  /\ 0 <= Compressed res /\ 0 <= Evicted res
  /\ Z.of_nat (List.length (entries s'))
     = Z.of_nat (List.length (entries s)) + Accepted res - Evicted res.
Proof.
  intros Hu. apply distinct_NoDup in Hu. unfold Push.
  destruct (pushEntries genID (config s) req (entries s)
                        (selectMaxSeq (entries s)) 0 0)
    as [[[[err|] rows] acc] dd] eqn:Hp; [discriminate|].
  pose proof (pushEntries_NoDup _ _ _ _ _ _ _ _ _ _ _ Hp Hu) as Hnd.
  destruct (pushEntries_added _ _ _ _ _ _ _ _ _ _ _ Hp)
    as [added [Hrows [Hlen _]]].
  apply pushEntries_counts in Hp.
  destruct (enforceLoop fuel (config s) rows 0 0) as [[[c e] rows']|] eqn:Hl;
    [|discriminate].
  intros Heq. injection Heq as Hres Hs'. subst res s'. cbn.
  apply enforceLoop_counts in Hl; [|exact Hnd]. unfold count in Hl.
  rewrite Hrows, length_app in Hl. repeat split; lia.
Qed.

(** Entries of a request, in the order of the request. *)
Inductive subsequence {A : Type} : list A -> list A -> Prop :=
| subsequence_nil : subsequence [] []
| subsequence_skip x l1 l2 : subsequence l1 l2 -> subsequence l1 (x :: l2)
| subsequence_take x l1 l2 : subsequence l1 l2 -> subsequence (x :: l1) (x :: l2).

(** The rows that the loop of [Push] appends for the entries it
    accepts: the first draws the id [genID accepted] and takes the seq
    after [seq], and so on. *)
Fixpoint insertedFrom (genID : Z -> string) (seq accepted : Z)
    (entries : list PushEntry) : list Entry :=
  match entries with
  | [] => []
  | entry :: rest =>
      inserted entry (genID accepted) (seq + 1)
      :: insertedFrom genID (seq + 1) (accepted + 1) rest
  end.

(** The table as the loop of [Push] leaves it, before the budget is
    enforced. *)
Definition afterInsertions (genID : Z -> string) (s : SessionState)
    (req : list PushEntry) : list Entry :=
  let '(_, rows, _, _) :=
    pushEntries genID (config s) req (entries s) (selectMaxSeq (entries s)) 0 0 in
  rows.

Lemma subsequence_none {A} (l : list A) : subsequence [] l.
Proof. induction l; now constructor. Qed.

Lemma pushEntries_accepts genID cfg req :
  forall rows ms acc dd err rows' acc' dd',
    pushEntries genID cfg req rows ms acc dd = (err, rows', acc', dd') ->
    exists accepted,
      subsequence accepted req
      /\ rows' = rows ++ insertedFrom genID ms acc accepted
      /\ acc' = acc + Z.of_nat (List.length accepted).
Proof.
  induction req as [|entry rest IH]; simpl;
    intros rows ms acc dd err rows' acc' dd' Hp.
  - inversion Hp; subst. exists []. rewrite app_nil_r.
    repeat split; [constructor | simpl; lia].
  - assert (Hskip : forall dd0,
               pushEntries genID cfg rest rows ms acc dd0 = (err, rows', acc', dd') ->
               exists accepted,
                 subsequence accepted (entry :: rest)
                 /\ rows' = rows ++ insertedFrom genID ms acc accepted
                 /\ acc' = acc + Z.of_nat (List.length accepted)).
    { intros dd0 Hq. apply IH in Hq. destruct Hq as [accepted [Hsub [Hrows Hacc]]].
      exists accepted. split; [now constructor|]. now split. }
    assert (Hstop : (err, rows', acc', dd') = (err, rows, acc, dd) ->
               exists accepted,
                 subsequence accepted (entry :: rest)
                 /\ rows' = rows ++ insertedFrom genID ms acc accepted
                 /\ acc' = acc + Z.of_nat (List.length accepted)).
    { intros Heq. inversion Heq; subst. exists [].
      split; [apply subsequence_none|]. rewrite app_nil_r. simpl. split; [reflexivity|lia]. }
    destruct (String.eqb (pe_Content entry) EmptyString); [now apply Hskip in Hp|].
    destruct ((0 <? Z.of_nat (List.length (pe_Embedding entry)))
              && isDuplicate rows (pe_Embedding entry) (dedupThreshold cfg));
      [now apply Hskip in Hp|].
    destruct (estimateTokens (pe_Content entry) >? maxTokens cfg).
    { apply Hstop. inversion Hp; subst. reflexivity. }
    destruct (hasID (genID acc) rows).
    { apply Hstop. inversion Hp; subst. reflexivity. }
    apply IH in Hp. destruct Hp as [accepted [Hsub [Hrows Hacc]]].
    exists (entry :: accepted). split; [now constructor|]. split.
    + rewrite Hrows, <- app_assoc. reflexivity.
    + rewrite Hacc. cbn [List.length]. lia.
Qed.

(** X9.  While the session stays within its budget a Push only appends.
    The loop of the Push appends one row for each entry it accepts, in
    the order of the request, with consecutive seq numbers; when the
    table it leaves sums to no more than [max_tokens], nothing is
    compressed or evicted, and whenever a Push reports nothing compressed
    and nothing evicted, that table is the session it leaves. *)
Theorem push_within_budget_appends fuel genID s req res s' :
  uniqueIDs (entries s) = true ->
  Push fuel genID s req = Some (inr res, s') ->
  exists accepted,
    subsequence accepted req
    /\ Z.of_nat (List.length accepted) = Accepted res
    /\ afterInsertions genID s req
       = entries s ++ insertedFrom genID (selectMaxSeq (entries s)) 0 accepted
    /\ (sumTokens (afterInsertions genID s req) <= maxTokens (config s) ->
        Compressed res = 0 /\ Evicted res = 0)
    /\ (Compressed res = 0 /\ Evicted res = 0 ->
        entries s' = afterInsertions genID s req).
Proof.
  intros Hu. apply distinct_NoDup in Hu. unfold Push, afterInsertions.
  destruct (pushEntries genID (config s) req (entries s)
                        (selectMaxSeq (entries s)) 0 0)
    as [[[[err|] rows] acc] dd] eqn:Hp; [discriminate|].
  pose proof (pushEntries_NoDup _ _ _ _ _ _ _ _ _ _ _ Hp Hu) as Hnd.
  destruct (pushEntries_accepts _ _ _ _ _ _ _ _ _ _ _ Hp)
    as [accepted [Hsub [Hrows Hacc]]].
  destruct (enforceLoop fuel (config s) rows 0 0) as [[[c e] rows']|] eqn:Hl;
    [|discriminate].
  intros Heq. injection Heq as Hres Hs'. subst res s'. cbn.
  exists accepted. split; [exact Hsub|]. split; [lia|]. split; [exact Hrows|].
  split.
  - intros Hsum. destruct fuel as [|fuel]; [discriminate|].
    simpl in Hl. unfold enforceBudget in Hl.
    apply Z.leb_le in Hsum. rewrite Hsum in Hl. cbn in Hl.
    inversion Hl; subst. split; reflexivity.
  - intros [Hc He].
    apply enforceLoop_counts in Hl; [|exact Hnd].
    destruct Hl as [_ [_ [_ Hsame]]]. apply Hsame. split; congruence.
Qed.

(** *** The most recent rows *)

Lemma step_outside ids rows :
  (forall r, In r rows -> ~ In (e_id r) ids) ->
  flat_map (step ids) rows = rows.
Proof.
  induction rows as [|r rest IH]; intros Hout; [reflexivity|].
  cbn [flat_map]. rewrite step_other, IH; [reflexivity| |].
  - intros r0 Hr0. apply Hout. now right.
  - destruct (inb (e_id r) ids) eqn:Ein; [|reflexivity].
    apply inb_In in Ein. exfalso. apply (Hout r); [now left|exact Ein].
Qed.

(** X10.  The rows that are the [preserve_recent] most recent in the
    table that the loop of the Push leaves (the rows of the session with
    the rows of the accepted entries after them) are not compressed by
    the Push: the session it leaves ends with them as they were.  The
    fallback eviction may drop some of them, the oldest first, and does
    so only when no older row is left. *)
Theorem push_preserves_recent fuel genID s req res s' :
  uniqueIDs (entries s) = true ->
  Push fuel genID s req = Some (inr res, s') ->
  let pushed := afterInsertions genID s req in
  let protectedFrom :=
    Z.to_nat (Z.of_nat (List.length pushed) - preserveRecent (config s)) in
  exists accepted older recent dropped,
    subsequence accepted req
    /\ Z.of_nat (List.length accepted) = Accepted res
    /\ pushed
       = entries s ++ insertedFrom genID (selectMaxSeq (entries s)) 0 accepted
    /\ entries s' = older ++ recent
    /\ skipn protectedFrom pushed = dropped ++ recent
    /\ (dropped <> [] -> older = [])
    /\ (forall r', In r' older ->
          In (e_id r') (map e_id (firstn protectedFrom pushed))).
Proof.
  intros Hu. apply distinct_NoDup in Hu. unfold Push, afterInsertions.
  destruct (pushEntries genID (config s) req (entries s)
                        (selectMaxSeq (entries s)) 0 0)
    as [[[[err|] rows] acc] dd] eqn:Hp; [discriminate|].
  pose proof (pushEntries_NoDup _ _ _ _ _ _ _ _ _ _ _ Hp Hu) as Hnd.
  destruct (pushEntries_accepts _ _ _ _ _ _ _ _ _ _ _ Hp)
    as [accepted [Hsub [Hrows Hacc]]].
  destruct (enforceLoop fuel (config s) rows 0 0) as [[[c e] rows']|] eqn:Hl;
    [|discriminate].
  intros Heq. injection Heq as Hres Hs'. subst res s'. cbn.
  exists accepted.
  assert (Hpin : forall older recent dropped,
             rows' = older ++ recent
             /\ skipn (Z.to_nat (Z.of_nat (List.length rows)
                                 - preserveRecent (config s))) rows
                = dropped ++ recent
             /\ (dropped <> [] -> older = [])
             /\ (forall r', In r' older ->
                   In (e_id r')
                      (map e_id
                         (firstn (Z.to_nat (Z.of_nat (List.length rows)
                                            - preserveRecent (config s)))
                                 rows))) ->
             subsequence accepted req
             /\ Z.of_nat (List.length accepted) = acc
             /\ rows = entries s
                       ++ insertedFrom genID (selectMaxSeq (entries s)) 0 accepted
             /\ rows' = older ++ recent
             /\ skipn (Z.to_nat (Z.of_nat (List.length rows)
                                 - preserveRecent (config s))) rows
                = dropped ++ recent
             /\ (dropped <> [] -> older = [])
             /\ (forall r', In r' older ->
                   In (e_id r')
                      (map e_id
                         (firstn (Z.to_nat (Z.of_nat (List.length rows)
                                            - preserveRecent (config s)))
                                 rows)))).
  { intros older recent dropped H. split; [exact Hsub|]. split; [lia|].
    split; [exact Hrows | exact H]. }
  cut (exists older recent dropped,
          rows' = older ++ recent
          /\ skipn (Z.to_nat (Z.of_nat (List.length rows)
                              - preserveRecent (config s))) rows
             = dropped ++ recent
          /\ (dropped <> [] -> older = [])
          /\ (forall r', In r' older ->
                In (e_id r')
                   (map e_id
                      (firstn (Z.to_nat (Z.of_nat (List.length rows)
                                         - preserveRecent (config s)))
                              rows)))).
  { intros [older [recent [dropped H]]]. exists older, recent, dropped.
    now apply Hpin. }
  clear Hpin.
  set (p := preserveRecent (config s)) in *.
  set (n1 := Z.to_nat (Z.of_nat (List.length rows) - p)).
  assert (Htail : p < 0 \/ Z.of_nat (List.length (skipn n1 rows)) <= p).
  { rewrite length_skipn. unfold n1. lia. }
  destruct (enforceLoop_keeps
              (fun table =>
                 exists older recent dropped,
                   table = older ++ recent
                   /\ skipn n1 rows = dropped ++ recent
                   /\ (dropped <> [] -> older = [])
                   /\ (forall r', In r' older ->
                         In (e_id r') (map e_id (firstn n1 rows))))
              (config s))
    with (fuel := fuel) (rows := rows) (c := 0) (e := 0)
         (c' := c) (e' := e) (rows' := rows')
    as [_ [older [recent [dropped [Hfinal [Hsplit [Hdrop Holder]]]]]]]; auto.
  - (* the fallback: no older row is left *)
    intros table k [older [recent [dropped [-> [Hsplit [Hdrop Holder]]]]]] Hfew.
    fold p in Hfew.
    assert (Hnone : older = []).
    { destruct older as [|r0 older']; [reflexivity|]. exfalso.
      destruct dropped as [|d dropped'];
        [|specialize (Hdrop ltac:(discriminate)); discriminate].
      simpl in Hsplit. rewrite <- Hsplit, length_app in Hfew.
      cbn [List.length] in Hfew.
      destruct Htail as [Hneg|Htail]; [lia|].
      assert (Hin : In (e_id r0) (map e_id (firstn n1 rows)))
        by (apply Holder; now left).
      assert (Hpos : (0 < n1)%nat).
      { destruct n1; [destruct Hin | lia]. }
      rewrite length_skipn in Hfew. unfold n1 in Hpos, Hfew. lia. }
    subst older. simpl.
    exists [], (skipn k recent), (dropped ++ firstn k recent).
    split; [reflexivity|]. split.
    { rewrite <- app_assoc, firstn_skipn. exact Hsplit. }
    split; [reflexivity|]. intros r' [].
  - (* candidates: they come from the older rows *)
    intros table ids Hndt [older [recent [dropped [-> [Hsplit [Hdrop Holder]]]]]]
           Hmany Hids.
    fold p in Hmany, Hids.
    assert (Hrecent : p < 0 /\ recent = [] \/ Z.of_nat (List.length recent) <= p).
    { destruct Htail as [Hneg|Htail].
      - left. split; [exact Hneg|].
        assert (Hempty : skipn n1 rows = []).
        { apply skipn_all2. unfold n1. lia. }
        rewrite Hempty in Hsplit. symmetry in Hsplit.
        now apply app_eq_nil in Hsplit.
      - right. rewrite Hsplit, length_app in Htail. lia. }
    assert (Hfrom : forall id, In id ids -> In id (map e_id older)).
    { intros id Hid. specialize (Hids id Hid).
      rewrite length_app in Hids.
      destruct Hrecent as [[_ ->]|Hle].
      - rewrite app_nil_r in Hids. rewrite <- firstn_map in Hids.
        now apply firstn_subset in Hids.
      - rewrite firstn_app in Hids. rewrite map_app in Hids.
        apply in_app_or in Hids. destruct Hids as [Hids|Hids].
        + rewrite <- firstn_map in Hids. now apply firstn_subset in Hids.
        + replace (Z.to_nat (Z.of_nat (List.length older + List.length recent) - p)
                   - List.length older)%nat with 0%nat in Hids by lia.
          destruct Hids. }
    rewrite flat_map_app.
    rewrite (step_outside ids recent).
    + exists (flat_map (step ids) older), recent, dropped.
      repeat split; auto.
      * intros Hd. rewrite (Hdrop Hd). reflexivity.
      * intros r' Hr'. apply flat_map_step_In in Hr'.
        destruct Hr' as [r [Hr Hin]]. rewrite (step_ids _ _ _ Hin).
        now apply Holder.
    + intros r Hr Hin. rewrite map_app in Hndt.
      apply (NoDup_app_disjoint _ _ (e_id r) Hndt);
        [now apply Hfrom | now apply in_map].
  - exists (firstn n1 rows), (skipn n1 rows), [].
    repeat split; auto.
    + now rewrite firstn_skipn.
    + intros Hd. now contradiction Hd.
    + intros r' Hr'. now apply in_map.
  - exists older, recent, dropped. repeat split; auto.
Qed.

(** *** Duplicates *)

Lemma sumTokens_app a b : sumTokens (a ++ b) = sumTokens a + sumTokens b.
Proof.
  induction a as [|r rest IH]; [reflexivity|].
  cbn [app]. rewrite !sumTokens_cons, IH. lia.
Qed.

Lemma estimateTokens_nonneg text : 0 <= estimateTokens text.
Proof.
  unfold estimateTokens, len. apply Z.quot_pos; lia.
Qed.

(** X11.  Pushing an entry a second time deduplicates it.  For an entry
    with content and an embedding of 32-bit values that is within the
    threshold of itself, pushed into a session with room for it: the
    first Push stores it, unless it finds a duplicate already, and a
    second Push of the same entry writes nothing and reports it
    deduplicated. *)
Theorem push_twice_deduplicates fuel genID genID' s entry res1 s1 :
  emptyContent entry = false ->
  MemoryProofs.words32 (pe_Embedding entry) = true ->
  (0 <? Z.of_nat (List.length (pe_Embedding entry))) = true ->
  Qltb (CosineDistance (pe_Embedding entry) (pe_Embedding entry))
       (dedupThreshold (config s)) = true ->
  sumTokens (entries s) + estimateTokens (pe_Content entry)
  <= maxTokens (config s) ->
  Push fuel genID s [entry] = Some (inr res1, s1) ->
  Accepted res1 + Deduplicated res1 = 1
  /\ Push fuel genID' s1 [entry]
     = Some (inr {| Accepted := 0; Deduplicated := 1;
                    Compressed := 0; Evicted := 0;
                    CurrentTokens := CurrentTokens res1;
                    BudgetRemaining := BudgetRemaining res1 |}, s1).
Proof.
  unfold emptyContent. intros Hcontent Hwords Hemb Hself Hroom.
  pose proof (estimateTokens_nonneg (pe_Content entry)) as Hest.
  assert (Hpass : forall rows,
             sumTokens rows <= maxTokens (config s) ->
             enforceLoop fuel (config s) rows 0 0 <> None ->
             enforceLoop fuel (config s) rows 0 0 = Some (0, 0, rows)).
  { intros rows Hsum Hsome. destruct fuel as [|fuel']; [now contradiction Hsome|].
    simpl. unfold enforceBudget. apply Z.leb_le in Hsum. now rewrite Hsum. }
  assert (Hagain : forall rows,
             isDuplicate rows (pe_Embedding entry) (dedupThreshold (config s)) = true ->
             sumTokens rows <= maxTokens (config s) ->
             enforceLoop fuel (config s) rows 0 0 <> None ->
             Push fuel genID' {| config := config s; entries := rows |} [entry]
             = Some (inr {| Accepted := 0; Deduplicated := 1;
                            Compressed := 0; Evicted := 0;
                            CurrentTokens := sumTokens rows;
                            BudgetRemaining := maxTokens (config s) - sumTokens rows |},
                     {| config := config s; entries := rows |})).
  { intros rows Hdup Hsum Hsome. unfold Push. cbn [config entries pushEntries].
    rewrite Hcontent, Hemb, Hdup. cbn [andb].
    now rewrite (Hpass rows Hsum Hsome). }
  intros Hpush. unfold Push in Hpush. cbn [pushEntries] in Hpush.
  rewrite Hcontent, Hemb in Hpush. cbn [andb] in Hpush.
  destruct (isDuplicate (entries s) (pe_Embedding entry)
                        (dedupThreshold (config s))) eqn:Hdup.
  - destruct (enforceLoop fuel (config s) (entries s) 0 0) as [out|] eqn:Hl;
      [|discriminate].
    assert (Hsome : enforceLoop fuel (config s) (entries s) 0 0 <> None)
      by congruence.
    rewrite (Hpass (entries s)) in Hl by (try lia; exact Hsome).
    inversion Hl; subst out.
    injection Hpush as Hres Hs1. subst res1 s1.
    split; [reflexivity|]. cbn [CurrentTokens BudgetRemaining].
    apply Hagain; [exact Hdup | lia | exact Hsome].
  - destruct (estimateTokens (pe_Content entry) >? maxTokens (config s));
      [discriminate|].
    destruct (hasID (genID 0) (entries s)); [discriminate|].
    match type of Hpush with
    | context [enforceLoop fuel (config s) (entries s ++ [?r]) 0 0] =>
        set (row := r) in *
    end.
    assert (Hsum : sumTokens (entries s ++ [row]) <= maxTokens (config s)).
    { rewrite sumTokens_app. cbn. lia. }
    destruct (enforceLoop fuel (config s) (entries s ++ [row]) 0 0) as [out|] eqn:Hl;
      [|discriminate].
    assert (Hsome : enforceLoop fuel (config s) (entries s ++ [row]) 0 0 <> None)
      by congruence.
    rewrite (Hpass _ Hsum Hsome) in Hl. inversion Hl; subst out.
    injection Hpush as Hres Hs1. subst res1 s1.
    split; [reflexivity|]. cbn [CurrentTokens BudgetRemaining].
    apply Hagain; [|exact Hsum|exact Hsome].
    unfold isDuplicate. rewrite map_app, existsb_app. apply orb_true_iff. right.
    cbn [map existsb e_embedding row].
    rewrite MemoryProofs.decode_encode by exact Hwords.
    apply Z.ltb_lt in Hemb.
    destruct (Z.eqb_spec (Z.of_nat (List.length (pe_Embedding entry))) 0); [lia|].
    now rewrite Hself.
Qed.

End Passes.

(** ** Context *)

Definition contextEntryOf (r : Entry) : ContextEntry :=
  {| ce_ID := e_id r; ce_Role := e_role r; ce_Content := e_content r;
     ce_Source := e_source r; ce_Level := e_compression_level r;
     ce_Tokens := e_tokens r |}.

(** [levels[level]], 0 for a level the map does not hold. *)
Definition levelCount (level : Z) (levels : list (Z * Z)) : Z :=
  match find (fun p => fst p =? level) levels with
  | Some p => snd p
  | None => 0
  end.

Definition atLevel (level : Z) (rows : list Entry) : Z :=
  Z.of_nat (List.length (filter (fun r => e_compression_level r =? level) rows)).

(** The rows that the query of [Context] selects. *)
Definition selectedRows (s : SessionState) (req : ContextRequest) : list Entry :=
  if String.eqb (ctx_Role req) EmptyString then entries s
  else filter (fun r => String.eqb (e_role r) (ctx_Role req)) (entries s).

Lemma incrLevel_count l level levels :
  levelCount l (incrLevel level levels)
  = levelCount l levels + (if l =? level then 1 else 0).
Proof.
  unfold levelCount. induction levels as [|[k n] rest IH]; cbn [incrLevel find fst].
  - rewrite Z.eqb_sym. destruct (l =? level); cbn; lia.
  - destruct (Z.eqb_spec k level) as [->|Hkl]; cbn [find fst].
    + destruct (Z.eqb_spec level l) as [->|Hne].
      * rewrite Z.eqb_refl. cbn. lia.
      * destruct (Z.eqb_spec l level); [congruence|]. lia.
    + destruct (Z.eqb_spec k l) as [->|Hne].
      * destruct (Z.eqb_spec l level); [congruence|]. cbn. lia.
      * exact IH.
Qed.

Lemma atLevel_cons l r rows :
  atLevel l (r :: rows)
  = (if e_compression_level r =? l then 1 else 0) + atLevel l rows.
Proof.
  unfold atLevel. cbn [filter].
  destruct (e_compression_level r =? l); cbn [List.length]; lia.
Qed.

Lemma contextWalk_spec m raw :
  forall tc lv out total lv',
    contextWalk m raw tc lv = (out, total, lv') ->
    exists k : nat,
      (k <= List.length raw)%nat
      /\ out = map contextEntryOf (firstn k raw)
      /\ total = tc + sumTokens (firstn k raw)
      /\ (forall l, levelCount l lv' = levelCount l lv + atLevel l (firstn k raw))
      /\ (0 < m -> tc <= m -> total <= m)
      /\ (m <= 0 -> k = List.length raw)
      /\ (forall r, nth_error raw k = Some r -> 0 < m /\ m < total + e_tokens r).
Proof.
  induction raw as [|r rest IH]; intros tc lv out total lv' Hw; simpl in Hw.
  - inversion Hw; subst. exists 0%nat. cbn.
    repeat split; try lia; try congruence.
  - destruct ((m >? 0) && (tc + e_tokens r >? m)) eqn:Estop.
    + inversion Hw; subst. exists 0%nat. cbn.
      apply andb_true_iff in Estop. destruct Estop as [Hm Hover].
      repeat split; try lia;
        match goal with
        | H : Some _ = Some _ |- _ => inversion H; subst; lia
        end.
    + destruct (contextWalk m rest (tc + e_tokens r)
                            (incrLevel (e_compression_level r) lv))
        as [[out1 total1] lv1] eqn:Hrest.
      inversion Hw; subst.
      destruct (IH _ _ _ _ _ Hrest)
        as [k [Hk [Hout [Htotal [Hlv [Hfit [Hall Hnext]]]]]]].
      exists (S k). cbn [firstn map List.length nth_error].
      rewrite sumTokens_cons.
      split; [lia|]. split; [now rewrite Hout|]. split; [lia|].
      split.
      { intros l. rewrite Hlv, incrLevel_count, atLevel_cons.
        rewrite (Z.eqb_sym l). lia. }
      split.
      { intros Hm Htc. apply Hfit; [exact Hm|]. apply andb_false_iff in Estop.
        destruct Estop as [Hm'|Hover]; lia. }
      split; [intros Hm; rewrite (Hall Hm); reflexivity|].
      intros r0 Hr0. now apply Hnext.
Qed.

(** X12.  Context returns a window that starts with the oldest selected
    row and runs on in seq order for as long as the rows fit: the entries
    are the first k rows of the session (of the given role, if one is
    given), the totals are their number and the sum of their tokens, and
    the level counts are theirs.  With a positive [max_tokens] the total
    stays within it and the window stops at the first row that would
    exceed it, even if later rows would fit; otherwise the window is all
    the selected rows. *)
Theorem context_window s req :
  exists k : nat,
    (k <= List.length (selectedRows s req))%nat
    /\ ctx_Entries (Context s req)
       = map contextEntryOf (firstn k (selectedRows s req))
    /\ TotalEntries (ctx_Stats (Context s req)) = Z.of_nat k
    /\ TotalTokens (ctx_Stats (Context s req))
       = sumTokens (firstn k (selectedRows s req))
    /\ (forall l, levelCount l (CompressionLevels (ctx_Stats (Context s req)))
                  = atLevel l (firstn k (selectedRows s req)))
    /\ (0 < ctx_MaxTokens req ->
        TotalTokens (ctx_Stats (Context s req)) <= ctx_MaxTokens req)
    /\ (ctx_MaxTokens req <= 0 -> k = List.length (selectedRows s req))
    /\ (forall r, nth_error (selectedRows s req) k = Some r ->
                  0 < ctx_MaxTokens req
                  /\ ctx_MaxTokens req
                     < TotalTokens (ctx_Stats (Context s req)) + e_tokens r).
Proof.
  unfold Context. fold (selectedRows s req).
  destruct (contextWalk (ctx_MaxTokens req) (selectedRows s req) 0 [])
    as [[out total] lv] eqn:Hw.
  destruct (contextWalk_spec _ _ _ _ _ _ _ Hw)
    as [k [Hk [Hout [Htotal [Hlv [Hfit [Hall Hnext]]]]]]].
  exists k. cbn [ctx_Entries ctx_Stats TotalEntries TotalTokens CompressionLevels].
  split; [exact Hk|]. split; [exact Hout|].
  split; [rewrite Hout, length_map, length_firstn; lia|].
  split; [lia|].
  split; [intros l; rewrite Hlv; reflexivity|].
  split; [intros Hm; apply Hfit; lia|].
  split; [exact Hall|].
  intros r Hr. now apply Hnext.
Qed.

(** ** Keywords *)

Section Keywords.
Context {E : GoEnv}.

Lemma keywordLoop_spec words :
  forall seen,
    NoDup (keywordLoop words seen)
    /\ Forall (fun k => ~ In k seen /\ 4 <= len k /\ ~ In k stopWords
                        /\ exists w, In w words
                                     /\ k = ToLower (Trim w keywordCutset))
              (keywordLoop words seen).
Proof.
  induction words as [|w rest IH]; intros seen; cbn [keywordLoop];
    [split; constructor|].
  set (lower := ToLower (Trim w keywordCutset)).
  assert (Hwiden : forall l seen',
             (forall k, In k seen -> In k seen') ->
             Forall (fun k => ~ In k seen' /\ 4 <= len k /\ ~ In k stopWords
                              /\ exists w0, In w0 rest
                                            /\ k = ToLower (Trim w0 keywordCutset)) l ->
             Forall (fun k => ~ In k seen /\ 4 <= len k /\ ~ In k stopWords
                              /\ exists w0, In w0 (w :: rest)
                                            /\ k = ToLower (Trim w0 keywordCutset)) l).
  { intros l seen' Hsub Hall. eapply Forall_impl; [|exact Hall].
    intros k [Hseen [Hlen [Hstop [w0 [Hw0 Hk]]]]].
    repeat split; auto. exists w0. split; [now right | exact Hk]. }
  destruct (String.eqb lower EmptyString || (len lower <? 4)
            || inb lower stopWords || inb lower seen) eqn:Eskip.
  { destruct (IH seen) as [Hnd Hall]. split; [exact Hnd|].
    apply (Hwiden _ seen); auto. }
  apply orb_false_iff in Eskip. destruct Eskip as [Eskip Eseen].
  apply orb_false_iff in Eskip. destruct Eskip as [Eskip Estop].
  apply orb_false_iff in Eskip. destruct Eskip as [Eempty Elen].
  apply Z.ltb_ge in Elen.
  destruct (IH (lower :: seen)) as [Hnd Hall]. split.
  - constructor; [|exact Hnd]. intros Hin.
    rewrite Forall_forall in Hall. destruct (Hall lower Hin) as [Hnot _].
    apply Hnot. now left.
  - constructor.
    + split; [intros Hin; apply inb_In in Hin; congruence|].
      split; [exact Elen|].
      split; [intros Hin; apply inb_In in Hin; congruence|].
      exists w. split; [now left | reflexivity].
    + apply (Hwiden _ (lower :: seen)); [|exact Hall].
      intros k Hk. now right.
Qed.

(** X13.  The keywords level keeps few words and no noise: the result of
    [extractKeywords] is a list of at most 15 words in the session
    package, at most 20 in the memory package, joined by a comma and a
    space; the words are pairwise distinct, each is a field of the text
    trimmed of punctuation and lower-cased, at least 4 bytes long, and
    none is a stop word. *)
Theorem keywords_are_few_and_distinct text :
  (exists kws,
      Session.extractKeywords text = Join kws ", "
      /\ (List.length kws <= 15)%nat /\ NoDup kws
      /\ Forall (fun k => 4 <= len k /\ ~ In k stopWords
                          /\ exists w, In w (Fields text)
                                       /\ k = ToLower (Trim w keywordCutset)) kws)
  /\ (exists kws,
        Memory.extractKeywords text = Join kws ", "
        /\ (List.length kws <= 20)%nat /\ NoDup kws
        /\ Forall (fun k => 4 <= len k /\ ~ In k stopWords
                            /\ exists w, In w (Fields text)
                                         /\ k = ToLower (Trim w keywordCutset)) kws).
Proof.
  destruct (keywordLoop_spec (Fields text) []) as [Hnd Hall].
  assert (Hweak : Forall (fun k => 4 <= len k /\ ~ In k stopWords
                            /\ exists w, In w (Fields text)
                                         /\ k = ToLower (Trim w keywordCutset))
                         (keywordLoop (Fields text) [])).
  { eapply Forall_impl; [|exact Hall]. intros k [_ H]. exact H. }
  assert (Hcap : forall cap : nat,
             exists kws,
               (if Z.of_nat cap <? Z.of_nat (List.length (keywordLoop (Fields text) []))
                then firstn cap (keywordLoop (Fields text) [])
                else keywordLoop (Fields text) []) = kws
               /\ (List.length kws <= cap)%nat /\ NoDup kws
               /\ Forall (fun k => 4 <= len k /\ ~ In k stopWords
                                   /\ exists w, In w (Fields text)
                                                /\ k = ToLower (Trim w keywordCutset)) kws).
  { intros cap. eexists. split; [reflexivity|].
    destruct (Z.ltb_spec (Z.of_nat cap)
                         (Z.of_nat (List.length (keywordLoop (Fields text) [])))).
    - split; [rewrite length_firstn; lia|]. split; [now apply firstn_NoDup|].
      apply Forall_forall. intros k Hk. apply firstn_subset in Hk.
      rewrite Forall_forall in Hweak. now apply Hweak.
    - split; [lia|]. split; assumption. }
  split.
  - destruct (Hcap 15%nat) as [kws [Heq Hrest]]. exists kws.
    split; [|exact Hrest]. unfold Session.extractKeywords.
    change 15 with (Z.of_nat 15). now rewrite Heq.
  - destruct (Hcap 20%nat) as [kws [Heq Hrest]]. exists kws.
    split; [|exact Hrest]. unfold Memory.extractKeywords.
    change 20 with (Z.of_nat 20). now rewrite Heq.
Qed.

End Keywords.
End SessionMore.

(** ** The session store *)

Module StoreProofs.
Import Session SessionProofs SessionStore.

Lemma selectSession_none db sid :
  selectSession db sid = None <-> ~ In sid (map s_id db).
Proof.
  unfold selectSession. induction db as [|s rest IH]; simpl; [tauto|].
  destruct (String.eqb_spec (s_id s) sid) as [Heq|Hne].
  - split; [discriminate|]. intros Hn. exfalso. apply Hn. now left.
  - rewrite IH. tauto.
Qed.

Lemma selectSession_some db sid s :
  selectSession db sid = Some s -> s_id s = sid /\ In s db.
Proof.
  unfold selectSession. intros Hf. apply find_some in Hf.
  destruct Hf as [Hin Heq]. apply String.eqb_eq in Heq. auto.
Qed.

Lemma selectSession_app db more sid :
  selectSession (db ++ more) sid
  = match selectSession db sid with
    | Some s => Some s
    | None => selectSession more sid
    end.
Proof.
  unfold selectSession. induction db as [|s rest IH]; simpl; [reflexivity|].
  now destruct (String.eqb (s_id s) sid).
Qed.

Lemma selectSession_write db sid f other :
  (forall s, s_id (f s) = s_id s) ->
  selectSession (writeSession sid f db) other
  = if String.eqb other sid then option_map f (selectSession db sid)
    else selectSession db other.
Proof.
  intros Hid. unfold selectSession, writeSession.
  induction db as [|s rest IH]; simpl; [now destruct (String.eqb other sid)|].
  destruct (String.eqb_spec (s_id s) sid) as [Hs|Hs].
  - rewrite Hid. destruct (String.eqb_spec other sid) as [Ho|Ho].
    + subst other. apply String.eqb_eq in Hs. rewrite Hs. reflexivity.
    + destruct (String.eqb_spec (s_id s) other) as [Hso|Hso]; [congruence|].
      rewrite IH. destruct (String.eqb_spec other sid); [congruence|reflexivity].
  - destruct (String.eqb_spec other sid) as [Ho|Ho].
    + subst other. apply String.eqb_neq in Hs. rewrite Hs.
      rewrite IH. reflexivity.
    + destruct (String.eqb (s_id s) other); [reflexivity|].
      rewrite IH. destruct (String.eqb_spec other sid); [congruence|reflexivity].
Qed.

Lemma writeSession_ids db sid f :
  (forall s, s_id (f s) = s_id s) ->
  map s_id (writeSession sid f db) = map s_id db.
Proof.
  intros Hid. unfold writeSession. rewrite map_map. apply map_ext.
  intros s. destruct (String.eqb (s_id s) sid); [apply Hid|reflexivity].
Qed.

(** What [Get] and [Context] read of a session. *)
Lemma Get_select db db' sid :
  selectSession db' sid = selectSession db sid -> Get db' sid = Get db sid.
Proof. unfold Get, entriesOf. now intros ->. Qed.

Lemma Context_select db db' sid req :
  selectSession db' sid = selectSession db sid ->
  SessionStore.Context db' sid req = SessionStore.Context db sid req.
Proof. unfold SessionStore.Context. now intros ->. Qed.

(** X14.  Create either refuses, with SessionExists and the store as it
    was, which it does exactly when the id is taken; or it adds the
    session under the id of the request, the generated one if the request
    names none, with no entries and the budget of the request (the
    default when that is 0 or less), and Get then returns the very
    Session that Create returned, while every other session reads as
    before. *)
Theorem create_then_get cfg fresh now db req :
  let id := if String.eqb (cr_SessionID req) EmptyString then fresh
            else cr_SessionID req in
  match SessionStore.Create cfg fresh now db req with
  | (inl err, db') =>
      err = ErrSessionExists /\ db' = db /\ In id (map s_id db)
  | (inr info, db') =>
      ~ In id (map s_id db)
      /\ map s_id db' = map s_id db ++ [id]
      /\ Get db' id = inr info
      /\ si_ID info = id
      /\ si_MaxTokens info = (if cr_MaxTokens req <=? 0 then DefaultMaxTokens cfg
                              else cr_MaxTokens req)
      /\ si_CurrentTokens info = 0 /\ si_EntryCount info = 0
      /\ si_CreatedAt info = now /\ si_UpdatedAt info = now
      /\ (forall other, other <> id -> Get db' other = Get db other)
  end.
Proof.
  intros id. unfold SessionStore.Create, Session.Create. fold id.
  destruct (inb id (map s_id db)) eqn:Ein.
  - apply inb_In in Ein. auto.
  - assert (Hfree : ~ In id (map s_id db)).
    { intros Hin. apply inb_In in Hin. congruence. }
    apply selectSession_none in Hfree as Hnone.
    split; [exact Hfree|]. split; [now rewrite map_app|].
    split.
    { unfold Get, entriesOf. rewrite selectSession_app, Hnone.
      unfold selectSession. cbn. now rewrite String.eqb_refl. }
    repeat split.
    intros other Hne. apply Get_select. rewrite selectSession_app.
    destruct (selectSession db other); [reflexivity|].
    unfold selectSession. cbn. destruct (String.eqb_spec id other); congruence.
Qed.

Lemma filter_same_length {A} (p : A -> bool) l :
  List.length (filter p l) = List.length l -> filter p l = l.
Proof.
  induction l as [|x rest IH]; simpl; [reflexivity|].
  destruct (p x); simpl; intros Hlen.
  - f_equal. apply IH. lia.
  - pose proof (filter_length_le p rest). lia.
Qed.

Lemma selectSession_filter db sid other :
  other <> sid ->
  selectSession (filter (fun s => negb (String.eqb (s_id s) sid)) db) other
  = selectSession db other.
Proof.
  intros Hne. unfold selectSession.
  induction db as [|s rest IH]; simpl; [reflexivity|].
  destruct (String.eqb_spec (s_id s) sid) as [Hs|Hs]; simpl.
  - rewrite IH. destruct (String.eqb_spec (s_id s) other); congruence.
  - now rewrite IH.
Qed.

Lemma Delete_unknown db sid :
  ~ In sid (map s_id db) -> Delete db sid = (inl ErrSessionNotFound, db).
Proof.
  intros Hn. unfold Delete.
  assert (Hsame : filter (fun s => negb (String.eqb (s_id s) sid)) db = db).
  { apply forallb_filter_id. apply forallb_forall. intros s Hs.
    apply negb_true_iff, String.eqb_neq. intros Heq. apply Hn.
    rewrite <- Heq. now apply in_map. }
  rewrite Hsame, Z.sub_diag. reflexivity.
Qed.

(** X15.  Delete answers SessionNotFound, and changes nothing, exactly
    when the store has no session of that id.  Otherwise the session is
    gone, with all its entries, whose number Delete reports as Get counted
    them; Get then answers SessionNotFound for the id, and every other
    session reads as before. *)
Theorem delete_removes_session db sid :
  match Delete db sid with
  | (inl err, db') =>
      err = ErrSessionNotFound /\ db' = db /\ ~ In sid (map s_id db)
  | (inr res, db') =>
      In sid (map s_id db)
      /\ dr_SessionID res = sid
      /\ (exists info, Get db sid = inr info
                       /\ dr_EntriesRemoved res = si_EntryCount info)
      /\ ~ In sid (map s_id db')
      /\ Get db' sid = inl ErrSessionNotFound
      /\ (forall other, other <> sid ->
            Get db' other = Get db other
            /\ forall req, SessionStore.Context db' other req
                           = SessionStore.Context db other req)
  end.
Proof.
  unfold Delete.
  set (db' := filter (fun s => negb (String.eqb (s_id s) sid)) db).
  assert (Hgone : ~ In sid (map s_id db')).
  { intros Hin. apply in_map_iff in Hin. destruct Hin as [s [Hid Hs]].
    apply filter_In in Hs. destruct Hs as [_ Hne].
    apply negb_true_iff, String.eqb_neq in Hne. congruence. }
  destruct (Z.eqb_spec (Z.of_nat (List.length db) - Z.of_nat (List.length db')) 0)
    as [Hnone|Hsome].
  - assert (Hsame : db' = db) by (apply filter_same_length; fold db'; lia).
    rewrite Hsame in *. auto.
  - assert (Hin : In sid (map s_id db)).
    { destruct (selectSession db sid) as [s|] eqn:Hsel.
      - apply selectSession_some in Hsel. destruct Hsel as [<- Hs].
        now apply in_map.
      - exfalso. apply Hsome. apply selectSession_none in Hsel.
        replace db' with db; [lia|]. symmetry. apply forallb_filter_id.
        apply forallb_forall. intros s Hs. apply negb_true_iff, String.eqb_neq.
        intros Heq. apply Hsel. rewrite <- Heq. now apply in_map. }
    split; [exact Hin|]. split; [reflexivity|]. split.
    { unfold Get. destruct (selectSession db sid) as [s|] eqn:Hsel.
      - eexists. split; reflexivity.
      - apply selectSession_none in Hsel. contradiction. }
    split; [exact Hgone|]. split.
    { unfold Get. apply selectSession_none in Hgone. now rewrite Hgone. }
    intros other Hne. split.
    + apply Get_select. now apply selectSession_filter.
    + intros req. apply Context_select. now apply selectSession_filter.
Qed.

Section ByID.
Context {E : GoEnv}.

(** X16.  A session id that the store does not hold is answered with
    SessionNotFound by Push, Context, Get and Delete alike, and none of
    them writes anything. *)
Theorem unknown_session fuel genID now db sid entries0 req :
  ~ In sid (map s_id db) ->
  SessionStore.Push fuel genID now db sid entries0
  = Some (inl ErrSessionNotFound, db)
  /\ SessionStore.Context db sid req = inl ErrSessionNotFound
  /\ Get db sid = inl ErrSessionNotFound
  /\ Delete db sid = (inl ErrSessionNotFound, db)
  /\ loadSessionConfig db sid = inl ErrSessionNotFound.
Proof.
  intros Hn. apply selectSession_none in Hn as Hnone.
  unfold SessionStore.Push, SessionStore.Context, Get, loadSessionConfig.
  rewrite Hnone. repeat split. now apply Delete_unknown.
Qed.

Lemma pushEntriesIn_fresh taken genID cfg req :
  (forall k, ~ In (genID k) taken) ->
  forall rows ms acc dd,
    pushEntriesIn taken genID cfg req rows ms acc dd
    = pushEntries genID cfg req rows ms acc dd.
Proof.
  intros Hfresh. induction req as [|entry rest IH]; intros rows ms acc dd;
    [reflexivity|].
  cbn [pushEntriesIn pushEntries]. rewrite !IH.
  assert (Hno : inb (genID acc) taken = false).
  { destruct (inb (genID acc) taken) eqn:Ein; [|reflexivity].
    apply inb_In in Ein. now apply Hfresh in Ein. }
  rewrite Hno, orb_false_r. reflexivity.
Qed.

(** The session of a store after [Push], whatever the answer. *)
Lemma Push_select fuel genID now db sid req out db' :
  SessionStore.Push fuel genID now db sid req = Some (out, db') ->
  map s_id db' = map s_id db
  /\ forall other, other <> sid ->
       selectSession db' other = selectSession db other.
Proof.
  unfold SessionStore.Push, loadSessionConfig.
  destruct (selectSession db sid) as [row|] eqn:Hsel.
  2:{ intros Heq. inversion Heq; subst. auto. }
  destruct (pushEntriesIn _ genID _ req _ _ 0 0) as [[[[err|] rows] acc] dd].
  - intros Heq. inversion Heq; subst. split.
    + now apply writeSession_ids.
    + intros other Hne. rewrite selectSession_write by reflexivity.
      destruct (String.eqb_spec other sid); [congruence|reflexivity].
  - destruct (enforceLoop fuel _ rows 0 0) as [[[c e] rows']|]; [|discriminate].
    intros Heq. inversion Heq; subst. split.
    + now apply writeSession_ids.
    + intros other Hne. rewrite selectSession_write by reflexivity.
      destruct (String.eqb_spec other sid); [congruence|reflexivity].
Qed.

(** X17.  A Push writes to the session it names and to no other: the
    store holds the same sessions afterwards, and Get and Context read
    every other session as before, whether the Push succeeded or not. *)
Theorem push_touches_one_session fuel genID now db sid req out db' :
  SessionStore.Push fuel genID now db sid req = Some (out, db') ->
  map s_id db' = map s_id db
  /\ forall other, other <> sid ->
       Get db' other = Get db other
       /\ forall creq, SessionStore.Context db' other creq
                       = SessionStore.Context db other creq.
Proof.
  intros Hp. apply Push_select in Hp. destruct Hp as [Hids Hsel].
  split; [exact Hids|]. intros other Hne. split.
  - apply Get_select. now apply Hsel.
  - intros creq. apply Context_select. now apply Hsel.
Qed.

(** X18.  What a successful Push reports is what the store then holds:
    Get returns the session with the tokens that Push reported as
    current, the budget less those tokens is what Push reported as
    remaining, and the session is within its budget; [updated_at] is the
    time of the Push; and the full context window (no role, no limit) has
    the entries that Get counts and the tokens that Push reported. *)
Theorem get_after_push fuel genID now db sid req res db' :
  SessionStore.Push fuel genID now db sid req = Some (inr res, db') ->
  exists info cres,
    Get db' sid = inr info
    /\ si_ID info = sid
    /\ si_CurrentTokens info = CurrentTokens res
    /\ BudgetRemaining res = si_MaxTokens info - si_CurrentTokens info
    /\ (0 <= si_MaxTokens info -> si_CurrentTokens info <= si_MaxTokens info)
    /\ si_UpdatedAt info = now
    /\ SessionStore.Context db' sid {| ctx_MaxTokens := 0; ctx_Role := EmptyString |}
       = inr cres
    /\ TotalTokens (ctx_Stats cres) = CurrentTokens res
    /\ TotalEntries (ctx_Stats cres) = si_EntryCount info.
Proof.
  unfold SessionStore.Push, loadSessionConfig.
  destruct (selectSession db sid) as [row|] eqn:Hsel; [|discriminate].
  destruct (pushEntriesIn _ genID _ req _ _ 0 0) as [[[[err|] rows] acc] dd];
    [discriminate|].
  destruct (enforceLoop fuel _ rows 0 0) as [[[c e] rows']|] eqn:Hl; [|discriminate].
  intros Heq. injection Heq as Hres Hdb. subst res db'.
  pose proof (enforceLoop_final _ _ _ _ _ _ _ _ Hl) as Hfinal.
  pose proof (selectSession_some _ _ _ Hsel) as [Hid _].
  unfold Get, SessionStore.Context, entriesOf.
  rewrite selectSession_write by reflexivity.
  rewrite String.eqb_refl, Hsel. cbn [option_map].
  eexists. eexists. split; [reflexivity|].
  cbn [si_ID si_CurrentTokens si_MaxTokens si_UpdatedAt si_EntryCount
       s_id s_state s_updated_at entries config CurrentTokens BudgetRemaining].
  split; [exact Hid|]. split; [reflexivity|]. split; [reflexivity|].
  split.
  { intros Hmax. destruct Hfinal as [Hle| ->]; [exact Hle | exact Hmax]. }
  split; [reflexivity|]. split; [reflexivity|].
  unfold Session.Context. cbn [ctx_Role ctx_MaxTokens entries].
  rewrite String.eqb_refl.
  destruct (contextWalk 0 rows' 0 []) as [[out total] lv] eqn:Hw.
  destruct (SessionMore.contextWalk_spec _ _ _ _ _ _ _ Hw)
    as [k [Hk [Hout [Htotal [_ [_ [Hall _]]]]]]].
  specialize (Hall ltac:(lia)). subst k.
  rewrite firstn_all in Htotal, Hout.
  cbn [ctx_Stats TotalTokens TotalEntries]. split; [lia|].
  rewrite Hout, length_map. reflexivity.
Qed.

(** X19.  Push by session id is Push on that session alone, as long as
    the ids it draws are not those of entries of other sessions: the
    entries, the answer and the rows left are those of [Session.Push] on
    the rows of the session, and [updated_at] moves only when the Push
    succeeds. *)
Theorem push_by_id_is_push_on_session fuel genID now db sid req row :
  selectSession db sid = Some row ->
  (forall k, ~ In (genID k) (foreignIDs db sid)) ->
  SessionStore.Push fuel genID now db sid req
  = match Session.Push fuel genID (s_state row) req with
    | None => None
    | Some (inl err, s') =>
        Some (inl err,
              writeSession sid
                (fun r => {| s_id := s_id r; s_created_at := s_created_at r;
                             s_updated_at := s_updated_at r;
                             s_state := {| config := config (s_state r);
                                           entries := entries s' |} |}) db)
    | Some (inr res, s') =>
        Some (inr res,
              writeSession sid
                (fun r => {| s_id := s_id r; s_created_at := s_created_at r;
                             s_updated_at := now;
                             s_state := {| config := config (s_state r);
                                           entries := entries s' |} |}) db)
    end.
Proof.
  intros Hsel Hfresh. unfold SessionStore.Push, loadSessionConfig, entriesOf.
  rewrite Hsel. rewrite pushEntriesIn_fresh by exact Hfresh.
  unfold Session.Push.
  destruct (pushEntries genID (config (s_state row)) req (entries (s_state row))
                        (selectMaxSeq (entries (s_state row))) 0 0)
    as [[[[err|] rows] acc] dd]; [reflexivity|].
  destruct (enforceLoop fuel (config (s_state row)) rows 0 0)
    as [[[c e] rows']|]; reflexivity.
Qed.

End ByID.
End StoreProofs.

(** ** The HTTP handlers *)

Module APIProofs.
Import Session SessionProofs SessionStore SessionAPI StoreProofs.

Lemma selectSession_known db sid :
  In sid (map s_id db) -> exists s, selectSession db sid = Some s.
Proof.
  intros Hin. destruct (selectSession db sid) as [s|] eqn:Hsel; [now exists s|].
  apply selectSession_none in Hsel. contradiction.
Qed.

Lemma filter_drops_one db sid :
  In sid (map s_id db) ->
  (List.length (filter (fun s => negb (String.eqb (s_id s) sid)) db)
   < List.length db)%nat.
Proof.
  induction db as [|s rest IH]; simpl; [tauto|]. intros [Heq|Hin].
  - rewrite Heq, String.eqb_refl. simpl.
    pose proof (filter_length_le (fun s => negb (String.eqb (s_id s) sid)) rest).
    lia.
  - specialize (IH Hin).
    destruct (negb (String.eqb (s_id s) sid)); simpl; lia.
Qed.

Lemma Delete_known db sid :
  In sid (map s_id db) ->
  exists res, fst (Delete db sid) = inr res.
Proof.
  intros Hin. unfold Delete. pose proof (filter_drops_one db sid Hin) as Hlt.
  destruct (Z.eqb_spec
              (Z.of_nat (List.length db)
               - Z.of_nat (List.length
                             (filter (fun s => negb (String.eqb (s_id s) sid)) db)))
              0) as [Hz|Hz]; [lia|].
  eexists. reflexivity.
Qed.

Lemma Delete_error db sid err db' :
  Delete db sid = (inl err, db') -> err = ErrSessionNotFound /\ db' = db.
Proof.
  unfold Delete.
  set (kept := filter (fun s => negb (String.eqb (s_id s) sid)) db).
  destruct (Z.eqb_spec (Z.of_nat (List.length db) - Z.of_nat (List.length kept)) 0)
    as [Hz|Hz]; [|discriminate].
  intros Heq. injection Heq as <- <-. split; [reflexivity|].
  apply filter_same_length. fold kept.
  pose proof (filter_length_le (fun s => negb (String.eqb (s_id s) sid)) db) as Hle.
  fold kept in Hle. lia.
Qed.

Lemma Create_error cfg fresh now db req err db' :
  SessionStore.Create cfg fresh now db req = (inl err, db') ->
  err = ErrSessionExists /\ db' = db.
Proof.
  unfold SessionStore.Create, Session.Create.
  destruct (inb _ _); intros Heq; [|discriminate].
  injection Heq as <- <-. tauto.
Qed.

Lemma Create_taken cfg fresh now db req :
  let id := if String.eqb (cr_SessionID req) EmptyString then fresh
            else cr_SessionID req in
  match fst (SessionStore.Create cfg fresh now db req) with
  | inl _ => inb id (map s_id db) = true
  | inr _ => inb id (map s_id db) = false
  end.
Proof.
  unfold SessionStore.Create, Session.Create. cbv zeta.
  destruct (inb _ _); reflexivity.
Qed.

(** X29.  The handlers for create, context, get and delete answer with
    no other status than 200, 400, 404, 405 and 409; none of them ever
    answers 500, and only a 200 of create or delete leaves the store
    changed.  Given the method and a session id, the status tells whether the
    session exists: a POST that creates answers 409 when the id is
    taken and 200 otherwise, and a context, get or delete of a
    non-empty id answers 200 when the store holds the session and 404
    when it does not. *)
Theorem session_api_statuses cfg fresh now db method querySessionID queryRole
    (createBody : string + CreateRequest) (contextBody : string + ContextQuery)
    (getBody deleteBody : string + string) :
  let created := handleCreate cfg fresh now db method createBody in
  let deleted := handleDelete db method deleteBody in
  In (Status (fst created)) [200; 400; 405; 409]
  /\ In (Status (handleContext db method querySessionID queryRole contextBody))
        [200; 400; 404; 405]
  /\ In (Status (handleGet db method querySessionID getBody)) [200; 400; 404; 405]
  /\ In (Status (fst deleted)) [200; 400; 404; 405]
  /\ (Status (fst created) <> 200 -> snd created = db)
  /\ (Status (fst deleted) <> 200 -> snd deleted = db)
  /\ (forall req,
        Status (fst (handleCreate cfg fresh now db MethodPost (inr req)))
        = if inb (if String.eqb (cr_SessionID req) EmptyString then fresh
                  else cr_SessionID req) (map s_id db)
          then 409 else 200)
  /\ (forall sid maxTokens, sid <> EmptyString ->
        let status := if inb sid (map s_id db) then 200 else 404 in
        Status (handleGet db MethodGet sid getBody) = status
        /\ Status (handleGet db MethodPost EmptyString (inr sid)) = status
        /\ Status (handleContext db MethodGet sid queryRole contextBody) = status
        /\ Status (handleContext db MethodPost querySessionID queryRole
                     (inr {| cq_SessionID := sid; cq_MaxTokens := maxTokens;
                             cq_Role := queryRole |})) = status
        /\ Status (fst (handleDelete db MethodPost (inr sid))) = status
        /\ Status (fst (handleDelete db MethodDelete (inr sid))) = status).
Proof.
  cbv zeta.
  assert (Hcreate : forall m body,
             In (Status (fst (handleCreate cfg fresh now db m body)))
                [200; 400; 405; 409]
             /\ (Status (fst (handleCreate cfg fresh now db m body)) <> 200 ->
                 snd (handleCreate cfg fresh now db m body) = db)).
  { intros m body. unfold handleCreate.
    destruct (negb (String.eqb m MethodPost)); [simpl; tauto|].
    destruct body as [e|req]; [simpl; tauto|].
    destruct (SessionStore.Create cfg fresh now db req) as [[err|sess] db1] eqn:Hc.
    - apply Create_error in Hc. destruct Hc as [-> ->]. simpl. tauto.
    - simpl. split; [tauto|]. intros H. now elim H. }
  assert (Hcontext : forall m q r body,
             In (Status (handleContext db m q r body)) [200; 400; 404; 405]).
  { intros m q r body. unfold handleContext.
    destruct (negb (String.eqb m MethodPost) && negb (String.eqb m MethodGet));
      [simpl; tauto|].
    destruct (if String.eqb m MethodPost then body else _) as [e|req];
      [simpl; tauto|].
    destruct (String.eqb (cq_SessionID req) EmptyString); [simpl; tauto|].
    unfold SessionStore.Context.
    destruct (selectSession db (cq_SessionID req)); simpl; tauto. }
  assert (Hget : forall m q body,
             In (Status (handleGet db m q body)) [200; 400; 404; 405]).
  { intros m q body. unfold handleGet.
    destruct (negb (String.eqb m MethodGet) && negb (String.eqb m MethodPost));
      [simpl; tauto|].
    match goal with |- context [String.eqb ?id EmptyString] =>
      destruct (String.eqb id EmptyString) end; [simpl; tauto|].
    unfold Get.
    match goal with |- context [selectSession db ?id] =>
      destruct (selectSession db id) end; simpl; tauto. }
  assert (Hdelete : forall m body,
             In (Status (fst (handleDelete db m body))) [200; 400; 404; 405]
             /\ (Status (fst (handleDelete db m body)) <> 200 ->
                 snd (handleDelete db m body) = db)).
  { intros m body. unfold handleDelete.
    destruct (negb (String.eqb m MethodPost) && negb (String.eqb m MethodDelete));
      [simpl; tauto|].
    destruct body as [e|sid]; [simpl; tauto|].
    destruct (String.eqb sid EmptyString); [simpl; tauto|].
    destruct (Delete db sid) as [[err|res] db1] eqn:Hd.
    - apply Delete_error in Hd. destruct Hd as [-> ->]. simpl. tauto.
    - simpl. split; [tauto|]. intros H. now elim H. }
  split; [apply Hcreate|]. split; [apply Hcontext|]. split; [apply Hget|].
  split; [apply Hdelete|]. split; [apply Hcreate|]. split; [apply Hdelete|].
  split.
  { intros req. unfold handleCreate. rewrite String.eqb_refl. cbn [negb].
    pose proof (Create_taken cfg fresh now db req) as Htaken. cbv zeta in Htaken.
    destruct (SessionStore.Create cfg fresh now db req) as [[err|sess] db1] eqn:Hc;
      cbn [fst] in Htaken; rewrite Htaken.
    - apply Create_error in Hc. destruct Hc as [-> _]. reflexivity.
    - reflexivity. }
  intros sid maxTokens Hsid. apply String.eqb_neq in Hsid.
  assert (Hstore :
            (if inb sid (map s_id db) then 200 else 404)
            = match selectSession db sid with Some _ => 200 | None => 404 end).
  { destruct (inb sid (map s_id db)) eqn:Hin.
    - apply inb_In, selectSession_known in Hin. destruct Hin as [s ->].
      reflexivity.
    - destruct (selectSession db sid) as [s|] eqn:Hsel; [|reflexivity].
      apply selectSession_some in Hsel. destruct Hsel as [<- Hs].
      assert (Htrue : inb (s_id s) (map s_id db) = true)
        by (apply inb_In; now apply in_map).
      congruence. }
  rewrite Hstore.
  assert (Hdel : forall m,
             (negb (String.eqb m MethodPost) && negb (String.eqb m MethodDelete))
             = false ->
             Status (fst (handleDelete db m (inr sid)))
             = match selectSession db sid with Some _ => 200 | None => 404 end).
  { intros m Hm. unfold handleDelete. rewrite Hm, Hsid.
    destruct (selectSession db sid) as [s|] eqn:Hsel.
    - apply selectSession_some in Hsel. destruct Hsel as [<- Hs].
      destruct (Delete_known db (s_id s) (in_map _ _ _ Hs)) as [res Hres].
      destruct (Delete db (s_id s)) as [[err|res'] db1]; cbn [fst] in Hres.
      + discriminate.
      + reflexivity.
    - apply selectSession_none in Hsel. rewrite (Delete_unknown _ _ Hsel).
      reflexivity. }
  assert (Hgp : String.eqb MethodGet MethodPost = false) by reflexivity.
  assert (Hpg : String.eqb MethodPost MethodGet = false) by reflexivity.
  repeat split.
  - unfold handleGet. rewrite String.eqb_refl, Hgp. cbn [negb andb].
    rewrite Hsid. cbn [andb]. rewrite Hsid. unfold Get.
    destruct (selectSession db sid); reflexivity.
  - unfold handleGet. rewrite !String.eqb_refl, Hpg. cbn [negb andb].
    rewrite Hsid. unfold Get.
    destruct (selectSession db sid); reflexivity.
  - unfold handleContext. rewrite String.eqb_refl, Hgp.
    cbn [negb andb cq_SessionID]. rewrite Hsid. unfold SessionStore.Context.
    destruct (selectSession db sid); reflexivity.
  - unfold handleContext. rewrite String.eqb_refl.
    cbn [negb andb cq_SessionID]. rewrite Hsid. unfold SessionStore.Context.
    destruct (selectSession db sid); reflexivity.
  - apply Hdel. reflexivity.
  - apply Hdel. reflexivity.
Qed.

Section Pushing.
Context {E : GoEnv}.

(** The loop of [Push] fails on an entry larger than the budget or on an
    id that is taken, and on nothing else. *)
Lemma pushEntriesIn_error taken genID cfg req :
  forall rows maxSeq accepted deduplicated err rows' a d,
    pushEntriesIn taken genID cfg req rows maxSeq accepted deduplicated
    = (Some err, rows', a, d) ->
    (err = ErrOverBudget
     /\ exists entry, In entry req
                      /\ maxTokens cfg < estimateTokens (pe_Content entry))
    \/ (err = ErrInsertEntry
        /\ exists k, In (genID k) (map e_id rows') \/ In (genID k) taken).
Proof.
  induction req as [|entry rest IH]; intros rows maxSeq accepted deduplicated
    err rows' a d; cbn [pushEntriesIn]; [discriminate|].
  assert (Hrest : forall rows0 ms0 a0 d0,
             pushEntriesIn taken genID cfg rest rows0 ms0 a0 d0
             = (Some err, rows', a, d) ->
             (err = ErrOverBudget
              /\ exists entry0, In entry0 (entry :: rest)
                                /\ maxTokens cfg < estimateTokens (pe_Content entry0))
             \/ (err = ErrInsertEntry
                 /\ exists k, In (genID k) (map e_id rows')
                              \/ In (genID k) taken)).
  { intros rows0 ms0 a0 d0 Hrun. apply IH in Hrun.
    destruct Hrun as [[-> [entry0 [Hin Hbig]]]|Hins]; [left|now right].
    split; [reflexivity|]. exists entry0. split; [now right | exact Hbig]. }
  destruct (String.eqb (pe_Content entry) EmptyString); [apply Hrest|].
  destruct ((0 <? Z.of_nat (List.length (pe_Embedding entry)))
            && isDuplicate rows (pe_Embedding entry) (dedupThreshold cfg));
    [apply Hrest|].
  destruct (estimateTokens (pe_Content entry) >? maxTokens cfg) eqn:Hbig.
  { intros Heq. injection Heq as <- <- <- <-. left. split; [reflexivity|].
    exists entry. split; [now left|]. apply Z.gtb_lt in Hbig. lia. }
  destruct (hasID (genID accepted) rows || inb (genID accepted) taken) eqn:Htaken.
  { intros Heq. injection Heq as <- <- <- <-. right. split; [reflexivity|].
    exists accepted. apply orb_true_iff in Htaken.
    destruct Htaken as [Hrow|Hother].
    - left. now apply hasID_In.
    - right. now apply inb_In. }
  apply Hrest.
Qed.

(** X30.  The handler of push answers with one of 200, 400, 404, 405,
    413 and 500, and leaves the store as it was when it answers 400, 404
    or 405.  For a POST whose body names a session: 404 means exactly
    that the store does not hold the session; 413 comes only with an
    entry of the request whose tokens exceed the whole budget of the
    session; 500 comes only with a generated id that an entry of the
    store already has; and 200 carries the result of Push. *)
Theorem push_api_statuses fuel genID now db method body resp db' :
  handlePush fuel genID now db method body = Some (resp, db') ->
  In (Status resp) [200; 400; 404; 405; 413; 500]
  /\ (In (Status resp) [400; 404; 405] -> db' = db)
  /\ (Status resp = 405 <-> method <> MethodPost)
  /\ (forall req,
        method = MethodPost -> body = inr req ->
        pr_SessionID req <> EmptyString ->
        Status resp <> 400
        /\ (Status resp = 404 <-> ~ In (pr_SessionID req) (map s_id db))
        /\ (Status resp = 413 ->
            exists cfg entry,
              loadSessionConfig db (pr_SessionID req) = inr cfg
              /\ In entry (pr_Entries req)
              /\ maxTokens cfg < estimateTokens (pe_Content entry))
        /\ (Status resp = 500 ->
            exists k,
              In (genID k) (map e_id (entriesOf db' (pr_SessionID req)))
              \/ In (genID k) (foreignIDs db (pr_SessionID req)))
        /\ (Status resp = 200 ->
            exists res,
              Written resp = JSON res
              /\ SessionStore.Push fuel genID now db (pr_SessionID req)
                                   (pr_Entries req)
                 = Some (inr res, db'))).
Proof.
  unfold handlePush. intros Hrun.
  destruct (String.eqb_spec method MethodPost) as [Hm|Hm]; cbn [negb] in Hrun.
  2:{ injection Hrun as <- <-. cbn [httpError Status].
      split; [simpl; tauto|]. split; [reflexivity|].
      split; [tauto|]. intros req Hpost. contradiction. }
  assert (H405 : forall st, st <> 405 -> (st = 405 <-> method <> MethodPost))
    by (intros st Hst; tauto).
  destruct body as [e|req].
  { injection Hrun as <- <-. cbn [httpError Status].
    split; [simpl; tauto|]. split; [reflexivity|].
    split; [apply H405; discriminate|]. intros req _ Hbody. discriminate. }
  destruct (String.eqb_spec (pr_SessionID req) EmptyString) as [Hsid|Hsid].
  { injection Hrun as <- <-. cbn [httpError Status].
    split; [simpl; tauto|]. split; [reflexivity|].
    split; [apply H405; discriminate|]. intros req0 _ Hbody.
    injection Hbody as <-. contradiction. }
  destruct (SessionStore.Push fuel genID now db (pr_SessionID req) (pr_Entries req))
    as [[[err|res] db1]|] eqn:Hpush; [| |discriminate].
  2:{ injection Hrun as <- <-. cbn [encode Status Written].
      split; [simpl; tauto|].
      split; [intros [H|[H|[H|[]]]]; discriminate H|].
      split; [apply H405; discriminate|].
      intros req0 _ Hbody _. injection Hbody as <-.
      split; [discriminate|]. split.
      - split; [discriminate|]. intros Hnone.
        unfold SessionStore.Push, loadSessionConfig in Hpush.
        apply selectSession_none in Hnone. rewrite Hnone in Hpush.
        discriminate.
      - split; [discriminate|]. split; [discriminate|].
        intros _. exists res. split; [reflexivity | exact Hpush]. }
  (* an error of the store *)
  unfold SessionStore.Push, loadSessionConfig in Hpush.
  destruct (selectSession db (pr_SessionID req)) as [row|] eqn:Hsel.
  - assert (Hknown : In (pr_SessionID req) (map s_id db)).
    { apply selectSession_some in Hsel. destruct Hsel as [<- Hin].
      now apply in_map. }
    destruct (pushEntriesIn (foreignIDs db (pr_SessionID req)) genID
                (config (s_state row)) (pr_Entries req)
                (entriesOf db (pr_SessionID req))
                (selectMaxSeq (entriesOf db (pr_SessionID req))) 0 0)
      as [[[[err0|] rows'] a] d] eqn:Hloop.
    2:{ destruct (enforceLoop fuel (config (s_state row)) rows' 0 0)
          as [[[c ev] rows'']|]; discriminate. }
    injection Hpush as <- <-.
    assert (Hrows : entriesOf
                      (writeSession (pr_SessionID req)
                         (fun s => {| s_id := s_id s;
                                      s_created_at := s_created_at s;
                                      s_updated_at := s_updated_at s;
                                      s_state := {| config := config (s_state s);
                                                    entries := rows' |} |}) db)
                      (pr_SessionID req) = rows').
    { unfold entriesOf. rewrite selectSession_write by reflexivity.
      rewrite String.eqb_refl, Hsel. reflexivity. }
    apply pushEntriesIn_error in Hloop.
    destruct Hloop as [[-> [entry [Hin Hbig]]]|[-> [k Hk]]];
      injection Hrun as <- <-; cbn [httpError Status].
    + split; [simpl; tauto|].
      split; [intros [H|[H|[H|[]]]]; discriminate H|].
      split; [apply H405; discriminate|].
      intros req0 _ Hbody _. injection Hbody as <-.
      split; [discriminate|]. split; [split; [discriminate|tauto]|].
      split; [|split; discriminate].
      intros _. exists (config (s_state row)), entry.
      unfold loadSessionConfig. rewrite Hsel. tauto.
    + split; [simpl; tauto|].
      split; [intros [H|[H|[H|[]]]]; discriminate H|].
      split; [apply H405; discriminate|].
      intros req0 _ Hbody _. injection Hbody as <-.
      split; [discriminate|]. split; [split; [discriminate|tauto]|].
      split; [discriminate|]. split; [|discriminate].
      intros _. exists k. rewrite Hrows. exact Hk.
  - injection Hpush as <- <-. injection Hrun as <- <-. cbn [httpError Status].
    apply selectSession_none in Hsel.
    split; [simpl; tauto|]. split; [reflexivity|].
    split; [apply H405; discriminate|].
    intros req0 _ Hbody _. injection Hbody as <-.
    split; [discriminate|]. split; [tauto|].
    split; [discriminate|]. split; discriminate.
Qed.

End Pushing.
End APIProofs.

(** ** Package memory *)

Module MemoryMore.
Import Memory MemoryProofs HelperProofs.

(** ** Store *)

(** The fields of a row that [Store] and [Recall] never rewrite. *)
Definition sameMemory (r r' : Row) : Prop :=
  m_id r' = m_id r /\ m_text r' = m_text r /\ m_embedding r' = m_embedding r
  /\ m_source r' = m_source r /\ m_session_id r' = m_session_id r
  /\ m_metadata r' = m_metadata r /\ m_decay_level r' = m_decay_level r
  /\ m_created_at r' = m_created_at r /\ m_tags r' = m_tags r.

(** [r'] is [r], or [r] referenced some more times. *)
Definition refreshed (r r' : Row) : Prop :=
  sameMemory r r'
  /\ (r' = r \/ m_access_count r < m_access_count r').

(** The row that [Store] inserts for an entry. *)
Definition stored (sessionID : string) (entry : StoreEntry) (id : string)
    (now : Z) : Row :=
  {| m_id := id; m_text := se_Text entry;
     m_embedding := encodeEmbedding (se_Embedding entry);
     m_source := se_Source entry; m_session_id := sessionID;
     m_metadata := se_Metadata entry; m_decay_level := 0;
     m_created_at := now; m_last_referenced := now; m_access_count := 0;
     m_tags := insertTags (se_Tags entry) [] |}.

Definition emptyText (entry : StoreEntry) : bool :=
  String.eqb (se_Text entry) EmptyString.

Lemma sameMemory_refl r : sameMemory r r.
Proof. unfold sameMemory. tauto. Qed.

Lemma sameMemory_trans a b c : sameMemory a b -> sameMemory b c -> sameMemory a c.
Proof.
  unfold sameMemory.
  intros [? [? [? [? [? [? [? [? ?]]]]]]]] [? [? [? [? [? [? [? [? ?]]]]]]]].
  repeat split; congruence.
Qed.

Lemma refreshed_refl r : refreshed r r.
Proof. split; [apply sameMemory_refl | now left]. Qed.

Lemma refreshed_trans a b c : refreshed a b -> refreshed b c -> refreshed a c.
Proof.
  intros [Hab Hn] [Hbc Hm]. split; [eapply sameMemory_trans; eauto|].
  destruct Hn as [->|Hn]; destruct Hm as [->|Hm]; auto. right. lia.
Qed.

Lemma refreshed_touched r now : refreshed r (touched r now).
Proof.
  split; [unfold sameMemory, touched; cbn; tauto|]. right. cbn. lia.
Qed.

Lemma touch_refreshed now ids rows :
  Forall2 refreshed rows (touch now ids rows).
Proof.
  unfold touch. induction rows as [|r rest IH]; cbn [map]; constructor; auto.
  destruct (inb (m_id r) ids); [apply refreshed_touched | apply refreshed_refl].
Qed.

Lemma Forall2_refreshed_refl rows : Forall2 refreshed rows rows.
Proof. induction rows; constructor; auto using refreshed_refl. Qed.

Lemma Forall2_refreshed_trans a b c :
  Forall2 refreshed a b -> Forall2 refreshed b c -> Forall2 refreshed a c.
Proof.
  intros Hab. revert c. induction Hab as [|x y l l' Hxy Hl IH]; intros c Hbc.
  - inversion Hbc; subst. constructor.
  - inversion Hbc as [|? z ? l'' Hyz Hl']; subst. constructor.
    + eapply refreshed_trans; eauto.
    + now apply IH.
Qed.

(** [INSERT OR IGNORE]: each tag once, in the order of the request. *)
Lemma insertTags_spec tags :
  forall stored0,
    NoDup stored0 ->
    NoDup (insertTags tags stored0)
    /\ forall t, In t (insertTags tags stored0) <-> In t stored0 \/ In t tags.
Proof.
  induction tags as [|tag rest IH]; intros stored0 Hnd; cbn [insertTags].
  - split; [exact Hnd|]. intros t. simpl. tauto.
  - destruct (inb tag stored0) eqn:Ein.
    + destruct (IH stored0 Hnd) as [Hn Hin]. split; [exact Hn|].
      intros t. rewrite Hin. apply inb_In in Ein. simpl.
      split; [tauto|]. intros [H|[<-|H]]; auto.
    + assert (Hnot : ~ In tag stored0).
      { intros H. apply inb_In in H. congruence. }
      destruct (IH (stored0 ++ [tag])) as [Hn Hin].
      { apply NoDup_app; [exact Hnd | repeat constructor; simpl; tauto |].
        intros a Ha [<-|[]]. contradiction. }
      split; [exact Hn|]. intros t. rewrite Hin, in_app_iff. simpl. tauto.
Qed.

Section Storing.
Context {E : GoEnv}.

Lemma storeEntries_spec genID clock cfg sid req :
  forall i rows st dd err rows' st' dd',
    storeEntries genID clock cfg sid req i rows st dd = (err, rows', st', dd') ->
    st <= st' /\ dd <= dd'
    /\ (err = None ->
        (st' - st) + (dd' - dd) + Z.of_nat (List.length (filter emptyText req))
        = Z.of_nat (List.length req))
    /\ (NoDup (map m_id rows) -> NoDup (map m_id rows'))
    /\ exists kept added,
         rows' = kept ++ added
         /\ Forall2 refreshed rows kept
         /\ Z.of_nat (List.length added) = st' - st
         /\ Forall (fun r' => exists entry k t,
                      In entry req /\ emptyText entry = false
                      /\ refreshed (stored sid entry (genID k) t) r') added.
Proof.
  induction req as [|entry rest IH];
    intros i rows st dd err rows' st' dd' Hs; cbn [storeEntries] in Hs.
  - inversion Hs; subst. split; [lia|]. split; [lia|].
    split; [intros _; simpl; lia|]. split; [auto|].
    exists rows', []. rewrite app_nil_r.
    repeat split; [apply Forall2_refreshed_refl | simpl; lia | constructor].
  - assert (Hwiden : forall added : list Row,
               Forall (fun r' => exists entry0 k t,
                         In entry0 rest /\ emptyText entry0 = false
                         /\ refreshed (stored sid entry0 (genID k) t) r') added ->
               Forall (fun r' => exists entry0 k t,
                         In entry0 (entry :: rest) /\ emptyText entry0 = false
                         /\ refreshed (stored sid entry0 (genID k) t) r') added).
    { intros added Hall. eapply Forall_impl; [|exact Hall].
      intros r' [entry0 [k [t [Hin H]]]]. exists entry0, k, t.
      split; [now right | exact H]. }
    cbn [filter List.length]. unfold emptyText at 1.
    destruct (String.eqb (se_Text entry) EmptyString) eqn:Eempty.
    { apply IH in Hs.
      destruct Hs as [Hst [Hdd [Hcount [Hnd [kept [added [Hrows [Hkept [Hlen Hadded]]]]]]]]].
      split; [lia|]. split; [lia|].
      split; [intros He; specialize (Hcount He); cbn [List.length]; lia|].
      split; [exact Hnd|]. exists kept, added. repeat split; auto. }
    destruct (negb (String.eqb
                (if 0 <? Z.of_nat (List.length (se_Embedding entry))
                 then findDuplicate cfg rows (se_Embedding entry)
                 else EmptyString) EmptyString)) eqn:Edup.
    { apply IH in Hs.
      destruct Hs as [Hst [Hdd [Hcount [Hnd [kept [added [Hrows [Hkept [Hlen Hadded]]]]]]]]].
      split; [lia|]. split; [lia|].
      split; [intros He; specialize (Hcount He); lia|].
      split.
      { intros H0. apply Hnd. unfold touch. rewrite map_map.
        erewrite map_ext; [exact H0|]. intros r.
        now destruct (inb (m_id r) _). }
      exists kept, added. repeat split; auto.
      eapply Forall2_refreshed_trans; [apply touch_refreshed | exact Hkept]. }
    destruct (hasID (genID st) rows) eqn:Ehas.
    { inversion Hs; subst. split; [lia|]. split; [lia|].
      split; [discriminate|]. split; [auto|].
      exists rows', []. rewrite app_nil_r.
      repeat split; [apply Forall2_refreshed_refl | simpl; lia | constructor]. }
    apply IH in Hs.
    destruct Hs as [Hst [Hdd [Hcount [Hnd [kept [added [Hrows [Hkept [Hlen Hadded]]]]]]]]].
    split; [lia|]. split; [lia|].
    split; [intros He; specialize (Hcount He); lia|].
    split.
    { intros H0. apply Hnd. rewrite map_app. cbn [map m_id].
      apply NoDup_app; [exact H0 | repeat constructor; simpl; tauto |].
      intros a Ha [<-|[]].
      assert (Hin : hasID (genID st) rows = true).
      { unfold hasID. apply existsb_exists. apply in_map_iff in Ha.
        destruct Ha as [r [Hid Hr]]. exists r. split; [exact Hr|].
        now apply String.eqb_eq. }
      congruence. }
    apply Forall2_app_inv_l in Hkept.
    destruct Hkept as [kept1 [kept2 [Hk1 [Hk2 ->]]]].
    inversion Hk2 as [|? new ? ? Hnew Hnil]; subst. inversion Hnil; subst.
    exists kept1, (new :: added). split; [now rewrite <- app_assoc|].
    split; [exact Hk1|]. split; [cbn [List.length]; lia|].
    constructor; [|now apply Hwiden].
    exists entry, st, (clock i). split; [now left|].
    split; [exact Eempty | exact Hnew].
Qed.

(** X20.  The result of a Store accounts for every entry of the request:
    an entry is stored, deduplicated or skipped for its empty text
    (nothing is ever counted as merged), and the table grows by the
    entries stored; its size is the total the result reports, and its
    ids stay pairwise distinct. *)
Theorem store_accounts genID clock cfg rows sid req res rows' :
  Store genID clock cfg rows sid req = (inr res, rows') ->
  Stored res + Deduplicated res
  + Z.of_nat (List.length (filter emptyText req))
  = Z.of_nat (List.length req)
  /\ Merged res = 0 /\ 0 <= Stored res /\ 0 <= Deduplicated res
  /\ TotalMemories res = Z.of_nat (List.length rows')
  /\ Z.of_nat (List.length rows') = Z.of_nat (List.length rows) + Stored res
  /\ (uniqueIDs rows = true -> uniqueIDs rows' = true).
Proof.
  unfold Store.
  destruct (storeEntries genID clock cfg sid req 0 rows 0 0)
    as [[[[err|] rows1] st] dd] eqn:Hs; [discriminate|].
  intros Heq. injection Heq as Hres Hrows. subst res rows'. cbn.
  destruct (storeEntries_spec _ _ _ _ _ _ _ _ _ _ _ _ _ Hs)
    as [Hst [Hdd [Hcount [Hnd [kept [added [Hrows [Hkept [Hlen _]]]]]]]]].
  specialize (Hcount eq_refl).
  apply Forall2_length in Hkept.
  rewrite Hrows, length_app.
  repeat split; try lia.
  unfold uniqueIDs. intros Hu. apply distinct_NoDup. rewrite <- Hrows.
  apply Hnd. now apply distinct_NoDup.
Qed.

(** X21.  Store deletes no memory and rewrites none: the table it leaves
    is the rows it had, in their order, followed by the rows stored for
    entries of the request.  A row it had keeps its id, text, embedding,
    source, session, metadata, decay level, creation time and tags, and
    is the very same row unless its access count has grown (a duplicate
    came in).  A stored row has the text, source and embedding of its
    entry, decay level 0, and the tags of the entry, each once.  This
    holds also when Store fails on the way. *)
Theorem store_only_adds_and_refreshes genID clock cfg rows sid req out rows' :
  Store genID clock cfg rows sid req = (out, rows') ->
  exists kept added,
    rows' = kept ++ added
    /\ Forall2 refreshed rows kept
    /\ Forall (fun r' => exists entry k t,
                  In entry req /\ emptyText entry = false
                  /\ refreshed (stored sid entry (genID k) t) r'
                  /\ NoDup (m_tags r')
                  /\ forall tag, In tag (m_tags r') <-> In tag (se_Tags entry))
              added.
Proof.
  unfold Store.
  destruct (storeEntries genID clock cfg sid req 0 rows 0 0)
    as [[[err rows1] st] dd] eqn:Hs.
  destruct (storeEntries_spec _ _ _ _ _ _ _ _ _ _ _ _ _ Hs)
    as [_ [_ [_ [_ [kept [added [Hrows [Hkept [_ Hadded]]]]]]]]].
  intros Heq. assert (Hsame : rows' = rows1) by (destruct err; now inversion Heq).
  subst rows'. exists kept, added. split; [exact Hrows|]. split; [exact Hkept|].
  eapply Forall_impl; [|exact Hadded].
  intros r' [entry [k [t [Hin [Hne Hr]]]]]. exists entry, k, t.
  split; [exact Hin|]. split; [exact Hne|]. split; [exact Hr|].
  destruct Hr as [[_ [_ [_ [_ [_ [_ [_ [_ Htags]]]]]]]] _].
  cbn [stored m_tags] in Htags. rewrite Htags.
  destruct (insertTags_spec (se_Tags entry) [] (NoDup_nil _)) as [Hnd Hiff].
  split; [exact Hnd|]. intros tag. rewrite Hiff. simpl. tauto.
Qed.

(** ** Recall *)

Definition textTokens (memories : list RecalledMemory) : Z :=
  fold_right (fun m acc => estimateTokens (rm_Text m) + acc) 0 memories.

Lemma takeResults_spec maxResults reqMaxTokens candidates :
  forall count tokenCount out total,
    takeResults maxResults reqMaxTokens candidates count tokenCount = (out, total) ->
    exists k : nat,
      out = map memory (firstn k candidates)
      /\ (k <= List.length candidates)%nat
      /\ (count <= maxResults -> count + Z.of_nat k <= maxResults)
      /\ total = tokenCount + textTokens out
      /\ (0 < reqMaxTokens -> tokenCount <= reqMaxTokens -> total <= reqMaxTokens).
Proof.
  induction candidates as [|c rest IH]; intros count tc out total Ht;
    cbn [takeResults] in Ht.
  - inversion Ht; subst. exists 0%nat. cbn. repeat split; lia.
  - destruct (Z.geb_spec count maxResults) as [Hfull|Hroom].
    { inversion Ht; subst. exists 0%nat. cbn. repeat split; lia. }
    destruct ((reqMaxTokens >? 0)
              && (tc + estimateTokens (rm_Text (memory c)) >? reqMaxTokens))
      eqn:Estop.
    { inversion Ht; subst. exists 0%nat. cbn. repeat split; lia. }
    destruct (takeResults maxResults reqMaxTokens rest (count + 1)
                          (tc + estimateTokens (rm_Text (memory c))))
      as [out1 total1] eqn:Hrest.
    inversion Ht; subst.
    destruct (IH _ _ _ _ Hrest) as [k [Hout [Hk [Hmax [Htotal Hfit]]]]].
    exists (S k). cbn [firstn map List.length textTokens fold_right].
    fold (textTokens out1).
    split; [now rewrite Hout|]. split; [lia|]. split; [lia|]. split; [lia|].
    intros Hpos Htc. apply Hfit; [exact Hpos|].
    apply andb_false_iff in Estop. destruct Estop; lia.
Qed.

Lemma sortByRelevance_length candidates :
  List.length (sortByRelevance candidates) = List.length candidates.
Proof.
  unfold sortByRelevance. symmetry.
  apply Permutation_length. apply (sortFrom_perm candidates []).
Qed.

(** X22.  Recall refuses a request with neither query text nor query
    embedding, with InvalidQuery and the table untouched, and answers
    every other.  Its statistics add up: the candidates are the rows the
    tag filter selects, all of them when no tag is given, and are the
    returned ones plus those counted as deduplicated; it returns at most
    [max_results] memories (10 when that is 0 or less); the token count
    is the estimate of the returned texts and stays within a positive
    [max_tokens]. *)
Theorem recall_answers now touchNow rows req :
  match Recall now touchNow rows req with
  | (inl err, rows') =>
      err = ErrInvalidQuery /\ rows' = rows
      /\ rq_Query req = EmptyString /\ rq_QueryEmbedding req = []
  | (inr res, rows') =>
      (rq_Query req <> EmptyString \/ rq_QueryEmbedding req <> [])
      /\ rs_Returned (Stats res) = Z.of_nat (List.length (Memories res))
      /\ rs_Returned (Stats res)
         <= (if rq_MaxResults req <=? 0 then 10 else rq_MaxResults req)
      /\ rs_Candidates (Stats res)
         = Z.of_nat (List.length (selectRows rows req))
      /\ rs_Candidates (Stats res)
         = rs_Returned (Stats res) + rs_Deduplicated (Stats res)
      /\ rs_TokenCount (Stats res) = textTokens (Memories res)
      /\ (0 < rq_MaxTokens req -> rs_TokenCount (Stats res) <= rq_MaxTokens req)
  end.
Proof.
  unfold Recall.
  destruct (String.eqb_spec (rq_Query req) EmptyString) as [Hq|Hq]; cbn [andb].
  - destruct (Z.eqb_spec (Z.of_nat (List.length (rq_QueryEmbedding req))) 0)
      as [He|He].
    + repeat split; auto. destruct (rq_QueryEmbedding req); [reflexivity|].
      simpl in He. lia.
    + destruct (takeResults _ _ _ 0 0) as [results tokenCount] eqn:Ht.
      destruct (takeResults_spec _ _ _ _ _ _ _ Ht)
        as [k [Hout [Hk [Hmax [Htotal Hfit]]]]].
      cbn [Stats Memories rs_Returned rs_Candidates rs_Deduplicated rs_TokenCount].
      rewrite sortByRelevance_length in *. unfold recallCandidates in *.
      rewrite length_map in *.
      assert (Hlen : List.length results = k).
      { rewrite Hout, length_map, length_firstn, sortByRelevance_length, length_map.
        lia. }
      split; [right; intros Hnil; rewrite Hnil in He; now apply He|].
      split; [reflexivity|]. split.
      { rewrite Hlen. destruct (rq_MaxResults req <=? 0) eqn:Em; lia. }
      split; [reflexivity|]. split; [lia|]. split; [lia|].
      intros Hpos. apply Hfit; lia.
  - destruct (takeResults _ _ _ 0 0) as [results tokenCount] eqn:Ht.
    destruct (takeResults_spec _ _ _ _ _ _ _ Ht)
      as [k [Hout [Hk [Hmax [Htotal Hfit]]]]].
    cbn [Stats Memories rs_Returned rs_Candidates rs_Deduplicated rs_TokenCount].
    rewrite sortByRelevance_length in *. unfold recallCandidates in *.
    rewrite length_map in *.
    assert (Hlen : List.length results = k).
    { rewrite Hout, length_map, length_firstn, sortByRelevance_length, length_map.
      lia. }
    split; [now left|].
    split; [reflexivity|]. split.
    { rewrite Hlen. destruct (rq_MaxResults req <=? 0) eqn:Em; lia. }
    split; [reflexivity|]. split; [lia|]. split; [lia|].
    intros Hpos. apply Hfit; lia.
Qed.

Lemma touch_nil now rows : touch now [] rows = rows.
Proof.
  unfold touch. rewrite <- (map_id rows) at 2. apply map_ext.
  intros r. reflexivity.
Qed.

Lemma Recall_touch now touchNow rows req res rows' :
  Recall now touchNow rows req = (inr res, rows') ->
  rows' = touch touchNow (map rm_ID (Memories res)) rows.
Proof.
  unfold Recall.
  destruct (String.eqb (rq_Query req) EmptyString
            && (Z.of_nat (List.length (rq_QueryEmbedding req)) =? 0));
    [discriminate|].
  destruct (takeResults _ _ _ 0 0) as [results tokenCount].
  intros Heq. injection Heq as Hres Hrows. subst res rows'. cbn [Memories].
  destruct results as [|m rest]; [now rewrite touch_nil | reflexivity].
Qed.

Lemma Recall_memories now touchNow rows req res rows' :
  Recall now touchNow rows req = (inr res, rows') ->
  forall m, In m (Memories res) ->
    exists r, In r (selectRows rows req)
              /\ m = memory (scoreRow req (clampWeight (rq_RecencyWeight req)) now r).
Proof.
  unfold Recall.
  destruct (String.eqb (rq_Query req) EmptyString
            && (Z.of_nat (List.length (rq_QueryEmbedding req)) =? 0));
    [discriminate|].
  destruct (takeResults _ _ _ 0 0) as [results tokenCount] eqn:Ht.
  intros Heq. injection Heq as Hres Hrows. subst res rows'. cbn [Memories].
  destruct (takeResults_spec _ _ _ _ _ _ _ Ht) as [k [Hout _]].
  intros m Hm. rewrite Hout in Hm. apply in_map_iff in Hm.
  destruct Hm as [c [<- Hc]]. apply firstn_subset in Hc.
  unfold sortByRelevance in Hc.
  apply (Permutation_in _ (Permutation_sym (sortFrom_perm _ []))) in Hc.
  simpl in Hc. unfold recallCandidates in Hc. apply in_map_iff in Hc.
  destruct Hc as [r [<- Hr]]. now exists r.
Qed.

(** X23.  Recall changes nothing of the table but the reference data of
    the memories it returns: each returned memory is a row of the table
    that the query selects (one that bears a tag of the request, when it
    names tags), shown with the id, text, source, decay level and last
    reference that the row had, and with its tags in the order of their
    bytes; afterwards that row has the time of the recall as its last
    reference and one access more, and every other row is as it was.  No
    row is added, removed or reordered. *)
Theorem recall_refreshes_what_it_returns now touchNow rows req res rows' :
  Recall now touchNow rows req = (inr res, rows') ->
  Forall2 refreshed rows rows'
  /\ (forall r, In r rows ->
        if inb (m_id r) (map rm_ID (Memories res))
        then In (touched r touchNow) rows' else In r rows')
  /\ (forall m, In m (Memories res) ->
        exists r, In r (selectRows rows req) /\ In r rows
                  /\ (rq_Tags req <> [] -> bears (rq_Tags req) r = true)
                  /\ rm_ID m = m_id r /\ rm_Text m = m_text r
                  /\ rm_Source m = m_source r
                  /\ Permutation (m_tags r) (rm_Tags m)
                  /\ StronglySorted (fun a b => String.leb a b = true)
                                    (rm_Tags m)
                  /\ rm_DecayLevel m = m_decay_level r
                  /\ rm_LastReferenced m = m_last_referenced r).
Proof.
  intros Hr. rewrite (Recall_touch _ _ _ _ _ _ Hr). split; [|split].
  - apply touch_refreshed.
  - intros r Hin. unfold touch.
    destruct (inb (m_id r) (map rm_ID (Memories res))) eqn:Ein.
    + apply in_map_iff. exists r. rewrite Ein. split; [reflexivity|exact Hin].
    + apply in_map_iff. exists r. rewrite Ein. split; [reflexivity|exact Hin].
  - intros m Hm. destruct (Recall_memories _ _ _ _ _ _ Hr m Hm) as [r [Hsel ->]].
    exists r. destruct (selectRows_In _ _ _ Hsel) as [Hin Hbears].
    cbn [memory scoreRow rm_ID rm_Text rm_Source rm_Tags rm_DecayLevel
         rm_LastReferenced].
    split; [exact Hsel|]. split; [exact Hin|]. split; [exact Hbears|].
    split; [reflexivity|]. split; [reflexivity|]. split; [reflexivity|].
    split; [apply indexOrder_perm|].
    split; [apply (indexOrder_sorted (fun tag : string => tag))|].
    split; reflexivity.
Qed.

(** The request with another query text. *)
Definition withQuery (req : RecallRequest) (text : string) : RecallRequest :=
  {| rq_Query := text; rq_QueryEmbedding := rq_QueryEmbedding req;
     rq_Tags := rq_Tags req; rq_MaxTokens := rq_MaxTokens req;
     rq_MaxResults := rq_MaxResults req;
     rq_RecencyWeight := rq_RecencyWeight req |}.

(** X24.  Recall never looks at the text of the query: between two
    requests that it accepts and that differ in the query text only, the
    memories returned, their order and scores, the statistics and the
    rows refreshed are the same.  A query is matched through its
    embedding alone. *)
Theorem recall_ignores_query_text now touchNow rows req text :
  String.eqb (rq_Query req) EmptyString = false
  \/ (Z.of_nat (List.length (rq_QueryEmbedding req)) =? 0) = false ->
  String.eqb text EmptyString = false
  \/ (Z.of_nat (List.length (rq_QueryEmbedding req)) =? 0) = false ->
  Recall now touchNow rows (withQuery req text) = Recall now touchNow rows req.
Proof.
  intros Hreq Htext. unfold Recall. cbn [withQuery rq_Query rq_QueryEmbedding
    rq_MaxResults rq_MaxTokens].
  replace (String.eqb text EmptyString
           && (Z.of_nat (List.length (rq_QueryEmbedding req)) =? 0)) with false
    by (symmetry; apply andb_false_iff; tauto).
  replace (String.eqb (rq_Query req) EmptyString
           && (Z.of_nat (List.length (rq_QueryEmbedding req)) =? 0)) with false
    by (symmetry; apply andb_false_iff; tauto).
  reflexivity.
Qed.

End Storing.

(** ** Forget *)

Definition noCriteria (req : MemoryStore.ForgetRequest) : bool :=
  (Z.of_nat (List.length (MemoryStore.fr_IDs req)) =? 0)
  && (Z.of_nat (List.length (MemoryStore.fr_Tags req)) =? 0)
  && MemoryStore.IsZero (MemoryStore.fr_OlderThan req).

(** X25.  Forget removes the memories that meet every criterion the
    request gives, and no other: a row stays exactly when its id is not
    among the ids given, or it bears none of the tags given, or its
    creation time does not sort before the time given (as the stored
    texts compare).  The result counts the rows removed and the rows
    left.  Forgetting the same again removes nothing.  A request without
    any criterion removes nothing, and reports a total of 0 whatever the
    table holds. *)
Theorem forget_removes_what_matches before rows req :
  let res := fst (MemoryStore.Forget before rows req) in
  let rows' := snd (MemoryStore.Forget before rows req) in
  if noCriteria req
  then rows' = rows /\ MemoryStore.fg_Removed res = 0
       /\ MemoryStore.fg_TotalMemories res = 0
  else
    (forall r, In r rows' <->
       In r rows
       /\ ((MemoryStore.fr_IDs req <> []
            /\ ~ In (m_id r) (MemoryStore.fr_IDs req))
           \/ (MemoryStore.fr_Tags req <> []
               /\ forall tag, In tag (MemoryStore.fr_Tags req) ->
                              ~ In tag (m_tags r))
           \/ (MemoryStore.fr_OlderThan req <> MemoryStore.zeroTime
               /\ before (m_created_at r) (MemoryStore.fr_OlderThan req)
                  = false)))
    /\ MemoryStore.fg_TotalMemories res = Z.of_nat (List.length rows')
    /\ MemoryStore.fg_Removed res + MemoryStore.fg_TotalMemories res
       = Z.of_nat (List.length rows)
    /\ 0 <= MemoryStore.fg_Removed res
    /\ MemoryStore.Forget before rows' req
       = ({| MemoryStore.fg_Removed := 0;
             MemoryStore.fg_TotalMemories := MemoryStore.fg_TotalMemories res |},
          rows').
Proof.
  unfold MemoryStore.Forget. fold (noCriteria req).
  destruct (noCriteria req) eqn:Enone; cbn [fst snd]; [auto|].
  cbn [MemoryStore.fg_Removed MemoryStore.fg_TotalMemories].
  set (keep := fun r => negb (MemoryStore.forgetMatches before req r)).
  split; [|split; [reflexivity|split; [lia|split]]].
  - intros r. unfold keep. rewrite filter_In, negb_true_iff.
    unfold MemoryStore.forgetMatches.
    assert (Hids : MemoryStore.fr_IDs req <> []
                   <-> (0 <? Z.of_nat (List.length (MemoryStore.fr_IDs req))) = true).
    { rewrite Z.ltb_lt. destruct (MemoryStore.fr_IDs req); simpl; split;
        try congruence; lia. }
    assert (Htags : MemoryStore.fr_Tags req <> []
                    <-> (0 <? Z.of_nat (List.length (MemoryStore.fr_Tags req))) = true).
    { rewrite Z.ltb_lt. destruct (MemoryStore.fr_Tags req); simpl; split;
        try congruence; lia. }
    assert (Hzero : MemoryStore.fr_OlderThan req <> MemoryStore.zeroTime
                    <-> negb (MemoryStore.IsZero (MemoryStore.fr_OlderThan req)) = true).
    { unfold MemoryStore.IsZero. rewrite negb_true_iff, Z.eqb_neq. tauto. }
    assert (Hbear : (forall tag, In tag (MemoryStore.fr_Tags req) -> ~ In tag (m_tags r))
                    <-> existsb (fun tag => inb tag (m_tags r))
                                (MemoryStore.fr_Tags req) = false).
    { split.
      - intros Hnone. destruct (existsb _ _) eqn:Eex; [|reflexivity].
        apply existsb_exists in Eex. destruct Eex as [tag [Hin Hb]].
        apply inb_In in Hb. now apply Hnone in Hin.
      - intros Hex tag Hin Hb.
        assert (Htrue : existsb (fun tag => inb tag (m_tags r))
                                (MemoryStore.fr_Tags req) = true).
        { apply existsb_exists. exists tag. split; [exact Hin|now apply inb_In]. }
        congruence. }
    assert (Hid : ~ In (m_id r) (MemoryStore.fr_IDs req)
                  <-> inb (m_id r) (MemoryStore.fr_IDs req) = false).
    { split.
      - intros Hn. destruct (inb _ _) eqn:Eb; [|reflexivity].
        apply inb_In in Eb. contradiction.
      - intros Hb Hin. apply inb_In in Hin. congruence. }
    rewrite Hids, Htags, Hzero, Hbear, Hid.
    rewrite !andb_false_iff.
    destruct (0 <? Z.of_nat (List.length (MemoryStore.fr_IDs req)));
      destruct (0 <? Z.of_nat (List.length (MemoryStore.fr_Tags req)));
      destruct (negb (MemoryStore.IsZero (MemoryStore.fr_OlderThan req)));
      intuition congruence.
  - pose proof (filter_length_le keep rows). lia.
  - assert (Hidem : filter keep (filter keep rows) = filter keep rows).
    { apply forallb_filter_id. apply forallb_forall. intros r Hr.
      now apply filter_In in Hr. }
    fold keep. rewrite Hidem. f_equal. f_equal. lia.
Qed.

(** ** Stats *)

Definition decayCount (level : Z) (counts : list (Z * Z)) : Z :=
  match find (fun p => fst p =? level) counts with
  | Some p => snd p
  | None => 0
  end.

Definition sourceCount (source : string) (counts : list (string * Z)) : Z :=
  match find (fun p => String.eqb (fst p) source) counts with
  | Some p => snd p
  | None => 0
  end.

Definition atDecayLevel (level : Z) (rows : list Row) : Z :=
  Z.of_nat (List.length (filter (fun r => m_decay_level r =? level) rows)).

Definition fromSource (source : string) (rows : list Row) : Z :=
  Z.of_nat (List.length (filter (fun r => String.eqb (m_source r) source) rows)).

Lemma countLevel_count l level counts :
  decayCount l (MemoryStore.countLevel level counts)
  = decayCount l counts + (if l =? level then 1 else 0).
Proof.
  unfold decayCount.
  induction counts as [|[k n] rest IH]; cbn [MemoryStore.countLevel find fst].
  - rewrite Z.eqb_sym. destruct (l =? level); cbn; lia.
  - destruct (Z.eqb_spec k level) as [->|Hkl]; cbn [find fst].
    + destruct (Z.eqb_spec level l) as [->|Hne].
      * rewrite Z.eqb_refl. cbn. lia.
      * destruct (Z.eqb_spec l level); [congruence|]. lia.
    + destruct (Z.eqb_spec k l) as [->|Hne].
      * destruct (Z.eqb_spec l level); [congruence|]. cbn. lia.
      * exact IH.
Qed.

Lemma countSource_count s source counts :
  sourceCount s (MemoryStore.countSource source counts)
  = sourceCount s counts + (if String.eqb s source then 1 else 0).
Proof.
  unfold sourceCount.
  induction counts as [|[k n] rest IH]; cbn [MemoryStore.countSource find fst].
  - rewrite String.eqb_sym. destruct (String.eqb s source); cbn; lia.
  - destruct (String.eqb_spec k source) as [->|Hkl]; cbn [find fst].
    + destruct (String.eqb_spec source s) as [->|Hne].
      * rewrite String.eqb_refl. cbn. lia.
      * destruct (String.eqb_spec s source); [congruence|]. lia.
    + destruct (String.eqb_spec k s) as [->|Hne].
      * destruct (String.eqb_spec s source); [congruence|]. cbn. lia.
      * exact IH.
Qed.

Lemma countLevel_keys level counts :
  NoDup (map fst counts) ->
  NoDup (map fst (MemoryStore.countLevel level counts))
  /\ forall k, In k (map fst (MemoryStore.countLevel level counts))
               <-> k = level \/ In k (map fst counts).
Proof.
  induction counts as [|[k n] rest IH]; cbn [MemoryStore.countLevel map fst];
    intros Hnd.
  - split; [repeat constructor; simpl; tauto|]. intros k. simpl.
    intuition congruence.
  - inversion Hnd as [|? ? Hk Hrest]; subst.
    destruct (Z.eqb_spec k level) as [->|Hne]; cbn [map fst].
    + split; [exact Hnd|]. intros k0. simpl. intuition congruence.
    + destruct (IH Hrest) as [Hnd' Hin]. split.
      * constructor; [|exact Hnd']. rewrite Hin. intros [Heq|H]; [congruence|auto].
      * intros k0. simpl. rewrite Hin. intuition congruence.
Qed.

Lemma countSource_keys source counts :
  NoDup (map fst counts) ->
  NoDup (map fst (MemoryStore.countSource source counts))
  /\ forall k, In k (map fst (MemoryStore.countSource source counts))
               <-> k = source \/ In k (map fst counts).
Proof.
  induction counts as [|[k n] rest IH]; cbn [MemoryStore.countSource map fst];
    intros Hnd.
  - split; [repeat constructor; simpl; tauto|]. intros k. simpl.
    intuition congruence.
  - inversion Hnd as [|? ? Hk Hrest]; subst.
    destruct (String.eqb_spec k source) as [->|Hne]; cbn [map fst].
    + split; [exact Hnd|]. intros k0. simpl. intuition congruence.
    + destruct (IH Hrest) as [Hnd' Hin]. split.
      * constructor; [|exact Hnd']. rewrite Hin. intros [Heq|H]; [congruence|auto].
      * intros k0. simpl. rewrite Hin. intuition congruence.
Qed.

Lemma levels_fold rows :
  forall counts,
    NoDup (map fst counts) ->
    let out := fold_left (fun acc r => MemoryStore.countLevel (m_decay_level r) acc)
                         rows counts in
    NoDup (map fst out)
    /\ (forall l, decayCount l out = decayCount l counts + atDecayLevel l rows)
    /\ (forall k, In k (map fst out)
                  <-> In k (map fst counts) \/ In k (map m_decay_level rows)).
Proof.
  induction rows as [|r rest IH]; intros counts Hnd; cbn [fold_left].
  - split; [exact Hnd|]. split; [intros l; unfold atDecayLevel; simpl; lia|].
    intros k. simpl. tauto.
  - destruct (countLevel_keys (m_decay_level r) counts Hnd) as [Hnd1 Hkeys].
    destruct (IH _ Hnd1) as [Hnd' [Hcount Hin]]. split; [exact Hnd'|]. split.
    + intros l. rewrite Hcount, countLevel_count. unfold atDecayLevel.
      cbn [filter]. rewrite (Z.eqb_sym l).
      destruct (m_decay_level r =? l); cbn [List.length]; lia.
    + intros k. rewrite Hin, Hkeys. simpl. intuition congruence.
Qed.

Lemma sources_fold rows :
  forall counts,
    NoDup (map fst counts) ->
    let out := fold_left (fun acc r => MemoryStore.countSource (m_source r) acc)
                         rows counts in
    NoDup (map fst out)
    /\ (forall s, sourceCount s out = sourceCount s counts + fromSource s rows)
    /\ (forall k, In k (map fst out)
                  <-> In k (map fst counts) \/ In k (map m_source rows)).
Proof.
  induction rows as [|r rest IH]; intros counts Hnd; cbn [fold_left].
  - split; [exact Hnd|]. split; [intros l; unfold fromSource; simpl; lia|].
    intros k. simpl. tauto.
  - destruct (countSource_keys (m_source r) counts Hnd) as [Hnd1 Hkeys].
    destruct (IH _ Hnd1) as [Hnd' [Hcount Hin]]. split; [exact Hnd'|]. split.
    + intros l. rewrite Hcount, countSource_count. unfold fromSource.
      cbn [filter]. rewrite (String.eqb_sym l).
      destruct (String.eqb (m_source r) l); cbn [List.length]; lia.
    + intros k. rewrite Hin, Hkeys. simpl. intuition congruence.
Qed.

Lemma fold_first_least (before : Z -> Z -> bool) (l : list Z) :
  strict_weak before -> forall a,
  let m := fold_left (fun m t => if before t m then t else m) l a in
  before a m = false /\ forall x, In x l -> before x m = false.
Proof.
  intros [Hasym Htrans]. induction l as [|y rest IH]; intros a; cbn.
  - split; [|tauto]. destruct (before a a) eqn:E; [|reflexivity].
    now rewrite (Hasym _ _ E) in E.
  - destruct (IH (if before y a then y else a)) as [Ha Hx].
    destruct (before y a) eqn:E.
    + split; [apply (Htrans a y); [now apply Hasym | exact Ha]|].
      intros x [<-|Hin]; [exact Ha | now apply Hx].
    + split; [exact Ha|].
      intros x [<-|Hin]; [now apply (Htrans y a) | now apply Hx].
Qed.

Lemma fold_last_greatest (before : Z -> Z -> bool) (l : list Z) :
  strict_weak before -> forall a,
  let m := fold_left (fun m t => if before m t then t else m) l a in
  before m a = false /\ forall x, In x l -> before m x = false.
Proof.
  intros [Hasym Htrans]. induction l as [|y rest IH]; intros a; cbn.
  - split; [|tauto]. destruct (before a a) eqn:E; [|reflexivity].
    now rewrite (Hasym _ _ E) in E.
  - destruct (IH (if before a y then y else a)) as [Ha Hx].
    destruct (before a y) eqn:E.
    + split; [apply (Htrans _ y); [exact Ha | now apply Hasym]|].
      intros x [<-|Hin]; [exact Ha | now apply Hx].
    + split; [exact Ha|].
      intros x [<-|Hin]; [now apply (Htrans _ a) | now apply Hx].
Qed.

Lemma fold_choice (choose : Z -> Z -> bool) (l : list Z) : forall a,
  In (fold_left (fun m t => if choose m t then t else m) l a) (a :: l).
Proof.
  induction l as [|y rest IH]; intros a; cbn [fold_left]; [now left|].
  specialize (IH (if choose a y then y else a)).
  destruct (choose a y); destruct IH as [<-|Hin]; simpl; auto.
Qed.

Lemma fromSource_named s rows :
  s <> EmptyString ->
  fromSource s (filter (fun r => negb (String.eqb (m_source r) EmptyString)) rows)
  = fromSource s rows.
Proof.
  intros Hs. unfold fromSource. f_equal. f_equal.
  induction rows as [|r rest IH]; [reflexivity|]. cbn [filter].
  destruct (String.eqb_spec (m_source r) EmptyString) as [He|He]; cbn [negb filter].
  - destruct (String.eqb_spec (m_source r) s); [congruence|]. exact IH.
  - destruct (String.eqb (m_source r) s); [now rewrite IH | exact IH].
Qed.

(** X26.  Stats counts every memory once: the total is the number of
    rows; each decay level that occurs has one entry, with the number of
    rows at it, and no other level has one; each source that occurs has
    one entry, with the number of rows of that source, except the empty
    source, which has none.  The oldest and the newest memory are the
    zero time on an empty table and creation times of rows otherwise:
    those that no other sorts before, or after, as the stored texts
    compare. *)
Theorem stats_count_every_memory before rows :
  let st := MemoryStore.Stats before rows in
  MemoryStore.st_TotalMemories st = Z.of_nat (List.length rows)
  /\ NoDup (map fst (MemoryStore.st_ByDecayLevel st))
  /\ (forall l, decayCount l (MemoryStore.st_ByDecayLevel st) = atDecayLevel l rows)
  /\ (forall l, In l (map fst (MemoryStore.st_ByDecayLevel st))
                <-> In l (map m_decay_level rows))
  /\ NoDup (map fst (MemoryStore.st_BySource st))
  /\ (forall s, s <> EmptyString ->
                sourceCount s (MemoryStore.st_BySource st) = fromSource s rows)
  /\ (forall s, In s (map fst (MemoryStore.st_BySource st))
                <-> s <> EmptyString /\ In s (map m_source rows))
  /\ (rows = [] ->
      MemoryStore.st_OldestMemory st = MemoryStore.zeroTime
      /\ MemoryStore.st_NewestMemory st = MemoryStore.zeroTime)
  /\ (rows <> [] ->
      In (MemoryStore.st_OldestMemory st) (map m_created_at rows)
      /\ In (MemoryStore.st_NewestMemory st) (map m_created_at rows))
  /\ (strict_weak before ->
      forall r, In r rows ->
        before (m_created_at r) (MemoryStore.st_OldestMemory st) = false
        /\ before (MemoryStore.st_NewestMemory st) (m_created_at r) = false).
Proof.
  intros st. unfold st, MemoryStore.Stats.
  cbn [MemoryStore.st_TotalMemories MemoryStore.st_ByDecayLevel
       MemoryStore.st_BySource MemoryStore.st_OldestMemory
       MemoryStore.st_NewestMemory].
  destruct (levels_fold rows [] (NoDup_nil _)) as [Hnd [Hcount Hkeys]].
  set (named := filter (fun r => negb (String.eqb (m_source r) EmptyString)) rows).
  destruct (sources_fold named [] (NoDup_nil _)) as [Hnds [Hcounts Hkeyss]].
  split; [reflexivity|]. split; [exact Hnd|].
  split; [intros l; rewrite Hcount; reflexivity|].
  split; [intros l; rewrite Hkeys; simpl; tauto|].
  split; [exact Hnds|]. split.
  { intros s Hs. rewrite Hcounts. unfold named.
    rewrite (fromSource_named s rows Hs). reflexivity. }
  split.
  { intros s. rewrite Hkeyss. simpl. unfold named. split.
    - intros [[]|Hin]. apply in_map_iff in Hin. destruct Hin as [r [<- Hr]].
      apply filter_In in Hr. destruct Hr as [Hr Hne].
      apply negb_true_iff, String.eqb_neq in Hne.
      split; [exact Hne | now apply in_map].
    - intros [Hne Hin]. right. apply in_map_iff in Hin.
      destruct Hin as [r [<- Hr]]. apply in_map. apply filter_In.
      split; [exact Hr|]. now apply negb_true_iff, String.eqb_neq. }
  split; [intros ->; split; reflexivity|].
  destruct rows as [|r0 rest].
  { split; [congruence|]. intros _ r []. }
  cbn [MemoryStore.oldest MemoryStore.newest map].
  split.
  - intros _. split.
    + apply (fold_choice (fun m t => before t m)).
    + apply (fold_choice before).
  - intros Hord r Hr.
    destruct (fold_first_least before (map m_created_at rest) Hord
                               (m_created_at r0)) as [Hmin Hminx].
    destruct (fold_last_greatest before (map m_created_at rest) Hord
                                 (m_created_at r0)) as [Hmax Hmaxx].
    destruct Hr as [<-|Hr]; [split; assumption|].
    split; [apply Hminx | apply Hmaxx]; now apply in_map.
Qed.

(** ** The decay worker and the other operations *)

Section Aging.
Context {E : GoEnv}.
Variable before : Z -> Z -> bool.

(** A row that is referenced at [t] is in use at the pass of [now]: for
    each phase that is switched on, the stored text of [t] does not sort
    before the text of the cutoff. *)
Definition fresh (cfg : Config) (now t : Z) : Prop :=
  (EvictAge cfg <= 0 \/ before t (now - EvictAge cfg) = false)
  /\ (KeywordsAge cfg <= 0 \/ before t (now - KeywordsAge cfg) = false)
  /\ (SummaryAge cfg <= 0 \/ before t (now - SummaryAge cfg) = false).

Lemma fresh_row_stays cfg now rows r :
  NoDup (map m_id rows) -> In r rows ->
  fresh cfg now (m_last_referenced r) ->
  In r (runOnce before cfg now rows).
Proof.
  intros Hnd Hin [Hev [Hkw Hsm]]. rewrite runOnce_rows by exact Hnd.
  apply in_map_iff. exists r. split.
  - assert (Hk : keywordsStep before cfg now r = r).
    { unfold keywordsStep, due.
      destruct (Z.gtb_spec (KeywordsAge cfg) 0); cbn [andb]; [|reflexivity].
      destruct Hkw as [Hoff|Hnot]; [lia|]. now rewrite Hnot. }
    rewrite Hk. unfold summaryStep, due.
    destruct (Z.gtb_spec (SummaryAge cfg) 0); cbn [andb]; [|reflexivity].
    destruct Hsm as [Hoff|Hnot]; [lia|]. now rewrite Hnot.
  - apply filter_In. split; [exact Hin|]. unfold survives.
    destruct (Z.gtb_spec (EvictAge cfg) 0); cbn [andb negb]; [|reflexivity].
    destruct Hev as [Hoff|Hnot]; [lia|]. now rewrite Hnot.
Qed.

Lemma touch_ids now ids rows : map m_id (touch now ids rows) = map m_id rows.
Proof.
  unfold touch. rewrite map_map. apply map_ext. intros r.
  now destruct (inb (m_id r) ids).
Qed.

(** X27.  A decay pass leaves alone what is still in use: a memory whose
    stored last reference does not sort before the cutoff of any phase
    that is switched on (an age of 0 or less switches its phase off)
    comes out of the pass as it went in.  In particular a memory that
    Recall returns is refreshed by it and then passes unchanged through
    every decay pass at which the time of that recall is still in use in
    this sense.  The comparison is that of the stored texts. *)
Theorem decay_spares_what_is_in_use cfg passTime now touchNow rows req res rows' :
  uniqueIDs rows = true ->
  Recall now touchNow rows req = (inr res, rows') ->
  (forall r, In r rows' -> fresh cfg passTime (m_last_referenced r) ->
             In r (runOnce before cfg passTime rows'))
  /\ (fresh cfg passTime touchNow ->
      forall m, In m (Memories res) ->
        exists r, In r rows /\ m_id r = rm_ID m
                  /\ In (touched r touchNow) (runOnce before cfg passTime rows')).
Proof.
  intros Hu Hr. apply distinct_NoDup in Hu.
  pose proof (Recall_touch _ _ _ _ _ _ Hr) as Hrows.
  assert (Hnd : NoDup (map m_id rows')) by (rewrite Hrows, touch_ids; exact Hu).
  split.
  - intros r Hin Hfresh. now apply fresh_row_stays.
  - intros Hfresh m Hm.
    destruct (Recall_memories _ _ _ _ _ _ Hr m Hm) as [r [Hsel Hmr]].
    assert (Hin : In r rows) by (now apply selectRows_In in Hsel).
    exists r. split; [exact Hin|]. split; [now rewrite Hmr|].
    apply fresh_row_stays; [exact Hnd| |exact Hfresh].
    rewrite Hrows. unfold touch. apply in_map_iff. exists r.
    split; [|exact Hin].
    assert (Hid : inb (m_id r) (map rm_ID (Memories res)) = true).
    { apply inb_In. apply in_map_iff. exists m. split; [now rewrite Hmr|exact Hm]. }
    now rewrite Hid.
Qed.

(** X28.  A memory that nobody refers to is gone after three passes,
    and not before: a full-text memory whose stored last reference sorts
    before the summary cutoff of a first pass, the keywords cutoff of a
    second and the evict cutoff of a third (all three ages switched on)
    is a summary after the first pass, keywords of that summary after
    the second, and no row of the table after the third.  The comparison
    is that of the stored texts. *)
Theorem unused_memory_goes_in_three_passes cfg now1 now2 now3 rows r :
  uniqueIDs rows = true -> In r rows ->
  m_decay_level r = DecayFull ->
  0 < SummaryAge cfg -> 0 < KeywordsAge cfg -> 0 < EvictAge cfg ->
  before (m_last_referenced r) (now1 - SummaryAge cfg) = true ->
  before (m_last_referenced r) (now2 - KeywordsAge cfg) = true ->
  before (m_last_referenced r) (now3 - EvictAge cfg) = true ->
  let summary := rewritten r (extractSummary (m_text r)) DecaySummary in
  let keywords := rewritten summary (extractKeywords (m_text summary))
                            DecayKeywords in
  In summary (runOnce before cfg now1 rows)
  /\ In keywords (runOnce before cfg now2 (runOnce before cfg now1 rows))
  /\ ~ In (m_id r)
         (map m_id (runOnce before cfg now3
                      (runOnce before cfg now2 (runOnce before cfg now1 rows)))).
Proof.
  intros Hu Hin Hlevel Hs Hk He Hsa Hka Hea summary keywords.
  apply distinct_NoDup in Hu.
  pose proof (runOnce_NoDup before cfg now1 rows Hu) as Hnd1.
  pose proof (runOnce_NoDup before cfg now2 _ Hnd1) as Hnd2.
  assert (Hgt : forall a, 0 < a -> (a >? 0) = true)
    by (intros a Ha; apply Z.gtb_lt; lia).
  assert (H1 : In summary (runOnce before cfg now1 rows)).
  { rewrite runOnce_rows by exact Hu. apply in_map_iff. exists r. split.
    - assert (Hstay : keywordsStep before cfg now1 r = r).
      { unfold keywordsStep, due. rewrite Hlevel.
        replace (DecayFull =? DecaySummary) with false by reflexivity.
        now rewrite !andb_false_r. }
      rewrite Hstay. unfold summaryStep, due.
      rewrite (Hgt _ Hs), Hlevel, Z.eqb_refl, Hsa. reflexivity.
    - apply filter_In. split; [exact Hin|]. unfold survives. rewrite Hlevel.
      replace (DecayFull >=? DecayKeywords) with false by reflexivity.
      now rewrite andb_false_r. }
  assert (H2 : In keywords (runOnce before cfg now2 (runOnce before cfg now1 rows))).
  { rewrite (runOnce_rows before cfg now2) by exact Hnd1. apply in_map_iff.
    exists summary. split.
    - assert (Hup : keywordsStep before cfg now2 summary = keywords).
      { unfold keywordsStep, due. rewrite (Hgt _ Hk).
        cbn [summary rewritten m_decay_level m_last_referenced].
        rewrite Z.eqb_refl, Hka. reflexivity. }
      rewrite Hup. unfold summaryStep, due.
      cbn [keywords rewritten m_decay_level].
      replace (DecayKeywords =? DecayFull) with false by reflexivity.
      now rewrite !andb_false_r.
    - apply filter_In. split; [exact H1|]. unfold survives.
      cbn [summary rewritten m_decay_level].
      replace (DecaySummary >=? DecayKeywords) with false by reflexivity.
      now rewrite andb_false_r. }
  split; [exact H1|]. split; [exact H2|].
  rewrite (runOnce_rows before cfg now3) by exact Hnd2. rewrite map_map.
  intros Hid. apply in_map_iff in Hid. destruct Hid as [x [Hx Hxin]].
  rewrite summaryStep_id, keywordsStep_id in Hx.
  apply filter_In in Hxin. destruct Hxin as [Hxin Hsurv].
  assert (Hsame : x = keywords).
  { apply (same_id_same_row _ x keywords Hnd2 Hxin H2). rewrite Hx. reflexivity. }
  subst x. unfold survives in Hsurv. rewrite (Hgt _ He) in Hsurv.
  cbn [keywords summary rewritten m_decay_level m_last_referenced] in Hsurv.
  rewrite Hea in Hsurv. discriminate.
Qed.

End Aging.
End MemoryMore.

(** ** Runs *)

Module MoreCases.
Import Session SessionProofs SessionCases Reference SessionMore.
Local Open Scope string_scope.

(** ** Sessions to run the model on *)

(** The generator of ids, [n] ids on. *)
Definition lettersFrom (n k : Z) : string := letterID (n + k).

(** A session of 30 tokens that keeps its two most recent rows, after
    [threeMessages]: the first message has been evicted. *)
Definition afterThree : SessionState :=
  Eval vm_compute in
    match Push (E:=asciiEnv) 40 letterID (freshSession 30 2) threeMessages with
    | Some (_, s) => s
    | None => freshSession 30 2
    end.

Definition fourthAndEmpty : list PushEntry :=
  [ plain "assistant" "A fourth message, which does not fit the budget any more."
          (7 # 10)%Q;
    plain "user" EmptyString 1%Q ].

Definition signedNote : PushEntry :=
  {| pe_Role := "tool"; pe_Content := "The auth module signs tokens with RS256.";
     pe_Source := "file_read"; pe_Embedding := [1065353216; 0];
     pe_Importance := (1 # 2)%Q |}.

Lemma afterThree_consistent : Forall (consistent (E:=asciiEnv)) (entries afterThree).
Proof.
  unfold afterThree. cbn [entries].
  repeat (apply Forall_cons || apply Forall_nil);
    (split; [vm_compute; reflexivity|]; split; [vm_compute; split; discriminate|];
     split; [vm_compute; reflexivity | reflexivity]).
Qed.

Lemma push_keeps_order_witness :
  exists out s',
    Push (E:=asciiEnv) 40 (lettersFrom 3) afterThree fourthAndEmpty = Some (out, s')
    /\ uniqueIDs (entries s') = true
    /\ ascending (map e_seq (entries s')) = true.
Proof.
  eexists. eexists.
  assert (Hrun : Push (E:=asciiEnv) 40 (lettersFrom 3) afterThree fourthAndEmpty
                 = Some (_, _)) by (vm_compute; reflexivity).
  split; [exact Hrun|].
  exact (push_keeps_order (E:=asciiEnv) 40 (lettersFrom 3) afterThree fourthAndEmpty
           _ _ eq_refl eq_refl Hrun).
Defined.

Lemma push_keeps_rows_consistent_witness :
  exists out s',
    Push (E:=asciiEnv) 40 (lettersFrom 3) afterThree fourthAndEmpty = Some (out, s')
    /\ Forall (consistent (E:=asciiEnv)) (entries s').
Proof.
  eexists. eexists.
  assert (Hrun : Push (E:=asciiEnv) 40 (lettersFrom 3) afterThree fourthAndEmpty
                 = Some (_, _)) by (vm_compute; reflexivity).
  split; [exact Hrun|].
  exact (push_keeps_rows_consistent (E:=asciiEnv) 40 (lettersFrom 3) afterThree
           fourthAndEmpty _ _ eq_refl afterThree_consistent Hrun).
Defined.

Lemma push_rewrites_content_only_witness :
  exists out s',
    Push (E:=asciiEnv) 40 (lettersFrom 3) afterThree fourthAndEmpty = Some (out, s')
    /\ forall r', In r' (entries s') ->
         (exists r, In r (entries afterThree) /\ descends r r')
         \/ (exists entry k seq,
               In entry fourthAndEmpty /\ selectMaxSeq (entries afterThree) < seq
               /\ descends (inserted entry (lettersFrom 3 k) seq) r').
Proof.
  eexists. eexists.
  assert (Hrun : Push (E:=asciiEnv) 40 (lettersFrom 3) afterThree fourthAndEmpty
                 = Some (_, _)) by (vm_compute; reflexivity).
  split; [exact Hrun|].
  exact (push_rewrites_content_only (E:=asciiEnv) 40 (lettersFrom 3) afterThree
           fourthAndEmpty _ _ eq_refl Hrun).
Defined.

Lemma push_accounts_witness :
  exists res s',
    Push (E:=asciiEnv) 40 (lettersFrom 3) afterThree fourthAndEmpty
    = Some (inr res, s')
    /\ Accepted res = 1 /\ Evicted res = 1
    /\ Accepted res + Deduplicated res
       + Z.of_nat (List.length (filter emptyContent fourthAndEmpty))
       = Z.of_nat (List.length fourthAndEmpty)
    /\ Z.of_nat (List.length (entries s'))
       = Z.of_nat (List.length (entries afterThree)) + Accepted res - Evicted res.
Proof.
  eexists. eexists.
  assert (Hrun : Push (E:=asciiEnv) 40 (lettersFrom 3) afterThree fourthAndEmpty
                 = Some (inr _, _)) by (vm_compute; reflexivity).
  split; [exact Hrun|]. split; [reflexivity|]. split; [reflexivity|].
  destruct (push_accounts (E:=asciiEnv) 40 (lettersFrom 3) afterThree fourthAndEmpty
              _ _ eq_refl Hrun)
    as [Hentries [_ [_ [_ [_ Hrows]]]]].
  split; [exact Hentries | exact Hrows].
Defined.

Lemma push_within_budget_appends_witness :
  exists res s' accepted,
    Push (E:=asciiEnv) 1 letterID (freshSession 1000 10) threeMessages
    = Some (inr res, s')
    /\ Z.of_nat (List.length accepted) = Accepted res
    /\ Compressed res = 0 /\ Evicted res = 0
    /\ entries s'
       = (entries (freshSession 1000 10) ++ insertedFrom letterID 0 0 accepted)%list.
Proof.
  eexists. eexists.
  assert (Hrun : Push (E:=asciiEnv) 1 letterID (freshSession 1000 10) threeMessages
                 = Some (inr _, _)) by (vm_compute; reflexivity).
  destruct (push_within_budget_appends (E:=asciiEnv) 1 letterID (freshSession 1000 10)
              threeMessages _ _ eq_refl Hrun)
    as [accepted [_ [Hlen [Hrows [_ Hsame]]]]].
  exists accepted. split; [exact Hrun|]. split; [exact Hlen|].
  split; [reflexivity|]. split; [reflexivity|].
  rewrite (Hsame (conj eq_refl eq_refl)). exact Hrows.
Defined.

Lemma push_preserves_recent_witness :
  exists res s' older recent dropped,
    Push (E:=asciiEnv) 40 (lettersFrom 3) afterThree fourthAndEmpty
    = Some (inr res, s')
    /\ entries s' = (older ++ recent)%list
    /\ skipn (Z.to_nat
                (Z.of_nat (List.length
                             (afterInsertions (E:=asciiEnv) (lettersFrom 3)
                                              afterThree fourthAndEmpty))
                 - 2))
             (afterInsertions (E:=asciiEnv) (lettersFrom 3) afterThree
                              fourthAndEmpty)
       = (dropped ++ recent)%list
    /\ (dropped <> [] -> older = []).
Proof.
  eexists. eexists.
  assert (Hrun : Push (E:=asciiEnv) 40 (lettersFrom 3) afterThree fourthAndEmpty
                 = Some (inr _, _)) by (vm_compute; reflexivity).
  destruct (push_preserves_recent (E:=asciiEnv) 40 (lettersFrom 3) afterThree
              fourthAndEmpty _ _ eq_refl Hrun)
    as [accepted [older [recent [dropped [_ [_ [_ [Hrows [Htail [Hdrop _]]]]]]]]]].
  exists older, recent, dropped.
  split; [exact Hrun|]. split; [exact Hrows|]. split; [exact Htail | exact Hdrop].
Defined.

Lemma push_twice_deduplicates_witness :
  exists res1 s1,
    Push (E:=asciiEnv) 1 letterID (freshSession 1000 10) [signedNote]
    = Some (inr res1, s1)
    /\ Accepted res1 = 1
    /\ Push (E:=asciiEnv) 1 (lettersFrom 1) s1 [signedNote]
       = Some (inr {| Accepted := 0; Deduplicated := 1;
                      Compressed := 0; Evicted := 0;
                      CurrentTokens := CurrentTokens res1;
                      BudgetRemaining := BudgetRemaining res1 |}, s1).
Proof.
  eexists. eexists.
  assert (Hrun : Push (E:=asciiEnv) 1 letterID (freshSession 1000 10) [signedNote]
                 = Some (inr _, _)) by (vm_compute; reflexivity).
  split; [exact Hrun|]. split; [reflexivity|].
  refine (proj2 (push_twice_deduplicates (E:=asciiEnv) 1 letterID (lettersFrom 1)
                   (freshSession 1000 10) signedNote _ _
                   eq_refl eq_refl eq_refl eq_refl _ Hrun)).
  vm_compute. discriminate.
Defined.

(** ** A store to run the model on *)

Definition twoSessions : SessionStore.DB :=
  Eval vm_compute in
  let db := snd (SessionStore.Create DefaultConfig "generated" 100 []
                   {| cr_SessionID := "alpha"; cr_MaxTokens := 30;
                      cr_DedupThreshold := 0; cr_PreserveRecent := 2 |}) in
  snd (SessionStore.Create DefaultConfig "generated" 200 db
         {| cr_SessionID := EmptyString; cr_MaxTokens := 0;
            cr_DedupThreshold := 0; cr_PreserveRecent := 0 |}).

Definition fullWindow : ContextRequest :=
  {| ctx_MaxTokens := 0; ctx_Role := EmptyString |}.

Lemma unknown_session_witness :
  SessionStore.Push (E:=asciiEnv) 40 letterID 300 twoSessions "beta" threeMessages
  = Some (inl ErrSessionNotFound, twoSessions)
  /\ SessionStore.Context twoSessions "beta" fullWindow = inl ErrSessionNotFound
  /\ SessionStore.Get twoSessions "beta" = inl ErrSessionNotFound
  /\ SessionStore.Delete twoSessions "beta" = (inl ErrSessionNotFound, twoSessions)
  /\ SessionStore.loadSessionConfig twoSessions "beta" = inl ErrSessionNotFound.
Proof.
  apply (StoreProofs.unknown_session (E:=asciiEnv)).
  vm_compute. intros [H|[H|[]]]; discriminate H.
Defined.

Lemma push_touches_one_session_witness :
  exists out db',
    SessionStore.Push (E:=asciiEnv) 40 letterID 300 twoSessions "alpha" threeMessages
    = Some (out, db')
    /\ map SessionStore.s_id db' = ["alpha"; "generated"]
    /\ SessionStore.Get db' "generated" = SessionStore.Get twoSessions "generated".
Proof.
  eexists. eexists.
  assert (Hrun : SessionStore.Push (E:=asciiEnv) 40 letterID 300 twoSessions
                                   "alpha" threeMessages = Some (_, _))
    by (vm_compute; reflexivity).
  split; [exact Hrun|].
  destruct (StoreProofs.push_touches_one_session (E:=asciiEnv) _ _ _ _ _ _ _ _ Hrun)
    as [Hids Hother].
  split; [exact Hids|]. apply (Hother "generated"). discriminate.
Defined.

Lemma get_after_push_witness :
  exists res db' info,
    SessionStore.Push (E:=asciiEnv) 40 letterID 300 twoSessions "alpha" threeMessages
    = Some (inr res, db')
    /\ SessionStore.Get db' "alpha" = inr info
    /\ SessionStore.si_CurrentTokens info = CurrentTokens res
    /\ SessionStore.si_UpdatedAt info = 300.
Proof.
  eexists. eexists.
  assert (Hrun : SessionStore.Push (E:=asciiEnv) 40 letterID 300 twoSessions
                                   "alpha" threeMessages = Some (inr _, _))
    by (vm_compute; reflexivity).
  destruct (StoreProofs.get_after_push (E:=asciiEnv) _ _ _ _ _ _ _ _ Hrun)
    as [info [cres [Hget [_ [Hcur [_ [_ [Hupd _]]]]]]]].
  exists info. split; [exact Hrun|]. split; [exact Hget|].
  split; [exact Hcur | exact Hupd].
Defined.

Lemma push_by_id_is_push_on_session_witness :
  exists row,
    SessionStore.selectSession twoSessions "alpha" = Some row
    /\ SessionStore.Push (E:=asciiEnv) 40 letterID 300 twoSessions "alpha"
                         threeMessages
       = match Push (E:=asciiEnv) 40 letterID (SessionStore.s_state row)
                    threeMessages with
         | None => None
         | Some (inl err, s') =>
             Some (inl err,
                   SessionStore.writeSession "alpha"
                     (fun r => {| SessionStore.s_id := SessionStore.s_id r;
                                  SessionStore.s_created_at := SessionStore.s_created_at r;
                                  SessionStore.s_updated_at := SessionStore.s_updated_at r;
                                  SessionStore.s_state :=
                                    {| config := config (SessionStore.s_state r);
                                       entries := entries s' |} |}) twoSessions)
         | Some (inr res, s') =>
             Some (inr res,
                   SessionStore.writeSession "alpha"
                     (fun r => {| SessionStore.s_id := SessionStore.s_id r;
                                  SessionStore.s_created_at := SessionStore.s_created_at r;
                                  SessionStore.s_updated_at := 300;
                                  SessionStore.s_state :=
                                    {| config := config (SessionStore.s_state r);
                                       entries := entries s' |} |}) twoSessions)
         end.
Proof.
  eexists. split; [reflexivity|].
  apply (StoreProofs.push_by_id_is_push_on_session (E:=asciiEnv));
    [reflexivity|]. intros k [].
Defined.

Lemma push_api_statuses_witness :
  exists resp db',
    SessionAPI.handlePush (E:=asciiEnv) 40 letterID 300 twoSessions "POST"
      (inr {| SessionAPI.pr_SessionID := "alpha";
              SessionAPI.pr_Entries := threeMessages |})
    = Some (resp, db')
    /\ In (SessionAPI.Status resp) [200; 400; 404; 405; 413; 500]
    /\ (SessionAPI.Status resp = 405 <-> "POST" <> SessionAPI.MethodPost).
Proof.
  eexists. eexists.
  assert (Hrun : SessionAPI.handlePush (E:=asciiEnv) 40 letterID 300 twoSessions
                   "POST"
                   (inr {| SessionAPI.pr_SessionID := "alpha";
                           SessionAPI.pr_Entries := threeMessages |})
                 = Some (_, _))
    by (vm_compute; reflexivity).
  split; [exact Hrun|].
  destruct (APIProofs.push_api_statuses (E:=asciiEnv) _ _ _ _ _ _ _ _ Hrun)
    as [Hin [_ [H405 _]]].
  split; assumption.
Defined.

(** ** Memories to run the model on *)

Definition twoMemories : list Memory.Row :=
  Eval vm_compute in MemoryCases.twoMemories.

Definition fourEntries : list Memory.StoreEntry :=
  [ MemoryCases.jwt; MemoryCases.noText; MemoryCases.stripe; MemoryCases.jwt ].

Lemma store_accounts_witness :
  exists res rows',
    Memory.Store (E:=asciiEnv) letterID (MemoryCases.clockAt 100)
                 Memory.DefaultConfig [] EmptyString fourEntries
    = (inr res, rows')
    /\ Memory.Stored res = 2 /\ Memory.Deduplicated res = 1
    /\ Memory.Stored res + Memory.Deduplicated res
       + Z.of_nat (List.length (filter MemoryMore.emptyText fourEntries))
       = Z.of_nat (List.length fourEntries)
    /\ Memory.TotalMemories res = Z.of_nat (List.length rows').
Proof.
  eexists. eexists.
  assert (Hrun : Memory.Store (E:=asciiEnv) letterID (MemoryCases.clockAt 100)
                              Memory.DefaultConfig [] EmptyString fourEntries
                 = (inr _, _)) by (vm_compute; reflexivity).
  split; [exact Hrun|]. split; [reflexivity|]. split; [reflexivity|].
  destruct (MemoryMore.store_accounts (E:=asciiEnv) _ _ _ _ _ _ _ _ Hrun)
    as [Hentries [_ [_ [_ [Htotal _]]]]].
  split; [exact Hentries | exact Htotal].
Defined.

Lemma store_only_adds_and_refreshes_witness :
  exists out rows' kept added,
    Memory.Store (E:=asciiEnv) letterID (MemoryCases.clockAt 100)
                 Memory.DefaultConfig twoMemories EmptyString
                 [MemoryCases.jwt]
    = (out, rows')
    /\ rows' = (kept ++ added)%list
    /\ Forall2 MemoryMore.refreshed twoMemories kept.
Proof.
  eexists. eexists.
  assert (Hrun : Memory.Store (E:=asciiEnv) letterID (MemoryCases.clockAt 100)
                              Memory.DefaultConfig twoMemories
                              EmptyString [MemoryCases.jwt]
                 = (_, _)) by (vm_compute; reflexivity).
  destruct (MemoryMore.store_only_adds_and_refreshes (E:=asciiEnv)
              _ _ _ _ _ _ _ _ Hrun) as [kept [added [Hrows [Hkept _]]]].
  exists kept, added. split; [exact Hrun|]. split; [exact Hrows | exact Hkept].
Defined.

Lemma recall_refreshes_what_it_returns_witness :
  exists res rows',
    Memory.Recall (E:=asciiEnv) (2 * Memory.hour) (2 * Memory.hour)
                  twoMemories MemoryCases.askAuth
    = (inr res, rows')
    /\ Forall2 MemoryMore.refreshed twoMemories rows'.
Proof.
  eexists. eexists.
  assert (Hrun : Memory.Recall (E:=asciiEnv) (2 * Memory.hour) (2 * Memory.hour)
                               twoMemories MemoryCases.askAuth
                 = (inr _, _)) by (vm_compute; reflexivity).
  split; [exact Hrun|].
  exact (proj1 (MemoryMore.recall_refreshes_what_it_returns (E:=asciiEnv)
                  _ _ _ _ _ _ Hrun)).
Defined.

Lemma recall_ignores_query_text_witness :
  Memory.Recall (E:=asciiEnv) (2 * Memory.hour) (2 * Memory.hour)
                twoMemories
                (MemoryMore.withQuery MemoryCases.askAuth "Where do we pay?")
  = Memory.Recall (E:=asciiEnv) (2 * Memory.hour) (2 * Memory.hour)
                  twoMemories MemoryCases.askAuth.
Proof.
  apply (MemoryMore.recall_ignores_query_text (E:=asciiEnv)); left; reflexivity.
Defined.

Definition slowDecay : Memory.Config :=
  {| Memory.DedupThreshold := (15 # 100)%Q; Memory.DecayEnabled := true;
     Memory.DecayInterval := 1 * Memory.hour;
     Memory.SummaryAge := 1 * Memory.hour; Memory.KeywordsAge := 2 * Memory.hour;
     Memory.EvictAge := 3 * Memory.hour |}.

Lemma decay_spares_what_is_in_use_witness :
  exists res rows',
    Memory.Recall (E:=asciiEnv) (2 * Memory.hour) (2 * Memory.hour)
                  twoMemories MemoryCases.askAuth
    = (inr res, rows')
    /\ forall m, In m (Memory.Memories res) ->
         exists r, In r twoMemories /\ Memory.m_id r = Memory.rm_ID m
                   /\ In (MemoryProofs.touched r (2 * Memory.hour))
                         (Memory.runOnce (E:=asciiEnv) textBefore slowDecay
                                         (2 * Memory.hour + 30) rows').
Proof.
  eexists. eexists.
  assert (Hrun : Memory.Recall (E:=asciiEnv) (2 * Memory.hour) (2 * Memory.hour)
                               twoMemories MemoryCases.askAuth
                 = (inr _, _)) by (vm_compute; reflexivity).
  split; [exact Hrun|].
  apply (proj2 (MemoryMore.decay_spares_what_is_in_use (E:=asciiEnv) textBefore
                  slowDecay
                  (2 * Memory.hour + 30) (2 * Memory.hour) (2 * Memory.hour)
                  twoMemories MemoryCases.askAuth _ _ eq_refl Hrun)).
  unfold MemoryMore.fresh. repeat split; right; vm_compute; reflexivity.
Defined.

Lemma unused_memory_goes_in_three_passes_witness :
  ~ In (Memory.m_id MemoryCases.agedRow)
       (map Memory.m_id
          (Memory.runOnce (E:=asciiEnv) textBefore slowDecay (12 * Memory.hour)
             (Memory.runOnce (E:=asciiEnv) textBefore slowDecay (11 * Memory.hour)
                (Memory.runOnce (E:=asciiEnv) textBefore slowDecay
                   (10 * Memory.hour) [MemoryCases.agedRow])))).
Proof.
  apply (MemoryMore.unused_memory_goes_in_three_passes (E:=asciiEnv) textBefore
           slowDecay
           (10 * Memory.hour) (11 * Memory.hour) (12 * Memory.hour)
           [MemoryCases.agedRow] MemoryCases.agedRow);
    try (vm_compute; reflexivity).
  now left.
Defined.

End MoreCases.
